(* ===== verification/_CoqProject ===== *)
-Q . S2P
Prelude.v
Bytes.v
Slice.v
Buffer.v
BufferFacts.v
Swap.v
BufferSpec.v
BufferIO.v
Format.v
Duration.v
Timestamp.v
LoopThread.v
Channel.v
EPoller.v
EventFd.v
SimKernel.v
EPollerFacts.v
ServerStatus.v
LoopChannels.v
LoopChannelsDemo.v
Poller.v
PollerFacts.v
OrdSet.v
TimerQueue.v
TimerFacts.v
TimerRun.v
TimerProps.v
EventLoop.v
EventLoopProps.v
LoopTimers.v
LoopTimersDemo.v
LoopClock.v
LoopClockDemo.v
LoopRace.v
LoopLiveness.v
SocketOps.v
SocketKernel.v
TcpConnection.v
TcpConnFacts.v
TcpSend.v
TcpConnProps.v
TcpConnLife.v
TcpStream.v
TcpEcho.v
TcpDemo.v
TcpStreamDemo.v
TcpFrame.v
ConnPhases.v
LoopConns.v
LoopServes.v
LoopServesDemo.v
TcpSocket.v
Acceptor.v
ThreadPool.v
EventLoopThread.v
TcpServer.v
TcpServerProps.v
TcpServerEnd.v
AcceptServer.v
TcpConnView.v
ServerLoop.v
EchoServer.v
ServerLoopInv.v
ServerLoopProps.v
ServerLoopStart.v
ServerLoopEnd.v
ServerLoopDemo.v
