(* ===== verification/Prelude.v ===== *)
(** * evk: a verification development

    evk is an event-driven network library for C++11 in the style of muduo: one
    event loop per thread, non-blocking sockets, timers on a timerfd, and buffers.
    This library models it, component by component, as executable definitions and
    proves what makes each correct.  File names below are those of [src/evk].

    ** The parts and how they interact

    An [EventLoop] (event_loop.h/.cc) owns an [EPoller], a wakeup eventfd and a
    [TimerQueue]; [Channel]s register descriptors with the poller through the loop
    and receive events from it.  Other threads reach a loop by queueing functors and
    writing the eventfd.  [TcpConnection] is a channel, two [Buffer]s and a status in
    one loop.  [TcpServer] accepts connections with an [Acceptor] in its own loop and
    deals them to the loops of an [EventLoopThreadPool], whose [EventLoopThread]s each
    run a loop in a thread.

    ** Conventions

    The makefile does not define [NDEBUG], so assertions are active.  A member that
    may fail an assertion, call [LOG_FATAL] or be undefined returns a [result]
    ([AssertFail], [Fatal], [Undef]; [Blocks] where it waits for ever).  Integers are [Z] with the width's wrap-around
    written out ([u64], [i32], ...) or checked where overflow is undefined ([ck32],
    [ck64]).  Objects that are shared by address live in finite maps from addresses
    ([ptr]).  The kernel is an interface: a class of operations and a class of laws
    that state documented behaviour (epoll: EPoller.v, eventfd: EventFd.v, timerfd:
    TimerQueue.v, connected sockets: SocketKernel.v, other socket calls:
    SocketOps.v, and what they leave alone in LoopConns.v, ServerLoopInv.v and
    ServerLoopStart.v); each is instantiated by a concrete kernel on which the witnesses
    evaluate (SimKernel.v, TcpDemo.v, TcpStreamDemo.v, LoopServesDemo.v,
    LoopTimersDemo.v, ServerLoopDemo.v, and at the end of Acceptor.v and TimerProps.v).
    User callbacks are arguments of the definitions.

    ** Files

    - Prelude.v: results, machine integers, transition sequences, tactics.
      Bytes.v: blocks of memory, byte order.  Format.v: the parts of printf in use.
      OrdSet.v: [std::set] over a strict order.
    - Slice.v (slice.h); Buffer.v (buffer.h, buffer.cc), its invariant and the facts
      of each member in BufferFacts.v, byte swapping in Swap.v, the refinement of a
      byte queue in BufferSpec.v, reading and searching in BufferIO.v.
    - Duration.v (duration.h), Timestamp.v (timestamp.h/.cc, gettimeofday.h).
    - LoopThread.v: the thread check of event_loop.h.  Channel.v (channel.h/.cc);
      EPoller.v (epoller.h/.cc) with its invariant in EPollerFacts.v; LoopChannels.v:
      what crosses the three classes (interest changes, removal, delivery).
      Poller.v, PollerFacts.v (poller.h/.cc).
    - TimerQueue.v (timer_queue.h/.cc, invoke_timer.h/.cc); TimerFacts.v: its
      invariant and the operations outside a round; TimerRun.v: a round of
      callbacks; TimerProps.v: the theorems.
    - ServerStatus.v (server_status.h); EventLoop.v (event_loop.h/.cc): the loop as
      functions; EventLoopProps.v: construction, [Run] until [Stop], destruction;
      LoopTimers.v: the timer queue inside the loop, with witnesses in
      LoopTimersDemo.v; LoopClock.v: that loop over any number of turns, with other
      threads adding and cancelling timers, with witnesses in LoopClockDemo.v;
      LoopRace.v: the loop's members cut into atomic steps and
      interleaved with other threads; LoopLiveness.v: infinite fair runs of those
      steps.
    - TcpConnection.v (tcp_conn.h/.cc), a connection in its event loop; TcpConnFacts.v:
      its invariant; TcpSend.v: sending; TcpConnProps.v: draining; TcpConnLife.v: the
      state machine, receiving, establishing, a hang-up after the close; TcpStream.v:
      the stream of an established connection under any application and any events,
      up to a report on one that has closed; TcpEcho.v: the echo server of src/test as that application; TcpFrame.v: connections of one
      loop do not disturb each other; TcpDemo.v and TcpStreamDemo.v: witnesses.
    - LoopConns.v: many connections in one loop, EventLoop.v and TcpConnection.v put
      together; ConnPhases.v: a connection that is open, closed, or taken out of its
      loop; LoopServes.v: the invariant of such a loop and what its turns do; with a
      witness in LoopServesDemo.v.
    - ServerLoop.v (tcp_server.cc, acceptor.cc, tcp_conn.cc): a server without threads
      of its own in one loop, with its acceptor and all its connections, which come,
      talk, go and are deleted while the loop turns: EventLoop.v, Acceptor.v,
      TcpServer.v, TcpConnection.v and LoopConns.v put together.  ServerLoopInv.v: what
      its steps do to the loop; ServerLoopProps.v: the server's invariant, kept by
      every step and every turn; ServerLoopStart.v: construction, [Start] and the
      theorems; ServerLoopEnd.v: the destructor.  EchoServer.v: the server of
      src/test/test_thread_pool; with it, witnesses in ServerLoopDemo.v.
    - SocketOps.v (socket_ops.h/.cc, socket.h/.cc, inet_address.h/.cc); TcpSocket.v:
      the rest of socket.cc, callbacks.h, and the end of a connection; Acceptor.v
      (acceptor.h/.cc).
    - ThreadPool.v (event_loop_thread_pool.h/.cc); EventLoopThread.v
      (event_loop_thread.h/.cc): the owner and the worker as a step relation.
    - TcpServer.v (tcp_server.h/.cc): the server over the functor queues of several
      loops; TcpServerProps.v: names and the invariant; TcpServerEnd.v: the
      destructor; AcceptServer.v: the acceptor with the server's callback;
      TcpConnView.v: what the server model says of a connection is what
      TcpConnection.v does.

    ** What the theorems show

    - Buffers: any sequence of the operations that depend on the readable bytes only
      behaves as on a byte queue, without overflow or out-of-bounds access below the
      stated bound (BufferSpec.v); framing round-trips, [ReadFromFD] appends whatever
      arrives and [FindCRLF] finds the first (BufferIO.v); slices compare as byte
      strings (Slice.v).
    - Time: timestamps are exact or undefined and print without truncation; timers
      fire exactly when due, in order, and cancellation works from inside and outside
      a round (TimerProps.v); a turn of the loop fires them and then runs what they
      queued, and [RunAfter] works from any thread (LoopTimers.v); over any number of
      turns no timer is lost, the timerfd rings in time for the first, by the clock
      read when it was set, and one that another thread cancels is gone
      (LoopClock.v).
    - Polling: poller, channels and kernel agree after every change, and events are
      delivered to the right channel (LoopChannels.v, PollerFacts.v, Channel.v).
    - Loops: no wake-up and no functor is lost in any interleaving, functors run in
      order, [Stop] ends [Run] (LoopRace.v, EventLoopProps.v); in every fair infinite
      run each queued functor is called and a stopped loop exits (LoopLiveness.v).
    - Connections: from the establishment on nothing is lost, repeated or reordered
      between [Send] and the socket, whatever the application and the events, the only
      failure being a read or a hang-up reported after the close, and a shutdown waits
      for what is buffered (TcpStream.v, from TcpSend.v and TcpConnProps.v); an
      echo server echoes (TcpEcho.v); a member of one leaves the other connections of
      its loop alone (TcpFrame.v), so that a loop serves all of them, from the wait
      to the functors, and a server's loop drops those that close within the turn
      (LoopServes.v); the status only advances (TcpConnLife.v); the descriptor is
      closed after it has left the loop (TcpSocket.v).
    - Servers and threads: the server's map, the connections and the functors in
      flight agree in every interleaving, where the only failure is a peer that is seen
      to close twice, and nothing leaks (TcpServerProps.v); the destructor's body has
      every connection destroyed, also those whose establishment is pending, and then
      the destructor waits for the pool's threads, which never end (TcpServerEnd.v); accepting is the event the server's model says
      (AcceptServer.v); loops are dealt round-robin (ThreadPool.v); the start
      handshake is sound (EventLoopThread.v).
    - All together: a server that is constructed and started in a loop accepts,
      serves, closes and deletes connections for any number of turns; no member fails,
      its map lists exactly the connections that are not disconnected, and each
      connection's stream is what its application offered; [Run] of its loop returns
      after [Stop] with all that (ServerLoopStart.v); and its destructor takes all of
      it out of the loop, which can serve again (ServerLoopEnd.v).
    - Defects, proved as behaviour: event loops cannot be destroyed, so that
      stopping a loop thread ends the process and the destructor of a server with threads
      does not return; [Send] from another thread leaves a
      dangling reference; a hang-up after the close aborts, as does destroying a
      connection that is shutting down; a failed accept is fatal; socket options are
      never set; [GetTcpInfo] reports the opposite of what it did; poll(2) loses
      re-enabled channels; a timer in flight that the loop's own thread cancels fires
      all the same (LoopClock.v); and others stated as lemmas beside the component they
      concern.

    ** Bounds and fuel

    The only fuel is that of [EventLoop.Run] (a loop that runs until stopped);
    [Stop_ends_Run] and [server_runs] give the number of turns that suffices.  Buffer theorems
    assume the bytes asked for stay below a quarter of the address space, so that
    [size_t] cannot overflow; the server's assume less than 2^31 connections over
    its life, the [int] that numbers them.

    ** What is not modelled

    Logging, the test programs but for the echo server, type aliases and headers
    without code; the kernel beyond the stated laws.  The model of a server over
    several loops (TcpServer.v) abstracts a connection to its status and channel flag
    (justified in TcpConnView.v) and lets the application act only by [Shutdown];
    once its destructor has begun it follows the functors of the loops, not peers that
    close meanwhile; that of a server in one loop (ServerLoop.v) has the connections whole.  There the
    callbacks of an application act on their own connection, by [Buffer::Skip],
    [Send] and [Shutdown]; an object is deleted when neither the server's map nor a
    queued functor refers to it, at a moment of the environment's choice between
    turns or, by the server's destructor, at once.  A report of [POLLHUP] without
    [POLLIN] together with [POLLPRI] or [POLLRDHUP] is left out, since the code reads
    after it closed and fails ([second_hangup_aborts] of TcpConnLife.v), and so is a failing
    [accept], which ends the process (Acceptor.v).  Fairness, in LoopLiveness.v, is an
    assumption on the scheduler and the kernel. *)

From stdpp Require Export base tactics list numbers option gmap sets strings.
From Stdlib Require Export ZArith Lia.

#[global] Open Scope Z_scope.

(** ** Faults and the result monad

    evk is built without [-DNDEBUG] (src/Makefile), so a failed [assert]
    terminates the process; [LOG_FATAL] (glog) terminates it too; and C++ leaves
    some operations undefined.  A C++ member function that may end in one of
    these ways is modelled as a function into [result]. *)

Inductive fault :=
  | AssertFail   (* a failed assert() *)
  | Fatal        (* LOG_FATAL *)
  | Undef        (* undefined behaviour: out-of-bounds access, signed overflow,
                    a null or dangling pointer *)
  | Blocks.      (* a wait for something that does not happen: no return *)

Inductive result (A : Type) :=
  | Ok (a : A)
  | Err (f : fault).
Arguments Ok {A} a.
Arguments Err {A} f.

#[export] Instance result_ret : MRet result := fun A a => Ok a.
#[export] Instance result_bind : MBind result := fun A B k m =>
  match m with Ok a => k a | Err f => Err f end.
#[export] Instance result_fmap : FMap result := fun A B k m =>
  match m with Ok a => Ok (k a) | Err f => Err f end.

#[export] Instance fault_eq_dec : EqDecision fault.
Proof. solve_decision. Defined.
#[export] Instance result_eq_dec {A} `{EqDecision A} : EqDecision (result A).
Proof. solve_decision. Defined.

(** The statement [assert(b)]. *)
Definition assert (b : bool) : result unit := if b then Ok tt else Err AssertFail.

(** Dereferencing a pointer or an iterator that may not designate an object. *)
Definition deref {A} (o : option A) : result A :=
  match o with Some a => Ok a | None => Err Undef end.

Definition is_ok {A} (r : result A) : bool := match r with Ok _ => true | Err _ => false end.

(** A [for] loop over a vector whose body may fault: the first fault ends it. *)
Fixpoint foldM {A B} (f : A -> B -> result B) (l : list A) (b : B) : result B :=
  match l with
  | [] => Ok b
  | a :: l' => b' ← f a b; foldM f l' b'
  end.

(** ** Machine integers *)

Definition u16 (z : Z) : Z := z mod 2 ^ 16.
Definition u32 (z : Z) : Z := z mod 2 ^ 32.
Definition u64 (z : Z) : Z := z mod 2 ^ 64.
Definition i8 (z : Z) : Z := (z + 2 ^ 7) mod 2 ^ 8 - 2 ^ 7.
Definition i16 (z : Z) : Z := (z + 2 ^ 15) mod 2 ^ 16 - 2 ^ 15.
Definition i32 (z : Z) : Z := (z + 2 ^ 31) mod 2 ^ 32 - 2 ^ 31.
Definition i64 (z : Z) : Z := (z + 2 ^ 63) mod 2 ^ 64 - 2 ^ 63.

Definition in_u64 (z : Z) : Prop := 0 <= z < 2 ^ 64.
Definition in_i32 (z : Z) : Prop := - 2 ^ 31 <= z < 2 ^ 31.
Definition in_i64 (z : Z) : Prop := - 2 ^ 63 <= z < 2 ^ 63.

(** Signed 64-bit arithmetic: an unrepresentable result is undefined. *)
Definition ck64 (z : Z) : result Z :=
  if (- 2 ^ 63 <=? z) && (z <? 2 ^ 63) then Ok z else Err Undef.

(** Signed 32-bit arithmetic. *)
Definition ck32 (z : Z) : result Z :=
  if (- 2 ^ 31 <=? z) && (z <? 2 ^ 31) then Ok z else Err Undef.

Lemma u64_id z : in_u64 z -> u64 z = z.
Proof. unfold in_u64, u64. intros. apply Z.mod_small. lia. Qed.

Lemma u64_range z : in_u64 (u64 z).
Proof. unfold in_u64, u64. apply Z.mod_pos_bound. lia. Qed.

Lemma i64_id z : in_i64 z -> i64 z = z.
Proof. unfold in_i64, i64. intros. rewrite Z.mod_small; lia. Qed.

Lemma i32_id z : in_i32 z -> i32 z = z.
Proof. unfold in_i32, i32. intros. rewrite Z.mod_small; lia. Qed.

Lemma ck64_ok z : in_i64 z -> ck64 z = Ok z.
Proof.
  unfold in_i64, ck64. intros.
  replace (- 2 ^ 63 <=? z) with true by lia. by replace (z <? 2 ^ 63) with true by lia.
Qed.

Lemma ck32_ok z : in_i32 z -> ck32 z = Ok z.
Proof.
  unfold in_i32, ck32. intros.
  replace (- 2 ^ 31 <=? z) with true by lia. by replace (z <? 2 ^ 31) with true by lia.
Qed.

Lemma ck64_inv z x : ck64 z = Ok x -> x = z /\ in_i64 z.
Proof.
  unfold ck64, in_i64. destruct (_ && _) eqn:E; [|done]. intros [= <-].
  apply andb_true_iff in E as [?%Z.leb_le ?%Z.ltb_lt]. lia.
Qed.

(** ** Lemmas and automation for the monad *)

Lemma bind_ok {A B} (k : A -> result B) (m : result A) b :
  (m ≫= k) = Ok b <-> exists a, m = Ok a /\ k a = Ok b.
Proof.
  destruct m as [a|f]; simpl.
  - split; [eauto|]. by intros (? & [= <-] & ?).
  - split; [done|]. by intros (? & ? & ?).
Qed.

Lemma assert_ok b u : assert b = Ok u <-> b = true.
Proof. destruct b, u; simpl; naive_solver. Qed.

Lemma assert_true b : b = true -> assert b = Ok tt.
Proof. by intros ->. Qed.

Lemma deref_ok {A} (o : option A) a : deref o = Ok a <-> o = Some a.
Proof. destruct o; simpl; naive_solver. Qed.

Lemma foldM_app {A B} (f : A -> B -> result B) l1 l2 b :
  foldM f (l1 ++ l2) b = (foldM f l1 b ≫= foldM f l2).
Proof.
  revert b. induction l1 as [|a l1 IH]; intros b; simpl; [done|].
  destruct (f a b); simpl; [apply IH | done].
Qed.

(** An invariant preserved by the body is preserved by the loop. *)
Lemma foldM_invariant {A B} (P : B -> Prop) (f : A -> B -> result B) l b b' :
  (forall a b b', P b -> f a b = Ok b' -> P b') ->
  P b -> foldM f l b = Ok b' -> P b'.
Proof.
  intros Hf. revert b. induction l as [|a l IH]; simpl; intros b Hb Hrun.
  - congruence.
  - apply bind_ok in Hrun as (b1 & H1 & H2). eauto.
Qed.

(** [P a s] before every pass of a loop, [a] being next. *)
Definition throughout {X Y} (P : X -> Y -> Prop) (f : X -> Y -> result Y) (l : list X) (y : Y) : Prop :=
  forall l1 x l2 y', l = l1 ++ x :: l2 -> foldM f l1 y = Ok y' -> P x y'.

Lemma throughout_cons {X Y} (P : X -> Y -> Prop) f x l (y : Y) :
  throughout P f (x :: l) y -> P x y /\ forall y', f x y = Ok y' -> throughout P f l y'.
Proof.
  intros Ht. split; [by apply (Ht [] x l y)|].
  intros y1 Hy l1 x' l2 y2 -> Hr. apply (Ht (x :: l1) x' l2 y2); [done|]. simpl. by rewrite Hy.
Qed.

(** Checking it on a run. *)
Fixpoint throughout_b {X Y} (P : X -> Y -> bool) (f : X -> Y -> result Y) (l : list X) (y : Y) : bool :=
  match l with
  | [] => true
  | x :: l => P x y && match f x y with Ok y' => throughout_b P f l y' | Err _ => true end
  end.

Lemma throughout_check {X Y} (P : X -> Y -> bool) (Q : X -> Y -> Prop) f l (y : Y) :
  (forall x y, P x y = true -> Q x y) -> throughout_b P f l y = true -> throughout Q f l y.
Proof.
  intros HP Hb l1. revert l y Hb. induction l1 as [|x1 l1 IH]; intros l y Hb x l2 y' -> Hr; simpl in *;
    apply andb_true_iff in Hb as [Hx Hb].
  - injection Hr as <-. by apply HP.
  - destruct (f x1 y) as [y1|e]; [|done]. by apply (IH _ _ Hb x l2 y').
Qed.

(** A body that never faults on states satisfying an invariant gives a loop that
    does not fault. *)
Lemma foldM_total {A B} (P : B -> Prop) (f : A -> B -> result B) l b :
  (forall a b, a ∈ l -> P b -> exists b', f a b = Ok b' /\ P b') ->
  P b -> exists b', foldM f l b = Ok b' /\ P b'.
Proof.
  revert b. induction l as [|a l IH]; simpl; intros b Hf Hb; [eauto|].
  destruct (Hf a b) as (b1 & E & Hb1); [set_solver | done |].
  rewrite E. simpl. apply IH; [|done]. intros. apply Hf; set_solver.
Qed.

(** Split a successful monadic run into its steps. *)
Ltac inv_ok :=
  repeat match goal with
  | H : (_ ≫= _) = Ok _ |- _ =>
      let x := fresh "x" in let E := fresh "E" in
      apply bind_ok in H as (x & E & H)
  | H : assert _ = Ok _ |- _ => apply assert_ok in H
  | H : deref _ = Ok _ |- _ => apply deref_ok in H
  | H : mret _ = Ok _ |- _ => cbv [mret result_ret] in H
  | H : Ok _ = Ok _ |- _ => injection H as H; try subst
  | H : Err _ = Ok _ |- _ => discriminate H
  end.

(** Turn boolean tests in the context into arithmetic facts. *)
Ltac bsimpl :=
  repeat match goal with
  | H : (_ && _) = true |- _ => apply andb_true_iff in H as [? ?]
  | H : (_ || _) = false |- _ => apply orb_false_iff in H as [? ?]
  | H : negb _ = true |- _ => apply negb_true_iff in H
  | H : negb _ = false |- _ => apply negb_false_iff in H
  | H : (_ <? _) = true |- _ => apply Z.ltb_lt in H
  | H : (_ <? _) = false |- _ => apply Z.ltb_ge in H
  | H : (_ <=? _) = true |- _ => apply Z.leb_le in H
  | H : (_ <=? _) = false |- _ => apply Z.leb_gt in H
  | H : (_ =? _) = true |- _ => apply Z.eqb_eq in H
  | H : (_ =? _) = false |- _ => apply Z.eqb_neq in H
  end.

(** Case analysis on the boolean test of an [if]. *)
Ltac case_if :=
  match goal with
  | |- context [if ?b then _ else _] =>
      lazymatch type of b with bool => let E := fresh "Hif" in destruct b eqn:E end
  end.

(** ** Reflexive-transitive closure of a step relation *)

Section Star.
Context {A : Type} (R : A -> A -> Prop).

Inductive star : A -> A -> Prop :=
  | star_refl a : star a a
  | star_step a b c : R a b -> star b c -> star a c.

Lemma star_snoc a b c : star a b -> R b c -> star a c.
Proof. induction 1; eauto using star. Qed.

Lemma star_trans a b c : star a b -> star b c -> star a c.
Proof. induction 1; eauto using star. Qed.

(** Rule induction from a fixed initial state: what holds initially and is
    preserved by each step holds in every reachable state. *)
Lemma star_invariant (P : A -> Prop) a b :
  (forall x y, P x -> R x y -> P y) -> P a -> star a b -> P b.
Proof. intros Hstep Ha. induction 1; eauto. Qed.
End Star.

Create HintDb evk.
#[export] Hint Constructors star : evk.

(** Discharge the wrap-around of a 64-bit expression that does not overflow,
    innermost first. *)
Ltac u64_simpl :=
  repeat match goal with
  | |- context [u64 ?z] =>
      lazymatch z with context [u64 _] => fail | _ => rewrite (u64_id z) by (unfold in_u64; lia) end
  end.

(** [lia] for a goal that states the value of a boolean comparison. *)
Ltac blia :=
  rewrite ?Z.geb_leb, ?Z.gtb_ltb;
  lazymatch goal with
  | |- (_ <=? _) = true => apply Z.leb_le
  | |- (_ <? _) = true => apply Z.ltb_lt
  | |- (_ =? _) = true => apply Z.eqb_eq
  | |- (_ <=? _) = false => apply Z.leb_gt
  | |- (_ <? _) = false => apply Z.ltb_ge
  | |- (_ =? _) = false => apply Z.eqb_neq
  | |- true = (_ <=? _) => symmetry; apply Z.leb_le
  | |- true = (_ <? _) => symmetry; apply Z.ltb_lt
  | |- true = (_ =? _) => symmetry; apply Z.eqb_eq
  | |- false = (_ <=? _) => symmetry; apply Z.leb_gt
  | |- false = (_ <? _) => symmetry; apply Z.ltb_ge
  | |- false = (_ =? _) => symmetry; apply Z.eqb_neq
  | _ => idtac
  end; lia.
