(* ===== verification/Bytes.v ===== *)
(** * Bytes and memory

    The parts of the C library that evk's buffers use: raw memory blocks
    ([new char[n]], [memcpy], [memmove], [memchr], [memcmp], [std::search]), the
    little-endian layout of integers in memory, and the byte-order conversions
    [htonl]/[ntohl]/[htons]/[ntohs] of a little-endian host. *)

From S2P Require Import Prelude.
From Stdlib Require Export Strings.Byte.

#[export] Instance byte_eq_decision : EqDecision byte := byte_eq_dec.

Abbreviation bytes := (list byte).

(** The value of a byte as an [unsigned char], and the byte of a value. *)
Definition uchar (b : byte) : Z := Z.of_N (Byte.to_N b).
Definition to_byte (z : Z) : byte := default x00 (Byte.of_N (Z.to_N (z mod 256))).

Lemma uchar_range b : 0 <= uchar b < 256.
Proof. unfold uchar. pose proof (Byte.to_N_bounded b). lia. Qed.

Lemma uchar_to_byte z : uchar (to_byte z) = z mod 256.
Proof.
  unfold uchar, to_byte. pose proof (Z.mod_pos_bound z 256 eq_refl).
  destruct (Byte.of_N (Z.to_N (z mod 256))) as [b|] eqn:E; simpl.
  - apply Byte.to_of_N in E. rewrite E. lia.
  - apply Byte.of_N_None_iff in E. lia.
Qed.

Lemma to_byte_uchar b : to_byte (uchar b) = b.
Proof.
  unfold to_byte. rewrite Z.mod_small by apply uchar_range.
  unfold uchar. rewrite N2Z.id. by rewrite Byte.of_to_N.
Qed.

Lemma uchar_inj b1 b2 : uchar b1 = uchar b2 -> b1 = b2.
Proof. intros H. rewrite <- (to_byte_uchar b1), H. apply to_byte_uchar. Qed.

(** ** Blocks of memory *)

Section Blocks.
Context {A : Type}.
Implicit Types (l s : list A) (off n : Z).

(** The [n] cells of [l] from [off], and [l] with the cells from [off]
    overwritten by [s]. *)
Definition sub l off n : list A := take (Z.to_nat n) (drop (Z.to_nat off) l).
Definition splice l off s : list A :=
  take (Z.to_nat off) l ++ s ++ drop (Z.to_nat off + length s) l.

Lemma lookup_sub l off n i :
  sub l off n !! i = if decide (i < Z.to_nat n)%nat then l !! (Z.to_nat off + i)%nat else None.
Proof.
  unfold sub. rewrite lookup_take. case_decide; [|done]. by rewrite lookup_drop.
Qed.

Lemma lookup_splice l off s i :
  (Z.to_nat off + length s <= length l)%nat ->
  splice l off s !! i =
    if decide (i < Z.to_nat off)%nat then l !! i
    else if decide (i < Z.to_nat off + length s)%nat then s !! (i - Z.to_nat off)%nat
    else l !! i.
Proof.
  intros Hl. unfold splice. case_decide.
  { rewrite lookup_app_l by (rewrite length_take; lia). by rewrite lookup_take_lt. }
  rewrite lookup_app_r by (rewrite length_take; lia).
  rewrite length_take, Nat.min_l by lia. case_decide.
  { by rewrite lookup_app_l by lia. }
  rewrite lookup_app_r, lookup_drop by lia. f_equal. lia.
Qed.

Lemma length_sub l off n :
  length (sub l off n) = Nat.min (Z.to_nat n) (length l - Z.to_nat off).
Proof. unfold sub. by rewrite length_take, length_drop. Qed.

Lemma length_splice l off s :
  (Z.to_nat off + length s <= length l)%nat -> length (splice l off s) = length l.
Proof. intros. unfold splice. rewrite !length_app, length_take, length_drop. lia. Qed.
End Blocks.

(** Equality of two expressions over [sub], [splice], [++], [take] and [drop],
    by extensionality and index arithmetic. *)
Ltac list_ext :=
  apply list_eq; let i := fresh "i" in intros i;
  repeat first
    [ rewrite lookup_sub
    | rewrite lookup_splice by (rewrite ?length_sub; lia)
    | rewrite lookup_drop
    | case_decide; try lia ];
  try (f_equal; lia); try done;
  try (symmetry; apply lookup_ge_None; rewrite ?length_sub; lia);
  try (apply lookup_ge_None; rewrite ?length_sub; lia).

Section BlockLemmas.
Context {A : Type}.
Implicit Types (l s : list A) (off n m : Z).

Lemma sub_nil l off n : n <= 0 -> sub l off n = [].
Proof. intros. unfold sub. by replace (Z.to_nat n) with 0%nat by lia. Qed.

Lemma splice_nil l off : splice l off [] = l.
Proof. unfold splice. simpl. by rewrite Nat.add_0_r, take_drop. Qed.

Lemma sub_splice_same l off s :
  (Z.to_nat off + length s <= length l)%nat ->
  sub (splice l off s) off (Z.of_nat (length s)) = s.
Proof. intros. list_ext. Qed.

Lemma sub_splice_before l off s o n :
  (Z.to_nat off + length s <= length l)%nat -> 0 <= o -> o + n <= off ->
  sub (splice l off s) o n = sub l o n.
Proof. intros. list_ext. Qed.

Lemma sub_splice_after l off s o n :
  (Z.to_nat off + length s <= length l)%nat -> 0 <= off ->
  off + Z.of_nat (length s) <= o ->
  sub (splice l off s) o n = sub l o n.
Proof. intros. list_ext. Qed.

Lemma sub_add l off n m :
  0 <= off -> 0 <= n -> 0 <= m ->
  sub l off (n + m) = sub l off n ++ sub l (off + n) m.
Proof.
  intros. unfold sub. rewrite !Z2Nat.inj_add by lia.
  by rewrite <- take_take_drop, drop_drop.
Qed.

Lemma take_sub l off n m :
  0 <= m <= n -> take (Z.to_nat m) (sub l off n) = sub l off m.
Proof. intros. unfold sub. rewrite take_take. f_equal. lia. Qed.

Lemma drop_sub l off n m :
  0 <= m -> 0 <= off -> drop (Z.to_nat m) (sub l off n) = sub l (off + m) (n - m).
Proof.
  intros. list_ext.
Qed.

Lemma sub_all l : sub l 0 (Z.of_nat (length l)) = l.
Proof. unfold sub. rewrite Nat2Z.id. simpl. by rewrite drop_0, firstn_all. Qed.
End BlockLemmas.

(** ** The C library on blocks

    A pointer into a block is the block and an offset.  An access that runs past
    the end of its block is undefined. *)

Definition mem_read (l : bytes) (off n : Z) : result bytes :=
  if (0 <=? off) && (0 <=? n) && (off + n <=? Z.of_nat (length l))
  then Ok (sub l off n) else Err Undef.

(** [memcpy(dst + off, src, n)] for a source of [n] bytes. *)
Definition memcpy (dst : bytes) (off : Z) (src : bytes) : result bytes :=
  if (0 <=? off) && (off + Z.of_nat (length src) <=? Z.of_nat (length dst))
  then Ok (splice dst off src) else Err Undef.

Lemma mem_read_ok l off n :
  0 <= off -> 0 <= n -> off + n <= Z.of_nat (length l) -> mem_read l off n = Ok (sub l off n).
Proof. intros. unfold mem_read. by rewrite !(proj2 (Z.leb_le _ _)) by lia. Qed.

Lemma memcpy_ok dst off src :
  0 <= off -> off + Z.of_nat (length src) <= Z.of_nat (length dst) ->
  memcpy dst off src = Ok (splice dst off src).
Proof. intros. unfold memcpy. by rewrite !(proj2 (Z.leb_le _ _)) by lia. Qed.

(** [memchr(p, c, n)]: the offset of the first byte equal to [c]. *)
Fixpoint memchr (l : bytes) (c : byte) : option Z :=
  match l with
  | [] => None
  | b :: l' => if decide (b = c) then Some 0 else Z.succ <$> memchr l' c
  end.

(** [memcmp] on two blocks of one length, as unsigned bytes: only the sign of
    its result is specified; the model returns -1, 0 or 1. *)
Fixpoint memcmp (l1 l2 : bytes) : Z :=
  match l1, l2 with
  | a :: l1', b :: l2' =>
      if uchar a <? uchar b then -1 else if uchar b <? uchar a then 1 else memcmp l1' l2'
  | _, _ => 0
  end.

(** [std::search(first, last, pat, pat_end)]: the offset of the first occurrence
    of [pat] in [l], or [last] (the length of [l]) when there is none. *)
Fixpoint is_prefix (pat l : bytes) : bool :=
  match pat, l with
  | [], _ => true
  | p :: pat', b :: l' => bool_decide (p = b) && is_prefix pat' l'
  | _ :: _, [] => false
  end.

Fixpoint std_search (l pat : bytes) : Z :=
  if is_prefix pat l then 0
  else match l with
       | [] => 0
       | _ :: l' => 1 + std_search l' pat
       end.

(** ** Integers in memory *)

(** The [n] low-order bytes of [z], least significant first: the memory of an
    [n]-byte integer on a little-endian host. *)
Fixpoint le_bytes (n : nat) (z : Z) : bytes :=
  match n with
  | O => []
  | S n' => to_byte z :: le_bytes n' (z / 256)
  end.

Fixpoint le_value (l : bytes) : Z :=
  match l with
  | [] => 0
  | b :: l' => uchar b + 256 * le_value l'
  end.

(** Network (big-endian) order. *)
Definition be_bytes (n : nat) (z : Z) : bytes := rev (le_bytes n z).

Lemma length_le_bytes n z : length (le_bytes n z) = n.
Proof. revert z. induction n; simpl; auto. Qed.

Lemma length_be_bytes n z : length (be_bytes n z) = n.
Proof. unfold be_bytes. rewrite length_rev. apply length_le_bytes. Qed.

Lemma le_value_bytes n z : le_value (le_bytes n z) = z mod 256 ^ Z.of_nat n.
Proof.
  revert z. induction n as [|n IH]; intros z; simpl le_bytes; simpl le_value.
  - by rewrite Z.mod_1_r.
  - rewrite IH, uchar_to_byte, Nat2Z.inj_succ, Z.pow_succ_r by lia.
    rewrite Z.rem_mul_r by lia. done.
Qed.

Lemma le_bytes_value l : le_bytes (length l) (le_value l) = l.
Proof.
  induction l as [|b l IH]; simpl; [done|].
  replace ((uchar b + 256 * le_value l) / 256) with (le_value l).
  - rewrite IH. f_equal. apply uchar_inj. rewrite uchar_to_byte.
    rewrite Z.mul_comm, Z.mod_add by lia. apply Z.mod_small, uchar_range.
  - pose proof (uchar_range b). rewrite Z.mul_comm, Z.div_add by lia.
    rewrite Z.div_small by lia. lia.
Qed.

Lemma le_value_range l : 0 <= le_value l < 256 ^ Z.of_nat (length l).
Proof.
  rewrite <- (le_bytes_value l) at 1 2. rewrite le_value_bytes.
  apply Z.mod_pos_bound. lia.
Qed.

Lemma le_bytes_mod n z : le_bytes n (z mod 256 ^ Z.of_nat n) = le_bytes n z.
Proof.
  rewrite <- le_value_bytes. rewrite <- (length_le_bytes n z) at 1. apply le_bytes_value.
Qed.

(** [htonl] and [htons] on a little-endian host reverse the bytes of their
    argument; [ntohl] and [ntohs] are the same functions. *)
Definition htonl (x : Z) : Z := le_value (rev (le_bytes 4 x)).
Definition htons (x : Z) : Z := le_value (rev (le_bytes 2 x)).
Definition ntohl (x : Z) : Z := htonl x.
Definition ntohs (x : Z) : Z := htons x.

Lemma le_bytes_rev_value n z :
  le_bytes n (le_value (rev (le_bytes n z))) = rev (le_bytes n z).
Proof.
  rewrite <- (length_le_bytes n z) at 1. rewrite <- length_rev. apply le_bytes_value.
Qed.

Lemma le_value_rev_rev n z :
  le_value (rev (le_bytes n (le_value (rev (le_bytes n z))))) = z mod 256 ^ Z.of_nat n.
Proof. rewrite le_bytes_rev_value, rev_involutive. apply le_value_bytes. Qed.

Lemma ntohl_htonl x : ntohl (htonl x) = u32 x.
Proof. apply (le_value_rev_rev 4). Qed.

Lemma ntohs_htons x : ntohs (htons x) = u16 x.
Proof. apply (le_value_rev_rev 2). Qed.
