(* ===== verification/Slice.v ===== *)
(** * Slice (evk/slice.h)

    A [Slice] is a pointer into external storage and a size.  The pointer is
    modelled by the bytes of its storage from the pointed position on ([data_]),
    so that reading past the storage is visible. *)

From S2P Require Import Prelude Bytes.

Record Slice := mkSlice {
  data_ : bytes;
  size_ : Z
}.

(** The empty C string literal, and the constructors. *)
Definition Slice_empty : Slice := mkSlice [x00] 0.
Definition Slice_ptr (d : bytes) (n : Z) : Slice := mkSlice d n.
Definition Slice_string (s : bytes) : Slice := mkSlice (s ++ [x00]) (Z.of_nat (length s)).
Definition strlen (s : bytes) : result Z := deref (memchr s x00).
Definition Slice_cstr (s : bytes) : result Slice := n ← strlen s; Ok (mkSlice s n).

Definition empty (s : Slice) : bool := size_ s =? 0.
Definition index (s : Slice) (n : Z) : result byte :=
  _ ← assert (n <? size_ s); deref (data_ s !! Z.to_nat n).
Definition clear (s : Slice) : Slice := Slice_empty.
Definition remove_prefix (s : Slice) (n : Z) : result Slice :=
  _ ← assert (n <=? size_ s);
  Ok (mkSlice (drop (Z.to_nat n) (data_ s)) (u64 (size_ s - n))).
Definition ToString (s : Slice) : result bytes := mem_read (data_ s) 0 (size_ s).

Definition memcmp_n (p q : bytes) (n : Z) : result Z :=
  a ← mem_read p 0 n; b ← mem_read q 0 n; Ok (memcmp a b).

Definition compare (s b : Slice) : result Z :=
  let min_len := if size_ s <? size_ b then size_ s else size_ b in
  r ← memcmp_n (data_ s) (data_ b) min_len;
  Ok (if r =? 0 then
        if size_ s <? size_ b then -1 else if size_ s >? size_ b then 1 else r
      else r).

(** [operator==] (its [&&] evaluates [memcmp] only when the sizes agree),
    [operator!=] and [operator<]. *)
Definition eqb (x y : Slice) : result bool :=
  if size_ x =? size_ y
  then r ← memcmp_n (data_ x) (data_ y) (size_ x); Ok (r =? 0)
  else Ok false.
Definition neqb (x y : Slice) : result bool := b ← eqb x y; Ok (negb b).
Definition ltb (x y : Slice) : result bool := r ← compare x y; Ok (r <? 0).

(** ** Meaning *)

(** A valid slice: its size fits its storage.  Its contents are the first
    [size_] bytes of the storage. *)
Definition valid (s : Slice) : Prop := 0 <= size_ s <= Z.of_nat (length (data_ s)) /\ in_u64 (size_ s).
Definition contents (s : Slice) : bytes := sub (data_ s) 0 (size_ s).

(** Lexicographic order of byte strings, bytes compared as unsigned numbers. *)
Inductive lex_lt : bytes -> bytes -> Prop :=
  | lex_nil b l : lex_lt [] (b :: l)
  | lex_head a b l1 l2 : uchar a < uchar b -> lex_lt (a :: l1) (b :: l2)
  | lex_tail a l1 l2 : lex_lt l1 l2 -> lex_lt (a :: l1) (a :: l2).

Lemma length_contents s : valid s -> Z.of_nat (length (contents s)) = size_ s.
Proof. intros [? _]. unfold contents. rewrite length_sub. lia. Qed.

Lemma read_contents s n :
  valid s -> 0 <= n <= size_ s ->
  mem_read (data_ s) 0 n = Ok (take (Z.to_nat n) (contents s)).
Proof.
  intros [? _] ?. rewrite mem_read_ok by lia. unfold contents. by rewrite take_sub.
Qed.

Lemma memcmp_range l1 l2 : memcmp l1 l2 = -1 \/ memcmp l1 l2 = 0 \/ memcmp l1 l2 = 1.
Proof.
  revert l2. induction l1 as [|a l1 IH]; intros [|b l2]; simpl; auto.
  destruct (uchar a <? uchar b); auto. destruct (uchar b <? uchar a); auto.
Qed.

Lemma memcmp_refl l : memcmp l l = 0.
Proof. induction l; simpl; [done|]. by rewrite !Z.ltb_irrefl. Qed.

(** What [compare] computes on the two contents. *)
Definition compare_bytes (l1 l2 : bytes) : Z :=
  let m := Nat.min (length l1) (length l2) in
  let r := memcmp (take m l1) (take m l2) in
  if r =? 0 then
    if (length l1 <? length l2)%nat then -1
    else if (length l2 <? length l1)%nat then 1 else r
  else r.

Lemma compare_bytes_cons a b l1 l2 :
  compare_bytes (a :: l1) (b :: l2) =
    if uchar a <? uchar b then -1 else if uchar b <? uchar a then 1 else compare_bytes l1 l2.
Proof.
  unfold compare_bytes. simpl length. rewrite <- Nat.succ_min_distr. simpl.
  destruct (uchar a <? uchar b); [done|]. by destruct (uchar b <? uchar a).
Qed.

Lemma compare_bytes_spec l1 l2 :
  (compare_bytes l1 l2 = -1 /\ lex_lt l1 l2) \/
  (compare_bytes l1 l2 = 0 /\ l1 = l2) \/
  (compare_bytes l1 l2 = 1 /\ lex_lt l2 l1).
Proof.
  revert l2. induction l1 as [|a l1 IH]; intros [|b l2]; auto using lex_lt.
  rewrite compare_bytes_cons. destruct (uchar a <? uchar b) eqn:?; bsimpl; auto using lex_lt.
  destruct (uchar b <? uchar a) eqn:?; bsimpl; auto using lex_lt.
  assert (a = b) as <- by (apply uchar_inj; lia).
  destruct (IH l2) as [[? ?]|[[? ->]|[? ?]]]; auto using lex_lt.
Qed.

Lemma lex_lt_irrefl l : ~ lex_lt l l.
Proof.
  induction l as [|a l IH]; inversion 1; subst; [lia | done].
Qed.

Lemma lex_lt_trans l1 l2 l3 : lex_lt l1 l2 -> lex_lt l2 l3 -> lex_lt l1 l3.
Proof.
  intros H. revert l3. induction H; intros l3; inversion 1; subst; eauto using lex_lt.
  constructor 2. lia.
Qed.

Lemma compare_contents x y :
  valid x -> valid y -> compare x y = Ok (compare_bytes (contents x) (contents y)).
Proof.
  intros Hx Hy. pose proof (length_contents x Hx). pose proof (length_contents y Hy).
  pose proof (proj1 Hx). pose proof (proj1 Hy). unfold compare, memcmp_n.
  set (n := if size_ x <? size_ y then size_ x else size_ y).
  assert (0 <= n <= size_ x /\ 0 <= n <= size_ y) as [? ?]
    by (unfold n; destruct (size_ x <? size_ y) eqn:?; bsimpl; lia).
  rewrite !read_contents by done.
  simpl. unfold compare_bytes. f_equal.
  replace (Z.to_nat n) with (Nat.min (length (contents x)) (length (contents y)))
    by (unfold n; destruct (size_ x <? size_ y) eqn:?; bsimpl; lia).
  destruct (_ =? 0); [|done].
  destruct (size_ x <? size_ y) eqn:?, (size_ x >? size_ y) eqn:?,
    (Nat.ltb_spec (length (contents x)) (length (contents y))),
    (Nat.ltb_spec (length (contents y)) (length (contents x))); try done; lia.
Qed.

Lemma compare_bytes_same_length l1 l2 :
  length l1 = length l2 -> compare_bytes l1 l2 = memcmp l1 l2.
Proof.
  intros Hl. unfold compare_bytes. rewrite !take_ge by lia. rewrite Hl, Nat.ltb_irrefl.
  by destruct (memcmp l1 l2 =? 0).
Qed.

Lemma compare_bytes_zero l1 l2 : compare_bytes l1 l2 = 0 <-> l1 = l2.
Proof.
  split.
  - destruct (compare_bytes_spec l1 l2) as [[-> _]|[[_ ?]|[-> _]]]; done.
  - intros ->. by rewrite compare_bytes_same_length, memcmp_refl.
Qed.

Lemma eqb_contents x y :
  valid x -> valid y -> eqb x y = Ok (compare_bytes (contents x) (contents y) =? 0).
Proof.
  intros Hx Hy. pose proof (length_contents x Hx). pose proof (length_contents y Hy).
  unfold eqb, memcmp_n. destruct (size_ x =? size_ y) eqn:E; bsimpl.
  - pose proof (proj1 Hx). pose proof (proj1 Hy). rewrite !read_contents by (done || lia).
    simpl. rewrite !take_ge by lia. by rewrite compare_bytes_same_length by lia.
  - f_equal. symmetry. apply Z.eqb_neq. rewrite compare_bytes_zero. intros Heq.
    rewrite Heq in *. lia.
Qed.

(** [C38] On valid slices [compare] never reads outside the storage, and its sign
    is the lexicographic order of the contents as unsigned bytes; [operator==]
    holds exactly when the contents are equal and agrees with [compare]. *)
Theorem compare_lexicographic x y :
  valid x -> valid y ->
  exists r, compare x y = Ok r /\
    (r < 0 <-> lex_lt (contents x) (contents y)) /\
    (r = 0 <-> contents x = contents y) /\
    (r > 0 <-> lex_lt (contents y) (contents x)) /\
    eqb x y = Ok (r =? 0) /\ ltb x y = Ok (r <? 0).
Proof.
  intros Hx Hy. exists (compare_bytes (contents x) (contents y)).
  unfold ltb. rewrite compare_contents, eqb_contents, compare_bytes_zero by done.
  pose proof (lex_lt_irrefl (contents x)).
  pose proof (lex_lt_trans (contents x) (contents y) (contents x)).
  destruct (compare_bytes_spec (contents x) (contents y)) as [[-> ?]|[[-> Heq]|[-> ?]]];
    try rewrite <- Heq in *; split_and!; try done; split; intros; try lia; naive_solver.
Qed.

(** Two slices of one text: [abc] and [abd]. *)
Lemma compare_lexicographic_witness :
  let x := mkSlice [x61; x62; x63] 3 in let y := mkSlice [x61; x62; xff; x64] 3 in
  compare x y = Ok (-1) /\
  exists r, compare x y = Ok r /\
    (r < 0 <-> lex_lt (contents x) (contents y)) /\
    (r = 0 <-> contents x = contents y) /\
    (r > 0 <-> lex_lt (contents y) (contents x)) /\
    eqb x y = Ok (r =? 0) /\ ltb x y = Ok (r <? 0).
Proof.
  split; [reflexivity|]. apply compare_lexicographic; unfold valid, in_u64; simpl; lia.
Defined.
