(* ===== verification/Buffer.v ===== *)
(** * Buffer (evk/buffer.h, evk/buffer.cc)

    The growable byte buffer: a block of [capacity_] bytes of which the ones from
    [read_index_] to [write_index_] are readable.  [size_t] arithmetic wraps at
    64 bits, every [assert] of the code is kept, and every access to the block is
    checked ([mem_read] and [memcpy] fault outside it).

    [junk i] is the indeterminate value that byte [i] of a fresh block ([new
    char[n]]) holds; nothing proved here depends on it.  Sources passed to
    [Write] and [Prepend] are byte strings, so they do not alias the block. *)

From S2P Require Import Prelude Bytes Slice.

Record Buffer := mkBuffer {
  buffer_ : bytes;
  capacity_ : Z;
  read_index_ : Z;
  write_index_ : Z;
  reserved_prepend_size_ : Z
}.

Definition kCheapPrependSize : Z := 8.
Definition kInitialSize : Z := 1024.
Definition kCRLF : bytes := [x0d; x0a].

(** The byte swap macro, mask by mask. *)
Definition bswap_64 (x : Z) : Z :=
  Z.lor (Z.shiftr (Z.land x 0xff00000000000000) 56)
 (Z.lor (Z.shiftr (Z.land x 0x00ff000000000000) 40)
 (Z.lor (Z.shiftr (Z.land x 0x0000ff0000000000) 24)
 (Z.lor (Z.shiftr (Z.land x 0x000000ff00000000) 8)
 (Z.lor (Z.shiftl (Z.land x 0x00000000ff000000) 8)
 (Z.lor (Z.shiftl (Z.land x 0x0000000000ff0000) 24)
 (Z.lor (Z.shiftl (Z.land x 0x000000000000ff00) 40)
        (Z.shiftl (Z.land x 0x00000000000000ff) 56))))))).

Definition set_read (b : Buffer) (r : Z) : Buffer :=
  mkBuffer (buffer_ b) (capacity_ b) r (write_index_ b) (reserved_prepend_size_ b).
Definition set_write (b : Buffer) (w : Z) : Buffer :=
  mkBuffer (buffer_ b) (capacity_ b) (read_index_ b) w (reserved_prepend_size_ b).
Definition set_block (b : Buffer) (d : bytes) : Buffer :=
  mkBuffer d (capacity_ b) (read_index_ b) (write_index_ b) (reserved_prepend_size_ b).

(** ** Observers *)

Definition Buffer_length (b : Buffer) : result Z :=
  _ ← assert (write_index_ b >=? read_index_ b); Ok (u64 (write_index_ b - read_index_ b)).
Definition Buffer_size (b : Buffer) : result Z := Buffer_length b.
Definition capacity (b : Buffer) : Z := capacity_ b.
Definition WritableBytes (b : Buffer) : result Z :=
  _ ← assert (capacity_ b >=? write_index_ b); Ok (u64 (capacity_ b - write_index_ b)).
Definition PrependableBytes (b : Buffer) : Z := read_index_ b.

(** [data()] as the bytes of the block from the read index on. *)
Definition data (b : Buffer) : bytes := drop (Z.to_nat (read_index_ b)) (buffer_ b).
Definition ToSlice (b : Buffer) : result Slice := n ← Buffer_length b; Ok (Slice_ptr (data b) n).
Definition ToString (b : Buffer) : result bytes := n ← Buffer_length b; mem_read (data b) 0 n.

(** ** Discarding *)

Definition Truncate (n : Z) (b : Buffer) : Buffer :=
  if n =? 0 then set_write (set_read b (reserved_prepend_size_ b)) (reserved_prepend_size_ b)
  else if write_index_ b >? u64 (read_index_ b + n)
  then set_write b (u64 (read_index_ b + n))
  else b.
Definition Reset (b : Buffer) : Buffer := Truncate 0 b.
Definition Skip (len : Z) (b : Buffer) : result Buffer :=
  n ← Buffer_length b;
  Ok (if len <? n then set_read b (u64 (read_index_ b + len)) else Reset b).
Definition Retrieve (len : Z) (b : Buffer) : result Buffer := Skip len b.

Definition Next (len : Z) (b : Buffer) : result (Slice * Buffer) :=
  n ← Buffer_length b;
  if len <? n
  then Ok (Slice_ptr (data b) len, set_read b (u64 (read_index_ b + len)))
  else n ← Buffer_length b; Ok (Slice_ptr (data b) n, Reset b).
Definition NextAll (b : Buffer) : result (Slice * Buffer) :=
  n ← Buffer_length b; Ok (Slice_ptr (data b) n, Reset b).
Definition NextString (len : Z) (b : Buffer) : result (bytes * Buffer) :=
  '(s, b') ← Next len b; str ← Slice.ToString s; Ok (str, b').
Definition NextAllString (b : Buffer) : result (bytes * Buffer) :=
  '(s, b') ← NextAll b; str ← Slice.ToString s; Ok (str, b').

Definition ReadByte (b : Buffer) : result (byte * Buffer) :=
  n ← Buffer_length b;
  _ ← assert (n >=? 1);
  if n =? 0 then Ok (x00, b)
  else c ← deref (buffer_ b !! Z.to_nat (read_index_ b));
       Ok (c, set_read b (u64 (read_index_ b + 1))).
Definition UnreadBytes (n : Z) (b : Buffer) : result Buffer :=
  _ ← assert (n <? read_index_ b); Ok (set_read b (u64 (read_index_ b - n))).
Definition UnwriteBytes (n : Z) (b : Buffer) : result Buffer :=
  l ← Buffer_length b; _ ← assert (n <=? l); Ok (set_write b (u64 (write_index_ b - n))).
Definition WriteBytes (n : Z) (b : Buffer) : result Buffer :=
  w ← WritableBytes b; _ ← assert (n <=? w); Ok (set_write b (u64 (write_index_ b + n))).

(** ** Peeking at integers in network order *)

Definition PeekInt64 (b : Buffer) : result Z :=
  n ← Buffer_length b; _ ← assert (n >=? 8);
  m ← mem_read (data b) 0 8; Ok (i64 (bswap_64 (i64 (le_value m)))).
Definition PeekInt32 (b : Buffer) : result Z :=
  n ← Buffer_length b; _ ← assert (n >=? 4);
  m ← mem_read (data b) 0 4; Ok (i32 (ntohl (i32 (le_value m)))).
Definition PeekInt16 (b : Buffer) : result Z :=
  n ← Buffer_length b; _ ← assert (n >=? 2);
  m ← mem_read (data b) 0 2; Ok (i16 (ntohs (i16 (le_value m)))).
Definition PeekInt8 (b : Buffer) : result Z :=
  n ← Buffer_length b; _ ← assert (n >=? 1);
  m ← mem_read (data b) 0 1; Ok (i8 (le_value m)).

Definition ReadInt64 (b : Buffer) : result (Z * Buffer) :=
  r ← PeekInt64 b; b' ← Skip 8 b; Ok (r, b').
Definition ReadInt32 (b : Buffer) : result (Z * Buffer) :=
  r ← PeekInt32 b; b' ← Skip 4 b; Ok (r, b').
Definition ReadInt16 (b : Buffer) : result (Z * Buffer) :=
  r ← PeekInt16 b; b' ← Skip 2 b; Ok (r, b').
Definition ReadInt8 (b : Buffer) : result (Z * Buffer) :=
  r ← PeekInt8 b; b' ← Skip 1 b; Ok (r, b').

(** ** Searching: a pointer into the block is its offset *)

(** [std::search(p, WriteBegin(), kCRLF, kCRLF + 2)] from offset [from]. *)
Definition find_crlf_from (b : Buffer) (from : Z) : result (option Z) :=
  m ← mem_read (buffer_ b) from (write_index_ b - from);
  let crlf := from + std_search m kCRLF in
  Ok (if crlf =? write_index_ b then None else Some crlf).
Definition FindCRLF (b : Buffer) : result (option Z) := find_crlf_from b (read_index_ b).
Definition FindCRLF_at (start : Z) (b : Buffer) : result (option Z) :=
  _ ← assert (read_index_ b <=? start); _ ← assert (start <=? write_index_ b);
  find_crlf_from b start.
Definition FindEOL (b : Buffer) : result (option Z) :=
  n ← Buffer_length b; m ← mem_read (buffer_ b) (read_index_ b) n;
  Ok (Z.add (read_index_ b) <$> memchr m x0a).
Definition FindEOL_at (start : Z) (b : Buffer) : result (option Z) :=
  _ ← assert (read_index_ b <=? start); _ ← assert (start <=? write_index_ b);
  m ← mem_read (buffer_ b) start (write_index_ b - start);
  Ok (Z.add start <$> memchr m x0a).

(** [Swap] exchanges every field. *)
Definition Swap (a b : Buffer) : Buffer * Buffer :=
  (mkBuffer (buffer_ b) (capacity_ b) (read_index_ b) (write_index_ b) (reserved_prepend_size_ b),
   mkBuffer (buffer_ a) (capacity_ a) (read_index_ a) (write_index_ a) (reserved_prepend_size_ a)).

(** The answer of [readv(2)]: its return value, the bytes it stored (in order
    over the vector's blocks) and [errno]. *)
Record readv_answer := { rv_n : Z; rv_data : bytes; rv_errno : Z }.

Section Allocating.
Context (junk : nat -> byte).

Definition new_char (n : Z) : bytes := map junk (seq 0 (Z.to_nat n)).

Definition Buffer_new (initial_size reserved_prepend_size : Z) : result Buffer :=
let c := u64 (reserved_prepend_size + initial_size) in
let b := mkBuffer (new_char c) c reserved_prepend_size reserved_prepend_size
           reserved_prepend_size in
n ← Buffer_length b; _ ← assert (n =? 0);
w ← WritableBytes b; _ ← assert (w =? initial_size);
_ ← assert (PrependableBytes b =? reserved_prepend_size);
Ok b.

(** ** Growing *)

Definition grow (len : Z) (b : Buffer) : result Buffer :=
w ← WritableBytes b;
if u64 (w + PrependableBytes b) <? u64 (len + reserved_prepend_size_ b) then
  let n := u64 (u64 (Z.shiftl (capacity_ b) 1) + len) in
  m ← Buffer_length b;
  src ← mem_read (buffer_ b) (read_index_ b) m;
  d ← memcpy (new_char n) (reserved_prepend_size_ b) src;
  Ok (mkBuffer d n (reserved_prepend_size_ b) (u64 (m + reserved_prepend_size_ b))
        (reserved_prepend_size_ b))
else
  _ ← assert (reserved_prepend_size_ b <? read_index_ b);
  readable ← Buffer_length b;
  src ← mem_read (buffer_ b) (read_index_ b) readable;
  d ← memcpy (buffer_ b) (reserved_prepend_size_ b) src;
  let b1 := set_read (set_block b d) (reserved_prepend_size_ b) in
  let b2 := set_write b1 (u64 (read_index_ b1 + readable)) in
  n ← Buffer_length b2; _ ← assert (readable =? n);
  w ← WritableBytes b2; _ ← assert (w >=? len);
  Ok b2.

Definition Reserve (len : Z) (b : Buffer) : result Buffer :=
if capacity_ b >=? u64 (len + reserved_prepend_size_ b) then Ok b
else grow (u64 (len + reserved_prepend_size_ b)) b.
Definition EnsureWritableBytes (len : Z) (b : Buffer) : result Buffer :=
w ← WritableBytes b;
b' ← (if w <? len then grow len b else Ok b);
w' ← WritableBytes b'; _ ← assert (w' >=? len);
Ok b'.

(** ** Writing *)

Definition Write (d : bytes) (b : Buffer) : result Buffer :=
let len := u64 (Z.of_nat (length d)) in
b' ← EnsureWritableBytes len b;
m ← memcpy (buffer_ b') (write_index_ b') d;
_ ← assert (u64 (write_index_ b' + len) <=? capacity_ b');
Ok (set_write (set_block b' m) (u64 (write_index_ b' + len))).
Definition Append (d : bytes) (b : Buffer) : result Buffer := Write d b.
Definition Append_slice (s : Slice) (b : Buffer) : result Buffer :=
d ← mem_read (data_ s) 0 (size_ s); Write d b.

Definition AppendInt64 (x : Z) (b : Buffer) : result Buffer := Write (le_bytes 8 (bswap_64 x)) b.
Definition AppendInt32 (x : Z) (b : Buffer) : result Buffer := Write (le_bytes 4 (htonl x)) b.
Definition AppendInt16 (x : Z) (b : Buffer) : result Buffer := Write (le_bytes 2 (htons x)) b.
Definition AppendInt8 (x : Z) (b : Buffer) : result Buffer := Write (le_bytes 1 x) b.

Definition ToText (b : Buffer) : result Buffer := b' ← AppendInt8 0 b; UnwriteBytes 1 b'.

Definition Prepend (d : bytes) (b : Buffer) : result Buffer :=
let len := u64 (Z.of_nat (length d)) in
_ ← assert (len <=? PrependableBytes b);
let b' := set_read b (u64 (read_index_ b - len)) in
m ← memcpy (buffer_ b') (read_index_ b') d;
Ok (set_block b' m).
Definition PrependInt64 (x : Z) (b : Buffer) : result Buffer := Prepend (le_bytes 8 (bswap_64 x)) b.
Definition PrependInt32 (x : Z) (b : Buffer) : result Buffer := Prepend (le_bytes 4 (htonl x)) b.
Definition PrependInt16 (x : Z) (b : Buffer) : result Buffer := Prepend (le_bytes 2 (htons x)) b.
Definition PrependInt8 (x : Z) (b : Buffer) : result Buffer := Prepend (le_bytes 1 x) b.

Definition Shrink (reserve : Z) (b : Buffer) : result Buffer :=
n ← Buffer_length b;
other ← Buffer_new (u64 (n + reserve)) kCheapPrependSize;
s ← ToSlice b;
other ← Append_slice s other;
Ok (Swap b other).1.

(** ** Reading from a file descriptor

  [readv] is the system call on the vector with the given block sizes; it
  stores its bytes at the write index first and in [extrabuf] after that.
  Returns the value of the call and the [errno] to save, if any. *)
Definition ReadFromFD (readv : list Z -> readv_answer) (b : Buffer) :
  result (Z * option Z * Buffer) :=
writable ← WritableBytes b;
let vec := if writable <? 65536 then [writable; 65536] else [writable] in
let ans := readv vec in
let n := rv_n ans in
m ← memcpy (buffer_ b) (write_index_ b) (take (Z.to_nat writable) (rv_data ans));
let extrabuf := drop (Z.to_nat writable) (rv_data ans) in
let b1 := set_block b m in
if n <? 0 then Ok (n, Some (rv_errno ans), b1)
else if u64 n <=? writable then Ok (n, None, set_write b1 (u64 (write_index_ b1 + n)))
else
  d ← mem_read extrabuf 0 (n - writable);
  b2 ← Append d (set_write b1 (capacity_ b1));
  Ok (n, None, b2).

End Allocating.
