(* ===== verification/BufferFacts.v ===== *)
(** * Facts about single buffer operations

    The well-formedness invariant of [Buffer], its readable contents, and for
    each operation of evk/buffer.h that it keeps the invariant and what it does
    to the contents. *)

From S2P Require Import Prelude Bytes Slice Buffer.

(** The index order of the diagram in evk/buffer.h, with the block's true length
    equal to [capacity_].  [reserved_prepend_size_ <= read_index_] is not part of
    it: [Prepend] moves the read index below the reserve.  The bound on the
    capacity keeps [(capacity_ << 1) + len] from wrapping. *)
Record wf (b : Buffer) : Prop := {
  wf_block : Z.of_nat (List.length (buffer_ b)) = capacity_ b;
  wf_index : 0 <= read_index_ b <= write_index_ b /\ write_index_ b <= capacity_ b;
  wf_reserve : 0 <= reserved_prepend_size_ b <= capacity_ b;
  wf_bound : capacity_ b < 2 ^ 62
}.

(** The readable bytes: what the buffer holds. *)
Definition content (b : Buffer) : bytes :=
  sub (buffer_ b) (read_index_ b) (write_index_ b - read_index_ b).

Definition len (b : Buffer) : Z := Z.of_nat (List.length (content b)).

(** Two buffers with the same geometry outside the readable part. *)
Definition same_store (b b' : Buffer) : Prop :=
  capacity_ b' = capacity_ b /\ reserved_prepend_size_ b' = reserved_prepend_size_ b.

Lemma len_eq b : wf b -> len b = write_index_ b - read_index_ b.
Proof. intros [Hb Hi Hr Hc]. unfold len, content. rewrite length_sub. lia. Qed.

Lemma len_nonneg b : 0 <= len b.
Proof. unfold len. lia. Qed.

Lemma len_capacity b : wf b -> len b <= capacity_ b.
Proof. intros Hw. rewrite len_eq by done. destruct Hw. lia. Qed.

Ltac open_wf :=
  repeat match goal with H : wf _ |- _ => destruct H as [? [? ?] ? ?] end.

Lemma Buffer_length_ok b : wf b -> Buffer_length b = Ok (len b).
Proof.
  intros Hw. rewrite len_eq by done. open_wf. unfold Buffer_length.
  rewrite assert_true by lia. simpl. by u64_simpl.
Qed.

Lemma WritableBytes_ok b : wf b -> WritableBytes b = Ok (capacity_ b - write_index_ b).
Proof.
  intros Hw. open_wf. unfold WritableBytes. rewrite assert_true by lia. simpl. by u64_simpl.
Qed.

Lemma read_data b n :
  wf b -> 0 <= n <= len b -> mem_read (data b) 0 n = Ok (take (Z.to_nat n) (content b)).
Proof.
  intros Hw Hn. rewrite len_eq in Hn by done. open_wf. unfold data, content.
  rewrite mem_read_ok by (rewrite ?length_drop; lia). rewrite take_sub by lia.
  unfold sub. simpl. by rewrite drop_0.
Qed.

Lemma read_block b n :
  wf b -> n = len b -> mem_read (buffer_ b) (read_index_ b) n = Ok (content b).
Proof.
  intros Hw ->. rewrite len_eq by done. open_wf. unfold content. by rewrite mem_read_ok by lia.
Qed.

Lemma length_new_char junk n : 0 <= n -> Z.of_nat (List.length (new_char junk n)) = n.
Proof. intros. unfold new_char. rewrite length_map, length_seq. lia. Qed.

Lemma wf_set_read b r :
  wf b -> 0 <= r <= write_index_ b -> wf (set_read b r).
Proof. intros ??. open_wf. split; simpl; lia. Qed.

Lemma content_set_read b n :
  wf b -> 0 <= n <= len b ->
  content (set_read b (read_index_ b + n)) = drop (Z.to_nat n) (content b).
Proof.
  intros Hw Hn. rewrite len_eq in Hn by done. open_wf. unfold content. simpl.
  rewrite drop_sub by lia. f_equal. lia.
Qed.

Lemma content_set_write b n :
  wf b -> 0 <= n <= len b ->
  content (set_write b (read_index_ b + n)) = take (Z.to_nat n) (content b).
Proof.
  intros Hw Hn. rewrite len_eq in Hn by done. open_wf. unfold content. simpl.
  rewrite take_sub by lia. f_equal. lia.
Qed.

(** ** Discarding *)

Lemma Reset_spec b : wf b -> wf (Reset b) /\ content (Reset b) = [] /\ same_store b (Reset b).
Proof.
  intros. open_wf. unfold Reset, Truncate, content, same_store. simpl.
  split_and!; try done; [split; simpl; lia |]. apply sub_nil. lia.
Qed.

Lemma Truncate_spec n b :
  wf b -> 0 <= n -> n < 2 ^ 63 ->
  wf (Truncate n b) /\ content (Truncate n b) = take (Z.to_nat n) (content b) /\
  same_store b (Truncate n b).
Proof.
  intros Hw Hn Hn2. pose proof (len_eq b Hw). unfold Truncate.
  destruct (n =? 0) eqn:E; bsimpl.
  - subst n. change (wf (Reset b) /\ content (Reset b) = [] /\ same_store b (Reset b)).
    by apply Reset_spec.
  - pose proof Hw as Hw'. open_wf. u64_simpl. destruct (_ >? _) eqn:E2; bsimpl.
    + rewrite content_set_write by (done || lia). unfold same_store; simpl.
      split_and!; try done. split; simpl; lia.
    + unfold same_store. split_and!; try done. rewrite take_ge; [done|]. unfold len in *. lia.
Qed.

Lemma Skip_spec n b :
  wf b -> 0 <= n ->
  exists b', Skip n b = Ok b' /\ wf b' /\ content b' = drop (Z.to_nat n) (content b) /\
    same_store b b'.
Proof.
  intros Hw Hn. unfold Skip. rewrite Buffer_length_ok by done. simpl. eexists; split; [done|].
  destruct (n <? len b) eqn:E; bsimpl.
  - pose proof (len_eq b Hw). pose proof (len_nonneg b).
    rewrite u64_id by (open_wf; unfold in_u64; lia).
    rewrite content_set_read by (done || lia). split_and!; try done.
    apply wf_set_read; [done|]. open_wf. lia.
  - destruct (Reset_spec b Hw) as (? & -> & ?). split_and!; try done.
    symmetry. apply drop_ge. unfold len in E. lia.
Qed.

Lemma Next_spec n b :
  wf b -> 0 <= n ->
  exists s b', Next n b = Ok (s, b') /\ wf b' /\
    Slice.ToString s = Ok (take (Z.to_nat n) (content b)) /\
    content b' = drop (Z.to_nat n) (content b) /\ same_store b b'.
Proof.
  intros Hw Hn. unfold Next. rewrite Buffer_length_ok by done. simpl.
  destruct (n <? len b) eqn:E; bsimpl.
  - eexists _, _; split; [done|]. pose proof (len_eq b Hw).
    rewrite u64_id by (open_wf; unfold in_u64; lia).
    rewrite content_set_read by (done || lia). split_and!; try done.
    + apply wf_set_read; [done|]. open_wf. lia.
    + unfold Slice.ToString. simpl. apply read_data; [done | lia].
  - eexists _, _; split; [done|]. destruct (Reset_spec b Hw) as (? & -> & ?). split_and!; try done.
    + unfold Slice.ToString. simpl. rewrite read_data by (done || (pose proof (len_nonneg b); lia)).
      unfold len in *. f_equal. rewrite !take_ge by lia. done.
    + symmetry. apply drop_ge. unfold len in E. lia.
Qed.

Lemma NextAll_spec b :
  wf b ->
  exists s b', NextAll b = Ok (s, b') /\ wf b' /\ Slice.ToString s = Ok (content b) /\
    content b' = [] /\ same_store b b'.
Proof.
  intros Hw. unfold NextAll. rewrite Buffer_length_ok by done. simpl.
  eexists _, _; split; [done|]. destruct (Reset_spec b Hw) as (? & -> & ?). split_and!; try done.
  unfold Slice.ToString. simpl. rewrite read_data by (done || (pose proof (len_nonneg b); lia)).
  f_equal. apply take_ge. unfold len. lia.
Qed.

(** ** Moving the indices back, and publishing bytes written in place *)

Lemma UnwriteBytes_spec n b :
  wf b -> 0 <= n <= len b ->
  exists b', UnwriteBytes n b = Ok b' /\ wf b' /\
    content b' = take (Z.to_nat (len b - n)) (content b) /\ same_store b b'.
Proof.
  intros Hw Hn. unfold UnwriteBytes. rewrite Buffer_length_ok by done. simpl.
  rewrite assert_true by lia. simpl. eexists; split; [done|].
  pose proof (len_eq b Hw). rewrite u64_id by (open_wf; unfold in_u64; lia).
  replace (write_index_ b - n) with (read_index_ b + (len b - n)) by lia.
  rewrite content_set_write by (done || lia). split_and!; try done.
  open_wf. split; simpl; lia.
Qed.

Lemma WriteBytes_spec n b :
  wf b -> 0 <= n <= capacity_ b - write_index_ b ->
  exists b', WriteBytes n b = Ok b' /\ wf b' /\
    content b' = content b ++ sub (buffer_ b) (write_index_ b) n /\ same_store b b'.
Proof.
  intros Hw Hn. unfold WriteBytes. rewrite WritableBytes_ok by done. simpl.
  rewrite assert_true by lia. simpl. eexists; split; [done|]. open_wf. u64_simpl.
  split_and!; try done; [split; simpl; lia|]. unfold content; simpl.
  replace (write_index_ b + n - read_index_ b) with (write_index_ b - read_index_ b + n) by lia.
  rewrite sub_add by lia. do 2 f_equal. lia.
Qed.

Lemma Prepend_spec d b :
  wf b -> Z.of_nat (List.length d) <= read_index_ b ->
  exists b', Prepend d b = Ok b' /\ wf b' /\ content b' = d ++ content b /\ same_store b b' /\
    read_index_ b' = read_index_ b - Z.of_nat (List.length d).
Proof.
  intros Hw Hd. pose proof Hw as Hw'. open_wf. unfold Prepend, PrependableBytes. u64_simpl.
  rewrite assert_true by lia. simpl. rewrite memcpy_ok by lia. simpl.
  eexists; split; [done|]. unfold content; simpl. split_and!; try done.
  - split; simpl; rewrite ?length_splice by lia; lia.
  - set (r := read_index_ b - Z.of_nat (List.length d)).
    replace (write_index_ b - r)
      with (Z.of_nat (List.length d) + (write_index_ b - read_index_ b)) by lia.
    rewrite sub_add by lia. rewrite sub_splice_same by lia. f_equal.
    rewrite sub_splice_after by lia. f_equal. lia.
Qed.

(** Un-reading restores the bytes in front of the read index, whatever they are. *)
Lemma UnreadBytes_spec n b :
  wf b -> 0 <= n < read_index_ b ->
  exists b', UnreadBytes n b = Ok b' /\ wf b' /\
    content b' = sub (buffer_ b) (read_index_ b - n) n ++ content b /\ same_store b b'.
Proof.
  intros Hw Hn. unfold UnreadBytes. rewrite assert_true by lia. simpl.
  eexists; split; [done|]. open_wf. u64_simpl. split_and!; try done; [split; simpl; lia|].
  unfold content; simpl.
  replace (write_index_ b - (read_index_ b - n)) with (n + (write_index_ b - read_index_ b)) by lia.
  rewrite sub_add by lia. do 2 f_equal. lia.
Qed.

(** ** Growing and writing *)

(** The capacity [b'] has is the old one or at most three times what the buffer
    must hold: contents, the demand [k] and the reserve. *)
Definition grown (k : Z) (b b' : Buffer) : Prop :=
  capacity_ b <= capacity_ b' <= Z.max (capacity_ b) (3 * (len b + k + reserved_prepend_size_ b)).

(** Readable bytes [s] placed after the reserve of a block, as both branches of
    [grow] do. *)
Lemma placed_spec m cap res s w :
  Z.of_nat (List.length m) = cap -> cap < 2 ^ 62 -> 0 <= res ->
  w = Z.of_nat (List.length s) + res -> w <= cap ->
  wf (mkBuffer (splice m res s) cap res w res) /\
  content (mkBuffer (splice m res s) cap res w res) = s.
Proof.
  intros. split.
  - split; simpl; rewrite ?length_splice by lia; lia.
  - unfold content; simpl. replace (w - res) with (Z.of_nat (List.length s)) by lia.
    apply sub_splice_same. lia.
Qed.

(** The first branch of [grow]: a new block of [2 * capacity_ + k] bytes. *)
Lemma grow_reallocates junk k b :
  wf b -> 0 <= k -> 2 * capacity_ b + k < 2 ^ 62 ->
  capacity_ b - len b < k + reserved_prepend_size_ b ->
  exists b', grow junk k b = Ok b' /\ wf b' /\ content b' = content b /\
    capacity_ b' = 2 * capacity_ b + k /\
    write_index_ b' = len b + reserved_prepend_size_ b /\
    reserved_prepend_size_ b' = reserved_prepend_size_ b.
Proof.
  intros Hw Hk Hb Hlt. pose proof Hw as Hw'. pose proof (len_eq b Hw). open_wf.
  unfold grow, PrependableBytes. rewrite WritableBytes_ok, Buffer_length_ok by done. simpl.
  rewrite Z.shiftl_mul_pow2, Z.pow_1_r by lia. u64_simpl.
  replace (_ <? _) with true by lia. rewrite read_block by done. simpl.
  pose proof (length_new_char junk (capacity_ b * 2 + k)).
  rewrite memcpy_ok by (unfold len in *; lia). simpl.
  destruct (placed_spec (new_char junk (capacity_ b * 2 + k)) (capacity_ b * 2 + k)
    (reserved_prepend_size_ b) (content b) (len b + reserved_prepend_size_ b))
    as [? ?]; try done; try lia.
  u64_simpl. eexists; split; [done|]. simpl. split_and!; try done; lia.
Qed.

(** The second branch: the readable bytes move to the front of the block; the
    assertion [reserved_prepend_size_ < read_index_] holds there. *)
Lemma grow_moves junk k b :
  wf b -> capacity_ b - write_index_ b < k -> k < 2 ^ 62 ->
  k + reserved_prepend_size_ b <= capacity_ b - len b ->
  exists b', grow junk k b = Ok b' /\ wf b' /\ content b' = content b /\
    capacity_ b' = capacity_ b /\
    write_index_ b' = len b + reserved_prepend_size_ b /\
    reserved_prepend_size_ b' = reserved_prepend_size_ b.
Proof.
  intros Hw Hlt Hk Hb. pose proof Hw as Hw'. pose proof (len_eq b Hw). open_wf.
  unfold grow, PrependableBytes. rewrite WritableBytes_ok, Buffer_length_ok by done. simpl.
  u64_simpl. replace (_ <? _) with false by lia. rewrite assert_true by lia. simpl.
  rewrite read_block by done. simpl. rewrite memcpy_ok by (unfold len in *; lia). simpl.
  destruct (placed_spec (buffer_ b) (capacity_ b) (reserved_prepend_size_ b) (content b)
    (reserved_prepend_size_ b + len b)) as [Hw2 Hc2]; try done; try (unfold len in *; lia).
  u64_simpl. unfold set_write, set_read, set_block; simpl.
  match type of Hc2 with content ?b2 = _ =>
    assert (len b2 = len b) as Hl
      by exact (f_equal (fun l => Z.of_nat (List.length l)) Hc2) end.
  rewrite Buffer_length_ok, WritableBytes_ok, Hl by done. simpl.
  rewrite !assert_true by lia. simpl.
  eexists; split; [done|]. simpl. split_and!; try done; lia.
Qed.

Lemma grow_spec junk k b :
  wf b -> 0 <= k -> 3 * (len b + k + reserved_prepend_size_ b) < 2 ^ 62 ->
  capacity_ b - write_index_ b < k ->
  exists b', grow junk k b = Ok b' /\ wf b' /\ content b' = content b /\
    k <= capacity_ b' - write_index_ b' /\ grown k b b' /\
    reserved_prepend_size_ b' = reserved_prepend_size_ b.
Proof.
  intros Hw Hk Hb Hlt. pose proof (len_capacity b Hw). pose proof (len_nonneg b).
  unfold grown.
  destruct (decide (capacity_ b - len b < k + reserved_prepend_size_ b)).
  - destruct (grow_reallocates junk k b) as (b' & -> & ? & ? & ? & ? & ?); try done.
    { destruct Hw; lia. }
    exists b'. split_and!; try done; destruct Hw; lia.
  - destruct (grow_moves junk k b) as (b' & -> & ? & ? & ? & ? & ?); try done; try (destruct Hw; lia).
    exists b'. split_and!; try done; destruct Hw; lia.
Qed.

Lemma EnsureWritableBytes_spec junk k b :
  wf b -> 0 <= k -> 3 * (len b + k + reserved_prepend_size_ b) < 2 ^ 62 ->
  exists b', EnsureWritableBytes junk k b = Ok b' /\ wf b' /\ content b' = content b /\
    k <= capacity_ b' - write_index_ b' /\ grown k b b' /\
    reserved_prepend_size_ b' = reserved_prepend_size_ b.
Proof.
  intros Hw Hk Hb. unfold EnsureWritableBytes. rewrite WritableBytes_ok by done. simpl.
  destruct (_ <? k) eqn:E; bsimpl.
  - destruct (grow_spec junk k b) as (b' & -> & Hw' & ? & ? & ?); try done. simpl.
    rewrite WritableBytes_ok by done. simpl. rewrite assert_true by lia. eauto 10.
  - simpl. rewrite WritableBytes_ok by done. simpl. rewrite assert_true by lia. simpl.
    eexists; split; [done|]. unfold grown. split_and!; try done; lia.
Qed.

Lemma Reserve_spec junk k b :
  wf b -> 0 <= k -> 3 * (len b + k + reserved_prepend_size_ b) < 2 ^ 62 ->
  exists b', Reserve junk k b = Ok b' /\ wf b' /\ content b' = content b /\
    k + reserved_prepend_size_ b <= capacity_ b' /\ grown k b b' /\
    reserved_prepend_size_ b' = reserved_prepend_size_ b.
Proof.
  intros Hw Hk Hb. pose proof Hw as Hw'. pose proof (len_eq b Hw).
  unfold Reserve. rewrite u64_id by (open_wf; unfold in_u64; lia).
  destruct (_ >=? _) eqn:E.
  - eexists; split; [done|]. unfold grown. open_wf. split_and!; try done; unfold len in *; lia.
  - pose proof (len_nonneg b). open_wf.
    destruct (grow_reallocates junk (k + reserved_prepend_size_ b) b)
      as (b' & -> & ? & ? & ? & ? & ?); try done; try lia.
    exists b'. unfold grown. split_and!; try done; lia.
Qed.

Lemma Write_spec junk d b :
  wf b -> 3 * (len b + Z.of_nat (List.length d) + reserved_prepend_size_ b) < 2 ^ 62 ->
  exists b', Write junk d b = Ok b' /\ wf b' /\ content b' = content b ++ d /\
    grown (Z.of_nat (List.length d)) b b' /\
    reserved_prepend_size_ b' = reserved_prepend_size_ b.
Proof.
  intros Hw Hb. pose proof (len_nonneg b).
  unfold Write. rewrite u64_id by (open_wf; unfold in_u64; lia).
  destruct (EnsureWritableBytes_spec junk (Z.of_nat (List.length d)) b)
    as (b1 & -> & Hw1 & Hc & ? & Hg & Hr); try done; try lia.
  simpl. pose proof Hw1 as Hw1'. pose proof (len_eq b1 Hw1). destruct Hw1 as [? [? ?] ? ?].
  rewrite memcpy_ok by lia. simpl. u64_simpl. rewrite assert_true by lia. simpl.
  eexists; split; [done|]. rewrite <- Hc. unfold content; simpl. split_and!; try done.
  - split; simpl; rewrite ?length_splice by lia; lia.
  - replace (write_index_ b1 + Z.of_nat (List.length d) - read_index_ b1)
      with ((write_index_ b1 - read_index_ b1) + Z.of_nat (List.length d)) by lia.
    rewrite sub_add by lia. rewrite sub_splice_before by lia. f_equal.
    replace (read_index_ b1 + (write_index_ b1 - read_index_ b1)) with (write_index_ b1) by lia.
    apply sub_splice_same. lia.
Qed.
