(* ===== verification/Swap.v ===== *)
(** * The byte swap of evk/buffer.h

    [bswap_64] and the C library's [htonl]/[htons] put an integer in network
    order: their memory image on a little-endian host is the big-endian image of
    the integer, and they are their own inverses. *)

From S2P Require Import Prelude Bytes Slice Buffer.

(** A masked byte, shifted to its mirror position. *)
Lemma mask_shiftr x i s :
  0 <= s <= i ->
  Z.shiftr (Z.land x (Z.shiftl 255 i)) s = Z.shiftl (Z.land (Z.shiftr x i) 255) (i - s).
Proof.
  intros Hs. apply Z.bits_inj'. intros n Hn.
  rewrite Z.shiftr_spec, Z.land_spec, !Z.shiftl_spec by lia.
  replace (n + s - i) with (n - (i - s)) by lia.
  destruct (decide (n - (i - s) < 0)).
  - rewrite (Z.testbit_neg_r 255), andb_false_r by lia. by rewrite Z.testbit_neg_r by lia.
  - rewrite Z.land_spec, Z.shiftr_spec by lia. do 2 f_equal. lia.
Qed.

Lemma mask_shiftl x i s :
  0 <= s -> 0 <= i ->
  Z.shiftl (Z.land x (Z.shiftl 255 i)) s = Z.shiftl (Z.land (Z.shiftr x i) 255) (i + s).
Proof.
  intros Hs Hi. apply Z.bits_inj'. intros n Hn. rewrite !Z.shiftl_spec by lia.
  replace (n - (i + s)) with (n - s - i) by lia.
  destruct (decide (n - s < 0)).
  { by rewrite !Z.testbit_neg_r by lia. }
  rewrite Z.land_spec, Z.shiftl_spec by lia.
  destruct (decide (n - s - i < 0)).
  - rewrite (Z.testbit_neg_r 255), andb_false_r by lia. by rewrite Z.testbit_neg_r by lia.
  - rewrite Z.land_spec, Z.shiftr_spec by lia. do 2 f_equal. lia.
Qed.

Lemma le_value_cons b l : le_value (b :: l) = Z.lor (uchar b) (Z.shiftl (le_value l) 8).
Proof.
  simpl. pose proof (uchar_range b).
  rewrite Z.shiftl_mul_pow2 by lia. change (2 ^ 8) with 256.
  rewrite <- Z.add_nocarry_lor; [lia|].
  apply Z.bits_inj'. intros n Hn. rewrite Z.land_spec, Z.bits_0.
  destruct (decide (n < 8)).
  - change 256 with (2 ^ 8). by rewrite (Z.mul_pow2_bits_low _ 8 n), andb_false_r by lia.
  - rewrite <- (Z.mod_small (uchar b) (2 ^ 8)) by lia. by rewrite Z.mod_pow2_bits_high by lia.
Qed.

Lemma uchar_to_byte_land z : uchar (to_byte z) = Z.land z 255.
Proof. rewrite uchar_to_byte. change 255 with (Z.ones 8). by rewrite Z.land_ones by lia. Qed.

(** The macro computes the value of the reversed bytes. *)
Lemma bswap_64_reverses x : bswap_64 x = le_value (rev (le_bytes 8 x)).
Proof.
  unfold bswap_64.
  change 0xff00000000000000 with (Z.shiftl 255 56). change 0x00ff000000000000 with (Z.shiftl 255 48).
  change 0x0000ff0000000000 with (Z.shiftl 255 40). change 0x000000ff00000000 with (Z.shiftl 255 32).
  change 0x00000000ff000000 with (Z.shiftl 255 24). change 0x0000000000ff0000 with (Z.shiftl 255 16).
  change 0x000000000000ff00 with (Z.shiftl 255 8). change 0x00000000000000ff with (Z.shiftl 255 0).
  rewrite !mask_shiftr, !mask_shiftl by lia.
  cbn [le_bytes rev app]. rewrite !le_value_cons, !uchar_to_byte_land. cbn [le_value].
  change 256 with (2 ^ 8). rewrite <- !Z.shiftr_div_pow2 by lia.
  rewrite !Z.shiftr_shiftr, !Z.shiftl_lor, !Z.shiftl_shiftl by lia.
  rewrite Z.shiftl_0_l, Z.lor_0_r, Z.shiftl_0_r. by rewrite Z.shiftr_0_r.
Qed.

(** The image of a swapped integer is the big-endian image. *)
Lemma le_bytes_bswap_64 x : le_bytes 8 (bswap_64 x) = be_bytes 8 x.
Proof. rewrite bswap_64_reverses. apply le_bytes_rev_value. Qed.

Lemma le_bytes_htonl x : le_bytes 4 (htonl x) = be_bytes 4 x.
Proof. apply le_bytes_rev_value. Qed.

Lemma le_bytes_htons x : le_bytes 2 (htons x) = be_bytes 2 x.
Proof. apply le_bytes_rev_value. Qed.

(** Reading back a big-endian image, as [PeekInt64] does: the signed conversion
    of the loaded word does not change its bytes. *)
Lemma le_bytes_i64 x : le_bytes 8 (i64 x) = le_bytes 8 x.
Proof.
  rewrite <- (le_bytes_mod 8 (i64 x)), <- (le_bytes_mod 8 x). f_equal. unfold i64.
  change (256 ^ Z.of_nat 8) with (2 ^ 64).
  rewrite Zminus_mod_idemp_l. f_equal. lia.
Qed.

Lemma le_bytes_i32 x : le_bytes 4 (i32 x) = le_bytes 4 x.
Proof.
  rewrite <- (le_bytes_mod 4 (i32 x)), <- (le_bytes_mod 4 x). f_equal. unfold i32.
  change (256 ^ Z.of_nat 4) with (2 ^ 32).
  rewrite Zminus_mod_idemp_l. f_equal. lia.
Qed.

Lemma le_bytes_i16 x : le_bytes 2 (i16 x) = le_bytes 2 x.
Proof.
  rewrite <- (le_bytes_mod 2 (i16 x)), <- (le_bytes_mod 2 x). f_equal. unfold i16.
  change (256 ^ Z.of_nat 2) with (2 ^ 16).
  rewrite Zminus_mod_idemp_l. f_equal. lia.
Qed.

Lemma bswap_64_load l : List.length l = 8%nat -> bswap_64 (i64 (le_value l)) = le_value (rev l).
Proof.
  intros Hl. rewrite bswap_64_reverses, le_bytes_i64, <- Hl. by rewrite le_bytes_value.
Qed.

Lemma ntohl_load l : List.length l = 4%nat -> ntohl (i32 (le_value l)) = le_value (rev l).
Proof.
  intros Hl. unfold ntohl, htonl. rewrite le_bytes_i32, <- Hl. by rewrite le_bytes_value.
Qed.

Lemma ntohs_load l : List.length l = 2%nat -> ntohs (i16 (le_value l)) = le_value (rev l).
Proof.
  intros Hl. unfold ntohs, htons. rewrite le_bytes_i16, <- Hl. by rewrite le_bytes_value.
Qed.

(** The value of [n] bytes in network order. *)
Definition be_value (l : bytes) : Z := le_value (rev l).

Lemma be_value_be_bytes n x : be_value (be_bytes n x) = x mod 256 ^ Z.of_nat n.
Proof. unfold be_value, be_bytes. rewrite rev_involutive. apply le_value_bytes. Qed.
