(* ===== verification/BufferSpec.v ===== *)
(** * What a buffer promises: a queue of bytes

    The abstract specification of evk/buffer.h is a byte queue.  [op] lists the
    operations whose effect depends on the readable bytes only; [spec_op] is
    what each does to the queue, [exec_op] runs the code.  The refinement theorem
    says that any sequence of these operations on a new buffer returns what the queue
    returns, fails where the queue's precondition fails, and keeps the capacity
    linear in the bytes asked for.  [Prepend], [UnreadBytes], [WriteBytes] and [Swap]
    are not operations of a queue: what they do depends on the room before and after
    the readable bytes, or on another buffer ([Prepend] is in BufferIO.v). *)

From S2P Require Import Prelude Bytes Slice Buffer BufferFacts Swap.

Inductive op :=
  | OWrite (d : bytes) | OSkip (n : Z) | OTruncate (n : Z) | OReset
  | OReserve (n : Z) | OEnsureWritable (n : Z) | OToText | OShrink (n : Z)
  | OUnwrite (n : Z)
  | ONextString (n : Z) | ONextAllString | OToString | OReadByte
  | OAppendInt64 (x : Z) | OAppendInt32 (x : Z) | OAppendInt16 (x : Z) | OAppendInt8 (x : Z)
  | OReadInt64 | OReadInt32 | OReadInt16 | OReadInt8
  | OPeekInt64 | OPeekInt32 | OPeekInt16 | OPeekInt8
  | OFindCRLF | OFindEOL | OLength
  | OReadFromFD (a : readv_answer).   (* the answer that readv(2) gives *)

(** What an operation returns; a pointer is its distance from [data()]. *)
Inductive out :=
  | Done | Bytes (l : bytes) | Int (z : Z) | Pointer (p : option Z) | Received (n : Z) (saved_errno : option Z).

(** ** The specification *)

Definition spec_int (n : nat) (conv : Z -> Z) (c : bytes) : result (bytes * out) :=
  if (n <=? List.length c)%nat then Ok (drop n c, Int (conv (be_value (take n c))))
  else Err AssertFail.

Definition spec_op (o : op) (c : bytes) : result (bytes * out) :=
  match o with
  | OWrite d => Ok (c ++ d, Done)
  | OSkip n => Ok (drop (Z.to_nat n) c, Done)
  | OTruncate n => Ok (take (Z.to_nat n) c, Done)
  | OReset => Ok ([], Done)
  | OReserve _ | OEnsureWritable _ | OToText | OShrink _ => Ok (c, Done)
  | OUnwrite n => if Z.of_nat (List.length c) <? n then Err AssertFail
                  else Ok (take (Z.to_nat (Z.of_nat (List.length c) - n)) c, Done)
  | ONextString n => Ok (drop (Z.to_nat n) c, Bytes (take (Z.to_nat n) c))
  | ONextAllString => Ok ([], Bytes c)
  | OToString => Ok (c, Bytes c)
  | OReadByte => match c with [] => Err AssertFail | x :: c' => Ok (c', Bytes [x]) end
  | OAppendInt64 x => Ok (c ++ be_bytes 8 x, Done)
  | OAppendInt32 x => Ok (c ++ be_bytes 4 x, Done)
  | OAppendInt16 x => Ok (c ++ be_bytes 2 x, Done)
  | OAppendInt8 x => Ok (c ++ [to_byte x], Done)
  | OReadInt64 => spec_int 8 i64 c
  | OReadInt32 => spec_int 4 i32 c
  | OReadInt16 => spec_int 2 i16 c
  | OReadInt8 => spec_int 1 i8 c
  | OPeekInt64 => '(_, v) ← spec_int 8 i64 c; Ok (c, v)
  | OPeekInt32 => '(_, v) ← spec_int 4 i32 c; Ok (c, v)
  | OPeekInt16 => '(_, v) ← spec_int 2 i16 c; Ok (c, v)
  | OPeekInt8 => '(_, v) ← spec_int 1 i8 c; Ok (c, v)
  | OFindCRLF => let k := std_search c kCRLF in
                 Ok (c, Pointer (if k =? Z.of_nat (List.length c) then None else Some k))
  | OFindEOL => Ok (c, Pointer (memchr c x0a))
  | OLength => Ok (c, Int (Z.of_nat (List.length c)))
  | OReadFromFD a =>
      Ok (c ++ rv_data a, Received (rv_n a) (if rv_n a <? 0 then Some (rv_errno a) else None))
  end.

(** The bytes of room an operation may ask for. *)
Definition demand (o : op) : Z :=
  match o with
  | OWrite d => Z.of_nat (List.length d)
  | OReserve n | OEnsureWritable n | OShrink n => n
  | OToText | OAppendInt8 _ => 1
  | OAppendInt64 _ => 8 | OAppendInt32 _ => 4 | OAppendInt16 _ => 2
  | OReadFromFD a => Z.of_nat (List.length (rv_data a))
  | _ => 0
  end.

(** Arguments that are values of [size_t] (below 2^63 for [Truncate], whose sum
    would wrap; see [Truncate_wraps]).  readv(2) fails, or stores no more than
    [ReadFromFD] has room for, whatever the buffer: the 64 KiB of its stack buffer. *)
Definition valid_op (o : op) : Prop :=
  match o with
  | OSkip n | OReserve n | OEnsureWritable n | OShrink n | ONextString n | OUnwrite n => in_u64 n
  | OTruncate n => 0 <= n < 2 ^ 63
  | OReadFromFD a => (rv_n a = -1 /\ rv_data a = []) \/
                     (rv_n a = Z.of_nat (List.length (rv_data a)) /\ rv_n a <= 65536)
  | _ => True
  end.

Fixpoint spec_all (l : list op) (c : bytes) : result (bytes * list out) :=
  match l with
  | [] => Ok (c, [])
  | o :: l' => '(c1, v) ← spec_op o c; '(c2, vs) ← spec_all l' c1; Ok (c2, v :: vs)
  end.

Definition total_demand (l : list op) : Z := foldr (fun o n => demand o + n) 0 l.

(** ** The implementation's runs *)

Section Run.
Context (junk : nat -> byte).

Definition done (r : result Buffer) : result (Buffer * out) := b ← r; Ok (b, Done).
Definition int (r : result (Z * Buffer)) : result (Buffer * out) :=
  '(z, b) ← r; Ok (b, Int z).
Definition str (r : result (bytes * Buffer)) : result (Buffer * out) :=
  '(l, b) ← r; Ok (b, Bytes l).

Definition exec_op (o : op) (b : Buffer) : result (Buffer * out) :=
  match o with
  | OWrite d => done (Write junk d b)
  | OSkip n => done (Skip n b)
  | OTruncate n => Ok (Truncate n b, Done)
  | OReset => Ok (Reset b, Done)
  | OReserve n => done (Reserve junk n b)
  | OEnsureWritable n => done (EnsureWritableBytes junk n b)
  | OToText => done (ToText junk b)
  | OShrink n => done (Shrink junk n b)
  | OUnwrite n => done (UnwriteBytes n b)
  | ONextString n => str (NextString n b)
  | ONextAllString => str (NextAllString b)
  | OToString => l ← ToString b; Ok (b, Bytes l)
  | OReadByte => '(c, b') ← ReadByte b; Ok (b', Bytes [c])
  | OAppendInt64 x => done (AppendInt64 junk x b)
  | OAppendInt32 x => done (AppendInt32 junk x b)
  | OAppendInt16 x => done (AppendInt16 junk x b)
  | OAppendInt8 x => done (AppendInt8 junk x b)
  | OReadInt64 => int (ReadInt64 b)
  | OReadInt32 => int (ReadInt32 b)
  | OReadInt16 => int (ReadInt16 b)
  | OReadInt8 => int (ReadInt8 b)
  | OPeekInt64 => z ← PeekInt64 b; Ok (b, Int z)
  | OPeekInt32 => z ← PeekInt32 b; Ok (b, Int z)
  | OPeekInt16 => z ← PeekInt16 b; Ok (b, Int z)
  | OPeekInt8 => z ← PeekInt8 b; Ok (b, Int z)
  | OFindCRLF => p ← FindCRLF b; Ok (b, Pointer (Z.add (- read_index_ b) <$> p))
  | OFindEOL => p ← FindEOL b; Ok (b, Pointer (Z.add (- read_index_ b) <$> p))
  | OLength => n ← Buffer_length b; Ok (b, Int n)
  | OReadFromFD a => '(n, e, b') ← ReadFromFD junk (fun _ => a) b; Ok (b', Received n e)
  end.

Fixpoint exec_all (l : list op) (b : Buffer) : result (Buffer * list out) :=
  match l with
  | [] => Ok (b, [])
  | o :: l' => '(b1, v) ← exec_op o b; '(b2, vs) ← exec_all l' b1; Ok (b2, v :: vs)
  end.
End Run.

(** ** Reading integers *)

Lemma peek_with n conv (load : bytes -> Z) b :
  wf b ->
  (forall l, List.length l = n -> load l = conv (be_value l)) ->
  (l ← Buffer_length b; _ ← assert (l >=? Z.of_nat n);
   m ← mem_read (data b) 0 (Z.of_nat n); Ok (load m)) =
  if (n <=? List.length (content b))%nat then Ok (conv (be_value (take n (content b))))
  else Err AssertFail.
Proof.
  intros Hw Hl. rewrite Buffer_length_ok by done. simpl. unfold len.
  destruct (Nat.leb_spec n (List.length (content b))).
  - rewrite assert_true by blia. simpl. rewrite read_data by (done || (unfold len; lia)).
    simpl. rewrite Nat2Z.id, Hl; [done|]. rewrite length_take. lia.
  - by replace (_ >=? _) with false by blia.
Qed.

Lemma PeekInt64_eq b : wf b ->
  PeekInt64 b = if (8 <=? List.length (content b))%nat
    then Ok (i64 (be_value (take 8 (content b)))) else Err AssertFail.
Proof.
  intros. apply (peek_with 8 i64 (fun m => i64 (bswap_64 (i64 (le_value m))))); [done|].
  intros. by rewrite bswap_64_load.
Qed.

Lemma PeekInt32_eq b : wf b ->
  PeekInt32 b = if (4 <=? List.length (content b))%nat
    then Ok (i32 (be_value (take 4 (content b)))) else Err AssertFail.
Proof.
  intros. apply (peek_with 4 i32 (fun m => i32 (ntohl (i32 (le_value m))))); [done|].
  intros. by rewrite ntohl_load.
Qed.

Lemma PeekInt16_eq b : wf b ->
  PeekInt16 b = if (2 <=? List.length (content b))%nat
    then Ok (i16 (be_value (take 2 (content b)))) else Err AssertFail.
Proof.
  intros. apply (peek_with 2 i16 (fun m => i16 (ntohs (i16 (le_value m))))); [done|].
  intros. by rewrite ntohs_load.
Qed.

Lemma PeekInt8_eq b : wf b ->
  PeekInt8 b = if (1 <=? List.length (content b))%nat
    then Ok (i8 (be_value (take 1 (content b)))) else Err AssertFail.
Proof.
  intros. apply (peek_with 1 i8 (fun m => i8 (le_value m))); [done|].
  intros [|x [|]]; try discriminate. done.
Qed.

Lemma ReadByte_eq b : wf b ->
  match content b with
  | [] => ReadByte b = Err AssertFail
  | x :: c => exists b', ReadByte b = Ok (x, b') /\ wf b' /\ content b' = c /\ same_store b b'
  end.
Proof.
  intros Hw. pose proof (len_eq b Hw) as Hl. unfold ReadByte. rewrite Buffer_length_ok by done.
  simpl. unfold len in *. destruct (content b) as [|x c] eqn:E; [done|]. simpl in *.
  rewrite assert_true by blia. simpl.
  assert (buffer_ b !! Z.to_nat (read_index_ b) = Some x) as Hx.
  { assert (content b !! 0%nat = Some x) as Hx by by rewrite E.
    unfold content in Hx. rewrite lookup_sub in Hx. case_decide; [|done].
    rewrite <- Hx. f_equal. lia. }
  rewrite Hx. simpl. eexists; split; [done|].
  rewrite u64_id by (destruct Hw; unfold in_u64; lia).
  rewrite content_set_read by (done || (unfold len; rewrite E; simpl; lia)).
  rewrite E. split_and!; try done. apply wf_set_read; [done|]. destruct Hw. lia.
Qed.

Lemma Buffer_new_spec junk n r :
  0 <= n -> 0 <= r -> n + r < 2 ^ 62 ->
  exists b, Buffer_new junk n r = Ok b /\ wf b /\ content b = [] /\
    capacity_ b = r + n /\ reserved_prepend_size_ b = r /\ read_index_ b = r /\
    write_index_ b = r.
Proof.
  intros. unfold Buffer_new, PrependableBytes. u64_simpl.
  set (b := mkBuffer _ _ _ _ _).
  assert (wf b) as Hw by (split; simpl; rewrite ?length_new_char; lia).
  assert (content b = []) as Hc by (apply sub_nil; simpl; lia).
  rewrite Buffer_length_ok, WritableBytes_ok by done. unfold len. rewrite Hc. simpl.
  rewrite !assert_true by (simpl; blia). simpl. eauto 10.
Qed.

Lemma Shrink_spec junk n b :
  wf b -> 0 <= n -> 3 * (len b + n + 8) < 2 ^ 62 ->
  exists b', Shrink junk n b = Ok b' /\ wf b' /\ content b' = content b /\
    capacity_ b' = len b + n + 8 /\ reserved_prepend_size_ b' = 8.
Proof.
  intros Hw Hn Hb. pose proof (len_nonneg b). unfold Shrink, ToSlice.
  rewrite Buffer_length_ok by done. simpl. u64_simpl.
  destruct (Buffer_new_spec junk (len b + n) kCheapPrependSize)
    as (o & -> & Hwo & Hco & Hcap & Hres & Hrd & Hwr);
    try (unfold kCheapPrependSize in *; lia).
  unfold Append_slice. simpl. rewrite read_data by (done || lia).
  unfold len. rewrite Nat2Z.id, firstn_all. fold (len b). simpl. unfold kCheapPrependSize in *.
  assert (len o = 0) as Hlo by (unfold len; by rewrite Hco).
  unfold Write, EnsureWritableBytes. fold (len b). rewrite (u64_id (len b)) by (unfold in_u64; lia).
  rewrite WritableBytes_ok by done. simpl. replace (_ <? len b) with false by blia. simpl.
  rewrite WritableBytes_ok by done. simpl. rewrite assert_true by blia. simpl.
  destruct Hwo as [Hblk [? ?] ? ?].
  rewrite memcpy_ok by (unfold len in *; lia). simpl.
  rewrite Hwr. u64_simpl. rewrite assert_true by blia. simpl.
  eexists; split; [done|]. unfold Swap, set_write, set_block. simpl.
  rewrite Hrd, Hres, (Z.add_comm 8 (len b)).
  destruct (placed_spec (buffer_ o) (capacity_ o) 8 (content b) (len b + 8)); try done; try lia.
  split_and!; try done. lia.
Qed.

(** ** Reading from a descriptor *)

(** What [readv(2)] promises for a vector of block sizes: an error, or the number
    of bytes it stored, at most the sum of the sizes. *)
Definition readv_contract (vec : list Z) (a : readv_answer) : Prop :=
  (rv_n a = -1 /\ rv_data a = []) \/
  (rv_n a = Z.of_nat (List.length (rv_data a)) /\ rv_n a <= foldr Z.add 0 vec).

Lemma ReadFromFD_fill b (d : bytes) :
  wf b -> Z.of_nat (List.length d) <= capacity_ b - write_index_ b ->
  let b' := set_write (set_block b (splice (buffer_ b) (write_index_ b) d))
              (write_index_ b + Z.of_nat (List.length d)) in
  wf b' /\ content b' = content b ++ d.
Proof.
  intros Hw Hd b'. destruct Hw as [? [? ?] ? ?]. split.
  - split; simpl; rewrite ?length_splice by lia; lia.
  - unfold content; simpl.
    replace (write_index_ b + Z.of_nat (List.length d) - read_index_ b)
      with ((write_index_ b - read_index_ b) + Z.of_nat (List.length d)) by lia.
    rewrite sub_add, sub_splice_before by lia. f_equal.
    replace (read_index_ b + (write_index_ b - read_index_ b)) with (write_index_ b) by lia.
    apply sub_splice_same. lia.
Qed.

(** The vector [ReadFromFD] passes: the writable bytes, and the stack buffer
    unless the writable bytes are at least as many. *)
Definition read_vec (b : Buffer) : list Z :=
  let w := capacity_ b - write_index_ b in if w <? 65536 then [w; 65536] else [w].

Lemma read_vec_total b :
  0 <= capacity_ b - write_index_ b ->
  65536 <= foldr Z.add 0 (read_vec b) <= capacity_ b - write_index_ b + 65536.
Proof. intros. unfold read_vec. destruct (_ <? 65536) eqn:E; bsimpl; simpl; lia. Qed.

(** What [ReadFromFD] does with the answer of readv(2). *)
Lemma ReadFromFD_grown junk (readv : list Z -> readv_answer) (b : Buffer) :
  let a := readv (read_vec b) in
  wf b -> readv_contract (read_vec b) a ->
  3 * (len b + Z.of_nat (List.length (rv_data a)) + reserved_prepend_size_ b) < 2 ^ 62 ->
  exists b', ReadFromFD junk readv b =
      Ok (rv_n a, if rv_n a <? 0 then Some (rv_errno a) else None, b') /\
    wf b' /\ content b' = content b ++ rv_data a /\
    grown (Z.of_nat (List.length (rv_data a))) b b' /\ reserved_prepend_size_ b' = reserved_prepend_size_ b.
Proof.
  intros a Hw Hrv Hb. pose proof (len_eq b Hw) as Hlen. pose proof Hw as [? [? ?] ? ?].
  pose proof (read_vec_total b ltac:(lia)) as Hsum. unfold ReadFromFD.
  rewrite WritableBytes_ok by done. simpl.
  set (w := capacity_ b - write_index_ b) in *.
  change (if w <? 65536 then [w; 65536] else [w]) with (read_vec b). subst a.
  destruct (readv (read_vec b)) as [n d e]. unfold readv_contract in Hrv. simpl in *.
  destruct (ReadFromFD_fill b (take (Z.to_nat w) d) Hw) as [Hw1 Hc1]; [rewrite length_take; lia|].
  rewrite memcpy_ok by (rewrite ?length_take; lia). simpl.
  destruct Hrv as [[-> ->]|[Hn Hle]].
  { rewrite take_nil, splice_nil. simpl. eexists; split; [done|].
    unfold set_block, grown. destruct b; simpl in *. rewrite app_nil_r. split_and!; try done; lia. }
  replace (n <? 0) with false by blia. u64_simpl.
  destruct (n <=? w) eqn:E; bsimpl; simpl.
  - rewrite take_ge in Hw1, Hc1 |- * by lia. rewrite Hn. u64_simpl.
    eexists; split; [done|]. unfold grown. simpl. split_and!; try done; lia.
  - rewrite length_take, Nat.min_l in Hw1, Hc1 by lia.
    replace (write_index_ b + Z.of_nat (Z.to_nat w)) with (capacity_ b) in Hw1, Hc1 by lia.
    rewrite mem_read_ok by (rewrite ?length_drop; lia). simpl.
    replace (sub (drop (Z.to_nat w) d) 0 (n - w)) with (drop (Z.to_nat w) d)
      by (unfold sub; simpl; rewrite drop_0, take_ge by (rewrite ?length_drop; lia); done).
    match type of Hw1 with wf ?b1 =>
      destruct (Write_spec junk (drop (Z.to_nat w) d) b1 Hw1) as (b2 & E2 & ? & Hc2 & Hg & Hr);
        pose proof (len_eq b1 Hw1) as Hl1 end.
    { rewrite len_eq by done. simpl. rewrite length_drop. lia. }
    unfold Append. rewrite E2. simpl. eexists; split; [done|]. split; [done|]. split.
    + rewrite Hc2, Hc1, <- app_assoc. by rewrite take_drop.
    + unfold grown in *. rewrite Hl1, length_drop in Hg. simpl in *. split; [|done]. lia.
Qed.

Lemma ReadFromFD_spec junk (readv : list Z -> readv_answer) (b : Buffer) :
  wf b -> readv_contract (read_vec b) (readv (read_vec b)) ->
  3 * (capacity_ b + 65536 + reserved_prepend_size_ b) < 2 ^ 62 ->
  let a := readv (read_vec b) in
  exists b', ReadFromFD junk readv b =
      Ok (rv_n a, if rv_n a <? 0 then Some (rv_errno a) else None, b') /\
    wf b' /\ content b' = content b ++ rv_data a.
Proof.
  intros Hw Hrv Hb a. pose proof (len_eq b Hw). pose proof Hw as [? [? ?] ? ?].
  pose proof (read_vec_total b ltac:(lia)) as Hsum.
  destruct (ReadFromFD_grown junk readv b Hw Hrv) as (b' & ? & ? & ? & _); [|by exists b'].
  fold a in Hrv |- *. destruct Hrv as [[_ ->]|[Hn Hle]]; simpl; lia.
Qed.

(** ** Searching *)

Lemma FindCRLF_eq b : wf b ->
  FindCRLF b = Ok (let k := std_search (content b) kCRLF in
    if k =? Z.of_nat (List.length (content b)) then None else Some (read_index_ b + k)).
Proof.
  intros Hw. pose proof (len_eq b Hw) as Hl. unfold FindCRLF, find_crlf_from.
  rewrite read_block by (done || lia). simpl. unfold len in Hl. do 2 f_equal.
  destruct (_ =? write_index_ b) eqn:E1, (_ =? Z.of_nat _) eqn:E2; bsimpl; try done; lia.
Qed.

Lemma FindEOL_eq b : wf b -> FindEOL b = Ok (Z.add (read_index_ b) <$> memchr (content b) x0a).
Proof.
  intros Hw. pose proof (len_eq b Hw) as Hl. unfold FindEOL. rewrite Buffer_length_ok by done. simpl.
  by rewrite Hl, read_block.
Qed.

Lemma shift_back (k : Z) (o : option Z) : Z.add (- k) <$> (Z.add k <$> o) = o.
Proof. destruct o; simpl; [|done]. f_equal. lia. Qed.

(** ** One operation refines the queue *)

(** The capacity stays below [K], the reserve below [R]. *)
Definition fits (K R : Z) (b : Buffer) : Prop :=
  capacity_ b <= K /\ Z.max (reserved_prepend_size_ b) 8 <= R.

(** [r] does to the buffer what the queue's answer [s] says. *)
Definition refines (K R : Z) (s : result (bytes * out)) (r : result (Buffer * out)) : Prop :=
  match s with
  | Ok (c, v) => exists b', r = Ok (b', v) /\ wf b' /\ content b' = c /\ fits K R b'
  | Err f => r = Err f
  end.

Lemma fits_same_store K R b b' : fits K R b -> same_store b b' -> fits K R b'.
Proof. unfold fits, same_store. intros [??] [-> ->]. done. Qed.

Lemma fits_grown K R k b b' :
  fits K R b -> 3 * (len b + k + R) <= K -> grown k b b' ->
  reserved_prepend_size_ b' = reserved_prepend_size_ b -> fits K R b'.
Proof. unfold fits, grown. intros [??] ? ? ->. lia. Qed.

#[local] Hint Resolve fits_same_store fits_grown : evk.

Section Refinement.
Context (junk : nat -> byte) (K R : Z) (HK : K < 2 ^ 62).

Lemma refines_write d b c :
  wf b -> fits K R b -> 3 * (len b + Z.of_nat (List.length d) + R) <= K ->
  c = content b ++ d -> refines K R (Ok (c, Done)) (done (Write junk d b)).
Proof.
  intros Hw Hf Hb ->. destruct (Write_spec junk d b) as (b' & E & ? & ? & ? & ?);
    [done | unfold fits in Hf; lia |].
  unfold done. rewrite E. simpl. eauto 10 with evk.
Qed.

(** A conversion of the first [n] bytes followed by [Skip n]. *)
Lemma refines_read n conv (peek : Buffer -> result Z) b :
  wf b -> fits K R b ->
  peek b = (if (n <=? List.length (content b))%nat
            then Ok (conv (be_value (take n (content b)))) else Err AssertFail) ->
  refines K R (spec_int n conv (content b))
    (int (r ← peek b; b' ← Skip (Z.of_nat n) b; Ok (r, b'))).
Proof.
  intros Hw Hf Hp. unfold spec_int. rewrite Hp. destruct (_ <=? _)%nat; [|done].
  destruct (Skip_spec (Z.of_nat n) b) as (b' & E & ? & Hc & ?); [done | lia |].
  simpl. rewrite E. rewrite Nat2Z.id in Hc. simpl. eauto 10 with evk.
Qed.

Lemma refines_peek n conv (peek : Buffer -> result Z) b :
  wf b -> fits K R b ->
  peek b = (if (n <=? List.length (content b))%nat
            then Ok (conv (be_value (take n (content b)))) else Err AssertFail) ->
  refines K R ('(_, v) ← spec_int n conv (content b); Ok (content b, v)) (z ← peek b; Ok (b, Int z)).
Proof. intros Hw Hf Hp. unfold spec_int. rewrite Hp. destruct (_ <=? _)%nat; simpl; eauto 10. Qed.

Lemma ToText_refines b :
  wf b -> fits K R b -> 3 * (len b + 1 + R) <= K ->
  refines K R (Ok (content b, Done)) (done (ToText junk b)).
Proof.
  intros Hw Hf Hb. unfold ToText, AppendInt8.
  destruct (Write_spec junk (le_bytes 1 0) b) as (b1 & E & Hw1 & Hc1 & Hg & Hr);
    [done | unfold fits in Hf; simpl; lia |].
  rewrite E. simpl.
  assert (len b1 = len b + 1) as Hl.
  { unfold len. rewrite Hc1, length_app. simpl. lia. }
  destruct (UnwriteBytes_spec 1 b1) as (b2 & E2 & ? & Hc2 & ?); [done | unfold len in *; lia |].
  unfold done. rewrite E2. simpl. exists b2. split_and!; eauto using fits_same_store, fits_grown.
  rewrite Hc2, Hc1, Hl. rewrite take_app_le by (unfold len; lia).
  apply take_ge. unfold len. lia.
Qed.

Lemma exec_op_refines o b :
  wf b -> fits K R b -> valid_op o -> 3 * (len b + demand o + R) <= K ->
  refines K R (spec_op o (content b)) (exec_op junk o b).
Proof.
  intros Hw Hf Hv Hb.
  assert (3 * (len b + demand o + reserved_prepend_size_ b) < 2 ^ 62) as Hb'
    by (unfold fits in Hf; lia).
  destruct o as [d|n|n| |n|n| |n|n|n| | | |x|x|x|x| | | | | | | | | | | |a];
    cbn [exec_op spec_op]; cbn [demand valid_op] in *; unfold in_u64 in *;
    try (eapply refines_write; [done..|]; try done;
         by rewrite ?length_be_bytes, ?le_bytes_bswap_64, ?le_bytes_htonl, ?le_bytes_htons);
    try (apply refines_read; auto using PeekInt64_eq, PeekInt32_eq, PeekInt16_eq, PeekInt8_eq);
    try (by apply refines_peek; auto using PeekInt64_eq, PeekInt32_eq, PeekInt16_eq, PeekInt8_eq).
  - destruct (Skip_spec n b) as (b' & E & ? & ? & ?); [done | lia |].
    unfold done. rewrite E. simpl. eauto 10 with evk.
  - destruct (Truncate_spec n b) as (? & ? & ?); [done | lia.. |].
    simpl. eauto 10 with evk.
  - destruct (Reset_spec b) as (? & ? & ?); [done|]. simpl. eauto 10 with evk.
  - destruct (Reserve_spec junk n b) as (b' & E & ? & ? & ? & ? & ?); [done | lia.. |].
    unfold done. rewrite E. simpl. eauto 10 with evk.
  - destruct (EnsureWritableBytes_spec junk n b) as (b' & E & ? & ? & ? & ? & ?); [done | lia.. |].
    unfold done. rewrite E. simpl. eauto 10 with evk.
  - by apply ToText_refines.
  - destruct (Shrink_spec junk n b) as (b' & E & ? & ? & Hcap & Hres);
      [done | lia | unfold fits in Hf; lia |].
    unfold done. rewrite E. simpl. exists b'. split_and!; try done.
    unfold fits in *. rewrite Hcap, Hres. pose proof (len_nonneg b). lia.
  - destruct (_ <? n) eqn:E; bsimpl.
    + unfold done, UnwriteBytes. rewrite Buffer_length_ok by done. simpl.
      by replace (n <=? len b) with false by (unfold len; blia).
    + destruct (UnwriteBytes_spec n b) as (b' & E2 & ? & ? & ?); [done | unfold len; lia |].
      unfold done. rewrite E2. simpl. eauto 10 with evk.
  - destruct (Next_spec n b) as (s & b' & E & ? & Hs & ? & ?); [done | lia |].
    unfold str, NextString. rewrite E. simpl. rewrite Hs. simpl. eauto 10 with evk.
  - destruct (NextAll_spec b) as (s & b' & E & ? & Hs & ? & ?); [done|].
    unfold str, NextAllString. rewrite E. simpl. rewrite Hs. simpl. eauto 10 with evk.
  - unfold ToString. rewrite Buffer_length_ok by done. simpl.
    rewrite read_data by (done || (pose proof (len_nonneg b); lia)).
    unfold len. rewrite Nat2Z.id, firstn_all. simpl. eauto 10.
  - pose proof (ReadByte_eq b Hw) as Hr. destruct (content b) as [|x c]; [by rewrite Hr|].
    destruct Hr as (b' & E & ? & ? & ?). rewrite E. simpl. eauto 10 with evk.
  - rewrite FindCRLF_eq by done. simpl. exists b. split_and!; try done. do 3 f_equal.
    destruct (_ =? _); [done|]. simpl. f_equal. lia.
  - rewrite FindEOL_eq by done. simpl. rewrite shift_back. eauto 10.
  - rewrite Buffer_length_ok by done. simpl. eauto 10.
  - destruct (ReadFromFD_grown junk (fun _ => a) b Hw) as (b' & E & ? & ? & ? & ?).
    + destruct Hw as [? [? ?] ? ?]. pose proof (read_vec_total b ltac:(lia)). unfold readv_contract. naive_solver lia.
    + lia.
    + rewrite E. simpl. eauto 10 with evk.
Qed.

Lemma spec_op_length o c c' v :
  spec_op o c = Ok (c', v) -> 0 <= demand o ->
  Z.of_nat (List.length c') <= Z.of_nat (List.length c) + demand o.
Proof.
  intros H Hd. destruct o; cbn [spec_op demand] in *; unfold spec_int in *;
    repeat case_match; simpl in *; simplify_eq/=;
    rewrite ?length_app, ?length_drop, ?length_take, ?length_be_bytes; simpl; try lia.
Qed.

Lemma demand_nonneg o : valid_op o -> 0 <= demand o.
Proof. destruct o; simpl; unfold in_u64; lia. Qed.

Lemma total_demand_nonneg l : Forall valid_op l -> 0 <= total_demand l.
Proof.
  induction 1 as [|o l Ho _ IH]; [done|]. simpl. pose proof (demand_nonneg o Ho). lia.
Qed.

Lemma exec_all_refines l b :
  wf b -> fits K R b -> Forall valid_op l -> 3 * (len b + total_demand l + R) <= K ->
  match spec_all l (content b) with
  | Ok (c, vs) => exists b', exec_all junk l b = Ok (b', vs) /\ wf b' /\ content b' = c /\
                             fits K R b'
  | Err f => exec_all junk l b = Err f
  end.
Proof.
  intros Hw Hf Hv. revert b Hw Hf. induction Hv as [|o l Ho Hv IH]; intros b Hw Hf Hb.
  { simpl. eauto 10. }
  pose proof (demand_nonneg o Ho). pose proof (total_demand_nonneg l Hv). simpl in Hb.
  pose proof (exec_op_refines o b Hw Hf Ho ltac:(lia)) as Hs.
  cbn [spec_all exec_all]. destruct (spec_op o (content b)) as [[c v]|f] eqn:E; simpl in Hs.
  - destruct Hs as (b' & Hrun & Hw' & Hc & Hf'). rewrite Hrun. simpl.
    pose proof (spec_op_length _ _ _ _ E ltac:(lia)) as Hl. rewrite <- Hc in *.
    specialize (IH b' Hw' Hf' ltac:(unfold len in *; lia)).
    destruct (spec_all l (content b')) as [[c2 vs]|f]; simpl.
    + destruct IH as (b2 & E2 & ? & ? & ?). rewrite E2. simpl. eauto 10.
    + by rewrite IH.
  - by rewrite Hs.
Qed.
End Refinement.

(** [C7] A buffer refines a byte queue.  From a new buffer, any sequence of the
    operations of [op], those whose effect depends on the readable bytes only, with
    [size_t] arguments returns exactly what the queue returns, fails exactly where
    the queue's preconditions fail (and with that fault: [ReadByte] too aborts on an
    empty buffer, whatever its comment says), keeps the index invariant, and never
    lets the capacity exceed three times the bytes asked for plus the reserve (or the
    initial capacity): no [size_t] overflow, no access outside the block and no
    failing internal assertion on the way.  [K] is that bound, below a quarter of the
    address space. *)
Theorem buffer_refines_queue (junk : nat -> byte) (initial_size reserved K : Z) (ops : list op) :
  0 <= initial_size -> 0 <= reserved -> Forall valid_op ops ->
  K = Z.max (reserved + initial_size) (3 * (total_demand ops + Z.max reserved 8)) ->
  K < 2 ^ 62 ->
  exists b0, Buffer_new junk initial_size reserved = Ok b0 /\
    match spec_all ops [] with
    | Ok (c, vs) => exists b, exec_all junk ops b0 = Ok (b, vs) /\ wf b /\ content b = c /\
                              capacity_ b <= K
    | Err f => exec_all junk ops b0 = Err f
    end.
Proof.
  intros Hi Hr Hv -> HK.
  destruct (Buffer_new_spec junk initial_size reserved) as (b0 & E & Hw & Hc & Hcap & Hres & _);
    [lia.. |].
  exists b0. split; [done|].
  pose proof (exec_all_refines junk _ (Z.max reserved 8) HK ops b0 Hw) as H.
  assert (len b0 = 0) as Hl by (unfold len; by rewrite Hc).
  rewrite Hc in H. specialize (H ltac:(unfold fits; rewrite Hcap, Hres; lia) Hv ltac:(lia)).
  destruct (spec_all ops []) as [[c vs]|f]; [|done].
  destruct H as (b & ? & ? & ? & [? _]). eauto 10.
Qed.

Lemma buffer_refines_queue_witness :
  let ops := [OWrite [x01; x02; x03]; OAppendInt32 (-5); OSkip 2; OAppendInt64 258;
              OToText; OReadByte; OPeekInt32; OReadInt32; OShrink 3; OReadInt64;
              OReadFromFD {| rv_n := 4; rv_data := [x61; x0d; x0a; x62]; rv_errno := 0 |};
              OFindCRLF; OFindEOL; OSkip 3; OLength; OReadByte; OReadByte] in
  spec_all (removelast ops) [] =
    Ok ([], [Done; Done; Done; Done; Done; Bytes [x03]; Int (-5); Int (-5); Done; Int 258;
             Received 4 None; Pointer (Some 1); Pointer (Some 2); Done; Int 1; Bytes [x62]]) /\
  exists b0, Buffer_new (fun _ => xff) 4 2 = Ok b0 /\
    match spec_all ops [] with
    | Ok (c, vs) => exists b, exec_all (fun _ => xff) ops b0 = Ok (b, vs) /\ wf b /\
                              content b = c /\ capacity_ b <= 93
    | Err f => exec_all (fun _ => xff) ops b0 = Err f
    end.
Proof.
  split; [vm_compute; reflexivity|].
  apply (buffer_refines_queue (fun _ => xff) 4 2 93).
  - lia.
  - lia.
  - repeat constructor; try (right; split); vm_compute; intuition congruence.
  - vm_compute. reflexivity.
  - vm_compute. reflexivity.
Defined.
