(* ===== verification/BufferIO.v ===== *)
(** * Buffers at their boundaries

    Length-prefix framing ([PrependInt*] then [ReadInt*]), reading from a file
    descriptor, searching for line ends, and two places where evk/buffer.h does
    not do what its comments say. *)

From S2P Require Import Prelude Bytes Slice Buffer BufferFacts Swap BufferSpec.

(** ** Framing *)

Lemma read_prepended n d conv (peek : Buffer -> result Z) (b : Buffer) :
  wf b -> List.length d = n -> Z.of_nat n <= read_index_ b ->
  (forall b, wf b -> peek b = if (n <=? List.length (content b))%nat
     then Ok (conv (be_value (take n (content b)))) else Err AssertFail) ->
  exists b', (b1 ← Prepend d b; r ← peek b1; b2 ← Skip (Z.of_nat n) b1; Ok (r, b2))
             = Ok (conv (be_value d), b') /\ wf b' /\ content b' = content b.
Proof.
  intros Hw Hl Hn Hp. destruct (Prepend_spec d b) as (b1 & E & Hw1 & Hc1 & _ & _);
    [done | lia |].
  rewrite E. simpl. rewrite Hp, Hc1 by done. rewrite length_app.
  replace (n <=? _)%nat with true by (symmetry; apply Nat.leb_le; lia). simpl.
  destruct (Skip_spec (Z.of_nat n) b1) as (b2 & E2 & Hw2 & Hc2 & _); [done | lia |].
  rewrite E2. simpl. rewrite take_app_length' by done. eexists; split; [done|].
  split; [done|]. rewrite Hc2, Hc1, Nat2Z.id. by rewrite drop_app_length'.
Qed.

(** Reading back the big-endian image of [x] gives [x] at the read's width. *)
Lemma read_prepended_int n conv (peek : Buffer -> result Z) (b : Buffer) x :
  wf b -> Z.of_nat n <= read_index_ b ->
  (forall b, wf b -> peek b = if (n <=? List.length (content b))%nat
     then Ok (conv (be_value (take n (content b)))) else Err AssertFail) ->
  conv (x mod 256 ^ Z.of_nat n) = conv x ->
  exists b', (b1 ← Prepend (be_bytes n x) b; r ← peek b1; b2 ← Skip (Z.of_nat n) b1; Ok (r, b2))
             = Ok (conv x, b') /\ wf b' /\ content b' = content b.
Proof.
  intros Hw Hn Hp Hc. destruct (read_prepended n (be_bytes n x) conv peek b) as (b' & E & ? & ?);
    auto using length_be_bytes.
  exists b'. split; [|done]. rewrite be_value_be_bytes, Hc in E. exact E.
Qed.

Lemma i64_mod x : i64 (x mod 256 ^ Z.of_nat 8) = i64 x.
Proof. unfold i64. change (256 ^ Z.of_nat 8) with (2 ^ 64). by rewrite Zplus_mod_idemp_l. Qed.
Lemma i32_mod x : i32 (x mod 256 ^ Z.of_nat 4) = i32 x.
Proof. unfold i32. change (256 ^ Z.of_nat 4) with (2 ^ 32). by rewrite Zplus_mod_idemp_l. Qed.
Lemma i16_mod x : i16 (x mod 256 ^ Z.of_nat 2) = i16 x.
Proof. unfold i16. change (256 ^ Z.of_nat 2) with (2 ^ 16). by rewrite Zplus_mod_idemp_l. Qed.
Lemma i8_mod x : i8 (x mod 256 ^ Z.of_nat 1) = i8 x.
Proof. unfold i8. change (256 ^ Z.of_nat 1) with (2 ^ 8). by rewrite Zplus_mod_idemp_l. Qed.

(** [C35] Length-prefix framing round-trips at every width: an integer prepended
    in network order into the prependable room is the integer that is read back,
    and the contents behind it are untouched. *)
Theorem prepend_read_roundtrip (b : Buffer) (x : Z) :
  wf b -> 8 <= read_index_ b ->
  (exists b', (b1 ← PrependInt64 x b; ReadInt64 b1) = Ok (i64 x, b') /\ wf b' /\ content b' = content b) /\
  (exists b', (b1 ← PrependInt32 x b; ReadInt32 b1) = Ok (i32 x, b') /\ wf b' /\ content b' = content b) /\
  (exists b', (b1 ← PrependInt16 x b; ReadInt16 b1) = Ok (i16 x, b') /\ wf b' /\ content b' = content b) /\
  (exists b', (b1 ← PrependInt8 x b; ReadInt8 b1) = Ok (i8 x, b') /\ wf b' /\ content b' = content b).
Proof.
  intros Hw Hr.
  unfold PrependInt64, PrependInt32, PrependInt16, PrependInt8.
  rewrite le_bytes_bswap_64, le_bytes_htonl, le_bytes_htons.
  pose proof i64_mod. pose proof i32_mod. pose proof i16_mod. pose proof i8_mod. split_and!.
  - apply (read_prepended_int 8 i64 PeekInt64); auto using PeekInt64_eq.
  - apply (read_prepended_int 4 i32 PeekInt32); auto using PeekInt32_eq; lia.
  - apply (read_prepended_int 2 i16 PeekInt16); auto using PeekInt16_eq; lia.
  - apply (read_prepended_int 1 i8 PeekInt8); auto using PeekInt8_eq; lia.
Qed.

(** ** Reading from a descriptor *)

(** [C24] [ReadFromFD] appends exactly the bytes [readv] stored, in order, across
    the block and the 64 KiB stack buffer, for any amount the call may return; on
    an error it reports [errno] and leaves the contents alone.  It returns the
    call's value. *)
Theorem ReadFromFD_appends junk (readv : list Z -> readv_answer) (b : Buffer) :
  wf b -> readv_contract (read_vec b) (readv (read_vec b)) ->
  3 * (capacity_ b + 65536 + reserved_prepend_size_ b) < 2 ^ 62 ->
  let a := readv (read_vec b) in
  exists b', ReadFromFD junk readv b =
      Ok (rv_n a, if rv_n a <? 0 then Some (rv_errno a) else None, b') /\
    wf b' /\ content b' = content b ++ rv_data a.
Proof. apply ReadFromFD_spec. Qed.

(** Five bytes arrive at a buffer with room for two. *)
Lemma ReadFromFD_appends_witness :
  let b := mkBuffer [x61; x62; x00; x00] 4 0 2 0 in
  let rv := fun _ : list Z =>
    {| rv_n := 5; rv_data := [x63; x64; x65; x66; x67]; rv_errno := 0 |} in
  exists b', ReadFromFD (fun _ => x00) rv b = Ok (5, None, b') /\
    wf b' /\ content b' = content b ++ [x63; x64; x65; x66; x67].
Proof.
  intros b rv. apply (ReadFromFD_appends (fun _ => x00) rv b).
  - split; simpl; lia.
  - right. vm_compute. intuition congruence.
  - simpl. lia.
Defined.

Lemma prepend_read_roundtrip_witness :
  let b := mkBuffer (repeat x00 8 ++ [x61; x62]) 10 8 10 8 in
  (exists b', (b1 ← PrependInt32 (-2) b; ReadInt32 b1) = Ok (-2, b') /\ content b' = [x61; x62]) /\
  exists b', (b1 ← PrependInt64 (-2) b; ReadInt64 b1) = Ok (i64 (-2), b') /\ wf b' /\
    content b' = content b.
Proof.
  split; [eexists; split; vm_compute; reflexivity|].
  apply (prepend_read_roundtrip (mkBuffer (repeat x00 8 ++ [x61; x62]) 10 8 10 8) (-2)).
  - split; simpl; lia.
  - simpl. lia.
Defined.

(** ** Searching *)

(** [pat] occurs at offset [k] of [l]. *)
Definition occurs_at (pat l : bytes) (k : Z) : Prop :=
  0 <= k /\ sub l k (Z.of_nat (List.length pat)) = pat.

Lemma is_prefix_spec pat l : is_prefix pat l = true <-> take (List.length pat) l = pat.
Proof.
  revert l. induction pat as [|p pat IH]; intros [|b l]; simpl; try done.
  rewrite andb_true_iff, bool_decide_eq_true, IH. split; [by intros [-> ->] | by intros [= -> ->]].
Qed.

Lemma occurs_at_0 pat l : occurs_at pat l 0 <-> is_prefix pat l = true.
Proof.
  rewrite is_prefix_spec. unfold occurs_at, sub. rewrite Nat2Z.id. simpl. rewrite drop_0. naive_solver lia.
Qed.

Lemma occurs_at_cons pat b l k : 0 < k -> occurs_at pat (b :: l) k <-> occurs_at pat l (k - 1).
Proof.
  intros. unfold occurs_at, sub. replace (Z.to_nat k) with (S (Z.to_nat (k - 1))) by lia. simpl.
  naive_solver lia.
Qed.

(** [std::search] for a non-empty pattern. *)
Lemma std_search_spec l pat :
  pat <> [] ->
  let k := std_search l pat in
  0 <= k <= Z.of_nat (List.length l) /\
  (k = Z.of_nat (List.length l) \/ occurs_at pat l k) /\
  (forall j, occurs_at pat l j -> k <= j /\ k < Z.of_nat (List.length l)).
Proof.
  intros Hp. induction l as [|b l IH]; simpl.
  - destruct pat as [|p pat]; [done|]. simpl. split_and!; try lia. intros j [? Hj].
    unfold sub in Hj. rewrite drop_nil, take_nil in Hj. done.
  - destruct (is_prefix pat (b :: l)) eqn:E.
    + split_and!; try lia; [right; by apply occurs_at_0|]. intros j [? _]. lia.
    + destruct IH as (? & Hk & Hmin). split_and!; try lia.
      * destruct Hk as [->|Hk]; [left; lia|right].
        apply occurs_at_cons; [lia|]. by replace (1 + _ - 1) with (std_search l pat) by lia.
      * intros j Hj. assert (j <> 0) by (intros ->; apply occurs_at_0 in Hj; congruence).
        pose proof (proj1 Hj). apply occurs_at_cons in Hj; [|lia]. apply Hmin in Hj. lia.
Qed.

(** [FindCRLF] points at the first CR LF of the readable bytes, and is null
    exactly when they hold none; it reads no byte outside them. *)
Theorem FindCRLF_first (b : Buffer) :
  wf b ->
  (FindCRLF b = Ok None /\ forall k, ~ occurs_at kCRLF (content b) k) \/
  (exists p, FindCRLF b = Ok (Some p) /\ read_index_ b <= p < write_index_ b /\
     occurs_at kCRLF (content b) (p - read_index_ b) /\
     forall k, occurs_at kCRLF (content b) k -> p - read_index_ b <= k).
Proof.
  intros Hw. pose proof (len_eq b Hw) as Hl. unfold FindCRLF, find_crlf_from.
  rewrite read_block by (done || lia). simpl. unfold len in Hl.
  pose proof (std_search_spec (content b) kCRLF ltac:(done)) as (Hk & Hocc & Hmin).
  destruct (_ =? write_index_ b) eqn:E; bsimpl.
  - left. split; [done|]. intros k ?%Hmin. lia.
  - right. eexists; split; [done|].
    destruct Hocc as [?|Hocc]; [lia|].
    replace (_ - read_index_ b) with (std_search (content b) kCRLF) by lia.
    split_and!; try done; try lia. intros k ?%Hmin. lia.
Qed.

Lemma FindCRLF_first_witness :
  let b := mkBuffer [x41; x0d; x42; x0d; x0a; x43; x0d; x0a] 8 1 8 0 in
  FindCRLF b = Ok (Some 3) /\
  ((FindCRLF b = Ok None /\ forall k, ~ occurs_at kCRLF (content b) k) \/
   (exists p, FindCRLF b = Ok (Some p) /\ read_index_ b <= p < write_index_ b /\
      occurs_at kCRLF (content b) (p - read_index_ b) /\
      forall k, occurs_at kCRLF (content b) k -> p - read_index_ b <= k)).
Proof. split; [reflexivity|]. apply FindCRLF_first. split; simpl; lia. Defined.

(** ** Two divergences *)

(** The comment of [Truncate] says it does nothing when [n] exceeds the
    length.  For [n] within [read_index_] of 2^64 the sum [read_index_ + n] wraps:
    the write index is moved below the read index, and the next [length()]
    fails its assertion. *)
Theorem Truncate_wraps (b : Buffer) (n : Z) :
  wf b -> 0 < read_index_ b -> 2 ^ 64 - read_index_ b <= n < 2 ^ 64 ->
  write_index_ (Truncate n b) = read_index_ b + n - 2 ^ 64 /\
  Buffer_length (Truncate n b) = Err AssertFail.
Proof.
  intros [? [? ?] ? ?] Hr Hn. unfold Truncate, Buffer_length.
  replace (n =? 0) with false by blia.
  replace (u64 (read_index_ b + n)) with (read_index_ b + n - 2 ^ 64).
  - replace (_ >? _) with true by blia. simpl. split; [done|].
    by replace (_ >=? _) with false by blia.
  - unfold u64. apply Z.mod_unique with 1; lia.
Qed.

Lemma Truncate_wraps_witness :
  let b := mkBuffer [x61; x62; x63] 3 2 3 0 in
  write_index_ (Truncate (2 ^ 64 - 1) b) = 2 + (2 ^ 64 - 1) - 2 ^ 64 /\
  Buffer_length (Truncate (2 ^ 64 - 1) b) = Err AssertFail.
Proof.
  apply (Truncate_wraps (mkBuffer [x61; x62; x63] 3 2 3 0)); try split; simpl; lia.
Defined.
