(* ===== verification/Format.v ===== *)
(** * The parts of printf that evk uses

    [%d] and [%0wd] for integers, and the truncation of [snprintf].  Decimal
    printing is stdpp's [pretty]; the lemmas bound its length, read it back, and
    show when two formatted texts can be equal. *)

From S2P Require Import Prelude.
From stdpp Require Export pretty.
From Stdlib Require Import Ascii.
#[local] Open Scope Z_scope.

(** [%d], [%ld], [%u]. *)
Definition print_d (z : Z) : string := pretty z.

Fixpoint zeros (n : nat) : string :=
  match n with O => ""%string | S n' => String "0" (zeros n') end.

(** [%0wd]: zeros between the sign and the digits up to width [w]. *)
Definition print_0d (w : nat) (z : Z) : string :=
  if z <? 0
  then String "-" (zeros (w - 1 - String.length (pretty (- z))) ++ pretty (- z))
  else (zeros (w - String.length (pretty z)) ++ pretty z)%string.

(** [%wd]: blanks up to width [w]. *)
Fixpoint blanks (n : nat) : string :=
  match n with O => ""%string | S n' => String " " (blanks n') end.
Definition print_wd (w : nat) (z : Z) : string :=
  (blanks (w - String.length (pretty z)) ++ pretty z)%string.

(** [snprintf(buf, size, ...)]: what the buffer holds as a C string. *)
Definition snprintf (size : nat) (s : string) : string := String.substring 0 (size - 1) s.

(** ** Strings *)

Lemma length_string_app (s t : string) :
  String.length (s ++ t) = (String.length s + String.length t)%nat.
Proof. induction s as [|c s IH]; simpl; [done|]. by f_equal. Qed.

Lemma substring_all (s : string) n : (String.length s <= n)%nat -> String.substring 0 n s = s.
Proof.
  revert n. induction s as [|c s IH]; intros [|n] H; simpl in *; try done; try lia.
  f_equal. apply IH. lia.
Qed.

Lemma snprintf_fits size (s : string) : (String.length s < size)%nat -> snprintf size s = s.
Proof. intros. apply substring_all. lia. Qed.

Lemma string_app_split (a b c d : string) :
  (a ++ b)%string = (c ++ d)%string -> String.length b = String.length d -> a = c /\ b = d.
Proof.
  revert c. induction a as [|x a IH]; intros [|y c] H Hl;
    pose proof (f_equal String.length H) as Hlen; rewrite !length_string_app in Hlen;
    simpl String.length in Hlen; try lia.
  - done.
  - change (String x (a ++ b) = String y (c ++ d)) in H. injection H as -> H.
    destruct (IH c H Hl). by subst.
Qed.

(** ** Reading decimals back *)

Definition digit_val (c : ascii) : N := (N_of_ascii c - 48)%N.

Fixpoint dec_val_from (acc : N) (s : string) : N :=
  match s with
  | EmptyString => acc
  | String c s' => dec_val_from (10 * acc + digit_val c) s'
  end.
Definition dec_val (s : string) : N := dec_val_from 0 s.

Lemma digit_val_char x : (x < 10)%N -> digit_val (pretty_N_char x) = x.
Proof.
  intros. assert (x = 0 \/ x = 1 \/ x = 2 \/ x = 3 \/ x = 4 \/ x = 5 \/ x = 6 \/ x = 7
    \/ x = 8 \/ x = 9)%N by lia. by destruct_or!; subst.
Qed.

Lemma dec_val_from_go x s acc :
  exists k, dec_val_from acc (pretty_N_go x s) = dec_val_from (acc * 10 ^ k + x) s.
Proof.
  revert s. induction (N.lt_wf_0 x) as [x _ IH]; intros s.
  destruct (decide (0 < x)%N) as [Hx|Hx].
  - rewrite pretty_N_go_step by done.
    destruct (IH (x `div` 10)%N (N.div_lt x 10 Hx eq_refl) (String (pretty_N_char (x `mod` 10)) s))
      as [k ->].
    exists (N.succ k). simpl. rewrite digit_val_char by by apply N.mod_lt.
    f_equal. rewrite N.pow_succ_r'. pose proof (N.div_mod x 10 ltac:(done)). lia.
  - assert (x = 0%N) as -> by lia. rewrite pretty_N_go_0. exists 0%N. f_equal. lia.
Qed.

Lemma dec_val_pretty (n : N) : dec_val (pretty n) = n.
Proof.
  unfold pretty, pretty_N, dec_val. case_decide; [by subst|].
  destruct (dec_val_from_go n "" 0) as [k ->]. simpl. lia.
Qed.

Lemma dec_val_zeros k (s : string) : dec_val (zeros k ++ s) = dec_val s.
Proof. induction k as [|k IH]; [done|]. exact IH. Qed.

(** ** Lengths *)

Lemma length_pretty_go x s k :
  (x < 10 ^ N.of_nat k)%N -> (String.length (pretty_N_go x s) <= k + String.length s)%nat.
Proof.
  revert x s. induction k as [|k IH]; intros x s Hx.
  - simpl in Hx. assert (x = 0%N) as -> by lia. by rewrite pretty_N_go_0.
  - destruct (decide (0 < x)%N).
    + rewrite pretty_N_go_step by done.
      etrans; [apply IH|simpl; lia].
      rewrite Nat2N.inj_succ, N.pow_succ_r' in Hx. apply N.Div0.div_lt_upper_bound. lia.
    + assert (x = 0%N) as -> by lia. rewrite pretty_N_go_0. lia.
Qed.

Lemma length_pretty_N (x : N) k :
  (x < 10 ^ N.of_nat k)%N -> (1 <= k)%nat -> (String.length (pretty x) <= k)%nat.
Proof.
  intros. unfold pretty, pretty_N. case_decide; [simpl; lia|].
  etrans; [by apply length_pretty_go|simpl; lia].
Qed.

Lemma pretty_Z_nonneg (z : Z) : 0 <= z -> pretty z = pretty (Z.to_N z).
Proof. intros. by destruct z. Qed.

Lemma pretty_Z_neg (z : Z) : z < 0 -> pretty z = ("-" ++ pretty (- z))%string.
Proof. intros. by destruct z. Qed.

Lemma length_pretty_Z (z : Z) k :
  - 10 ^ Z.of_nat k < z < 10 ^ Z.of_nat k -> (1 <= k)%nat ->
  (String.length (pretty z) <= k + (if (z <? 0)%Z then 1 else 0))%nat.
Proof.
  intros Hz Hk.
  assert (forall x : Z, 0 <= x < 10 ^ Z.of_nat k -> (String.length (pretty x) <= k)%nat) as Hp.
  { intros x Hx. rewrite pretty_Z_nonneg by lia. apply length_pretty_N; [|done].
    apply N2Z.inj_lt. rewrite N2Z.inj_pow, nat_N_Z. simpl. lia. }
  destruct (z <? 0) eqn:E; bsimpl.
  - rewrite pretty_Z_neg by done. rewrite length_string_app. simpl.
    specialize (Hp (- z) ltac:(lia)). lia.
  - specialize (Hp z ltac:(lia)). lia.
Qed.

Lemma length_zeros n : String.length (zeros n) = n.
Proof. induction n; simpl; auto. Qed.

Lemma length_print_0d w z :
  0 <= z < 10 ^ Z.of_nat w -> (1 <= w)%nat -> String.length (print_0d w z) = w.
Proof.
  intros Hz Hw. unfold print_0d. replace (z <? 0) with false by blia.
  rewrite length_string_app, length_zeros.
  pose proof (length_pretty_Z z w ltac:(lia) Hw) as Hl.
  replace (z <? 0) with false in Hl by blia. lia.
Qed.

Lemma dec_val_print_0d w z : 0 <= z -> Z.of_N (dec_val (print_0d w z)) = z.
Proof.
  intros Hz. unfold print_0d. replace (z <? 0) with false by blia.
  rewrite dec_val_zeros, pretty_Z_nonneg by done. rewrite dec_val_pretty. lia.
Qed.
