(* ===== verification/Duration.v ===== *)
(** * Durations (evk/duration.h)

    A signed 64-bit count of nanoseconds.  Signed overflow is undefined in C++,
    so each arithmetic operation is checked ([ck64]).  A [double] is an IEEE 754
    binary64 number of Rocq's [SpecFloat]. *)

From S2P Require Import Prelude.
From Stdlib Require Export SpecFloat.

Record timeval := mkTimeval { tv_sec : Z; tv_usec : Z }.

Definition kNanosecond : Z := 1.
Definition kMicrosecond : Z := 1000 * kNanosecond.
Definition kMillisecond : Z := 1000 * kMicrosecond.
Definition kSecond : Z := 1000 * kMillisecond.
Definition kMinute : Z := 60 * kSecond.
Definition kHour : Z := 60 * kMinute.

Record Duration := mkDuration { ns_ : Z }.

(** ** Doubles *)

Definition double := spec_float.
Definition double_of_Z (z : Z) : double := binary_normalize 53 1024 z 0 false.
Definition double_mul : double -> double -> double := SFmul 53 1024.
Definition double_div : double -> double -> double := SFdiv 53 1024.
Definition double_gt0 (x : double) : bool := SFltb (S754_zero false) x.

(** [(int64_t) x]: truncation toward zero, undefined when the value does not fit. *)
Definition int64_of_double (x : double) : result Z :=
  match x with
  | S754_zero _ => Ok 0
  | S754_finite s m e =>
      let a := if 0 <=? e then Z.pos m * 2 ^ e else Z.pos m / 2 ^ (- e) in
      ck64 (if s then - a else a)
  | S754_infinity _ | S754_nan => Err Undef
  end.

(** ** Constructors *)

Definition Duration_0 : Duration := mkDuration 0.
Definition Duration_timeval (t : timeval) : result Duration :=
  s ← ck64 (tv_sec t * kSecond); u ← ck64 (tv_usec t * kMicrosecond);
  n ← ck64 (s + u); Ok (mkDuration n).
Definition Duration_int64 (nanoseconds : Z) : Duration := mkDuration nanoseconds.
Definition Duration_double (seconds : double) : result Duration :=
  n ← int64_of_double (double_mul seconds (double_of_Z kSecond)); Ok (mkDuration n).

(** ** Observers *)

Definition Nanoseconds (d : Duration) : Z := ns_ d.
Definition Seconds (d : Duration) : double := double_div (double_of_Z (ns_ d)) (double_of_Z kSecond).
Definition Milliseconds (d : Duration) : double :=
  double_div (double_of_Z (ns_ d)) (double_of_Z kMillisecond).
Definition Microseconds (d : Duration) : double :=
  double_div (double_of_Z (ns_ d)) (double_of_Z kMicrosecond).
Definition Minutes (d : Duration) : double := double_div (double_of_Z (ns_ d)) (double_of_Z kMinute).
Definition Hours (d : Duration) : double := double_div (double_of_Z (ns_ d)) (double_of_Z kHour).
Definition IsZero (d : Duration) : bool := ns_ d =? 0.

(** [To] and [TimeVal]: C++ division truncates toward zero. *)
Definition To (d : Duration) : timeval :=
  mkTimeval (Z.quot (ns_ d) kSecond) (Z.quot (Z.rem (ns_ d) kSecond) kMicrosecond).
Definition TimeVal (d : Duration) : timeval := To d.

Definition ltb (a b : Duration) : bool := ns_ a <? ns_ b.
Definition leb (a b : Duration) : bool := ns_ a <=? ns_ b.
Definition gtb (a b : Duration) : bool := ns_ a >? ns_ b.
Definition geb (a b : Duration) : bool := ns_ a >=? ns_ b.
Definition eqb (a b : Duration) : bool := ns_ a =? ns_ b.

(** ** Compound assignments: the new value of the object *)

Definition add_assign (a b : Duration) : result Duration :=
  n ← ck64 (ns_ a + ns_ b); Ok (mkDuration n).
Definition sub_assign (a b : Duration) : result Duration :=
  n ← ck64 (ns_ a - ns_ b); Ok (mkDuration n).
Definition mul_assign (a : Duration) (n : Z) : result Duration :=
  r ← ck64 (ns_ a * n); Ok (mkDuration r).
Definition div_assign (a : Duration) (n : Z) : result Duration :=
  if n =? 0 then Err Undef else r ← ck64 (Z.quot (ns_ a) n); Ok (mkDuration r).

(** ** Facts *)

Lemma kSecond_eq : kSecond = 1000000000.
Proof. reflexivity. Qed.
Lemma kMicrosecond_eq : kMicrosecond = 1000.
Proof. reflexivity. Qed.

(** C++'s remainder lies between zero and the dividend. *)
Lemma rem_between n k :
  0 < k -> (0 <= n -> 0 <= Z.rem n k <= n) /\ (n <= 0 -> n <= Z.rem n k <= 0).
Proof.
  intros Hk. split; intros Hn.
  - split; [by apply Z.rem_nonneg; lia | by apply Z.rem_le].
  - rewrite <- (Z.opp_involutive n), Z.rem_opp_l by lia.
    pose proof (Z.rem_nonneg (- n) k ltac:(lia) ltac:(lia)).
    pose proof (Z.rem_le (- n) k ltac:(lia) ltac:(lia)). lia.
Qed.

(** Splitting a signed count of nanoseconds into seconds and microseconds. *)
Lemma quot_rem_split n :
  Z.quot n kSecond * kSecond + Z.quot (Z.rem n kSecond) kMicrosecond * kMicrosecond
  = n - Z.rem n kMicrosecond.
Proof.
  rewrite kSecond_eq, kMicrosecond_eq.
  pose proof (Z.quot_rem' n 1000000000). pose proof (Z.quot_rem' (Z.rem n 1000000000) 1000).
  enough (Z.rem (Z.rem n 1000000000) 1000 = Z.rem n 1000) by lia.
  rewrite (Z.quot_rem' n 1000000000) at 2.
  replace (1000000000 * Z.quot n 1000000000 + Z.rem n 1000000000)
    with (Z.rem n 1000000000 + (1000000 * Z.quot n 1000000000) * 1000) by lia.
  destruct (decide (n = 0)) as [->|]; [done|]. rewrite Z.rem_add; [done..|].
  destruct (rem_between n 1000000000 eq_refl) as [Hp Hn].
  destruct (decide (0 <= n)).
  - pose proof (Z.quot_pos n 1000000000 ltac:(done) ltac:(lia)). nia.
  - assert (Z.quot n 1000000000 <= 0).
    { rewrite <- (Z.opp_involutive n), Z.quot_opp_l by lia.
      pose proof (Z.quot_pos (- n) 1000000000 ltac:(lia) ltac:(lia)). lia. }
    specialize (Hn ltac:(lia)). nia.
Qed.

Lemma quot_bounds n k : 0 < k -> (0 <= n -> 0 <= Z.quot n k <= n) /\ (n <= 0 -> n <= Z.quot n k <= 0).
Proof.
  intros Hk. split; intros Hn.
  - split; [by apply Z.quot_pos|]. apply Z.quot_le_upper_bound; nia.
  - rewrite <- (Z.opp_involutive n), Z.quot_opp_l by lia.
    pose proof (Z.quot_pos (- n) k ltac:(lia) ltac:(lia)).
    pose proof (Z.quot_le_upper_bound (- n) k (- n) ltac:(lia) ltac:(nia)). lia.
Qed.

(** [To] splits any duration into seconds and microseconds that carry its
    sign, and building a duration from them loses less than a microsecond, toward
    zero, with no overflow; conversely a normalised [timeval] that fits comes
    back unchanged. *)
Theorem timeval_roundtrip :
  (forall d, in_i64 (ns_ d) ->
     Duration_timeval (To d) = Ok (mkDuration (ns_ d - Z.rem (ns_ d) 1000)) /\
     Z.abs (tv_usec (To d)) < 1000000 /\
     0 <= ns_ d * tv_sec (To d) /\ 0 <= ns_ d * tv_usec (To d)) /\
  (forall tv, 0 <= tv_sec tv -> 0 <= tv_usec tv < 1000000 ->
     tv_sec tv * 1000000000 + tv_usec tv * 1000 < 2 ^ 63 ->
     exists d, Duration_timeval tv = Ok d /\ TimeVal d = tv /\
       Nanoseconds d = tv_sec tv * 1000000000 + tv_usec tv * 1000).
Proof.
  split.
  - intros [n] Hn. unfold in_i64, Duration_timeval, To in *. cbn [ns_ tv_sec tv_usec] in *.
    pose proof (quot_rem_split n) as Hsplit. rewrite kSecond_eq, kMicrosecond_eq in *.
    destruct (rem_between n 1000 eq_refl) as [H1 H2].
    destruct (rem_between n 1000000000 eq_refl) as [H3 H4].
    pose proof (Z.rem_bound_abs n 1000000000 ltac:(lia)).
    destruct (quot_bounds (Z.rem n 1000000000) 1000 eq_refl) as [H5 H6].
    pose proof (Z.quot_rem' (Z.rem n 1000000000) 1000).
    destruct (quot_bounds n 1000000000 eq_refl) as [H7 H8].
    destruct (rem_between (Z.rem n 1000000000) 1000 eq_refl) as [H9 H10].
    set (q := Z.quot n 1000000000) in *. set (r := Z.rem n 1000000000) in *.
    set (u := Z.quot r 1000) in *.
    rewrite (ck64_ok (q * 1000000000)) by (unfold in_i64; lia). simpl.
    rewrite (ck64_ok (u * 1000)) by (unfold in_i64; lia). simpl.
    rewrite ck64_ok by (unfold in_i64; lia). simpl.
    split_and!; [by rewrite Hsplit | lia | nia | nia].
  - intros [s u] Hs Hu Hb. unfold Duration_timeval, TimeVal, To, Nanoseconds.
    cbn [tv_sec tv_usec] in *. rewrite kSecond_eq, kMicrosecond_eq.
    rewrite !ck64_ok by (unfold in_i64; lia). cbn [mbind result_bind].
    rewrite ck64_ok by (unfold in_i64; lia).
    cbn [mbind result_bind]. eexists; split; [done|]. split; [|done]. cbn [ns_].
    assert (Z.quot (s * 1000000000 + u * 1000) 1000000000 = s) as ->
      by (symmetry; apply (Z.quot_unique _ _ _ (u * 1000)); lia).
    assert (Z.rem (s * 1000000000 + u * 1000) 1000000000 = u * 1000) as ->
      by (symmetry; apply (Z.rem_unique _ _ s); lia).
    by rewrite Z.quot_mul.
Qed.

Lemma timeval_roundtrip_witness :
  Duration_timeval (To (mkDuration (-2000001500))) = Ok (mkDuration (-2000001000)) /\
  To (mkDuration (-2000001500)) = mkTimeval (-2) (-1).
Proof.
  split; [|reflexivity].
  apply (proj1 timeval_roundtrip (mkDuration (-2000001500))). unfold in_i64. simpl. lia.
Defined.
