(* ===== verification/Timestamp.v ===== *)
(** * Timestamps (evk/timestamp.h, evk/timestamp.cc, evk/gettimeofday.h)

    Signed 64-bit nanoseconds since the epoch.  The clock is an argument: [tv] is
    what [gettimeofday] stored.  [gmtime_r] is an argument of
    [ToFormattedString]. *)

From S2P Require Import Prelude Format Duration.
#[local] Open Scope Z_scope.

(** ** gettimeofday.h *)

Definition utcsecond (tv : timeval) : double :=
  SFadd 53 1024 (double_of_Z (tv_sec tv))
    (double_div (double_of_Z (tv_usec tv)) (double_of_Z 1000000)).
Definition utcmicrosecond (tv : timeval) : Z :=
  u64 (u64 (u64 (tv_sec tv) * 1000000) + u64 (tv_usec tv)).
Definition timevalconv (time_us : Z) : timeval :=
  mkTimeval (Z.quot (i64 time_us) 1000000) (Z.rem (i64 time_us) 1000000).

(** ** Timestamp *)

Record Timestamp := mkTimestamp { ts_ns : Z }.

#[export] Instance Timestamp_eq_dec : EqDecision Timestamp.
Proof. solve_decision. Defined.

Definition Timestamp_0 : Timestamp := mkTimestamp 0.
Definition Timestamp_timeval (t : timeval) : result Timestamp :=
  s ← ck64 (tv_sec t * kSecond); u ← ck64 (tv_usec t * kMicrosecond);
  n ← ck64 (s + u); Ok (mkTimestamp n).
Definition IsValid (t : Timestamp) : bool := ts_ns t >? 0.
Definition Now (tv : timeval) : Timestamp :=
  mkTimestamp (i64 (u64 (utcmicrosecond tv * kMicrosecond))).
Definition Invalid : Timestamp := Timestamp_0.

Definition Timestamp_To (t : Timestamp) : timeval :=
  mkTimeval (Z.quot (ts_ns t) kSecond) (Z.quot (Z.rem (ts_ns t) kSecond) kMicrosecond).
Definition Timestamp_TimeVal (t : Timestamp) : timeval := Timestamp_To t.
Definition Unix (t : Timestamp) : Z := Z.quot (ts_ns t) kSecond.
Definition UnixNano (t : Timestamp) : Z := ts_ns t.
Definition UnixMicro (t : Timestamp) : Z := Z.quot (ts_ns t) kMicrosecond.

Definition ltb (a b : Timestamp) : bool := ts_ns a <? ts_ns b.
Definition eqb (a b : Timestamp) : bool := ts_ns a =? ts_ns b.

Definition Add (t : Timestamp) (d : Duration) : result Timestamp :=
  n ← ck64 (ts_ns t + Nanoseconds d); Ok (mkTimestamp n).
Definition add_assign (t : Timestamp) (d : Duration) : result Timestamp :=
  n ← ck64 (ts_ns t + Nanoseconds d); Ok (mkTimestamp n).
Definition plus (t : Timestamp) (d : Duration) : result Timestamp := add_assign t d.
Definition sub_assign (t : Timestamp) (d : Duration) : result Timestamp :=
  n ← ck64 (ts_ns t - Nanoseconds d); Ok (mkTimestamp n).
Definition minus (t : Timestamp) (d : Duration) : result Timestamp := sub_assign t d.
Definition diff (a b : Timestamp) : result Duration :=
  n ← ck64 (ts_ns a - ts_ns b); Ok (mkDuration n).

(** ** timestamp.cc *)

Definition ToString (t : Timestamp) : string :=
  let seconds := Z.quot (ts_ns t) kSecond in
  let microseconds := Z.quot (Z.rem (ts_ns t) kSecond) kMicrosecond in
  snprintf 31 (print_d seconds ++ "." ++ print_0d 6 microseconds).

(** [struct tm], the fields the code prints. *)
Record tm := mkTm { tm_year : Z; tm_mon : Z; tm_mday : Z; tm_hour : Z; tm_min : Z; tm_sec : Z }.

Definition ToFormattedString (gmtime_r : Z -> tm) (show_microseconds : bool) (t : Timestamp) : string :=
  let tm_time := gmtime_r (Z.quot (ts_ns t) kSecond) in
  let text :=
    (print_wd 4 (tm_year tm_time + 1900) ++ print_0d 2 (tm_mon tm_time + 1)
     ++ print_0d 2 (tm_mday tm_time) ++ " " ++ print_0d 2 (tm_hour tm_time) ++ ":"
     ++ print_0d 2 (tm_min tm_time) ++ ":" ++ print_0d 2 (tm_sec tm_time))%string in
  if show_microseconds then
    let microseconds := i32 (Z.quot (Z.rem (ts_ns t) kSecond) kMicrosecond) in
    snprintf 64 (text ++ "." ++ print_0d 6 microseconds)
  else snprintf 64 text.

(** ** Properties *)

(** Timestamp arithmetic is exact or undefined, never wrapped: a sum that
    is defined is undone by the subtraction and measured by the difference, and
    adding a positive duration moves a timestamp later. *)
Theorem timestamp_arith (t u : Timestamp) (d : Duration) :
  in_i64 (ts_ns t) -> in_i64 (ns_ d) -> plus t d = Ok u ->
  minus u d = Ok t /\ diff u t = Ok d /\ Add t d = Ok u /\
  ltb t u = Duration.ltb Duration_0 d /\ eqb t u = IsZero d.
Proof.
  destruct t as [n], d as [k]. unfold plus, add_assign, minus, sub_assign, diff, Add, Nanoseconds.
  cbn [ts_ns ns_]. intros Hn Hk H. inv_ok. rewrite E. apply ck64_inv in E as [-> Hx]. cbn [ts_ns].
  replace (n + k - k) with n by lia. replace (n + k - n) with k by lia.
  rewrite !ck64_ok by done. split_and!; try done.
  - unfold ltb, Duration.ltb. simpl. destruct (Z.ltb_spec n (n + k)), (Z.ltb_spec 0 k); lia.
  - unfold eqb, IsZero. simpl. destruct (Z.eqb_spec n (n + k)), (Z.eqb_spec k 0); lia.
Qed.

Lemma timestamp_arith_witness :
  plus (mkTimestamp 1000) (mkDuration (-400)) = Ok (mkTimestamp 600) /\
  minus (mkTimestamp 600) (mkDuration (-400)) = Ok (mkTimestamp 1000).
Proof.
  split; [reflexivity|].
  apply (timestamp_arith (mkTimestamp 1000) (mkTimestamp 600) (mkDuration (-400)));
    unfold in_i64; simpl; done.
Defined.

(** [Now] does not overflow before the year 2262. *)
Lemma Now_value tv :
  0 <= tv_sec tv -> 0 <= tv_usec tv < 1000000 ->
  tv_sec tv * 1000000000 + tv_usec tv * 1000 < 2 ^ 63 ->
  ts_ns (Now tv) = tv_sec tv * 1000000000 + tv_usec tv * 1000.
Proof.
  intros. unfold Now, utcmicrosecond. cbn [ts_ns]. rewrite kMicrosecond_eq.
  u64_simpl. rewrite i64_id; [lia|]. unfold in_i64. lia.
Qed.

(** [C39] For a timestamp from the epoch on, [ToString] is not truncated by its
    32-byte buffer: it is the seconds, a point, and exactly six digits, and reading
    the two numbers back gives the timestamp to the microsecond. *)
Theorem ToString_roundtrip (t : Timestamp) :
  0 <= ts_ns t < 2 ^ 63 ->
  exists s f, ToString t = (s ++ "." ++ f)%string /\ String.length f = 6%nat /\
    Z.of_N (dec_val s) = Unix t /\
    Z.of_N (dec_val s) * 1000000 + Z.of_N (dec_val f) = UnixMicro t.
Proof.
  destruct t as [n]. unfold ToString, Unix, UnixMicro. cbn [ts_ns]. intros Hn.
  rewrite kSecond_eq, kMicrosecond_eq.
  rewrite (Z.rem_mod_nonneg n), !Z.quot_div_nonneg by (try apply Z.mod_pos_bound; lia).
  pose proof (Z.mod_pos_bound n 1000000000 eq_refl).
  set (u := n mod 1000000000 / 1000).
  assert (0 <= u < 1000000) by (unfold u; split; [apply Z.div_pos; lia|];
    apply Z.div_lt_upper_bound; lia).
  assert (0 <= n / 1000000000 < 10 ^ Z.of_nat 10) as Hs
    by (split; [apply Z.div_pos; lia|]; apply Z.div_lt_upper_bound; lia).
  pose proof (length_print_0d 6 u ltac:(simpl; lia) ltac:(lia)) as Hlf.
  pose proof (length_pretty_Z (n / 1000000000) 10 ltac:(lia) ltac:(lia)) as Hls.
  replace (_ <? 0) with false in Hls by blia.
  exists (print_d (n / 1000000000)), (print_0d 6 u). split_and!.
  - apply snprintf_fits. rewrite !length_string_app, Hlf. unfold print_d. simpl. lia.
  - done.
  - unfold print_d. rewrite pretty_Z_nonneg, dec_val_pretty by lia. lia.
  - rewrite dec_val_print_0d by lia. unfold print_d.
    rewrite pretty_Z_nonneg, dec_val_pretty, Z2N.id by lia. unfold u.
    pose proof (Z.div_mod n 1000000000 ltac:(lia)) as Hd.
    set (q := n / 1000000000) in *. set (r := n mod 1000000000) in *.
    rewrite Hd. replace (1000000000 * q + r) with ((q * 1000000) * 1000 + r) by lia.
    rewrite Z.div_add_l by lia. lia.
Qed.

Lemma ToString_roundtrip_witness :
  ToString (mkTimestamp 1700000000000042999) = "1700000000.000042"%string /\
  exists s f, ToString (mkTimestamp 1700000000000042999) = (s ++ "." ++ f)%string /\
    String.length f = 6%nat /\
    Z.of_N (dec_val s) = Unix (mkTimestamp 1700000000000042999) /\
    Z.of_N (dec_val s) * 1000000 + Z.of_N (dec_val f) = UnixMicro (mkTimestamp 1700000000000042999).
Proof. split; [vm_compute; reflexivity|]. apply ToString_roundtrip. simpl. lia. Defined.
