(* ===== verification/LoopThread.v ===== *)
(** * One loop per thread (evk/event_loop.h)

    An event loop belongs to the thread that built it.  Members that only that
    thread may call check it and terminate the process otherwise. *)

From S2P Require Import Prelude.

Abbreviation thread_id := Z.

Definition IsInLoopThread (tid cur : thread_id) : bool := tid =? cur.

(** [LOG_FATAL]. *)
Definition AbortNotInLoopThread : result unit := Err Fatal.

Definition AssertInLoopThread (tid cur : thread_id) : result unit :=
  if negb (IsInLoopThread tid cur) then AbortNotInLoopThread else Ok tt.

Lemma AssertInLoopThread_ok tid cur u : AssertInLoopThread tid cur = Ok u <-> tid = cur.
Proof.
  unfold AssertInLoopThread, IsInLoopThread. destruct u.
  destruct (Z.eqb_spec tid cur); simpl; naive_solver.
Qed.

Lemma AssertInLoopThread_refl tid : AssertInLoopThread tid tid = Ok tt.
Proof. by apply AssertInLoopThread_ok. Qed.

#[export] Hint Resolve AssertInLoopThread_refl : evk.
