(* ===== verification/Channel.v ===== *)
(** * Channel (evk/channel.h, evk/channel.cc)

    A channel ties a file descriptor to the events its owner is interested in and
    to four callbacks.  Pointers to channels are numbers ([ptr]); the objects live
    in a store [gmap ptr Channel].  [Cb] is the type of the callbacks; what a call
    does is given where a component installs them.

    The operations that reach the owner loop ([Update], [Remove] and what uses
    them) are completed in EventLoop.v; here are the object's own fields and the
    dispatch of events. *)

From S2P Require Import Prelude.

Abbreviation ptr := Z.

(** poll(2) flags. *)
Definition POLLIN : Z := 0x1.
Definition POLLPRI : Z := 0x2.
Definition POLLOUT : Z := 0x4.
Definition POLLERR : Z := 0x8.
Definition POLLHUP : Z := 0x10.
Definition POLLNVAL : Z := 0x20.
Definition POLLRDHUP : Z := 0x2000.

Definition kNone : Z := 0.
Definition kReadable : Z := Z.lor POLLIN POLLPRI.
Definition kWritable : Z := POLLOUT.

(** [(x & flags) != 0]. *)
Definition has (x flags : Z) : bool := negb (Z.land x flags =? 0).

Section Channel.
Context {Cb : Type}.

Record Channel := mkChannel {
  read_fn_ : option Cb;
  write_fn_ : option Cb;
  error_fn_ : option Cb;
  close_fn_ : option Cb;
  loop_ : ptr;
  fd_ : Z;
  events_ : Z;
  revents_ : Z;
  index_ : Z;
  event_handling_ : bool;
  added_to_loop_ : bool
}.

(** The constructor leaves the callbacks empty. *)
Definition Channel_new (loop : ptr) (fd : Z) : Channel :=
  mkChannel None None None None loop fd 0 0 (-1) false false.

Definition SetReadCallback (cb : Cb) (c : Channel) : Channel :=
  mkChannel (Some cb) (write_fn_ c) (error_fn_ c) (close_fn_ c) (loop_ c) (fd_ c) (events_ c)
    (revents_ c) (index_ c) (event_handling_ c) (added_to_loop_ c).
Definition SetWriteCallback (cb : Cb) (c : Channel) : Channel :=
  mkChannel (read_fn_ c) (Some cb) (error_fn_ c) (close_fn_ c) (loop_ c) (fd_ c) (events_ c)
    (revents_ c) (index_ c) (event_handling_ c) (added_to_loop_ c).
Definition SetErrorCallback (cb : Cb) (c : Channel) : Channel :=
  mkChannel (read_fn_ c) (write_fn_ c) (Some cb) (close_fn_ c) (loop_ c) (fd_ c) (events_ c)
    (revents_ c) (index_ c) (event_handling_ c) (added_to_loop_ c).
Definition SetCloseCallback (cb : Cb) (c : Channel) : Channel :=
  mkChannel (read_fn_ c) (write_fn_ c) (error_fn_ c) (Some cb) (loop_ c) (fd_ c) (events_ c)
    (revents_ c) (index_ c) (event_handling_ c) (added_to_loop_ c).

Definition set_events (e : Z) (c : Channel) : Channel :=
  mkChannel (read_fn_ c) (write_fn_ c) (error_fn_ c) (close_fn_ c) (loop_ c) (fd_ c) e
    (revents_ c) (index_ c) (event_handling_ c) (added_to_loop_ c).
Definition SetRevents (r : Z) (c : Channel) : Channel :=
  mkChannel (read_fn_ c) (write_fn_ c) (error_fn_ c) (close_fn_ c) (loop_ c) (fd_ c) (events_ c)
    r (index_ c) (event_handling_ c) (added_to_loop_ c).
Definition SetIndex (i : Z) (c : Channel) : Channel :=
  mkChannel (read_fn_ c) (write_fn_ c) (error_fn_ c) (close_fn_ c) (loop_ c) (fd_ c) (events_ c)
    (revents_ c) i (event_handling_ c) (added_to_loop_ c).
Definition set_handling (h : bool) (c : Channel) : Channel :=
  mkChannel (read_fn_ c) (write_fn_ c) (error_fn_ c) (close_fn_ c) (loop_ c) (fd_ c) (events_ c)
    (revents_ c) (index_ c) h (added_to_loop_ c).
Definition set_added (a : bool) (c : Channel) : Channel :=
  mkChannel (read_fn_ c) (write_fn_ c) (error_fn_ c) (close_fn_ c) (loop_ c) (fd_ c) (events_ c)
    (revents_ c) (index_ c) (event_handling_ c) a.

Definition IsReading (c : Channel) : bool := has (events_ c) kReadable.
Definition IsWriting (c : Channel) : bool := has (events_ c) kWritable.
Definition IsNoneEvent (c : Channel) : bool := events_ c =? kNone.

(** The assignments to [events_] of the five [Enable*]/[Disable*] members;
    each then calls [Update]. *)
Inductive change := EnableRead | EnableWrite | DisableRead | DisableWrite | DisableAll.

Definition change_events (ch : change) (e : Z) : Z :=
  match ch with
  | EnableRead => Z.lor e kReadable
  | EnableWrite => Z.lor e kWritable
  | DisableRead => Z.land e (Z.lnot kReadable)
  | DisableWrite => Z.land e (Z.lnot kWritable)
  | DisableAll => kNone
  end.

(** The destructor's assertions. *)
Definition Channel_dtor (c : Channel) : result unit :=
  _ ← assert (negb (event_handling_ c)); assert (negb (added_to_loop_ c)).

(** ** Dispatch

    [S] is the state the callbacks act on; it contains this channel at [get], unless
    it was destroyed, and [put], and callbacks may change the channel. *)
Section Dispatch.
Context {S : Type} (get : S -> result Channel) (put : Channel -> S -> S)
  (call : Cb -> S -> result S).

Definition call_opt (fn : option Cb) (s : S) : result S :=
  match fn with Some cb => call cb s | None => Ok s end.

Definition HandleEvent (s : S) : result S :=
  c ← get s;
  let s := put (set_handling true c) s in
  c ← get s;
  s ← (if has (revents_ c) POLLHUP && negb (has (revents_ c) POLLIN)
       then call_opt (close_fn_ c) s else Ok s);
  c ← get s;
  s ← (if has (revents_ c) (Z.lor POLLERR POLLNVAL) then call_opt (error_fn_ c) s else Ok s);
  c ← get s;
  s ← (if has (revents_ c) (Z.lor (Z.lor POLLIN POLLPRI) POLLRDHUP)
       then call_opt (read_fn_ c) s else Ok s);
  c ← get s;
  s ← (if has (revents_ c) POLLOUT then call_opt (write_fn_ c) s else Ok s);
  c ← get s;
  Ok (put (set_handling false c) s).
End Dispatch.
End Channel.
Arguments Channel : clear implicits.

(** ** Facts about interest masks *)

(** The interest masks a channel can have: no events, reading, writing, both. *)
Definition mask (read write : bool) : Z :=
  Z.lor (if read then kReadable else 0) (if write then kWritable else 0).

Lemma change_events_mask ch r w :
  change_events ch (mask r w) =
    match ch with
    | EnableRead => mask true w
    | EnableWrite => mask r true
    | DisableRead => mask false w
    | DisableWrite => mask r false
    | DisableAll => mask false false
    end.
Proof. by destruct ch, r, w. Qed.

(** ** Dispatch order *)

Section DispatchOrder.
Context {Cb S : Type} (get : S -> result (Channel Cb)) (put : Channel Cb -> S -> S)
  (call : Cb -> S -> result S).

(** The callbacks due for a mask of received events, in the order of the code. *)
Definition due (c : Channel Cb) : list Cb :=
  let r := revents_ c in
  (if has r POLLHUP && negb (has r POLLIN) then option_list (close_fn_ c) else []) ++
  (if has r (Z.lor POLLERR POLLNVAL) then option_list (error_fn_ c) else []) ++
  (if has r (Z.lor (Z.lor POLLIN POLLPRI) POLLRDHUP) then option_list (read_fn_ c) else []) ++
  (if has r POLLOUT then option_list (write_fn_ c) else []).

(** What callbacks must leave alone: the received events and the callbacks. *)
Definition same_dispatch (c c' : Channel Cb) : Prop :=
  revents_ c' = revents_ c /\ read_fn_ c' = read_fn_ c /\ write_fn_ c' = write_fn_ c /\
  error_fn_ c' = error_fn_ c /\ close_fn_ c' = close_fn_ c.

Context (get_put : forall c s, get (put c s) = Ok c)
  (call_same : forall cb s s' c, call cb s = Ok s' -> get s = Ok c ->
     exists c', get s' = Ok c' /\ same_dispatch c c').

Lemma call_opt_fold (b : bool) fn s :
  (if b then call_opt call fn s else Ok s) = foldM call (if b then option_list fn else []) s.
Proof. destruct b, fn; simpl; try done. by destruct (call c s). Qed.

Lemma foldM_same l s s' c :
  foldM call l s = Ok s' -> get s = Ok c -> exists c', get s' = Ok c' /\ same_dispatch c c'.
Proof.
  revert s c. induction l as [|cb l IH]; simpl; intros s c Hrun Hc.
  - injection Hrun as ->. by exists c.
  - apply bind_ok in Hrun as (s1 & H1 & H2). destruct (call_same _ _ _ _ H1 Hc) as (c1 & Hc1 & S1).
    destruct (IH s1 c1 H2 Hc1) as (c' & Hc' & S2). exists c'. split; [done|].
    unfold same_dispatch in *. destruct_and!. split_and!; congruence.
Qed.

(** One of the four tests of [HandleEvent]: the calls it makes, and the channel at
    the next test. *)
Lemma dispatch_one (c0 c : Channel Cb) s (b : bool) (fn : Channel Cb -> option Cb)
    (k : S -> result S) (l : list Cb) (k' : S -> result S) :
  get s = Ok c -> same_dispatch c0 c -> (same_dispatch c0 c -> fn c = fn c0) ->
  (forall s' c', get s' = Ok c' -> same_dispatch c0 c' -> k s' = (foldM call l s' ≫= k')) ->
  ((if b then call_opt call (fn c) s else Ok s) ≫= k) =
    (foldM call ((if b then option_list (fn c0) else []) ++ l) s ≫= k').
Proof.
  intros Hc Hsame Hfn Hk. rewrite call_opt_fold, Hfn, foldM_app by done.
  destruct (foldM call _ s) as [s1|f] eqn:E; cbn [mbind result_bind]; [|done].
  destruct (foldM_same _ _ _ _ E Hc) as (c1 & Hc1 & S1). apply (Hk s1 c1); [done|].
  unfold same_dispatch in *. destruct_and!. split_and!; congruence.
Qed.

(** [HandleEvent] calls the due callbacks. *)
Lemma HandleEvent_spec (s : S) (c : Channel Cb) :
  get s = Ok c ->
  HandleEvent get put call s =
    (s' ← foldM call (due c) (put (set_handling true c) s);
     c' ← get s'; Ok (put (set_handling false c') s')).
Proof.
  intros Hc. unfold HandleEvent. rewrite Hc. cbn [mbind result_bind].
  rewrite get_put. cbn [mbind result_bind].
  assert (forall c', same_dispatch c c' -> revents_ c' = revents_ c) as Hr by (intros ? Hsm; apply Hsm).
  unfold due. eapply (dispatch_one c _ _ _ close_fn_); [apply get_put|done|intros Hsm; apply Hsm|].
  intros s1 c1 Hc1 S1. rewrite Hc1. cbn [mbind result_bind]. rewrite (Hr c1 S1).
  eapply (dispatch_one c _ _ _ error_fn_); [done|done|intros Hsm; apply Hsm|].
  intros s2 c2 Hc2 S2. rewrite Hc2. cbn [mbind result_bind]. rewrite (Hr c2 S2).
  eapply (dispatch_one c _ _ _ read_fn_); [done|done|intros Hsm; apply Hsm|].
  intros s3 c3 Hc3 S3. rewrite Hc3. cbn [mbind result_bind]. rewrite (Hr c3 S3).
  rewrite <- (app_nil_r (if has (revents_ c) POLLOUT then option_list (write_fn_ c) else [])).
  eapply (dispatch_one c _ _ _ write_fn_); [done|done|intros Hsm; apply Hsm|]. done.
Qed.

(** [C34] However the callbacks change the rest of the state, [HandleEvent] calls
    exactly the due callbacks: close only on a hang-up with nothing to read,
    then error, then read, then write, stopping at the first that aborts, with
    the in-progress flag set around them. *)
Theorem HandleEvent_order (s : S) (c : Channel Cb) :
  get s = Ok c ->
  HandleEvent get put call s =
    (s' ← foldM call (due c) (put (set_handling true c) s);
     c' ← get s'; Ok (put (set_handling false c') s')).
Proof. apply HandleEvent_spec. Qed.
End DispatchOrder.

(** A state of one channel and the list of calls made. *)
Lemma HandleEvent_order_witness :
  let c := SetRevents (Z.lor POLLHUP (Z.lor POLLERR POLLOUT))
    (SetReadCallback 1 (SetWriteCallback 2 (SetCloseCallback 3 (SetErrorCallback 4
      (Channel_new (Cb := Z) 0 5))))) in
  let get := fun s : Channel Z * list Z => Ok s.1 in
  let put := fun c (s : Channel Z * list Z) => (c, s.2) in
  let call := fun cb (s : Channel Z * list Z) => Ok (s.1, s.2 ++ [cb]) in
  HandleEvent get put call (c, []) = Ok (c, [3; 4; 2]) /\
  HandleEvent get put call (c, []) =
    (s' ← foldM call (due c) (put (set_handling true c) (c, []));
     c' ← get s'; Ok (put (set_handling false c') s')).
Proof.
  split; [reflexivity|].
  apply (HandleEvent_order (S := Channel Z * list Z) (fun s => Ok s.1) (fun c s => (c, s.2))
    (fun cb s => Ok (s.1, s.2 ++ [cb]))).
  - done.
  - intros cb s s' c [= <-] [= <-]. eexists. done.
  - reflexivity.
Defined.
