(* ===== verification/EPoller.v ===== *)
(** * EPoller (evk/epoller.h, evk/epoller.cc): multiplexing with epoll

    The poller keeps a map from descriptors to channel pointers and mirrors it in
    the kernel's interest list through [epoll_ctl].  The kernel is an interface
    ([EpollKernel]): its state, the system calls, and the interest list an epoll
    instance holds; [EpollLaws] states what epoll_ctl(2) and epoll_wait(2)
    document. *)

From S2P Require Import Prelude LoopThread Duration Timestamp Channel.
#[local] Open Scope Z_scope.

Record epoll_event := mkEvent { ev_events : Z; ev_ptr : ptr }.
Inductive epoll_op := EPOLL_CTL_ADD | EPOLL_CTL_MOD | EPOLL_CTL_DEL.

(** [epoll_wait]'s answer: its return value with the events it stored, or -1 and
    [errno]. *)
Inductive wait_answer := Events (evs : list epoll_event) | WaitError (errno : Z).

Class EpollKernel (K : Type) := {
  interest : K -> gmap Z epoll_event;
  epoll_ctl : epoll_op -> Z -> epoll_event -> K -> Z * K;
  epoll_wait : Z -> Z -> K -> wait_answer * K;
  pollable : K -> Z -> Prop
}.

(** epoll_ctl(2): a failing call returns a negative value and changes nothing; ADD
    registers a descriptor that supports epoll and is not registered; MOD changes
    and DEL removes a registered one.  epoll_wait(2) stores at most [maxevents]
    events, each with the data registered for its descriptor. *)
Class EpollLaws (K : Type) `{EpollKernel K} := {
  ctl_error : forall op fd ev k, (epoll_ctl op fd ev k).1 < 0 ->
    interest (epoll_ctl op fd ev k).2 = interest k;
  ctl_add : forall fd ev k, interest k !! fd = None -> pollable k fd ->
    (epoll_ctl EPOLL_CTL_ADD fd ev k).1 = 0;
  ctl_mod : forall fd ev k, is_Some (interest k !! fd) -> (epoll_ctl EPOLL_CTL_MOD fd ev k).1 = 0;
  ctl_del : forall fd ev k, is_Some (interest k !! fd) -> (epoll_ctl EPOLL_CTL_DEL fd ev k).1 = 0;
  ctl_set : forall op fd ev k, op <> EPOLL_CTL_DEL -> 0 <= (epoll_ctl op fd ev k).1 ->
    interest (epoll_ctl op fd ev k).2 = <[fd := ev]> (interest k);
  ctl_unset : forall fd ev k, 0 <= (epoll_ctl EPOLL_CTL_DEL fd ev k).1 ->
    interest (epoll_ctl EPOLL_CTL_DEL fd ev k).2 = delete fd (interest k);
  wait_interest : forall n t k, interest (epoll_wait n t k).2 = interest k;
  wait_events : forall n t k evs, (epoll_wait n t k).1 = Events evs -> 0 <= n ->
    Z.of_nat (length evs) <= n /\
    forall e, e ∈ evs -> exists fd ev, interest k !! fd = Some ev /\ ev_ptr ev = ev_ptr e
}.

Definition kNew : Z := -1.
Definition kAdded : Z := 1.
Definition kDeleted : Z := 2.
Definition kInitEventListSize : Z := 16.

(** [owner_tid] is the thread of [owner_loop_]; the epoll instance behind
    [epollfd_] is the kernel state.  [event_list_] is a vector; its elements matter
    only between [epoll_wait] and [FillActiveChannels], so its size is kept and its
    contents are passed on. *)
Record EPoller := mkEPoller {
  owner_tid : thread_id;
  event_list_size : Z;
  channel_map_ : gmap Z ptr
}.

(** The constructor; [epoll_create] returned [epollfd]. *)
Definition EPoller_new (tid : thread_id) (epollfd : Z) : result EPoller :=
  if epollfd <? 0 then Err Fatal else Ok (mkEPoller tid kInitEventListSize ∅).

Section EPoller.
Context {Cb K : Type} `{EpollKernel K}.

(** The objects the poller's members touch: itself, the channels, the kernel. *)
Record world := mkWorld {
  poller : EPoller;
  channels : gmap ptr (Channel Cb);
  kernel : K
}.

Definition set_map (m : gmap Z ptr) (w : world) : world :=
  mkWorld (mkEPoller (owner_tid (poller w)) (event_list_size (poller w)) m) (channels w) (kernel w).
Definition set_channel (p : ptr) (c : Channel Cb) (w : world) : world :=
  mkWorld (poller w) (<[p := c]> (channels w)) (kernel w).
Definition set_kernel (k : K) (w : world) : world := mkWorld (poller w) (channels w) k.
Definition set_list_size (n : Z) (w : world) : world :=
  mkWorld (mkEPoller (owner_tid (poller w)) n (channel_map_ (poller w))) (channels w) (kernel w).

Definition channel_at (w : world) (p : ptr) : result (Channel Cb) := deref (channels w !! p).

(** [cur] is the calling thread of the members below. *)
Context (cur : thread_id).

(** A failed DEL is logged; any other failure is fatal. *)
Definition Update (op : epoll_op) (p : ptr) (w : world) : result world :=
  c ← channel_at w p;
  let event := mkEvent (u32 (events_ c)) p in
  let '(ret, k) := epoll_ctl op (fd_ c) event (kernel w) in
  if ret <? 0 then
    match op with EPOLL_CTL_DEL => Ok (set_kernel k w) | _ => Err Fatal end
  else Ok (set_kernel k w).

Definition UpdateChannel (p : ptr) (w : world) : result world :=
  _ ← AssertInLoopThread (owner_tid (poller w)) cur;
  c ← channel_at w p;
  let idx := index_ c in
  if (idx =? kNew) || (idx =? kDeleted) then
    let fd := fd_ c in
    w ← (if idx =? kNew then
           _ ← assert (bool_decide (channel_map_ (poller w) !! fd = None));
           Ok (set_map (<[fd := p]> (channel_map_ (poller w))) w)
         else
           _ ← assert (bool_decide (is_Some (channel_map_ (poller w) !! fd)));
           _ ← assert (bool_decide (channel_map_ (poller w) !! fd = Some p));
           Ok w);
    Update EPOLL_CTL_ADD p (set_channel p (SetIndex kAdded c) w)
  else Update EPOLL_CTL_MOD p w.

Definition HasChannel (p : ptr) (w : world) : result bool :=
  _ ← AssertInLoopThread (owner_tid (poller w)) cur;
  c ← channel_at w p;
  Ok (bool_decide (channel_map_ (poller w) !! fd_ c = Some p)).

(** The second assertion is an assignment, [channel_map_[fd] = channel], whose
    value is the (non-null) pointer. *)
Definition RemoveChannel (p : ptr) (w : world) : result world :=
  _ ← AssertInLoopThread (owner_tid (poller w)) cur;
  c ← channel_at w p;
  let fd := fd_ c in
  _ ← assert (bool_decide (is_Some (channel_map_ (poller w) !! fd)));
  let w := set_map (<[fd := p]> (channel_map_ (poller w))) w in
  _ ← assert (negb (p =? 0));
  _ ← assert (IsNoneEvent c);
  let idx := index_ c in
  _ ← assert ((idx =? kAdded) || (idx =? kDeleted));
  let n := if decide (is_Some (channel_map_ (poller w) !! fd)) then 1 else 0 in
  let w := set_map (delete fd (channel_map_ (poller w))) w in
  _ ← assert (n =? 1);
  w ← (if idx =? kAdded then Update EPOLL_CTL_DEL p w else Ok w);
  c ← channel_at w p;
  Ok (set_channel p (SetIndex kNew c) w).

(** One iteration of the loop of [FillActiveChannels]; the assertions look the
    channel up in the map. *)
Definition fill_one (e : epoll_event) (st : world * list ptr) : result (world * list ptr) :=
  let '(w, active) := st in
  let p := ev_ptr e in
  c ← channel_at w p;
  _ ← assert (bool_decide (is_Some (channel_map_ (poller w) !! fd_ c)));
  _ ← assert (bool_decide (channel_map_ (poller w) !! fd_ c = Some p));
  Ok (set_channel p (SetRevents (i32 (ev_events e)) c) w, active ++ [p]).

Definition FillActiveChannels (evs : list epoll_event) (active : list ptr) (w : world) :
    result (world * list ptr) :=
  _ ← assert (Z.of_nat (length evs) <=? event_list_size (poller w));
  foldM fill_one evs (w, active).

(** [poll]: the vector doubles when it was filled; a failed wait is logged.
    [tv] is the clock read after the wait, the time returned. *)
Definition poll (tv : timeval) (timeout_ms : Z) (active : list ptr) (w : world) :
    result (world * list ptr * Timestamp) :=
  let '(ans, k) := epoll_wait (event_list_size (poller w)) timeout_ms (kernel w) in
  let w := set_kernel k w in
  let now := Now tv in
  match ans with
  | Events [] => Ok (w, active, now)
  | Events evs =>
      '(w, active) ← FillActiveChannels evs active w;
      Ok (if Z.of_nat (length evs) =? event_list_size (poller w)
          then set_list_size (u64 (event_list_size (poller w) * 2)) w else w, active, now)
  | WaitError _ => Ok (w, active, now)
  end.
End EPoller.
Arguments world : clear implicits.

Definition OperationToString (op : epoll_op) : string :=
  match op with
  | EPOLL_CTL_ADD => "ADD"
  | EPOLL_CTL_DEL => "DEL"
  | EPOLL_CTL_MOD => "MOD"
  end.
