(* ===== verification/EventFd.v ===== *)
(** * The eventfd that wakes a loop *)

From S2P Require Import Prelude.
#[local] Open Scope Z_scope.

Class EventfdKernel (K : Type) := {
  efd_count : K -> Z;
  efd_write : Z -> K -> Z * K;
  efd_read : K -> Z * K
}.

(** eventfd(2), non-blocking: a write of 1 leaves a positive counter, whether it
    was added or refused because the counter is at its maximum; a read resets it. *)
Class EventfdLaws (K : Type) `{EventfdKernel K} := {
  efd_count_nonneg k : 0 <= efd_count k;
  efd_write_pos k : 0 < efd_count (efd_write 1 k).2;
  efd_read_zero k : efd_count (efd_read k).2 = 0
}.
