(* ===== verification/SimKernel.v ===== *)
(** * A concrete kernel

    An epoll instance as a finite map and a list of ready events, and one eventfd.
    It satisfies [EpollLaws] and [EventfdLaws], so the theorems stated against those
    interfaces apply to runs that can be evaluated. *)

From S2P Require Import Prelude LoopThread Duration Timestamp Channel EPoller EventFd.
#[local] Open Scope Z_scope.

Record sim := mkSim {
  sim_interest : gmap Z epoll_event;
  sim_ready : list epoll_event;
  sim_count : Z
}.

Definition sim_ctl (op : epoll_op) (fd : Z) (ev : epoll_event) (k : sim) : Z * sim :=
  match op, sim_interest k !! fd with
  | EPOLL_CTL_ADD, None | EPOLL_CTL_MOD, Some _ =>
      (0, mkSim (<[fd := ev]> (sim_interest k)) (sim_ready k) (sim_count k))
  | EPOLL_CTL_DEL, Some _ => (0, mkSim (delete fd (sim_interest k)) (sim_ready k) (sim_count k))
  | _, _ => (-1, k)
  end.

(** The pointers registered. *)
Definition sim_ptrs (k : sim) : list ptr := (fun x => ev_ptr x.2) <$> map_to_list (sim_interest k).

Definition sim_wait (n t : Z) (k : sim) : wait_answer * sim :=
  (Events (take (Z.to_nat n) (filter (fun e => ev_ptr e ∈ sim_ptrs k) (sim_ready k))), k).

#[export] Instance sim_kernel : EpollKernel sim := {|
  interest := sim_interest;
  epoll_ctl := sim_ctl;
  epoll_wait := sim_wait;
  pollable := fun _ fd => 0 <= fd
|}.

#[export] Instance sim_laws : EpollLaws sim.
Proof.
  split; simpl; unfold sim_ctl.
  - intros op fd ev k. destruct op, (sim_interest k !! fd); simpl; done || lia.
  - intros fd ev k -> _. done.
  - intros fd ev k [x ->]. done.
  - intros fd ev k [x ->]. done.
  - intros op fd ev k Hop. destruct op, (sim_interest k !! fd); simpl; done || lia.
  - intros fd ev k. destruct (sim_interest k !! fd); simpl; done || lia.
  - done.
  - intros n t k evs [= <-] Hn. rewrite length_take. split; [lia|].
    intros e He%elem_of_take. destruct He as (i & He & _).
    apply list_elem_of_lookup_2, list_elem_of_filter in He as [Hp _].
    unfold sim_ptrs in Hp. apply list_elem_of_fmap in Hp as ([fd ev] & Hp & Hin).
    apply elem_of_map_to_list in Hin. eauto.
Qed.

(** The counter saturates at its maximum, where a write fails. *)
Definition sim_efd_write (n : Z) (k : sim) : Z * sim :=
  let c := Z.max 0 (sim_count k) in
  if c + n <? 2 ^ 64 - 1 then (8, mkSim (sim_interest k) (sim_ready k) (c + n))
  else (-1, mkSim (sim_interest k) (sim_ready k) c).

#[export] Instance sim_eventfd : EventfdKernel sim := {|
  efd_count := fun k => Z.max 0 (sim_count k);
  efd_write := sim_efd_write;
  efd_read := fun k => (8, mkSim (sim_interest k) (sim_ready k) 0)
|}.

#[export] Instance sim_eventfd_laws : EventfdLaws sim.
Proof.
  split; simpl; unfold sim_efd_write; intros; [lia| |done].
  destruct (Z.ltb_spec (Z.max 0 (sim_count k) + 1) (2 ^ 64 - 1)); simpl; lia.
Qed.
