(* ===== verification/EPollerFacts.v ===== *)
(** * The epoll poller mirrors its channels in the kernel

    The invariant between the channel objects, [channel_map_] and the kernel's
    interest list, that every member keeps it, and what [poll] delivers. *)

From S2P Require Import Prelude LoopThread Duration Timestamp Channel EPoller.
#[local] Open Scope Z_scope.

Section Facts.
Context {Cb K : Type} `{KL : EpollLaws K}.
Implicit Types (w : world Cb K) (p q : ptr) (c : Channel Cb).

(** [inv_but dirty w]: a channel is in the map exactly when its index says so;
    the interest list has exactly the map's descriptors, each with its channel's
    pointer and, except for the channel [dirty], its current events. *)
Record inv_but (dirty : option ptr) w : Prop := {
  inv_map : forall fd p, channel_map_ (poller w) !! fd = Some p ->
    exists c ev, channels w !! p = Some c /\ fd_ c = fd /\ index_ c = kAdded /\
      interest (kernel w) !! fd = Some (mkEvent ev p) /\
      (dirty <> Some p -> ev = u32 (events_ c));
  inv_kernel : forall fd, is_Some (interest (kernel w) !! fd) ->
    is_Some (channel_map_ (poller w) !! fd);
  inv_index : forall p c, channels w !! p = Some c ->
    index_ c = kNew \/ (index_ c = kAdded /\ channel_map_ (poller w) !! fd_ c = Some p);
  inv_size : kInitEventListSize <= event_list_size (poller w)
}.
Abbreviation inv := (inv_but None).

Lemma inv_unmapped dirty w fd :
  inv_but dirty w -> channel_map_ (poller w) !! fd = None -> interest (kernel w) !! fd = None.
Proof.
  intros Hi Hn. destruct (interest (kernel w) !! fd) eqn:E; [|done].
  destruct (inv_kernel _ _ Hi fd) as [? ?]; [by rewrite E|]. congruence.
Qed.

Lemma Update_spec op p w c :
  channels w !! p = Some c ->
  (epoll_ctl op (fd_ c) (mkEvent (u32 (events_ c)) p) (kernel w)).1 = 0 ->
  Update op p w =
    Ok (set_kernel (epoll_ctl op (fd_ c) (mkEvent (u32 (events_ c)) p) (kernel w)).2 w).
Proof.
  intros Hc H0. unfold Update, channel_at. rewrite Hc. simpl.
  destruct (epoll_ctl _ _ _ _) as [ret k]. simpl in *. by subst.
Qed.

(** What one registration does, seen from outside. *)
Definition registered p c w w' : Prop :=
  channels w' = <[p := SetIndex kAdded c]> (channels w) /\
  channel_map_ (poller w') = <[fd_ c := p]> (channel_map_ (poller w)) /\
  interest (kernel w') = <[fd_ c := mkEvent (u32 (events_ c)) p]> (interest (kernel w)) /\
  owner_tid (poller w') = owner_tid (poller w).

Lemma registered_inv p c w w' :
  inv_but (Some p) w -> channels w !! p = Some c ->
  (index_ c = kNew -> channel_map_ (poller w) !! fd_ c = None) ->
  registered p c w w' -> event_list_size (poller w') = event_list_size (poller w) -> inv w'.
Proof.
  intros Hi Hc Hnew (Hch & Hm & Hk & _) Hs.
  assert (forall q fd, channel_map_ (poller w) !! fd = Some q -> fd <> fd_ c -> q <> p) as Hother.
  { intros q fd Hq Hne ->. destruct (inv_map _ _ Hi fd p Hq) as (c' & ? & ? & ? & _). congruence. }
  split.
  - intros fd q. rewrite Hm, Hch, Hk. intros Hq.
    destruct (decide (fd = fd_ c)) as [->|Hne].
    + rewrite lookup_insert_eq in Hq. injection Hq as <-. rewrite !lookup_insert_eq.
      eexists _, _. split_and!; done.
    + rewrite lookup_insert_ne in Hq by done. pose proof (Hother q fd Hq Hne).
      destruct (inv_map _ _ Hi fd q Hq) as (c' & ev & ? & ? & ? & ? & Hev).
      rewrite !lookup_insert_ne by done. eexists _, _; split_and!; try done.
      intros _. apply Hev. congruence.
  - intros fd. rewrite Hm, Hk. destruct (decide (fd = fd_ c)) as [->|Hne].
    + by rewrite !lookup_insert_eq.
    + rewrite !lookup_insert_ne by done. apply (inv_kernel _ _ Hi).
  - intros q c'. rewrite Hch, Hm. destruct (decide (q = p)) as [->|Hne].
    + rewrite lookup_insert_eq. intros [= <-]. right. simpl. by rewrite lookup_insert_eq.
    + rewrite lookup_insert_ne by done. intros Hc'.
      destruct (inv_index _ _ Hi q c' Hc') as [?|[? Hq]]; [by left|right]. split; [done|].
      rewrite lookup_insert_ne; [done|]. intros Heq. rewrite <- Heq in Hq.
      destruct (inv_index _ _ Hi p c Hc) as [Hk'|[_ Hk']]; [|congruence].
      rewrite Hnew in Hq; done.
  - rewrite Hs. apply (inv_size _ _ Hi).
Qed.

Lemma UpdateChannel_spec cur p w c :
  inv_but (Some p) w -> owner_tid (poller w) = cur -> channels w !! p = Some c ->
  (index_ c = kNew -> channel_map_ (poller w) !! fd_ c = None /\ pollable (kernel w) (fd_ c)) ->
  exists w', UpdateChannel cur p w = Ok w' /\ inv w' /\ registered p c w w'.
Proof.
  intros Hi <- Hc Hnew. unfold UpdateChannel. rewrite AssertInLoopThread_refl. simpl.
  unfold channel_at. rewrite Hc. simpl.
  destruct (inv_index _ _ Hi p c Hc) as [Hidx|[Hidx Hm]]; rewrite Hidx.
  - destruct (Hnew Hidx) as [Hnone Hpoll]. change (_ || _) with true. simpl.
    rewrite assert_true by (by apply bool_decide_eq_true). simpl.
    pose proof (inv_unmapped _ _ _ Hi Hnone) as Hkn.
    set (w1 := set_channel p _ _). rewrite (Update_spec _ _ w1 (SetIndex kAdded c));
      [| apply lookup_insert_eq | by apply ctl_add].
    eexists; split; [done|].
    assert (registered p c w (set_kernel (epoll_ctl EPOLL_CTL_ADD (fd_ (SetIndex kAdded c))
      (mkEvent (u32 (events_ (SetIndex kAdded c))) p) (kernel w1)).2 w1)) as Hreg.
    { split_and!; try done. simpl. by rewrite ctl_set by (rewrite ?ctl_add by done; done). }
    split; [|done]. by eapply (registered_inv p c w).
  - change (_ || _) with false. simpl.
    assert (is_Some (interest (kernel w) !! fd_ c)) as Hk.
    { destruct (inv_map _ _ Hi _ _ Hm) as (? & ? & ? & ? & ? & -> & _). eauto. }
    rewrite (Update_spec _ _ w c) by (try done; by apply ctl_mod).
    eexists; split; [done|].
    assert (SetIndex kAdded c = c) as Hsame by (destruct c; simpl in *; by subst).
    match goal with |- inv ?w' /\ _ => assert (registered p c w w') as Hreg end.
    { unfold registered. rewrite Hsame. split_and!; try done; simpl.
      - by rewrite insert_id.
      - by rewrite insert_id.
      - by rewrite ctl_set by (rewrite ?ctl_mod by done; done). }
    split; [|done]. eapply (registered_inv p c w); try done.
    intros Hx. rewrite Hidx in Hx. done.
Qed.

(** A registered channel with no events is removed; its index makes it new. *)
Lemma RemoveChannel_spec cur p w c :
  inv w -> owner_tid (poller w) = cur -> channels w !! p = Some c -> p <> 0 ->
  index_ c = kAdded -> events_ c = kNone ->
  exists w', RemoveChannel cur p w = Ok w' /\ inv w' /\
    channels w' = <[p := SetIndex kNew c]> (channels w) /\
    channel_map_ (poller w') = delete (fd_ c) (channel_map_ (poller w)) /\
    interest (kernel w') = delete (fd_ c) (interest (kernel w)) /\
    owner_tid (poller w') = owner_tid (poller w).
Proof.
  intros Hi <- Hc Hp Hidx Hev. unfold RemoveChannel. rewrite AssertInLoopThread_refl. simpl.
  unfold channel_at. rewrite Hc. simpl.
  destruct (inv_index _ _ Hi p c Hc) as [Hx|[_ Hm]]; [rewrite Hidx in Hx; done|].
  rewrite Hm. simpl. unfold IsNoneEvent. rewrite Hev, Hidx. simpl.
  replace (p =? 0) with false by blia. simpl. rewrite lookup_insert_eq. simpl.
  assert (is_Some (interest (kernel w) !! fd_ c)) as Hk.
  { destruct (inv_map _ _ Hi _ _ Hm) as (? & ? & ? & ? & ? & -> & _). eauto. }
  match goal with |- context [Update EPOLL_CTL_DEL p ?w1] => set (w1' := w1) end.
  rewrite (Update_spec _ _ w1' c) by (try done; by apply ctl_del). simpl. rewrite Hc. simpl.
  eexists; split; [done|]. unfold set_channel. simpl.
  rewrite delete_insert_eq. rewrite ctl_unset by (rewrite ctl_del by done; done).
  split_and!; try done. split; simpl.
  - intros fd q. rewrite lookup_delete. case_decide; [done|]. intros Hq.
    destruct (inv_map _ _ Hi fd q Hq) as (c' & ev & ? & ? & ? & ? & ?).
    assert (q <> p) by (intros ->; congruence).
    rewrite ctl_unset, lookup_delete_ne by (rewrite ?ctl_del by done; done).
    rewrite lookup_insert_ne by done. eauto 10.
  - intros fd. rewrite ctl_unset by (rewrite ctl_del by done; done).
    rewrite !lookup_delete. case_decide; [by intros []|]. apply (inv_kernel _ _ Hi).
  - intros q c'. destruct (decide (q = p)) as [->|Hne].
    + rewrite lookup_insert_eq. intros [= <-]. by left.
    + rewrite lookup_insert_ne by done. intros Hc'.
      destruct (inv_index _ _ Hi q c' Hc') as [?|[? Hq]]; [by left|right]. split; [done|].
      rewrite lookup_delete_ne; [done|]. intros Heq. rewrite <- Heq in Hq. congruence.
  - apply (inv_size _ _ Hi).
Qed.

(** ** Polling *)

(** The channels after events are delivered: each reported channel has the
    events reported for it. *)
Definition deliver (m : gmap ptr (Channel Cb)) (e : epoll_event) : gmap ptr (Channel Cb) :=
  alter (SetRevents (i32 (ev_events e))) (ev_ptr e) m.

Definition set_channels (m : gmap ptr (Channel Cb)) w : world Cb K :=
  mkWorld (poller w) m (kernel w).

Lemma fill_spec evs active w :
  (forall e, e ∈ evs -> exists c, channels w !! ev_ptr e = Some c /\
     channel_map_ (poller w) !! fd_ c = Some (ev_ptr e)) ->
  foldM fill_one evs (w, active) =
    Ok (set_channels (foldl deliver (channels w) evs) w, active ++ (ev_ptr <$> evs)).
Proof.
  revert active w. induction evs as [|e evs IH]; intros active w Hreg.
  { simpl. rewrite app_nil_r. by destruct w. }
  destruct (Hreg e) as (c & Hc & Hm); [set_solver|].
  cbn [foldM fill_one]. unfold channel_at. rewrite Hc. simpl. rewrite Hm.
  rewrite (bool_decide_eq_true_2 (is_Some _)) by eauto.
  rewrite bool_decide_eq_true_2 by done. simpl.
  assert (deliver (channels w) e = <[ev_ptr e := SetRevents (i32 (ev_events e)) c]> (channels w))
    as Hd.
  { unfold deliver. apply map_eq. intros i. rewrite lookup_alter.
    destruct (decide (ev_ptr e = i)) as [<-|]; [by rewrite Hc, lookup_insert_eq|].
    by rewrite lookup_insert_ne. }
  rewrite IH; simpl.
  - rewrite Hd. unfold set_channels. simpl. by rewrite <- app_assoc.
  - intros e' He'. destruct (Hreg e') as (c' & Hc' & Hm'); [set_solver|].
    destruct (decide (ev_ptr e' = ev_ptr e)) as [Heq|].
    + rewrite Heq, lookup_insert_eq. rewrite Heq in Hc', Hm'. assert (c' = c) as -> by congruence.
      eauto.
    + rewrite lookup_insert_ne by done. eauto.
Qed.

Lemma deliver_lookup m evs q :
  exists f : Channel Cb -> Channel Cb, foldl deliver m evs !! q = f <$> m !! q /\
    (forall c, f c = c \/ exists r, f c = SetRevents r c).
Proof.
  revert m. induction evs as [|e evs IH]; intros m; simpl.
  { exists id. split; [by destruct (m !! q)|]. by left. }
  destruct (IH (deliver m e)) as (f & -> & Hf). unfold deliver. rewrite lookup_alter.
  destruct (decide (ev_ptr e = q)) as [->|].
  - exists (f ∘ SetRevents (i32 (ev_events e))). split; [by destruct (m !! q)|].
    intros c. simpl. destruct (Hf (SetRevents (i32 (ev_events e)) c)) as [->|[r ->]]; eauto.
  - exists f. done.
Qed.

(** What the invariant says of a channel. *)
Definition shape (c : Channel Cb) : Z * Z * Z := (fd_ c, index_ c, events_ c).

Lemma inv_shape dirty m w :
  (forall q, shape <$> m !! q = shape <$> channels w !! q) -> inv_but dirty w -> inv_but dirty (set_channels m w).
Proof.
  intros Hm Hi. assert (forall q c, channels w !! q = Some c ->
    exists c', m !! q = Some c' /\ fd_ c' = fd_ c /\ index_ c' = index_ c /\ events_ c' = events_ c) as Hf.
  { intros q c Hc. specialize (Hm q). rewrite Hc in Hm. apply fmap_Some in Hm as (c' & Hc' & [= E1 E2 E3]).
    by exists c'. }
  split; simpl.
  - intros fd q Hq. destruct (inv_map _ _ Hi fd q Hq) as (c & ev & Hc & <- & <- & ? & Hev).
    destruct (Hf q c Hc) as (c' & ? & E1 & E2 & E3). exists c', ev. rewrite E3. by split_and!.
  - apply (inv_kernel _ _ Hi).
  - intros q c' Hc'. pose proof (Hm q) as Hq. rewrite Hc' in Hq. symmetry in Hq.
    apply fmap_Some in Hq as (c & Hc & _).
    destruct (Hf q c Hc) as (c2 & H2 & E1 & E2 & _). rewrite Hc' in H2. injection H2 as <-.
    rewrite E1, E2. by apply (inv_index _ _ Hi).
  - apply (inv_size _ _ Hi).
Qed.

Lemma inv_deliver evs w : inv w -> inv (set_channels (foldl deliver (channels w) evs) w).
Proof.
  apply inv_shape. intros q. destruct (deliver_lookup (channels w) evs q) as (f & -> & Hf).
  destruct (channels w !! q) as [c|]; [|done]. simpl. by destruct (Hf c) as [->|[r ->]].
Qed.
End Facts.
Arguments inv_but {Cb K _} dirty w.
