(* ===== verification/ServerStatus.v ===== *)
(** * Server status (evk/server_status.h)

    The life-cycle states shared by event loops, loop threads, thread pools and
    servers.  [status_] is atomic: each load and store is one step. *)

From S2P Require Import Prelude.

Inductive Status :=
  | kNull | kInitializing | kInitialized | kStarting | kRunning | kStopping | kStopped.

Inductive SubStatus := kSubStatusNull | kStoppingListener | kStoppingThreadPool.

#[export] Instance Status_eq_dec : EqDecision Status.
Proof. solve_decision. Defined.

(** The enumerators' values, which [status_.load() < kRunning] compares. *)
Definition status_value (s : Status) : Z :=
  match s with
  | kNull => 0 | kInitializing => 1 | kInitialized => 2 | kStarting => 3
  | kRunning => 4 | kStopping => 5 | kStopped => 6
  end.

Definition status_lt (a b : Status) : bool := status_value a <? status_value b.

Definition StatusToString (s : Status) : string :=
  match s with
  | kNull => "kNull"
  | kInitialized => "kInitialized"
  | kRunning => "kRunning"
  | kStopping => "kStopping"
  | kStopped => "kStopped"
  | _ => "Unknown"
  end.

Definition IsRunning (s : Status) : bool := bool_decide (s = kRunning).
Definition IsStopped (s : Status) : bool := bool_decide (s = kStopped).
Definition IsStopping (s : Status) : bool := bool_decide (s = kStopping).
