(* ===== verification/LoopChannels.v ===== *)
(** * Channels of an event loop (evk/channel.cc with evk/event_loop.cc)

    The path of an interest change: a channel's [Enable*]/[Disable*]/[Remove]
    member, the loop's [UpdateChannel]/[RemoveChannel], the poller, the kernel. *)

From S2P Require Import Prelude LoopThread Duration Timestamp Channel EPoller EPollerFacts.
#[local] Open Scope Z_scope.

Section LoopChannels.
Context {Cb K : Type} `{EpollKernel K}.

(** The loop object [this] of thread [tid_]; [cur] is the calling thread. *)
Context (this : ptr) (tid_ cur : thread_id).
Abbreviation world := (world Cb K).

Definition Loop_UpdateChannel (p : ptr) (w : world) : result world :=
  c ← channel_at w p;
  _ ← assert (loop_ c =? this);
  _ ← AssertInLoopThread tid_ cur;
  EPoller.UpdateChannel cur p w.

Definition Loop_HasChannel (p : ptr) (w : world) : result bool :=
  c ← channel_at w p;
  _ ← assert (loop_ c =? this);
  _ ← AssertInLoopThread tid_ cur;
  EPoller.HasChannel cur p w.

Definition Loop_RemoveChannel (p : ptr) (w : world) : result world :=
  c ← channel_at w p;
  _ ← assert (loop_ c =? this);
  _ ← AssertInLoopThread tid_ cur;
  EPoller.RemoveChannel cur p w.

(** [Channel::Update]. *)
Definition Channel_Update (p : ptr) (w : world) : result world :=
  c ← channel_at w p;
  Loop_UpdateChannel p (set_channel p (set_added true c) w).

(** [Channel::EnableReadEvent] and its four siblings. *)
Definition Channel_change (ch : change) (p : ptr) (w : world) : result world :=
  c ← channel_at w p;
  Channel_Update p (set_channel p (set_events (change_events ch (events_ c)) c) w).

(** [Channel::Remove]. *)
Definition Channel_Remove (p : ptr) (w : world) : result world :=
  c ← channel_at w p;
  _ ← assert (IsNoneEvent c);
  Loop_RemoveChannel p (set_channel p (set_added false c) w).
End LoopChannels.

Section Properties.
Context {Cb K : Type} `{KL : EpollLaws K}.
Implicit Types (w : world Cb K) (p q : ptr) (c : Channel Cb).

(** Changing fields the invariant does not read, or the events of one channel,
    dirties at most that channel. *)
Lemma inv_but_set_channel p c c' w :
  inv_but None w -> channels w !! p = Some c -> fd_ c' = fd_ c -> index_ c' = index_ c ->
  inv_but (Some p) (set_channel p c' w).
Proof.
  intros Hi Hc Hfd Hidx. split; simpl.
  - intros fd q Hq. destruct (inv_map _ _ Hi fd q Hq) as (cq & ev & Hcq & ? & ? & ? & Hev).
    destruct (decide (q = p)) as [->|Hne].
    + rewrite lookup_insert_eq. assert (cq = c) as -> by congruence.
      exists c', ev. split_and!; try done; try congruence.
    + rewrite lookup_insert_ne by done. exists cq, ev. split_and!; try done. intros _. by apply Hev.
  - apply (inv_kernel _ _ Hi).
  - intros q cq. destruct (decide (q = p)) as [->|Hne].
    + rewrite lookup_insert_eq. intros [= <-]. rewrite Hfd, Hidx. by apply (inv_index _ _ Hi).
    + rewrite lookup_insert_ne by done. apply (inv_index _ _ Hi).
  - apply (inv_size _ _ Hi).
Qed.

Lemma inv_set_added p c b w :
  inv_but None w -> channels w !! p = Some c -> inv_but None (set_channel p (set_added b c) w).
Proof.
  intros Hi Hc. destruct (inv_but_set_channel p c (set_added b c) w Hi Hc) as [Hm Hk Hx Hs];
    try done. split; try done.
  intros fd q Hq. destruct (Hm fd q Hq) as (cq & ev & Hcq & ? & ? & Hin & Hev).
  exists cq, ev. split_and!; try done. intros _. destruct (decide (q = p)) as [->|].
  - simpl in Hcq, Hin, Hq. rewrite lookup_insert_eq in Hcq. injection Hcq as <-. simpl.
    destruct (inv_map _ _ Hi fd p Hq) as (c0 & ev0 & Hc0 & ? & ? & Hin0 & Hev0).
    assert (c0 = c) as -> by congruence. rewrite Hev0 in Hin0 by done. congruence.
  - apply Hev. congruence.
Qed.

(** A channel may be built, or replaced while it was never registered. *)
Lemma inv_new_channel p c' w :
  inv_but None w -> (forall c, channels w !! p = Some c -> index_ c = kNew) -> index_ c' = kNew ->
  inv_but None (set_channel p c' w).
Proof.
  intros [Hm Hk Hx Hs] Hn Hn'. split; simpl; try done.
  - intros fd q Hq. destruct (Hm fd q Hq) as (cq & ev & Hcq & Hfd & Hidx & Hrest).
    exists cq, ev. rewrite lookup_insert_ne; [done|]. intros <-.
    rewrite (Hn cq) in Hidx; done.
  - intros q cq. destruct (decide (q = p)) as [->|].
    + rewrite lookup_insert_eq. intros [= <-]. by left.
    + rewrite lookup_insert_ne by done. apply Hx.
Qed.

Context (this : ptr) (tid_ : thread_id).

(** A channel that may be registered: it belongs to the loop, and if it is new its
    descriptor is free and supports epoll. *)
Definition registrable p c w : Prop :=
  channels w !! p = Some c /\ loop_ c = this /\ owner_tid (poller w) = tid_ /\
  (index_ c = kNew ->
     channel_map_ (poller w) !! fd_ c = None /\ pollable (kernel w) (fd_ c)).

(** The path of an interest change through loop, poller and kernel. *)
Lemma Channel_change_spec ch p c w :
  inv_but None w -> registrable p c w ->
  let c' := SetIndex kAdded (set_added true (set_events (change_events ch (events_ c)) c)) in
  exists w', Channel_change this tid_ tid_ ch p w = Ok w' /\ inv_but None w' /\
    channels w' = <[p := c']> (channels w) /\
    interest (kernel w') =
      <[fd_ c := mkEvent (u32 (change_events ch (events_ c))) p]> (interest (kernel w)) /\
    channel_map_ (poller w') = <[fd_ c := p]> (channel_map_ (poller w)) /\
    owner_tid (poller w') = owner_tid (poller w).
Proof.
  intros Hi (Hc & Hl & Ho & Hnew) c'.
  set (c1 := set_added true (set_events (change_events ch (events_ c)) c)).
  unfold Channel_change, Channel_Update, Loop_UpdateChannel, channel_at. rewrite Hc. simpl.
  rewrite !lookup_insert_eq. simpl. rewrite lookup_insert_eq. simpl.
  rewrite Hl, Z.eqb_refl. simpl. rewrite AssertInLoopThread_refl. simpl.
  destruct (UpdateChannel_spec tid_ p (set_channel p c1 w) c1)
    as (w' & Hrun & Hi' & Hch & Hm & Hk & Ho'); try done.
  - by apply (inv_but_set_channel p c c1).
  - simpl. by rewrite lookup_insert_eq.
  - exists w'. unfold set_channel in Hrun |- *. simpl in Hrun |- *.
    rewrite insert_insert_eq. split_and!; try done.
    rewrite Hch. simpl. by rewrite insert_insert_eq.
Qed.

(** [C31] Every interest change made by the loop's thread succeeds, and the
    kernel then watches exactly what the channel asks for: the interest list
    gains or replaces the channel's entry (its new mask and its own pointer) and
    keeps every other entry, and the poller's invariant holds again. *)
Theorem Channel_change_mirrored ch p c w :
  inv_but None w -> registrable p c w ->
  let c' := SetIndex kAdded (set_added true (set_events (change_events ch (events_ c)) c)) in
  exists w', Channel_change this tid_ tid_ ch p w = Ok w' /\ inv_but None w' /\
    channels w' = <[p := c']> (channels w) /\
    interest (kernel w') =
      <[fd_ c := mkEvent (u32 (change_events ch (events_ c))) p]> (interest (kernel w)) /\
    channel_map_ (poller w') = <[fd_ c := p]> (channel_map_ (poller w)).
Proof.
  intros Hi Hr c'. destruct (Channel_change_spec ch p c w Hi Hr) as (w' & ? & ? & ? & ? & ? & _).
  eauto 10.
Qed.

(** The path of a removal. *)
Lemma Channel_Remove_spec p c w :
  inv_but None w -> registrable p c w -> p <> 0 -> index_ c = kAdded -> events_ c = kNone ->
  exists w', Channel_Remove this tid_ tid_ p w = Ok w' /\ inv_but None w' /\
    channels w' = <[p := SetIndex kNew (set_added false c)]> (channels w) /\
    interest (kernel w') = delete (fd_ c) (interest (kernel w)) /\
    channel_map_ (poller w') = delete (fd_ c) (channel_map_ (poller w)) /\
    owner_tid (poller w') = owner_tid (poller w).
Proof.
  intros Hi (Hc & Hl & Ho & _) Hp Hidx Hev.
  unfold Channel_Remove, Loop_RemoveChannel, channel_at. rewrite Hc. simpl.
  unfold IsNoneEvent. rewrite Hev. simpl. rewrite lookup_insert_eq. simpl.
  rewrite Hl, Z.eqb_refl. simpl. rewrite AssertInLoopThread_refl. simpl.
  destruct (RemoveChannel_spec tid_ p (set_channel p (set_added false c) w) (set_added false c))
    as (w' & Hrun & Hi' & Hch & Hm & Hk & Ho'); try done.
  - by apply inv_set_added.
  - simpl. by rewrite lookup_insert_eq.
  - exists w'. split_and!; try done. rewrite Hch. simpl. by rewrite insert_insert_eq.
Qed.

(** Removing a registered channel that watches nothing succeeds on the
    loop's thread and takes its entry, and no other, out of the map and out of
    the kernel's interest list; the channel may then be registered again. *)
Theorem Channel_Remove_mirrored p c w :
  inv_but None w -> registrable p c w -> p <> 0 -> index_ c = kAdded -> events_ c = kNone ->
  exists w', Channel_Remove this tid_ tid_ p w = Ok w' /\ inv_but None w' /\
    channels w' = <[p := SetIndex kNew (set_added false c)]> (channels w) /\
    interest (kernel w') = delete (fd_ c) (interest (kernel w)) /\
    channel_map_ (poller w') = delete (fd_ c) (channel_map_ (poller w)).
Proof.
  intros Hi Hr Hp Ha He. destruct (Channel_Remove_spec p c w Hi Hr Hp Ha He) as (w' & ? & ? & ? & ? & ? & _).
  eauto 10.
Qed.

(** Interest changes, removals and queries are confined to the loop's
    thread: any such call that returns was made by it. *)
Theorem channel_thread_confinement cur ch p w :
  (exists w', Channel_change this tid_ cur ch p w = Ok w') \/
  (exists w', Channel_Remove this tid_ cur p w = Ok w') \/
  (exists b, Loop_HasChannel this tid_ cur p w = Ok b) ->
  cur = tid_.
Proof.
  unfold Channel_change, Channel_Update, Channel_Remove, Loop_UpdateChannel, Loop_RemoveChannel,
    Loop_HasChannel.
  intros [[w' Hr]|[[w' Hr]|[b Hr]]]; inv_ok;
    repeat match goal with H : AssertInLoopThread _ _ = Ok _ |- _ =>
      apply AssertInLoopThread_ok in H end; congruence.
Qed.

Lemma inv_set_kernel k w :
  interest k = interest (kernel w) -> inv_but None w -> inv_but None (set_kernel k w).
Proof.
  intros Hk [Hm Hkn Hx Hs]. split; simpl; try done; rewrite ?Hk; try done.
  all: intros fd; rewrite Hk; auto.
Qed.

(** The two outcomes of [poll]. *)
Lemma poll_spec tv t active w :
  inv_but None w -> event_list_size (poller w) < 2 ^ 62 ->
  match (epoll_wait (event_list_size (poller w)) t (kernel w)).1 with
  | Events evs =>
      exists w', poll tv t active w = Ok (w', active ++ (ev_ptr <$> evs), Now tv) /\
        inv_but None w' /\ channels w' = foldl deliver (channels w) evs /\
        event_list_size (poller w') =
          (if Z.of_nat (length evs) =? event_list_size (poller w)
           then 2 * event_list_size (poller w) else event_list_size (poller w))
  | WaitError _ => exists w', poll tv t active w = Ok (w', active, Now tv) /\
        inv_but None w' /\ channels w' = channels w
  end.
Proof.
  intros Hi Hs. pose proof (inv_size _ _ Hi) as Hge. unfold kInitEventListSize in Hge.
  pose proof (wait_interest (event_list_size (poller w)) t (kernel w)) as Hk.
  pose proof (wait_events (event_list_size (poller w)) t (kernel w)) as Hw.
  unfold poll. destruct (epoll_wait _ _ _) as [[evs|e] k]; simpl in *;
    [|exists (set_kernel k w); split_and!; auto using inv_set_kernel].
  destruct (Hw evs eq_refl ltac:(lia)) as [Hlen Hev].
  pose proof (inv_set_kernel k w Hk Hi) as Hi1.
  assert (forall e, e ∈ evs -> exists c, channels (set_kernel k w) !! ev_ptr e = Some c /\
     channel_map_ (poller (set_kernel k w)) !! fd_ c = Some (ev_ptr e)) as Hreg.
  { intros e (fd & ev & Hin & <-)%Hev. simpl.
    destruct (inv_kernel _ _ Hi fd) as [q Hq]; [by rewrite Hin|].
    destruct (inv_map _ _ Hi fd q Hq) as (c & ev' & Hc & <- & _ & Hin' & _).
    rewrite Hin in Hin'. injection Hin' as ->. simpl. eauto. }
  pose proof (inv_deliver evs _ Hi1) as Hi2.
  destruct evs as [|e0 evs0].
  - eexists. rewrite app_nil_r. split_and!; [done..|].
    replace (Z.of_nat (length []) =? event_list_size (poller w)) with false; [done|].
    symmetry. apply Z.eqb_neq. simpl. lia.
  - set (evs := e0 :: evs0) in *. clearbody evs. clear e0 evs0.
    unfold FillActiveChannels. rewrite assert_true by (simpl poller; blia).
    cbn [mbind result_bind]. rewrite (fill_spec _ _ _ Hreg). cbn [mbind result_bind].
    eexists; split; [done|].
    change (event_list_size (poller (set_channels _ _))) with (event_list_size (poller w)).
    destruct (Z.of_nat (length evs) =? event_list_size (poller w)) eqn:E; [|done].
    simpl. rewrite u64_id by (unfold in_u64; lia). split_and!; try done; [|lia].
    destruct Hi2 as [? ? ? ?]. split; simpl; try done. unfold kInitEventListSize. lia.
Qed.
(** A channel but for the events received and the flag of its dispatch. *)
Definition marks c : Channel Cb := SetRevents 0 (set_handling false c).


Lemma poll_keeps tv t a (i i' : world Cb K) a' ts :
  EPoller.poll tv t a i = Ok (i', a', ts) ->
  kernel i' = (epoll_wait (event_list_size (poller i)) t (kernel i)).2 /\
  owner_tid (poller i') = owner_tid (poller i).
Proof.
  unfold EPoller.poll. destruct (epoll_wait _ _ _) as [[evs|e] k]; simpl; [|by intros [= <- _ _]].
  destruct evs as [|e0 evs]; [by intros [= <- _ _]|].
  set (l := e0 :: evs). clearbody l. intros Hr. inv_ok.
  unfold FillActiveChannels in *. inv_ok.
  match goal with Hf : foldM fill_one _ _ = Ok _ |- _ =>
    apply (foldM_invariant (fun x => kernel x.1 = k /\ owner_tid (poller x.1) = owner_tid (poller i))) in Hf; [|..|done] end.
  - destruct x as [i1 a1]. injection Hr as <- _ _. simpl in E. by destruct (_ =? _).
  - intros e [i1 a1] x' Hx Hf. unfold fill_one in Hf. inv_ok. exact Hx.
Qed.

(** Only registered channels are reported. *)
Lemma reported_known tv t a (i i' : world Cb K) a' ts :
  inv_but None i -> event_list_size (poller i) < 2 ^ 62 -> EPoller.poll tv t a i = Ok (i', a ++ a', ts) ->
  Forall (fun p => exists c, channels i' !! p = Some c /\ index_ c = kAdded) a'.
Proof.
  intros Hi Hs Hr. pose proof (poll_spec tv t a i Hi Hs) as Hp.
  pose proof (inv_size _ _ Hi) as Hge. unfold kInitEventListSize in Hge.
  pose proof (wait_events (event_list_size (poller i)) t (kernel i)) as Hw.
  destruct (epoll_wait _ _ _).1 as [evs|e].
  - destruct Hp as (i2 & Hr2 & _ & Hch & _). rewrite Hr in Hr2. injection Hr2 as <- Ha%app_inv_head _.
    rewrite Ha. apply Forall_fmap, Forall_forall. intros e He. rewrite Hch. simpl.
    destruct (Hw evs eq_refl ltac:(lia)) as [_ Hev]. destruct (Hev e He) as (fd & ev & Hin & Hpe).
    destruct (inv_kernel _ _ Hi fd) as [q Hq]; [by rewrite Hin|].
    destruct (inv_map _ _ Hi fd q Hq) as (c & ev' & Hc & _ & Hadd & Hin' & _).
    rewrite Hin in Hin'. injection Hin' as ->. simpl in Hpe. rewrite <- Hpe.
    destruct (deliver_lookup (channels i) evs q) as (f & -> & Hf). rewrite Hc. eexists. split; [done|].
    by destruct (Hf c) as [->|[r ->]].
  - destruct Hp as (i2 & Hr2 & _). rewrite Hr in Hr2. injection Hr2 as _ Ha _.
    rewrite <- (app_nil_r a) in Ha at 2. apply app_inv_head in Ha. by rewrite Ha.
Qed.

Lemma poll_marks tv t a (i i' : world Cb K) a' ts :
  inv_but None i -> event_list_size (poller i) < 2 ^ 62 -> EPoller.poll tv t a i = Ok (i', a', ts) ->
  inv_but None i' /\ (forall q, marks <$> channels i' !! q = marks <$> channels i !! q) /\
  forall q, event_handling_ <$> channels i' !! q = event_handling_ <$> channels i !! q.
Proof.
  intros Hi Hs Hr. pose proof (poll_spec tv t a i Hi Hs) as Hp. destruct (epoll_wait _ _ _).1 as [evs|e].
  - destruct Hp as (i2 & Hr2 & Hi2 & Hch & _). rewrite Hr in Hr2. injection Hr2 as <- _ _. split; [done|].
    rewrite Hch. split; intros q; destruct (deliver_lookup (channels i) evs q) as (f & -> & Hf);
      (destruct (channels i !! q) as [c|]; [|done]); simpl; by destruct (Hf c) as [->|[r ->]].
  - destruct Hp as (i2 & Hr2 & Hi2 & Hch). rewrite Hr in Hr2. injection Hr2 as <- _ _. split; [done|].
    by rewrite Hch.
Qed.

(** [C20] What [poll] delivers.  If the wait reports events, each reported channel
    gets exactly the events reported for it and is appended to the active list in
    the kernel's order, no other channel changes, none of the map's assertions can
    fail, and the event vector doubles exactly when it was filled; a timeout or a
    failed wait delivers nothing. *)
Theorem poll_delivers tv t active w :
  inv_but None w -> event_list_size (poller w) < 2 ^ 62 ->
  match (epoll_wait (event_list_size (poller w)) t (kernel w)).1 with
  | Events evs =>
      exists w', poll tv t active w = Ok (w', active ++ (ev_ptr <$> evs), Now tv) /\
        inv_but None w' /\ channels w' = foldl deliver (channels w) evs /\
        event_list_size (poller w') =
          (if Z.of_nat (length evs) =? event_list_size (poller w)
           then 2 * event_list_size (poller w) else event_list_size (poller w))
  | WaitError _ => exists w', poll tv t active w = Ok (w', active, Now tv) /\
        inv_but None w' /\ channels w' = channels w
  end.
Proof. apply poll_spec. Qed.
End Properties.
