(* ===== verification/LoopChannelsDemo.v ===== *)
(** * Runs of the channel operations on the concrete kernel *)

From S2P Require Import Prelude LoopThread Duration Timestamp Channel EPoller EPollerFacts LoopChannels.
From S2P Require Import EventFd SimKernel.
#[local] Open Scope Z_scope.

(** A loop [7] of thread [1] with a channel [100] on descriptor 5, new, and a ready
    event on it. *)
Definition demo_channel : Channel Z := Channel_new 7 5.
Definition demo_world : world Z sim :=
  mkWorld (mkEPoller 1 16 ∅) {[100 := demo_channel]} (mkSim ∅ [mkEvent 1 100] 0).

Lemma demo_inv : inv_but None demo_world.
Proof.
  split; simpl.
  - intros fd p Hp. by rewrite lookup_empty in Hp.
  - intros fd [x Hx]. by rewrite lookup_empty in Hx.
  - intros p c [<- <-]%lookup_singleton_Some. by left.
  - done.
Qed.

Lemma demo_registrable : registrable 7 1 100 demo_channel demo_world.
Proof. by split_and!. Qed.

Lemma Channel_change_mirrored_witness :
  exists w', Channel_change 7 1 1 EnableRead 100 demo_world = Ok w' /\ inv_but None w' /\
    channels w' = <[100 := SetIndex kAdded (set_added true (set_events 3 demo_channel))]>
      (channels demo_world) /\
    interest (kernel w') = <[5 := mkEvent (u32 3) 100]> (interest (kernel demo_world)) /\
    channel_map_ (poller w') = <[5 := 100]> (channel_map_ (poller demo_world)).
Proof.
  apply (Channel_change_mirrored 7 1 EnableRead 100 demo_channel demo_world).
  - apply demo_inv.
  - apply demo_registrable.
Defined.

(** After [EnableReadEvent] and [DisableAllEvent]. *)
Definition demo_registered : Channel Z := SetIndex kAdded (set_added true demo_channel).
Definition demo_world2 : world Z sim :=
  mkWorld (mkEPoller 1 16 {[5 := 100]}) {[100 := demo_registered]}
    (mkSim {[5 := mkEvent 0 100]} [mkEvent 1 100] 0).

Lemma demo_inv2 : inv_but None demo_world2.
Proof.
  split; simpl.
  - intros fd p [<- <-]%lookup_singleton_Some. eexists _, _.
    split_and!; try apply lookup_singleton_eq; done.
  - intros fd [x [<- <-]%lookup_singleton_Some]. rewrite lookup_singleton_eq. eauto.
  - intros p c [<- <-]%lookup_singleton_Some. right. split; [done|]. apply lookup_singleton_eq.
  - done.
Qed.

Lemma Channel_Remove_mirrored_witness :
  exists w', Channel_Remove 7 1 1 100 demo_world2 = Ok w' /\ inv_but None w' /\
    channels w' = <[100 := SetIndex kNew (set_added false demo_registered)]> (channels demo_world2) /\
    interest (kernel w') = delete 5 (interest (kernel demo_world2)) /\
    channel_map_ (poller w') = delete 5 (channel_map_ (poller demo_world2)).
Proof.
  apply (Channel_Remove_mirrored 7 1 100 demo_registered demo_world2).
  - apply demo_inv2.
  - by split_and!.
  - done.
  - done.
  - done.
Defined.

Lemma poll_delivers_witness :
  (epoll_wait 16 10000 (kernel demo_world2)).1 = Events [mkEvent 1 100] /\
  match (epoll_wait 16 10000 (kernel demo_world2)).1 with
  | Events evs =>
      exists w', poll (mkTimeval 9 0) 10000 [] demo_world2 =
          Ok (w', [] ++ (ev_ptr <$> evs), Now (mkTimeval 9 0)) /\
        inv_but None w' /\ channels w' = foldl deliver (channels demo_world2) evs /\
        event_list_size (poller w') = (if Z.of_nat (length evs) =? 16 then 2 * 16 else 16)
  | WaitError _ => exists w', poll (mkTimeval 9 0) 10000 [] demo_world2 = Ok (w', [], Now (mkTimeval 9 0)) /\
        inv_but None w' /\ channels w' = channels demo_world2
  end.
Proof.
  split; [vm_compute; reflexivity|].
  apply (poll_delivers (mkTimeval 9 0) 10000 [] demo_world2).
  - apply demo_inv2.
  - simpl. lia.
Defined.

Lemma channel_thread_confinement_witness :
  exists w', Channel_change 7 1 1 EnableRead 100 demo_world = Ok w' /\ 1 = 1.
Proof.
  eexists. split; [vm_compute; reflexivity|].
  apply (channel_thread_confinement (K := sim) 7 1 1 EnableRead 100 demo_world).
  left. eexists. vm_compute. reflexivity.
Defined.
