(* ===== verification/Poller.v ===== *)
(** * Poller (evk/poller.h, evk/poller.cc): multiplexing with poll

    [pollfd_list_] is the array handed to poll(2); a channel's [index_] is its
    position there, and [channel_map_] finds the channel of a descriptor.  A
    channel that watches nothing is parked by storing the negative number
    [-fd-1].  The system call is an argument of [poll]. *)

From S2P Require Import Prelude LoopThread Duration Timestamp Channel.
#[local] Open Scope Z_scope.

Record pollfd := mkPollfd { pfd_fd : Z; pfd_events : Z; pfd_revents : Z }.

Record Poller := mkPoller {
  owner_tid : thread_id;
  pollfd_list_ : list pollfd;
  channel_map_ : gmap Z ptr
}.

Definition Poller_new (tid : thread_id) : Poller := mkPoller tid [] ∅.

(** The descriptor of an entry, parked or not. *)
Definition unpark (fd : Z) : Z := if fd <? 0 then - fd - 1 else fd.

Section Poller.
Context {Cb : Type}.

Record pworld := mkPWorld { poller : Poller; channels : gmap ptr (Channel Cb) }.

Definition set_list (l : list pollfd) (w : pworld) : pworld :=
  mkPWorld (mkPoller (owner_tid (poller w)) l (channel_map_ (poller w))) (channels w).
Definition set_map (m : gmap Z ptr) (w : pworld) : pworld :=
  mkPWorld (mkPoller (owner_tid (poller w)) (pollfd_list_ (poller w)) m) (channels w).
Definition set_channel (p : ptr) (c : Channel Cb) (w : pworld) : pworld :=
  mkPWorld (poller w) (<[p := c]> (channels w)).
Definition channel_at (w : pworld) (p : ptr) : result (Channel Cb) := deref (channels w !! p).

(** [cur] is the calling thread. *)
Context (cur : thread_id).

Definition UpdateChannel (p : ptr) (w : pworld) : result pworld :=
  _ ← AssertInLoopThread (owner_tid (poller w)) cur;
  c ← channel_at w p;
  if index_ c <? 0 then
    _ ← assert (bool_decide (channel_map_ (poller w) !! fd_ c = None));
    let pfd := mkPollfd (fd_ c) (i16 (events_ c)) 0 in
    let w := set_list (pollfd_list_ (poller w) ++ [pfd]) w in
    let idx := i32 (Z.of_nat (length (pollfd_list_ (poller w)))) - 1 in
    let w := set_channel p (SetIndex idx c) w in
    Ok (set_map (<[pfd_fd pfd := p]> (channel_map_ (poller w))) w)
  else
    _ ← assert (bool_decide (is_Some (channel_map_ (poller w) !! fd_ c)));
    _ ← assert (bool_decide (channel_map_ (poller w) !! fd_ c = Some p));
    let idx := index_ c in
    _ ← assert ((idx >=? 0) && (idx <? i32 (Z.of_nat (size (channel_map_ (poller w))))));
    pfd ← deref (pollfd_list_ (poller w) !! Z.to_nat idx);
    _ ← assert ((pfd_fd pfd =? fd_ c) || (pfd_fd pfd =? - fd_ c - 1));
    let pfd := mkPollfd (pfd_fd pfd) (i16 (events_ c)) 0 in
    let pfd := if IsNoneEvent c then mkPollfd (- fd_ c - 1) (pfd_events pfd) (pfd_revents pfd)
               else pfd in
    Ok (set_list (<[Z.to_nat idx := pfd]> (pollfd_list_ (poller w))) w).

Definition HasChannel (p : ptr) (w : pworld) : result bool :=
  _ ← AssertInLoopThread (owner_tid (poller w)) cur;
  c ← channel_at w p;
  Ok (bool_decide (channel_map_ (poller w) !! fd_ c = Some p)).

(** The last entry takes the removed one's place, and its channel learns its new
    position ([channel_map_[fdAtEnd]->SetIndex(idx)]). *)
Definition RemoveChannel (p : ptr) (w : pworld) : result pworld :=
  _ ← AssertInLoopThread (owner_tid (poller w)) cur;
  c ← channel_at w p;
  _ ← assert (bool_decide (is_Some (channel_map_ (poller w) !! fd_ c)));
  _ ← assert (bool_decide (channel_map_ (poller w) !! fd_ c = Some p));
  _ ← assert (IsNoneEvent c);
  let idx := index_ c in
  let l := pollfd_list_ (poller w) in
  let size := i32 (Z.of_nat (length l)) in
  _ ← assert ((idx >=? 0) && (idx <? size));
  let n := if decide (is_Some (channel_map_ (poller w) !! fd_ c)) then 1 else 0 in
  let w := set_map (delete (fd_ c) (channel_map_ (poller w))) w in
  _ ← assert (n =? 1);
  if idx =? size - 1 then Ok (set_list (removelast l) w)
  else
    back ← deref (last l);
    pfd ← deref (l !! Z.to_nat idx);
    let fdAtEnd := pfd_fd back in
    let l := <[Z.to_nat idx := back]> (<[pred (length l) := pfd]> l) in
    let fdAtEnd := if fdAtEnd <? 0 then - fdAtEnd - 1 else fdAtEnd in
    q ← deref (channel_map_ (poller w) !! fdAtEnd);
    cq ← channel_at w q;
    let w := set_channel q (SetIndex idx cq) w in
    Ok (set_list (removelast l) w).

(** [FillActiveChannels]: stop after [num_events] entries with events. *)
Fixpoint fill (l : list pollfd) (num_events : Z) (active : list ptr) (w : pworld) :
    result (pworld * list ptr) :=
  match l with
  | [] => Ok (w, active)
  | pfd :: l' =>
      if pfd_revents pfd >? 0 then
        let num_events := num_events - 1 in
        _ ← assert (bool_decide (is_Some (channel_map_ (poller w) !! pfd_fd pfd)));
        p ← deref (channel_map_ (poller w) !! pfd_fd pfd);
        c ← channel_at w p;
        _ ← assert (fd_ c =? pfd_fd pfd);
        let w := set_channel p (SetRevents (pfd_revents pfd) c) w in
        let active := active ++ [p] in
        if num_events <=? 0 then Ok (w, active) else fill l' num_events active w
      else fill l' num_events active w
  end.

Definition FillActiveChannels (num_events : Z) (active : list ptr) (w : pworld) :=
  fill (pollfd_list_ (poller w)) num_events active w.

(** [poll]: [sys] is poll(2) on the array, returning its value and the array with
    the received events stored; the address of the first element of an empty
    vector is undefined. *)
Definition poll (sys : list pollfd -> Z -> Z * list pollfd) (tv : timeval) (timeout_ms : Z)
    (active : list ptr) (w : pworld) : result (pworld * list ptr * Timestamp) :=
  _ ← deref (head (pollfd_list_ (poller w)));
  let '(num_events, l) := sys (pollfd_list_ (poller w)) timeout_ms in
  let w := set_list l w in
  let now := Now tv in
  if num_events >? 0 then
    '(w, active) ← FillActiveChannels num_events active w;
    Ok (w, active, now)
  else Ok (w, active, now).
End Poller.
Arguments pworld : clear implicits.

(** ** The invariant *)

Section Facts.
Context {Cb : Type}.
Implicit Types (w : pworld Cb) (p q : ptr) (c : Channel Cb).

(** Entry [i] and the channel [p] with object [c] are of each other. *)
Definition entry_of w (i : nat) (p : ptr) (c : Channel Cb) (pfd : pollfd) : Prop :=
  pollfd_list_ (poller w) !! i = Some pfd /\ channels w !! p = Some c /\
  channel_map_ (poller w) !! fd_ c = Some p /\
  index_ c = Z.of_nat i /\ 0 <= fd_ c /\ (pfd_fd pfd = fd_ c \/ pfd_fd pfd = - fd_ c - 1).

(** Every entry has its channel, every mapped channel its entry, and the array
    is short enough for [int] positions. *)
Record pinv w : Prop := {
  pinv_entry : forall i pfd, pollfd_list_ (poller w) !! i = Some pfd ->
    exists p c, entry_of w i p c pfd;
  pinv_map : forall fd p, channel_map_ (poller w) !! fd = Some p ->
    exists i c pfd, fd_ c = fd /\ entry_of w i p c pfd;
  pinv_size : size (channel_map_ (poller w)) = length (pollfd_list_ (poller w));
  pinv_len : Z.of_nat (length (pollfd_list_ (poller w))) < 2 ^ 31 - 1
}.

Lemma unpark_entry fd x : 0 <= fd -> x = fd \/ x = - fd - 1 -> unpark x = fd.
Proof. unfold unpark. intros ? [->| ->]; destruct (_ <? 0) eqn:E; bsimpl; lia. Qed.

Lemma entry_fd w i p c pfd : entry_of w i p c pfd -> unpark (pfd_fd pfd) = fd_ c.
Proof. intros (_ & _ & _ & _ & H0 & H). by apply unpark_entry. Qed.

(** A channel's position is unique. *)
Lemma entry_unique w i j p c d pfd pfd' :
  entry_of w i p c pfd -> entry_of w j p d pfd' -> i = j /\ c = d /\ pfd = pfd'.
Proof.
  intros (Hi & Hc & _ & Hx & _) (Hj & Hd & _ & Hy & _).
  assert (c = d) as <- by congruence. assert (i = j) as <- by lia.
  split_and!; congruence.
Qed.

Lemma pinv_new tid m : pinv (mkPWorld (Poller_new tid) m : pworld Cb).
Proof.
  split; simpl.
  - intros i pfd H. by rewrite lookup_nil in H.
  - intros fd p H. by rewrite lookup_empty in H.
  - done.
  - lia.
Qed.

Lemma i32_length w :
  pinv w -> i32 (Z.of_nat (length (pollfd_list_ (poller w)))) =
            Z.of_nat (length (pollfd_list_ (poller w))).
Proof. intros Hi. apply i32_id. pose proof (pinv_len w Hi). unfold in_i32. lia. Qed.
End Facts.
