(* ===== verification/PollerFacts.v ===== *)
(** * The poll poller keeps positions and channels in step

    Every member keeps the invariant [pinv] of Poller.v; removal fills the hole
    with the last entry and tells its channel.  A channel that was switched off and
    on again stays parked. *)

From S2P Require Import Prelude LoopThread Duration Timestamp Channel Poller.
#[local] Open Scope Z_scope.

Section Facts.
Context {Cb : Type}.
Implicit Types (w : pworld Cb) (p q : ptr) (c : Channel Cb).

(** ** Adding *)

Lemma UpdateChannel_new cur p c w :
  pinv w -> owner_tid (poller w) = cur -> channels w !! p = Some c -> index_ c < 0 ->
  0 <= fd_ c -> channel_map_ (poller w) !! fd_ c = None ->
  Z.of_nat (length (pollfd_list_ (poller w))) < 2 ^ 31 - 2 ->
  let n := length (pollfd_list_ (poller w)) in
  let pfd := mkPollfd (fd_ c) (i16 (events_ c)) 0 in
  let c' := SetIndex (Z.of_nat n) c in
  UpdateChannel cur p w =
    Ok (mkPWorld (mkPoller cur (pollfd_list_ (poller w) ++ [pfd])
                    (<[fd_ c := p]> (channel_map_ (poller w))))
         (<[p := c']> (channels w))).
Proof.
  intros Hi Ho Hc Hx Hfd Hm Hlen n pfd c'. unfold UpdateChannel. rewrite Ho, AssertInLoopThread_refl.
  simpl. unfold channel_at. rewrite Hc. simpl. replace (index_ c <? 0) with true by blia.
  rewrite assert_true by by apply bool_decide_eq_true. simpl. unfold set_map, set_channel, set_list.
  simpl. rewrite Ho. unfold c', n. do 4 f_equal. rewrite length_app. simpl.
  rewrite i32_id by (unfold in_i32; lia). lia.
Qed.

(** Every channel but [p] keeps its entry, in its place. *)
Definition others_stay p w w' : Prop := forall r j d x, r <> p -> entry_of w j r d x -> entry_of w' j r d x.

Lemma pinv_add p c w pfd :
  pinv w -> channels w !! p = Some c -> index_ c < 0 ->
  0 <= fd_ c -> channel_map_ (poller w) !! fd_ c = None -> pfd_fd pfd = fd_ c ->
  Z.of_nat (length (pollfd_list_ (poller w))) < 2 ^ 31 - 2 ->
  let w' := mkPWorld (mkPoller (owner_tid (poller w)) (pollfd_list_ (poller w) ++ [pfd])
                        (<[fd_ c := p]> (channel_map_ (poller w))))
              (<[p := SetIndex (Z.of_nat (length (pollfd_list_ (poller w)))) c]> (channels w)) in
  pinv w' /\ others_stay p w w'.
Proof.
  intros Hi Hc Hx Hfd Hm Hpfd Hlen w'.
  set (n := length (pollfd_list_ (poller w))).
  assert (entry_of w' n p (SetIndex (Z.of_nat n) c) pfd) as Hnew.
  { unfold entry_of, w', n. simpl. rewrite lookup_app_r, Nat.sub_diag, !lookup_insert_eq by done.
    split_and!; try done. by left. }
  assert (forall i q d x, entry_of w i q d x -> entry_of w' i q d x) as Hold.
  { intros i q d x (Hl & Hd & Hq & Hix & H0 & Hpx).
    assert (q <> p) by (intros ->; assert (d = c) by congruence; subst d; lia).
    assert (fd_ d <> fd_ c) by congruence.
    unfold entry_of, w'; simpl. rewrite !lookup_insert_ne by congruence.
    rewrite lookup_app_l by by eapply lookup_lt_Some. done. }
  split; [split|intros r j d x _; apply Hold].
  - intros i x Hl. destruct (decide (i < n)%nat).
    + unfold w' in Hl. simpl in Hl. rewrite lookup_app_l in Hl by done.
      destruct (pinv_entry w Hi i x Hl) as (q & d & He). eauto.
    + unfold w' in Hl. simpl in Hl.
      assert (i = n) as -> by (apply lookup_lt_Some in Hl; rewrite length_app in Hl; simpl in *; lia).
      destruct Hnew as (Hl' & Hrest). simpl in Hl'. assert (x = pfd) as -> by congruence.
      eexists _, _. done.
  - intros fd q. unfold w' at 1. simpl. destruct (decide (fd = fd_ c)) as [->|Hne].
    + rewrite lookup_insert_eq. intros [= <-]. eexists _, _, _. split; [|done]. done.
    + rewrite lookup_insert_ne by done. intros Hq.
      destruct (pinv_map w Hi fd q Hq) as (i & d & x & ? & He). eauto 10.
  - unfold w'. simpl. rewrite map_size_insert_None, length_app by done. simpl.
    rewrite (pinv_size w Hi). lia.
  - unfold w'. simpl. rewrite length_app. simpl. lia.
Qed.

(** ** Changing *)

Lemma UpdateChannel_existing cur p c w i pfd :
  pinv w -> owner_tid (poller w) = cur -> entry_of w i p c pfd ->
  UpdateChannel cur p w =
    Ok (set_list (<[i := mkPollfd (if IsNoneEvent c then - fd_ c - 1 else pfd_fd pfd)
                                 (i16 (events_ c)) 0]> (pollfd_list_ (poller w))) w).
Proof.
  intros Hi Ho (Hl & Hc & Hm & Hx & Hfd & Hp). unfold UpdateChannel.
  rewrite Ho, AssertInLoopThread_refl. simpl. unfold channel_at. rewrite Hc. simpl.
  replace (index_ c <? 0) with false by blia. rewrite Hm. simpl.
  rewrite (bool_decide_eq_true_2 (Some p = Some p)) by done. simpl.
  rewrite (pinv_size w Hi), i32_length by done. pose proof (lookup_lt_Some _ _ _ Hl).
  rewrite assert_true by (apply andb_true_iff; split; blia). simpl.
  rewrite Hx, Nat2Z.id, Hl. simpl.
  rewrite assert_true by (apply orb_true_iff; destruct Hp; [left|right]; blia). simpl.
  by destruct (IsNoneEvent c).
Qed.

Lemma pinv_change p c w i pfd pfd' :
  pinv w -> entry_of w i p c pfd -> pfd_fd pfd' = fd_ c \/ pfd_fd pfd' = - fd_ c - 1 ->
  let w' := set_list (<[i := pfd']> (pollfd_list_ (poller w))) w in
  pinv w' /\ entry_of w' i p c pfd' /\ others_stay p w w'.
Proof.
  intros Hi He Hp w'. pose proof He as (Hl & Hc & Hm & Hx & Hfd & _).
  pose proof (lookup_lt_Some _ _ _ Hl) as Hlt.
  assert (entry_of w' i p c pfd') as He'.
  { unfold entry_of, w'; simpl. by rewrite list_lookup_insert_eq by done. }
  assert (forall j q d x, j <> i -> entry_of w j q d x -> entry_of w' j q d x) as Hold.
  { intros j q d x Hj (? & ?). unfold entry_of, w'; simpl. by rewrite list_lookup_insert_ne by done. }
  split; [split|split; [done|]].
  - intros j x. destruct (decide (j = i)) as [->|Hj].
    + intros Hl'. destruct He' as (Hl'' & ?). assert (x = pfd') as -> by congruence. eexists _, _.
      split; done.
    + unfold w'. simpl. rewrite list_lookup_insert_ne by done. intros Hl'.
      destruct (pinv_entry w Hi j x Hl') as (q & d & ?). eauto.
  - intros fd q Hq. destruct (pinv_map w Hi fd q Hq) as (j & d & x & Hd & Hj).
    destruct (decide (j = i)) as [->|]; [|eauto 10].
    destruct Hj as (Hl' & Hdc & Hq' & ?). pose proof (entry_fd w i p c pfd He).
    assert (x = pfd) as -> by congruence.
    assert (fd_ d = fd_ c) by (destruct He as (_ & _ & _ & _ & _ & ?); lia).
    assert (q = p) as -> by congruence. assert (d = c) as -> by congruence. eauto 10.
  - unfold w'. simpl. rewrite length_insert. apply (pinv_size w Hi).
  - unfold w'. simpl. rewrite length_insert. apply (pinv_len w Hi).
  - intros r j d x Hr Hj. apply Hold; [|done]. intros ->. apply Hr.
    destruct Hj as (Hl' & Hd & Hr' & _ & ? & ?). assert (x = pfd) as -> by congruence.
    destruct He as (_ & _ & _ & _ & _ & ?). assert (fd_ d = fd_ c) by lia. congruence.
Qed.

(** ** Removing *)

Lemma removelast_lookup {A} (l : list A) j :
  removelast l !! j = if decide (j < pred (length l))%nat then l !! j else None.
Proof. rewrite removelast_firstn_len. apply lookup_take. Qed.

Lemma length_removelast {A} (l : list A) : length (removelast l) = pred (length l).
Proof. rewrite removelast_firstn_len, length_take. lia. Qed.

(** Entry [i] filled with the last entry [b], and the array shortened. *)
Lemma swap_pop_lookup {A} (l : list A) i j b x :
  (i < pred (length l))%nat ->
  removelast (<[i := b]> (<[pred (length l) := x]> l)) !! j =
    if decide (j = i) then Some b
    else if decide (j < pred (length l))%nat then l !! j else None.
Proof.
  intros Hi. rewrite removelast_lookup, !length_insert.
  destruct (decide (j = i)) as [->|].
  - rewrite decide_True, list_lookup_insert_eq by (rewrite ?length_insert; lia). done.
  - destruct (decide (j < _)%nat); [|done]. by rewrite !list_lookup_insert_ne by lia.
Qed.

Lemma SetIndex_same c z : index_ c = z -> SetIndex z c = c.
Proof. intros <-. by destruct c. Qed.

(** An array and a map that lost one channel [p], and in which the others keep
    their entries, possibly elsewhere. *)
Lemma pinv_remove w w' p c i pfd :
  pinv w -> entry_of w i p c pfd ->
  channel_map_ (poller w') = delete (fd_ c) (channel_map_ (poller w)) ->
  length (pollfd_list_ (poller w')) = pred (length (pollfd_list_ (poller w))) ->
  (forall r j d x, r <> p -> entry_of w j r d x ->
     exists j', entry_of w' j' r (SetIndex (Z.of_nat j') d) x) ->
  (forall j x, pollfd_list_ (poller w') !! j = Some x -> exists r d, entry_of w' j r d x) ->
  pinv w'.
Proof.
  intros Hi (Hl & Hc & Hm & _) Hmap Hlen HA HB. split; [done|..].
  - intros fd r. rewrite Hmap. intros [Hne Hr]%lookup_delete_Some.
    destruct (pinv_map w Hi fd r Hr) as (j & d & x & Hd & He).
    destruct (HA r j d x) as [j' Hj']; [|done|].
    + intros ->. destruct He as (_ & Hd' & _). congruence.
    + exists j', (SetIndex (Z.of_nat j') d), x. by split.
  - rewrite Hmap, map_size_delete_Some, Hlen, (pinv_size w Hi) by (by rewrite Hm). done.
  - rewrite Hlen. pose proof (pinv_len w Hi). lia.
Qed.

(** The state after the removal of the channel at position [i]. *)
Definition removed w (i : nat) c (pfd back : pollfd) (q : ptr) (cq : Channel Cb) : pworld Cb :=
  let l := pollfd_list_ (poller w) in
  set_list (removelast (<[i := back]> (<[pred (length l) := pfd]> l)))
    (set_channel q (SetIndex (Z.of_nat i) cq)
       (set_map (delete (fd_ c) (channel_map_ (poller w))) w)).

Lemma RemoveChannel_inner cur p c w i pfd :
  pinv w -> owner_tid (poller w) = cur -> entry_of w i p c pfd -> IsNoneEvent c = true ->
  let n := length (pollfd_list_ (poller w)) in
  (i < pred n)%nat ->
  exists q cq back, entry_of w (pred n) q cq back /\ q <> p /\
    RemoveChannel cur p w = Ok (removed w i c pfd back q cq).
Proof.
  intros Hi Ho He Hn n Hlt. pose proof He as (Hl & Hc & Hm & Hx & Hfd & Hp).
  destruct (lookup_lt_is_Some_2 (pollfd_list_ (poller w)) (pred n)) as [back Hb]; [lia|].
  destruct (pinv_entry w Hi _ _ Hb) as (q & cq & Hq). exists q, cq, back.
  assert (q <> p) as Hqp.
  { intros ->. destruct (entry_unique w i (pred n) p c cq pfd back He Hq). lia. }
  split; [done|]. split; [done|].
  pose proof (entry_fd _ _ _ _ _ Hq) as Hfq. destruct Hq as (_ & Hcq & Hmq & _).
  unfold RemoveChannel. rewrite Ho, AssertInLoopThread_refl. simpl. unfold channel_at. rewrite Hc. simpl.
  rewrite Hm. simpl. rewrite bool_decide_eq_true_2 by done. simpl.
  rewrite Hn. simpl. rewrite i32_length by done.
  rewrite assert_true by (apply andb_true_iff; split; blia). simpl.
  replace (index_ c =? Z.of_nat (length (pollfd_list_ (poller w))) - 1) with false by blia.
  rewrite last_lookup. fold n. rewrite Hb. simpl. rewrite Hx, Nat2Z.id, Hl. simpl.
  fold (unpark (pfd_fd back)). rewrite Hfq.
  rewrite lookup_delete_ne, Hmq by congruence. simpl. rewrite Hcq. simpl. done.
Qed.

Lemma RemoveChannel_last cur p c w i pfd :
  pinv w -> owner_tid (poller w) = cur -> entry_of w i p c pfd -> IsNoneEvent c = true ->
  ~ (i < pred (length (pollfd_list_ (poller w))))%nat ->
  RemoveChannel cur p w =
    Ok (set_list (removelast (pollfd_list_ (poller w)))
          (set_map (delete (fd_ c) (channel_map_ (poller w))) w)).
Proof.
  intros Hi Ho (Hl & Hc & Hm & Hx & Hfd & Hp) Hn Hge. pose proof (lookup_lt_Some _ _ _ Hl).
  unfold RemoveChannel. rewrite Ho, AssertInLoopThread_refl. simpl. unfold channel_at. rewrite Hc. simpl.
  rewrite Hm. simpl. rewrite bool_decide_eq_true_2 by done. simpl.
  rewrite Hn. simpl. rewrite i32_length by done.
  rewrite assert_true by (apply andb_true_iff; split; blia). simpl.
  by replace (index_ c =? Z.of_nat (length (pollfd_list_ (poller w))) - 1) with true by blia.
Qed.

(** An entry of a channel other than [p], seen by its descriptor. *)
Lemma entry_other w i j p r c d pfd x :
  pinv w -> entry_of w i p c pfd -> entry_of w j r d x -> r <> p -> j <> i /\ fd_ d <> fd_ c.
Proof.
  intros Hi He Hj Hr. destruct He as (Hl & Hc & Hm & Hx & Hfd & Hp), Hj as (Hl' & Hd & Hm' & Hx' & ? & Hp').
  assert (fd_ d <> fd_ c) by congruence. split; [|done]. intros ->.
  assert (x = pfd) as -> by congruence. lia.
Qed.

Lemma removed_entries w i p c pfd q cq back :
  pinv w -> entry_of w i p c pfd ->
  let n := length (pollfd_list_ (poller w)) in
  (i < pred n)%nat -> entry_of w (pred n) q cq back -> q <> p ->
  let w' := removed w i c pfd back q cq in
  (forall r j d x, r <> p -> entry_of w j r d x ->
     exists j', entry_of w' j' r (SetIndex (Z.of_nat j') d) x) /\
  (forall j x, pollfd_list_ (poller w') !! j = Some x -> exists r d, entry_of w' j r d x).
Proof.
  intros Hi He n Hlt Hq Hqp w'.
  assert (forall r j d x, r <> p -> entry_of w j r d x ->
     entry_of w' (if decide (r = q) then i else j) r
       (SetIndex (Z.of_nat (if decide (r = q) then i else j)) d) x) as HA.
  { intros r j d x Hr Hj. destruct (entry_other w i j p r c d pfd x) as [Hji Hfd]; try done.
    destruct (decide (r = q)) as [->|Hrq].
    - destruct (entry_unique w j (pred n) q d cq x back Hj Hq) as (-> & -> & ->).
      destruct Hq as (? & ? & ? & ? & ? & ?). unfold entry_of, w', removed; simpl.
      rewrite swap_pop_lookup, decide_True, lookup_insert_eq, lookup_delete_ne by done.
      by split_and!.
    - assert (j <> pred n) as Hjn.
      { intros ->. destruct Hj as (Hx & _ & Hmr & _ & ? & Hx'), Hq as (Hy & _ & Hmq & _ & ? & Hy').
        assert (x = back) as -> by congruence.
        assert (fd_ d = fd_ cq) by lia. congruence. }
      pose proof (lookup_lt_Some _ _ _ (proj1 Hj)) as Hjl.
      destruct Hj as (? & ? & ? & Hix & ? & ?). unfold entry_of, w', removed; simpl.
      rewrite swap_pop_lookup, decide_False, decide_True, lookup_insert_ne, lookup_delete_ne by (done || lia).
      by rewrite SetIndex_same. }
  split; [eauto|]. intros j x Hj.
  unfold w', removed in Hj. simpl in Hj. rewrite swap_pop_lookup in Hj by done.
  destruct (decide (j = i)) as [->|Hji].
  - injection Hj as <-. pose proof (HA q _ cq back Hqp Hq) as Hnew.
    rewrite decide_True in Hnew by done. eauto.
  - destruct (decide _) as [Hjn|]; [|done].
    destruct (pinv_entry w Hi j x Hj) as (r & d & Hr).
    assert (r <> p) as Hrp. { intros ->. destruct (entry_unique w i j p c d pfd x He Hr). lia. }
    assert (r <> q) as Hrq. { intros ->. destruct (entry_unique w (pred n) j q cq d back x Hq Hr). lia. }
    pose proof (HA r j d x Hrp Hr) as Hnew. rewrite decide_False in Hnew by done. eauto.
Qed.

Lemma popped_entries w i p c pfd :
  pinv w -> entry_of w i p c pfd ->
  ~ (i < pred (length (pollfd_list_ (poller w))))%nat ->
  let w' := set_list (removelast (pollfd_list_ (poller w)))
              (set_map (delete (fd_ c) (channel_map_ (poller w))) w) in
  (forall r j d x, r <> p -> entry_of w j r d x ->
     exists j', entry_of w' j' r (SetIndex (Z.of_nat j') d) x) /\
  (forall j x, pollfd_list_ (poller w') !! j = Some x -> exists r d, entry_of w' j r d x).
Proof.
  intros Hi He Hge w'. pose proof (lookup_lt_Some _ _ _ (proj1 He)) as Hlt.
  assert (forall r j d x, r <> p -> entry_of w j r d x -> entry_of w' j r d x) as HA.
  { intros r j d x Hr Hj. destruct (entry_other w i j p r c d pfd x) as [Hji Hfd]; try done.
    pose proof (lookup_lt_Some _ _ _ (proj1 Hj)) as Hjl.
    destruct Hj as (? & ? & ? & ? & ? & ?). unfold entry_of, w'; simpl.
    rewrite removelast_lookup, decide_True, lookup_delete_ne by (done || lia). by split_and!. }
  split.
  - intros r j d x Hr Hj. exists j. rewrite SetIndex_same by apply Hj. eauto.
  - intros j x. unfold w' at 1. simpl. rewrite removelast_lookup. destruct (decide _) as [Hjn|]; [|done].
    intros Hj. destruct (pinv_entry w Hi j x Hj) as (r & d & Hr). exists r, d. apply HA; [|done].
    intros ->. destruct (entry_unique w i j p c d pfd x He Hr). lia.
Qed.

(** [UpdateChannel] keeps array and channels in step.  A new channel gets
    the next position and an entry with its descriptor and mask; a known one gets
    its mask in its own entry. *)
Lemma Poller_UpdateChannel_inv cur p c w :
  pinv w -> owner_tid (poller w) = cur -> channels w !! p = Some c -> 0 <= fd_ c ->
  Z.of_nat (length (pollfd_list_ (poller w))) < 2 ^ 31 - 2 ->
  (index_ c < 0 /\ channel_map_ (poller w) !! fd_ c = None) \/
    channel_map_ (poller w) !! fd_ c = Some p ->
  exists w' i c' pfd, UpdateChannel cur p w = Ok w' /\ pinv w' /\ entry_of w' i p c' pfd /\
    pfd_events pfd = i16 (events_ c) /\ events_ c' = events_ c /\
    channel_map_ (poller w') = <[fd_ c := p]> (channel_map_ (poller w)) /\ others_stay p w w'.
Proof.
  intros Hi Ho Hc Hfd Hlen [[Hx Hm]|Hm].
  - eexists _, (length (pollfd_list_ (poller w))),
      (SetIndex (Z.of_nat (length (pollfd_list_ (poller w)))) c),
      (mkPollfd (fd_ c) (i16 (events_ c)) 0).
    destruct (pinv_add p c w (mkPollfd (fd_ c) (i16 (events_ c)) 0)) as [Hi' Hst]; try done.
    rewrite (UpdateChannel_new cur p c w), <- Ho by done. split; [done|]. split; [done|]. split; [|done].
    unfold entry_of; simpl.
    rewrite lookup_app_r, Nat.sub_diag, !lookup_insert_eq by done. split_and!; try done. by left.
  - destruct (pinv_map w Hi _ _ Hm) as (i & d & pfd & Hd & He).
    assert (d = c) as -> by (destruct He as (_ & ? & _); congruence).
    rewrite (UpdateChannel_existing cur p c w i pfd) by done.
    eexists _, i, c, _. split; [done|].
    destruct (pinv_change p c w i pfd
      (mkPollfd (if IsNoneEvent c then - fd_ c - 1 else pfd_fd pfd) (i16 (events_ c)) 0) Hi He)
      as (? & ? & ?).
    { simpl. destruct (IsNoneEvent c); [by right|]. by destruct He as (_ & _ & _ & _ & _ & ?). }
    split_and!; try done. simpl. by rewrite insert_id.
Qed.

(** A channel that stops watching and watches again is lost to poll(2): its
    entry keeps the parked, negative descriptor, which the call ignores, although
    the entry carries the new mask.  (EPoller, the poller evk uses, does
    register it; muduo, the model of this code, restores the descriptor.) *)
Theorem Poller_reenable_stays_parked cur p c w i pfd :
  pinv w -> owner_tid (poller w) = cur -> entry_of w i p c pfd -> IsNoneEvent c = true ->
  exists w1, UpdateChannel cur p w = Ok w1 /\
    let c1 := set_events (change_events EnableRead (events_ c)) c in
    exists w2, UpdateChannel cur p (set_channel p c1 w1) = Ok w2 /\
      pollfd_list_ (poller w2) !! i = Some (mkPollfd (- fd_ c - 1) kReadable 0) /\
      - fd_ c - 1 < 0.
Proof.
  intros Hi Ho He Hn. rewrite (UpdateChannel_existing cur p c w i pfd), Hn by done.
  eexists; split; [done|]. intros c1.
  pose proof He as (Hl & Hc & Hm & Hx & Hfd & _).
  destruct (pinv_change p c w i pfd (mkPollfd (- fd_ c - 1) (i16 (events_ c)) 0) Hi He)
    as (Hi1 & He1 & _); [by right|].
  unfold IsNoneEvent in Hn. apply Z.eqb_eq in Hn.
  assert (events_ c1 = kReadable) as Hev by (unfold c1; simpl; by rewrite Hn).
  pose proof (lookup_lt_Some _ _ _ Hl) as Hlt.
  unfold UpdateChannel. simpl. rewrite Ho, AssertInLoopThread_refl. simpl.
  unfold channel_at. simpl. rewrite lookup_insert_eq. simpl.
  replace (index_ c <? 0) with false by blia. rewrite Hm. simpl.
  rewrite (bool_decide_eq_true_2 (Some p = Some p)) by done. simpl.
  rewrite (pinv_size w Hi), i32_length by done.
  rewrite assert_true by (apply andb_true_iff; split; blia). simpl.
  rewrite Hx, Nat2Z.id, list_lookup_insert_eq by done. simpl.
  rewrite assert_true by (apply orb_true_iff; right; blia). simpl.
  rewrite Hn. simpl. eexists; split; [done|]. simpl.
  replace (IsNoneEvent c1) with false by (unfold IsNoneEvent; by rewrite Hev).
  rewrite list_lookup_insert_eq by (rewrite length_insert; exact Hlt).
  split; [reflexivity|lia].
Qed.

(** [RemoveChannel] of a channel that watches nothing succeeds, keeps the
    array and the channels in step, forgets that channel and no other: each
    other channel keeps its entry, at the position its index now names. *)
Lemma Poller_RemoveChannel_inv cur p c w i pfd :
  pinv w -> owner_tid (poller w) = cur -> entry_of w i p c pfd -> IsNoneEvent c = true ->
  exists w', RemoveChannel cur p w = Ok w' /\ pinv w' /\
    channel_map_ (poller w') = delete (fd_ c) (channel_map_ (poller w)) /\
    length (pollfd_list_ (poller w')) = pred (length (pollfd_list_ (poller w))) /\
    forall r j d x, r <> p -> entry_of w j r d x ->
      exists j', entry_of w' j' r (SetIndex (Z.of_nat j') d) x.
Proof.
  intros Hi Ho He Hn. pose proof (lookup_lt_Some _ _ _ (proj1 He)) as Hlt.
  assert (exists w', RemoveChannel cur p w = Ok w' /\
    channel_map_ (poller w') = delete (fd_ c) (channel_map_ (poller w)) /\
    length (pollfd_list_ (poller w')) = pred (length (pollfd_list_ (poller w))) /\
    (forall r j d x, r <> p -> entry_of w j r d x ->
      exists j', entry_of w' j' r (SetIndex (Z.of_nat j') d) x) /\
    (forall j x, pollfd_list_ (poller w') !! j = Some x -> exists r d, entry_of w' j r d x))
    as (w' & Hrun & Hm & Hlen & HA & HB).
  { destruct (decide (i < pred (length (pollfd_list_ (poller w))))%nat).
    - destruct (RemoveChannel_inner cur p c w i pfd) as (q & cq & back & Hq & Hqp & Hrun); try done.
      eexists; split; [done|]. split; [done|]. split.
      { simpl. by rewrite length_removelast, !length_insert. }
      by apply removed_entries.
    - eexists; split; [by eapply RemoveChannel_last|]. split; [done|]. split.
      { simpl. by rewrite length_removelast. }
      apply (popped_entries w i p c pfd); done || lia. }
  exists w'. split_and!; try done. by apply (pinv_remove w w' p c i pfd).
Qed.

(** [C33] [Poller]'s state stays well formed: the array, the channels' indices and the map
    agree after either operation that changes them.  Updating succeeds for a new
    channel on a free descriptor, which gets the next position, and for a known one,
    and the channel's entry carries its mask; every other channel keeps its entry in
    its place, with its descriptor, mask and parking.  Removing a channel that
    watches nothing succeeds wherever its entry is, forgets that channel only, and
    every other channel keeps its entry, at the position its index then names. *)
Theorem Poller_well_formed cur w :
  pinv w -> owner_tid (poller w) = cur ->
  (forall p c, channels w !! p = Some c -> 0 <= fd_ c ->
     Z.of_nat (length (pollfd_list_ (poller w))) < 2 ^ 31 - 2 ->
     (index_ c < 0 /\ channel_map_ (poller w) !! fd_ c = None) \/
       channel_map_ (poller w) !! fd_ c = Some p ->
     exists w' i c' pfd, UpdateChannel cur p w = Ok w' /\ pinv w' /\ entry_of w' i p c' pfd /\
       pfd_events pfd = i16 (events_ c) /\ events_ c' = events_ c /\
       channel_map_ (poller w') = <[fd_ c := p]> (channel_map_ (poller w)) /\ others_stay p w w') /\
  (forall p c i pfd, entry_of w i p c pfd -> IsNoneEvent c = true ->
     exists w', RemoveChannel cur p w = Ok w' /\ pinv w' /\
       channel_map_ (poller w') = delete (fd_ c) (channel_map_ (poller w)) /\
       length (pollfd_list_ (poller w')) = pred (length (pollfd_list_ (poller w))) /\
       forall r j d x, r <> p -> entry_of w j r d x ->
         exists j', entry_of w' j' r (SetIndex (Z.of_nat j') d) x).
Proof.
  intros Hi Ho. split; intros; [by apply Poller_UpdateChannel_inv|by apply (Poller_RemoveChannel_inv cur p c w i pfd)].
Qed.
End Facts.

(** ** Witnesses *)

(** Two channels, 100 on descriptor 5 (switched off, parked) and 200 on 6. *)
Definition demo_a : Channel Z := SetIndex 0 (Channel_new 7 5).
Definition demo_b : Channel Z := SetIndex 1 (set_events kReadable (Channel_new 7 6)).
Definition demo_pworld : pworld Z :=
  mkPWorld (mkPoller 1 [mkPollfd (-6) 0 0; mkPollfd 6 3 0] {[5 := 100; 6 := 200]})
    {[100 := demo_a; 200 := demo_b]}.

Lemma demo_entry_a : entry_of demo_pworld 0 100 demo_a (mkPollfd (-6) 0 0).
Proof. split_and!; (reflexivity || (simpl; lia)). Qed.

Lemma demo_entry_b : entry_of demo_pworld 1 200 demo_b (mkPollfd 6 3 0).
Proof. split_and!; (reflexivity || (simpl; lia)). Qed.

Lemma demo_pinv : pinv demo_pworld.
Proof.
  split.
  - intros [|[|i]] x Hx; simpl in Hx; try done; injection Hx as <-;
      eauto using demo_entry_a, demo_entry_b.
  - intros fd p Hp. simpl in Hp. destruct (decide (fd = 5)) as [->|].
    + assert (p = 100) as -> by (rewrite lookup_insert_eq in Hp; congruence).
      eexists _, _, _. split; [|apply demo_entry_a]. done.
    + rewrite lookup_insert_ne in Hp by done. apply lookup_singleton_Some in Hp as [<- <-].
      eexists _, _, _. split; [|apply demo_entry_b]. done.
  - reflexivity.
  - simpl. lia.
Qed.

Lemma Poller_reenable_stays_parked_witness :
  exists w1, UpdateChannel 1 100 demo_pworld = Ok w1 /\
    let c1 := set_events (change_events EnableRead (events_ demo_a)) demo_a in
    exists w2, UpdateChannel 1 100 (set_channel 100 c1 w1) = Ok w2 /\
      pollfd_list_ (poller w2) !! 0%nat = Some (mkPollfd (-6) kReadable 0) /\ -6 < 0.
Proof.
  apply (Poller_reenable_stays_parked 1 100 demo_a demo_pworld 0 (mkPollfd (-6) 0 0)).
  - apply demo_pinv.
  - reflexivity.
  - apply demo_entry_a.
  - reflexivity.
Defined.

Lemma Poller_well_formed_witness :
  (exists w' i c' pfd, UpdateChannel 1 200 demo_pworld = Ok w' /\ pinv w' /\
    entry_of w' i 200 c' pfd /\ pfd_events pfd = i16 3 /\ events_ c' = 3 /\
    channel_map_ (poller w') = <[6 := 200]> (channel_map_ (poller demo_pworld)) /\
    others_stay 200 demo_pworld w') /\
  (exists w', RemoveChannel 1 100 demo_pworld = Ok w' /\ pinv w' /\
    channel_map_ (poller w') = delete 5 (channel_map_ (poller demo_pworld)) /\
    length (pollfd_list_ (poller w')) = 1%nat /\
    forall r j d x, r <> 100 -> entry_of demo_pworld j r d x ->
      exists j', entry_of w' j' r (SetIndex (Z.of_nat j') d) x).
Proof.
  destruct (Poller_well_formed 1 demo_pworld demo_pinv ltac:(reflexivity)) as [Hup Hrm]. split.
  - apply (Hup 200 demo_b); [reflexivity|simpl; lia..|right; reflexivity].
  - apply (Hrm 100 demo_a 0%nat (mkPollfd (-6) 0 0)); [apply demo_entry_a|reflexivity].
Defined.
