(* ===== verification/OrdSet.v ===== *)
(** * Ordered sets ([std::set])

    A [std::set] is its elements in iteration order: a strictly sorted list.  Its
    comparator is a strict order given by a class; [std::pair] compares
    lexicographically. *)

From S2P Require Import Prelude.
From Stdlib Require Import Sorted.
#[local] Open Scope Z_scope.

Class StrictOrder (A : Type) := {
  less : A -> A -> bool;
  less_irrefl a : less a a = false;
  less_trans a b c : less a b = true -> less b c = true -> less a c = true;
  less_total a b : less a b = false -> less b a = false -> a = b
}.

#[export] Instance Z_order : StrictOrder Z.
Proof. refine {| less := Z.ltb |}; intros; bsimpl; try apply Z.ltb_lt; try apply Z.ltb_ge; lia. Defined.

(** [operator<] of [std::pair]. *)
Definition pair_less {A B} `{StrictOrder A, StrictOrder B} (x y : A * B) : bool :=
  less x.1 y.1 || (negb (less y.1 x.1) && less x.2 y.2).

Lemma less_asym {A} `{StrictOrder A} (a b : A) : less a b = true -> less b a = false.
Proof.
  intros Hab. destruct (less b a) eqn:Hba; [|done].
  by rewrite <- (less_irrefl a), (less_trans a b a).
Qed.

Lemma pair_less_true {A B} `{StrictOrder A, StrictOrder B} (x y : A * B) :
  pair_less x y = true <-> less x.1 y.1 = true \/ (x.1 = y.1 /\ less x.2 y.2 = true).
Proof.
  unfold pair_less. rewrite orb_true_iff, andb_true_iff, negb_true_iff. split.
  - intros [?|[Hn ?]]; [by left|]. destruct (less x.1 y.1) eqn:E; [by left|].
    right. split; [by apply less_total|done].
  - intros [?|[Heq ?]]; [by left|right]. by rewrite Heq, less_irrefl.
Qed.

#[export] Instance prod_order {A B} `{StrictOrder A, StrictOrder B} : StrictOrder (A * B).
Proof.
  refine {| less := pair_less |}.
  - intros a. apply not_true_iff_false. rewrite pair_less_true, !less_irrefl. naive_solver.
  - intros a b c. rewrite !pair_less_true. intros [?|[-> ?]] [?|[<- ?]]; eauto using less_trans.
  - intros [a1 a2] [b1 b2] Hab Hba. apply not_true_iff_false in Hab, Hba.
    rewrite pair_less_true in Hab, Hba. simpl in *.
    assert (a1 = b1) as ->.
    { apply less_total; apply not_true_iff_false; intros ?; [apply Hab|apply Hba]; by left. }
    f_equal. apply less_total; apply not_true_iff_false; intros ?; [apply Hab|apply Hba]; by right.
Defined.

Lemma less_pair {A B} `{StrictOrder A, StrictOrder B} (x y : A * B) :
  less x y = true <-> less x.1 y.1 = true \/ (x.1 = y.1 /\ less x.2 y.2 = true).
Proof. apply pair_less_true. Qed.

Section OrdSet.
Context {A : Type} `{StrictOrder A}.
Implicit Types (l : list A) (x y : A).

(** [insert]: whether the element was new, and the set. *)
Fixpoint set_insert x l : bool * list A :=
  match l with
  | [] => (true, [x])
  | y :: l' =>
      if less x y then (true, x :: l)
      else if less y x then let '(b, r) := set_insert x l' in (b, y :: r)
      else (false, l)
  end.

(** [erase(key)]: the number of elements removed, and the set. *)
Fixpoint set_erase x l : Z * list A :=
  match l with
  | [] => (0, [])
  | y :: l' =>
      if less x y then (0, l)
      else if less y x then let '(n, r) := set_erase x l' in (n, y :: r)
      else (1, l')
  end.

(** [find(key) != end()]. *)
Fixpoint set_find x l : bool :=
  match l with
  | [] => false
  | y :: l' => if less x y then false else if less y x then set_find x l' else true
  end.

(** [lower_bound(key)]: the elements before the iterator, and those from it. *)
Fixpoint lower_bound x l : list A * list A :=
  match l with
  | [] => ([], [])
  | y :: l' => if less y x then let '(a, b) := lower_bound x l' in (y :: a, b) else ([], l)
  end.

Definition sorted l : Prop := StronglySorted (fun a b => less a b = true) l.

Lemma sorted_nil : sorted [].
Proof. constructor. Qed.

Lemma sorted_cons x l : sorted (x :: l) <-> sorted l /\ forall y, y ∈ l -> less x y = true.
Proof.
  unfold sorted. split.
  - intros Hs. apply StronglySorted_inv in Hs as [? Hf]. split; [done|]. by rewrite <- Forall_forall.
  - intros [? Hf]. constructor; [done|]. by rewrite Forall_forall.
Qed.

Lemma sorted_NoDup l : sorted l -> NoDup l.
Proof.
  induction l as [|x l IH]; [constructor|]. intros [Hs Hx]%sorted_cons. constructor; [|auto].
  intros Hin. specialize (Hx x Hin). by rewrite less_irrefl in Hx.
Qed.

(** The elements of a set determine it. *)
Lemma sorted_ext l1 l2 : sorted l1 -> sorted l2 -> (forall x, x ∈ l1 <-> x ∈ l2) -> l1 = l2.
Proof.
  revert l2. induction l1 as [|x l1 IH]; intros l2 H1 H2 Hx.
  - destruct l2 as [|y l2]; [done|]. exfalso. apply (not_elem_of_nil y), Hx. left.
  - destruct l2 as [|y l2]; [exfalso; apply (not_elem_of_nil x), Hx; left|].
    apply sorted_cons in H1 as [H1 Hl1], H2 as [H2 Hl2].
    assert (x = y) as <-.
    { assert (x ∈ y :: l2) as Hxy by (apply Hx; left). assert (y ∈ x :: l1) as Hyx by (apply Hx; left).
      apply elem_of_cons in Hxy as [?|Hxy], Hyx as [?|Hyx]; try done.
      apply Hl1 in Hyx. apply Hl2, less_asym in Hxy. congruence. }
    f_equal. apply IH; [done..|]. intros z. specialize (Hx z). rewrite !elem_of_cons in Hx. split; intros Hz.
    + destruct (proj1 Hx (or_intror Hz)) as [->|]; [|done]. apply Hl1 in Hz. by rewrite less_irrefl in Hz.
    + destruct (proj2 Hx (or_intror Hz)) as [->|]; [|done]. apply Hl2 in Hz. by rewrite less_irrefl in Hz.
Qed.

Lemma set_find_spec x l : sorted l -> set_find x l = true <-> x ∈ l.
Proof.
  induction l as [|y l IH]; simpl; intros Hs; [split; [done|]; intros Hx; by apply elem_of_nil in Hx|].
  apply sorted_cons in Hs as [Hs Hy]. rewrite elem_of_cons.
  destruct (less x y) eqn:Exy; [|destruct (less y x) eqn:Eyx].
  - split; [done|]. intros [->|Hx]; [by rewrite less_irrefl in Exy|].
    apply Hy, less_asym in Hx. congruence.
  - rewrite IH by done. split; [by right|]. intros [->|]; [by rewrite less_irrefl in Eyx|done].
  - assert (x = y) by by apply less_total. naive_solver.
Qed.

(** Inserting a new element: it is reported new, and the set gains it. *)
Lemma set_insert_new x l :
  sorted l -> x ∉ l ->
  exists l', set_insert x l = (true, l') /\ sorted l' /\ l' ≡ₚ x :: l.
Proof.
  induction l as [|y l IH]; intros Hs Hx.
  - exists [x]. split; [done|]. split; [|done]. apply sorted_cons. split; [constructor|].
    intros ? Hn. by apply elem_of_nil in Hn.
  - apply not_elem_of_cons in Hx as [Hxy Hx]. pose proof Hs as [Hs' Hy]%sorted_cons. simpl.
    destruct (less x y) eqn:E1; [|destruct (less y x) eqn:E2].
    + eexists; split; [done|]. split; [|done]. apply sorted_cons. split; [done|].
      intros z [->|Hz]%elem_of_cons; [done|]. eauto using less_trans.
    + destruct (IH Hs' Hx) as (l' & -> & Hl & Hp). eexists; split; [done|]. split.
      * apply sorted_cons. split; [done|]. intros z. rewrite Hp.
        intros [->|]%elem_of_cons; auto.
      * rewrite Hp. apply Permutation_swap.
    + by destruct Hxy; apply less_total.
Qed.

(** Inserting any element. *)
Lemma set_insert_spec x l :
  sorted l -> sorted (set_insert x l).2 /\ forall y, y ∈ (set_insert x l).2 <-> y = x \/ y ∈ l.
Proof.
  intros Hs. destruct (set_find x l) eqn:E.
  - apply set_find_spec in E; [|done].
    enough ((set_insert x l).2 = l) as -> by (split; [done|set_solver]).
    induction l as [|y l IH]; simpl; [by apply elem_of_nil in E|].
    apply sorted_cons in Hs as [Hs Hy].
    apply elem_of_cons in E as [->|E]; [by rewrite less_irrefl|].
    specialize (Hy x E). rewrite (less_asym _ _ Hy), Hy. specialize (IH Hs E).
    destruct (set_insert x l). simpl in *. by rewrite IH.
  - assert (x ∉ l) as Hx by (rewrite <- set_find_spec by done; by rewrite E).
    destruct (set_insert_new x l Hs Hx) as (l' & -> & Hs' & Hp). simpl. split; [done|].
    intros y. rewrite Hp, elem_of_cons. done.
Qed.

(** Erasing an element that is there: one is removed, the set loses it. *)
Lemma set_erase_mem x l :
  sorted l -> x ∈ l ->
  exists l', set_erase x l = (1, l') /\ sorted l' /\ l ≡ₚ x :: l'.
Proof.
  induction l as [|y l IH]; intros Hs Hx; [by apply elem_of_nil in Hx|].
  apply sorted_cons in Hs as [Hs Hy]. simpl.
  destruct (less x y) eqn:E1; [|destruct (less y x) eqn:E2].
  - apply elem_of_cons in Hx as [->|Hx]; [by rewrite less_irrefl in E1|].
    apply Hy, less_asym in Hx. congruence.
  - apply elem_of_cons in Hx as [->|Hx]; [by rewrite less_irrefl in E2|].
    destruct (IH Hs Hx) as (l' & -> & Hl & Hp). eexists; split; [done|]. split.
    + apply sorted_cons. split; [done|]. intros z Hz. apply Hy. rewrite Hp. by right.
    + rewrite Hp at 1. apply Permutation_swap.
  - assert (x = y) as -> by by apply less_total. by exists l.
Qed.

(** [lower_bound] cuts the set: before it the smaller elements, from it the
    others. *)
Lemma lower_bound_spec x l a b :
  sorted l -> lower_bound x l = (a, b) ->
  l = a ++ b /\ sorted a /\ sorted b /\
  (forall y, y ∈ a -> less y x = true) /\ (forall y, y ∈ b -> less y x = false).
Proof.
  revert a b. induction l as [|y l IH]; simpl; intros a b Hs.
  - intros [= <- <-]. split_and!; try constructor; intros ? Hn; by apply elem_of_nil in Hn.
  - pose proof Hs as [Hs' Hy]%sorted_cons. destruct (less y x) eqn:E.
    + destruct (lower_bound x l) as [a' b'] eqn:El. intros [= <- <-].
      destruct (IH a' b' Hs' eq_refl) as (-> & Ha & Hb & Hla & Hlb).
      split_and!; try done.
      * apply sorted_cons. split; [done|]. intros z Hz. apply Hy. set_solver.
      * intros z [->|]%elem_of_cons; auto.
    + intros [= <- <-]. split_and!; try done; try constructor.
      * intros ? Hn. by apply elem_of_nil in Hn.
      * intros z [->|Hz]%elem_of_cons; [done|]. apply Hy in Hz.
        apply not_true_iff_false. intros Hzx. by rewrite (less_trans y z x) in E.
Qed.

(** The first element is the smallest. *)
Lemma sorted_head x l y : sorted (x :: l) -> y ∈ x :: l -> y = x \/ less x y = true.
Proof. intros [_ Hx]%sorted_cons [->|]%elem_of_cons; auto. Qed.
End OrdSet.
