(* ===== verification/TimerQueue.v ===== *)
(** * Timers (evk/timer_queue.h/.cc, evk/invoke_timer.h/.cc)

    Timers are heap objects; [timers_] orders them by expiration and address,
    [active_timers_] finds them by address and sequence number.  The clock, the
    addresses given by [operator new] and the timerfd are arguments. *)

From S2P Require Import Prelude LoopThread Duration Timestamp Channel OrdSet.
#[local] Open Scope Z_scope.

Record timespec := mkTimespec { ts_tv_sec : Z; ts_tv_nsec : Z }.

(** ** The timerfd

    [timerfd_settime] is given the time of the call, on the clock of [gettimeofday].
    [alarm]: when it was last set, and the time from then to the expiration. *)
Class TimerfdKernel (K : Type) := {
  timerfd_settime : timeval -> timespec -> K -> Z * K;
  timerfd_read : K -> Z * K;
  alarm : K -> option (timeval * timespec)
}.

Definition timespec_ns (ts : timespec) : Z := ts_tv_sec ts * 1000000000 + ts_tv_nsec ts.
Definition timespec_valid (ts : timespec) : Prop :=
  0 <= ts_tv_sec ts /\ 0 <= ts_tv_nsec ts < 1000000000 /\ 0 < ts_tv_sec ts + ts_tv_nsec ts.

(** timerfd_settime(2): a valid, non-zero [it_value] arms the timer. *)
Class TimerfdLaws (K : Type) `{TimerfdKernel K} := {
  settime_arms at_ ts k : timespec_valid ts ->
    (timerfd_settime at_ ts k).1 = 0 /\ alarm (timerfd_settime at_ ts k).2 = Some (at_, ts)
}.

(** [Timestamp]'s [operator<]. *)
#[export] Instance Timestamp_order : StrictOrder Timestamp.
Proof.
  refine {| less := Timestamp.ltb |}; unfold Timestamp.ltb.
  - intros. apply Z.ltb_irrefl.
  - intros a b c ??. bsimpl. apply Z.ltb_lt. lia.
  - intros [a] [b] ??. simpl in *. bsimpl. f_equal. lia.
Defined.

(** ** InvokeTimer *)

Section InvokeTimer.
Context {Cb : Type}.

Record InvokeTimer := mkTimer {
  expiration_ : Timestamp;
  callback_ : Cb;
  interval_ : Duration;
  repeat_ : bool;
  sequence_ : Z
}.

(** The constructor, with the counter [num_created_] before and after; [fetch_add]
    wraps, the addition of one to its value does not. *)
Definition InvokeTimer_new (cb : Cb) (when : Timestamp) (interval : double) (num_created : Z) :
    result (InvokeTimer * Z) :=
  d ← Duration_double interval;
  seq ← ck32 (num_created + 1);
  Ok (mkTimer when cb d (double_gt0 interval) seq, i32 (num_created + 1)).

Definition Expiration (t : InvokeTimer) : Timestamp := expiration_ t.
Definition Repeat (t : InvokeTimer) : bool := repeat_ t.
Definition Sequence (t : InvokeTimer) : Z := sequence_ t.

Definition Restart (now : Timestamp) (t : InvokeTimer) : result InvokeTimer :=
  e ← (if repeat_ t then Timestamp.plus now (interval_ t) else Ok Invalid);
  Ok (mkTimer e (callback_ t) (interval_ t) (repeat_ t) (sequence_ t)).
End InvokeTimer.
Arguments InvokeTimer : clear implicits.

(** [struct InvokeTimerID]: address and sequence number. *)
Record InvokeTimerID := mkTimerID { timer_ : ptr; id_sequence_ : Z }.
Definition InvokeTimerID_0 : InvokeTimerID := mkTimerID 0 0.

Definition UINTPTR_MAX : Z := 2 ^ 64 - 1.

Abbreviation Entry := (Timestamp * ptr)%type.

Abbreviation ActiveTimer := (ptr * Z)%type.

Definition howlongtimefromnow (tv : timeval) (when : Timestamp) : result timespec :=
  duration ← Timestamp.diff when (Now tv);
  let nanoseconds := Nanoseconds duration in
  let nanoseconds := if nanoseconds <? 100 * kMicrosecond then 100 * kMicrosecond else nanoseconds in
  Ok (mkTimespec (Z.quot nanoseconds kSecond) (Z.rem nanoseconds kSecond)).

(** ** TimerQueue

    [U] is what the callbacks own beside the timers. *)
Section TimerQueue.
Context {Cb U K : Type} `{TimerfdKernel K}.

Record tworld := mkTWorld {
  heap : gmap ptr (InvokeTimer Cb);
  num_created_ : Z;
  timers_ : list Entry;
  active_timers_ : list ActiveTimer;
  is_calling_expired_timers_ : bool;
  canceling_timers_ : list ActiveTimer;
  timerfd : K;
  user : U
}.

Definition set_heap h s := mkTWorld h (num_created_ s) (timers_ s) (active_timers_ s)
  (is_calling_expired_timers_ s) (canceling_timers_ s) (timerfd s) (user s).
Definition set_timers l s := mkTWorld (heap s) (num_created_ s) l (active_timers_ s)
  (is_calling_expired_timers_ s) (canceling_timers_ s) (timerfd s) (user s).
Definition set_active l s := mkTWorld (heap s) (num_created_ s) (timers_ s) l
  (is_calling_expired_timers_ s) (canceling_timers_ s) (timerfd s) (user s).
Definition set_calling b s := mkTWorld (heap s) (num_created_ s) (timers_ s) (active_timers_ s)
  b (canceling_timers_ s) (timerfd s) (user s).
Definition set_canceling l s := mkTWorld (heap s) (num_created_ s) (timers_ s) (active_timers_ s)
  (is_calling_expired_timers_ s) l (timerfd s) (user s).
Definition set_timerfd k s := mkTWorld (heap s) (num_created_ s) (timers_ s) (active_timers_ s)
  (is_calling_expired_timers_ s) (canceling_timers_ s) k (user s).
Definition set_user u s := mkTWorld (heap s) (num_created_ s) (timers_ s) (active_timers_ s)
  (is_calling_expired_timers_ s) (canceling_timers_ s) (timerfd s) u.
Definition set_created n s := mkTWorld (heap s) n (timers_ s) (active_timers_ s)
  (is_calling_expired_timers_ s) (canceling_timers_ s) (timerfd s) (user s).

(** [*p] and [delete p]. *)
Definition timer_at (p : ptr) (s : tworld) : result (InvokeTimer Cb) := deref (heap s !! p).
Definition free (p : ptr) (s : tworld) : result tworld :=
  _ ← timer_at p s; Ok (set_heap (delete p (heap s)) s).

Definition same_size (s : tworld) : bool :=
  (length (timers_ s) =? length (active_timers_ s))%nat.

(** [tv] is the clock that [howlongtimefromnow] reads, right before the call.  A
    failure of timerfd_settime is logged. *)
Definition resettimerfd (tv : timeval) (expiration : Timestamp) (s : tworld) : result tworld :=
  new_value ← howlongtimefromnow tv expiration;
  let '(ret, k) := timerfd_settime tv new_value (timerfd s) in
  Ok (set_timerfd k s).

Definition readtimerfd (s : tworld) : tworld := set_timerfd (timerfd_read (timerfd s)).2 s.

(** The loop's thread; [cur] is the calling one. *)
Context (tid : thread_id).

Definition Insert (cur : thread_id) (timer : ptr) (s : tworld) : result (bool * tworld) :=
  _ ← AssertInLoopThread tid cur;
  _ ← assert (same_size s);
  t ← timer_at timer s;
  let when := Expiration t in
  let earliest_changed :=
    match timers_ s with [] => true | (first, _) :: _ => Timestamp.ltb when first end in
  let '(second, l) := set_insert (when, timer) (timers_ s) in
  _ ← assert second;
  let s := set_timers l s in
  let '(second, l) := set_insert (timer, Sequence t) (active_timers_ s) in
  _ ← assert second;
  let s := set_active l s in
  _ ← assert (same_size s);
  Ok (earliest_changed, s).

Definition AddTimerInLoop (cur : thread_id) (tv : timeval) (timer : ptr) (s : tworld) : result tworld :=
  _ ← AssertInLoopThread tid cur;
  '(earliest_changed, s) ← Insert cur timer s;
  if (earliest_changed : bool) then
    t ← timer_at timer s; resettimerfd tv (Expiration t) s
  else Ok s.

(** [AddTimer], given the address of the new timer and the loop's [RunInLoop], which
    gives its argument the thread that runs it.  The
    sequence number is read after [RunInLoop] returns. *)
Definition AddTimer (RunInLoop : (thread_id -> tworld -> result tworld) -> tworld -> result tworld)
    (tv : timeval) (new : ptr) (cb : Cb) (when : Timestamp) (interval : double) (s : tworld) :
    result (InvokeTimerID * tworld) :=
  '(timer, created) ← InvokeTimer_new cb when interval (num_created_ s);
  let s := set_created created (set_heap (<[new := timer]> (heap s)) s) in
  s ← RunInLoop (fun cur => AddTimerInLoop cur tv new) s;
  timer ← timer_at new s;
  Ok (mkTimerID new (Sequence timer), s).

Definition CancelInLoop (cur : thread_id) (timerid : InvokeTimerID) (s : tworld) : result tworld :=
  _ ← AssertInLoopThread tid cur;
  _ ← assert (same_size s);
  let timer := (timer_ timerid, id_sequence_ timerid) in
  s ← (if set_find timer (active_timers_ s) then
         t ← timer_at (timer_ timerid) s;
         let '(n, l) := set_erase (Expiration t, timer_ timerid) (timers_ s) in
         _ ← assert (n =? 1);
         s ← free (timer_ timerid) (set_timers l s);
         Ok (set_active (set_erase timer (active_timers_ s)).2 s)
       else if is_calling_expired_timers_ s then
         Ok (set_canceling (set_insert timer (canceling_timers_ s)).2 s)
       else Ok s);
  _ ← assert (same_size s);
  Ok s.

Definition Cancel (RunInLoop : (thread_id -> tworld -> result tworld) -> tworld -> result tworld)
    (timerid : InvokeTimerID) (s : tworld) : result tworld :=
  RunInLoop (fun cur => CancelInLoop cur timerid) s.

Definition erase_active (it : Entry) (s : tworld) : result tworld :=
  t ← timer_at it.2 s;
  let '(n, l) := set_erase (it.2, Sequence t) (active_timers_ s) in
  _ ← assert (n =? 1);
  Ok (set_active l s).

Definition GetExpired (now : Timestamp) (s : tworld) : result (list Entry * tworld) :=
  _ ← assert (same_size s);
  let '(expired, rest) := lower_bound (now, UINTPTR_MAX) (timers_ s) in
  _ ← assert (match rest with [] => true | (first, _) :: _ => Timestamp.ltb now first end);
  s ← foldM erase_active expired (set_timers rest s);
  _ ← assert (same_size s);
  Ok (expired, s).

(** One round of [Reset]'s loop. *)
Definition reset_one (cur : thread_id) (now : Timestamp) (it : Entry) (s : tworld) : result tworld :=
  t ← timer_at it.2 s;
  if Repeat t && negb (set_find (it.2, Sequence t) (canceling_timers_ s)) then
    t' ← Restart now t;
    '(_, s) ← Insert cur it.2 (set_heap (<[it.2 := t']> (heap s)) s);
    Ok s
  else free it.2 s.

(** [tv] is the clock when the timerfd is set again. *)
Definition Reset (cur : thread_id) (tv : timeval) (expired : list Entry) (now : Timestamp) (s : tworld) :
    result tworld :=
  s ← foldM (reset_one cur now) expired s;
  next_expire ← (match timers_ s with
                 | [] => Ok Timestamp_0
                 | (_, p) :: _ => t ← timer_at p s; Ok (Expiration t)
                 end);
  if IsValid next_expire then resettimerfd tv next_expire s else Ok s.

(** Running a callback: [call]. *)
Context (call : Cb -> tworld -> result tworld).

Definition OnTimerTriggered (it : Entry) (s : tworld) : result tworld :=
  t ← timer_at it.2 s; call (callback_ t) s.

(** [HandleRead], with the clock on entry and at the end. *)
Definition HandleRead (cur : thread_id) (tv tv' : timeval) (s : tworld) : result tworld :=
  _ ← AssertInLoopThread tid cur;
  let now := Now tv in
  let s := readtimerfd s in
  '(expired, s) ← GetExpired now s;
  let s := set_canceling [] (set_calling true s) in
  s ← foldM OnTimerTriggered expired s;
  let s := set_calling false s in
  Reset cur tv' expired now s.

(** The deletions of the destructor. *)
Definition delete_timers (s : tworld) : result tworld :=
  foldM (fun it => free it.2) (timers_ s) s.
End TimerQueue.
Arguments tworld : clear implicits.
