(* ===== verification/TimerFacts.v ===== *)
(** * The timer queue keeps its two sets and the timerfd in step *)

From S2P Require Import Prelude LoopThread Duration Timestamp Channel OrdSet TimerQueue.
#[local] Open Scope Z_scope.

(** A clock reading after the epoch, which [Now] can represent. *)
Definition sane (tv : timeval) : Prop := 0 < ts_ns (Now tv).

Lemma Now_range tv : in_i64 (ts_ns (Now tv)).
Proof.
  unfold Now, in_i64, i64. cbn [ts_ns].
  pose proof (Z.mod_pos_bound (u64 (utcmicrosecond tv * kMicrosecond) + 2 ^ 63) (2 ^ 64)). lia.
Qed.

(** The relative time is at least 100 microseconds and a valid [timespec]. *)
Lemma howlong_ok tv when :
  sane tv -> 0 <= ts_ns when < 2 ^ 63 ->
  exists ts, howlongtimefromnow tv when = Ok ts /\ timespec_valid ts /\
    timespec_ns ts = Z.max 100000 (ts_ns when - ts_ns (Now tv)).
Proof.
  intros Ht Hw. pose proof (Now_range tv) as Hr. unfold sane, in_i64 in *.
  unfold howlongtimefromnow, Timestamp.diff. rewrite ck64_ok by (unfold in_i64; lia).
  cbn [mbind result_bind]. eexists; split; [done|]. unfold Nanoseconds. cbn [ns_].
  set (d := ts_ns when - ts_ns (Now tv)). rewrite kMicrosecond_eq, kSecond_eq.
  replace (if d <? 100 * 1000 then 100 * 1000 else d) with (Z.max 100000 d)
    by (destruct (Z.ltb_spec d (100 * 1000)); lia).
  pose proof (Z.quot_rem' (Z.max 100000 d) 1000000000).
  pose proof (Z.rem_bound_pos (Z.max 100000 d) 1000000000 ltac:(lia) ltac:(lia)).
  pose proof (Z.quot_pos (Z.max 100000 d) 1000000000 ltac:(lia) ltac:(lia)).
  unfold timespec_valid, timespec_ns. cbn [ts_tv_sec ts_tv_nsec]. split_and!; lia.
Qed.

Section Facts.
Context {Cb U K : Type} `{TimerfdLaws K}.
Abbreviation tworld := (tworld Cb U K).
Implicit Types (s : tworld) (p : ptr) (t : InvokeTimer Cb) (F : list ptr).

(** ** The invariant

    [F]: the addresses of the timers that are allocated but in neither set: not
    added yet, or expired and being processed. *)
Record tinv F s : Prop := {
  ti_sorted : sorted (timers_ s);
  ti_asorted : sorted (active_timers_ s);
  ti_timers w p : (w, p) ∈ timers_ s <->
    exists t, heap s !! p = Some t /\ expiration_ t = w /\ p ∉ F;
  ti_active p q : (p, q) ∈ active_timers_ s <->
    exists t, heap s !! p = Some t /\ sequence_ t = q /\ p ∉ F;
  ti_range p t : heap s !! p = Some t ->
    0 < p < UINTPTR_MAX /\ 0 <= ts_ns (expiration_ t) < 2 ^ 63;
  ti_inflight p : p ∈ F -> is_Some (heap s !! p)
}.

Lemma tinv_perm F s : tinv F s -> snd <$> timers_ s ≡ₚ fst <$> active_timers_ s.
Proof.
  intros [Hs Ha Ht Hact _ _]. apply NoDup_Permutation.
  - apply NoDup_fmap_2_strong; [|by apply sorted_NoDup].
    intros [w p] [w' p'] Hx Hy Heq. simpl in Heq. subst p'.
    apply Ht in Hx as (t & ? & <- & _), Hy as (t' & ? & <- & _). congruence.
  - apply NoDup_fmap_2_strong; [|by apply sorted_NoDup].
    intros [p q] [p' q'] Hx Hy Heq. simpl in Heq. subst p'.
    apply Hact in Hx as (t & ? & <- & _), Hy as (t' & ? & <- & _). congruence.
  - intros p. rewrite !list_elem_of_fmap. split.
    + intros ([w p'] & -> & Hin). apply Ht in Hin as (t & Hh & _ & Hf). simpl.
      exists (p', sequence_ t). split; [done|]. apply Hact. eauto.
    + intros ([p' q] & -> & Hin). apply Hact in Hin as (t & Hh & _ & Hf). simpl.
      exists (expiration_ t, p'). split; [done|]. apply Ht. eauto.
Qed.

(** The assertion on the sizes of the two sets never fails. *)
Lemma tinv_same_size F s : tinv F s -> same_size s = true.
Proof.
  intros Hi. apply tinv_perm, Permutation_length in Hi. rewrite !length_fmap in Hi.
  unfold same_size. by apply Nat.eqb_eq.
Qed.

(** ** The timerfd *)

(** The timerfd was set at [at_], to ring at [w], or after the least delay of 100
    microseconds if that is later. *)
Definition armed_at s (at_ : timeval) (w : Timestamp) : Prop :=
  exists ts, alarm (timerfd s) = Some (at_, ts) /\
    ts_ns (Now at_) + timespec_ns ts = Z.max (ts_ns w) (ts_ns (Now at_) + 100000).

(** It rings no later than [w], or 100 microseconds after it was set. *)
Definition armed_by s (w : Timestamp) : Prop :=
  exists at_ ts, alarm (timerfd s) = Some (at_, ts) /\
    ts_ns (Now at_) + timespec_ns ts <= Z.max (ts_ns w) (ts_ns (Now at_) + 100000).

Lemma armed_at_by s at_ w : armed_at s at_ w -> armed_by s w.
Proof. intros (ts & Ha & Hd). exists at_, ts. split; [done|lia]. Qed.

(** [w] is taken care of: the timerfd is armed for it, or it is after [late]. *)
Definition covered (late : option Timestamp) s (w : Timestamp) : Prop :=
  (exists n, late = Some n /\ ts_ns n < ts_ns w) \/ armed_by s w.

(** The first timer is taken care of. *)
Definition rings (late : option Timestamp) s : Prop :=
  match timers_ s with [] => True | (w, _) :: _ => covered late s w end.

Lemma covered_later late s s' v w :
  timerfd s' = timerfd s -> ts_ns v <= ts_ns w -> covered late s v -> covered late s' w.
Proof.
  intros Hk Hvw [(n & ? & ?)|(at_ & ts & ? & ?)]; [left|right].
  - exists n. split; [done|lia].
  - exists at_, ts. rewrite Hk. split; [done|lia].
Qed.

Lemma rings_alarm late s s' :
  timers_ s' = timers_ s -> alarm (timerfd s') = alarm (timerfd s) -> rings late s -> rings late s'.
Proof. unfold rings, covered, armed_by. by intros -> ->. Qed.

Lemma resettimerfd_ok tv w s :
  sane tv -> 0 <= ts_ns w < 2 ^ 63 ->
  exists k, resettimerfd tv w s = Ok (set_timerfd k s) /\ armed_at (set_timerfd k s) tv w.
Proof.
  intros Ht Hw. destruct (howlong_ok tv w Ht Hw) as (ts & Hts & Hv & Hns).
  unfold resettimerfd. rewrite Hts. cbn [mbind result_bind].
  destruct (settime_arms tv ts (timerfd s) Hv) as [_ Ha].
  destruct (timerfd_settime tv ts (timerfd s)) as [ret k]. exists k. split; [done|].
  exists ts. split; [exact Ha|lia].
Qed.

(** What depends only on the sets and the heap. *)
Lemma tinv_ext F s s' :
  heap s' = heap s -> timers_ s' = timers_ s -> active_timers_ s' = active_timers_ s ->
  tinv F s -> tinv F s'.
Proof. intros Hh Ht Ha [? ? ? ? ? ?]. split; rewrite ?Hh, ?Ht, ?Ha; auto. Qed.

Lemma tinv_permute F F' s : F' ≡ₚ F -> tinv F s -> tinv F' s.
Proof.
  intros Hp [? ? Ht Ha ? ?]. split; try done.
  - intros w p. rewrite Ht. by setoid_rewrite Hp.
  - intros p q. rewrite Ha. by setoid_rewrite Hp.
  - intros p. rewrite Hp. auto.
Qed.

(** ** Insert *)

Lemma Insert_spec tid p t F s :
  tinv (p :: F) s -> p ∉ F -> heap s !! p = Some t ->
  exists l l', Insert tid tid p s =
      Ok (match timers_ s with [] => true | (w, _) :: _ => Timestamp.ltb (expiration_ t) w end,
          set_active l' (set_timers l s)) /\
    tinv F (set_active l' (set_timers l s)) /\ l ≡ₚ (expiration_ t, p) :: timers_ s.
Proof.
  intros Hi Hp Hh. pose proof Hi as [Hs Ha Ht Hact Hr Hf].
  destruct (set_insert_new (expiration_ t, p) (timers_ s) Hs) as (l & El & Hl & Hpl).
  { rewrite Ht. intros (? & _ & _ & Hn). apply Hn. left. }
  destruct (set_insert_new (p, sequence_ t) (active_timers_ s) Ha) as (l' & El' & Hl' & Hpl').
  { rewrite Hact. intros (? & _ & _ & Hn). apply Hn. left. }
  exists l, l'.
  assert (tinv F (set_active l' (set_timers l s))) as Hi'.
  { split; simpl; try done.
    - intros w q. rewrite Hpl, elem_of_cons, Ht. setoid_rewrite not_elem_of_cons.
      destruct (decide (q = p)) as [->|]; naive_solver.
    - intros q n. rewrite Hpl', elem_of_cons, Hact. setoid_rewrite not_elem_of_cons.
      destruct (decide (q = p)) as [->|]; naive_solver.
    - intros q Hq. apply Hf. by right. }
  split; [|done]. unfold Insert, timer_at. rewrite AssertInLoopThread_refl. simpl.
  rewrite (tinv_same_size _ s Hi). simpl. rewrite Hh. cbn [mbind result_bind deref].
  unfold Expiration, Sequence. rewrite El. simpl. rewrite El'. simpl.
  by rewrite (tinv_same_size F _ Hi').
Qed.

(** The first entry after an insertion. *)
Lemma insert_first (l l' : list Entry) w p :
  sorted l -> sorted l' -> l' ≡ₚ (w, p) :: l ->
  match l' with
  | [] => False
  | (u, _) :: _ =>
      match l with
      | [] => u = w
      | (v, _) :: _ => if Timestamp.ltb w v then u = w else ts_ns v <= ts_ns u
      end
  end.
Proof.
  intros Hs Hs' Hp. destruct l' as [|[u q] l']; [by apply Permutation_nil_cons in Hp|].
  assert ((u, q) ∈ (w, p) :: l) as Hu by (rewrite <- Hp; left).
  destruct l as [|[v r] l]; [set_solver|].
  assert (forall x y : Entry, y = x \/ less x y = true -> ts_ns x.1 <= ts_ns y.1) as Hle.
  { intros x y [->|Hlt]; [done|]. apply pair_less_true in Hlt. simpl in Hlt.
    unfold Timestamp.ltb in Hlt. destruct Hlt as [?|[-> _]]; bsimpl; lia. }
  destruct (Timestamp.ltb w v) eqn:E; unfold Timestamp.ltb in E; bsimpl.
  - apply elem_of_cons in Hu as [[=]|Hu]; [done|].
    assert ((w, p) ∈ (u, q) :: l') as Hw by (rewrite Hp; left).
    pose proof (Hle _ _ (sorted_head _ _ _ Hs' Hw)). pose proof (Hle _ _ (sorted_head _ _ _ Hs Hu)).
    simpl in *. lia.
  - apply elem_of_cons in Hu as [[=]|Hu]; [by subst; lia|].
    apply (Hle _ _ (sorted_head _ _ _ Hs Hu)).
Qed.

(** ** AddTimerInLoop *)

Lemma AddTimerInLoop_spec tid late tv p t F s :
  tinv (p :: F) s -> p ∉ F -> heap s !! p = Some t -> sane tv -> rings late s ->
  exists l l' k, let s' := set_timerfd k (set_active l' (set_timers l s)) in
    AddTimerInLoop tid tid tv p s = Ok s' /\ tinv F s' /\ rings late s' /\
    l ≡ₚ (expiration_ t, p) :: timers_ s.
Proof.
  intros Hi Hp Hh Htv Hr. pose proof (ti_range _ _ Hi p t Hh) as [_ Hw].
  destruct (Insert_spec tid p t F s Hi Hp Hh) as (l & l' & Hins & Hi' & Hl).
  pose proof (insert_first _ _ _ _ (ti_sorted _ _ Hi) (ti_sorted _ _ Hi') Hl) as Hfirst.
  simpl in Hfirst. unfold AddTimerInLoop. rewrite AssertInLoopThread_refl, Hins. simpl.
  set (s1 := set_active l' (set_timers l s)) in *. exists l, l'.
  assert (forall k, tinv F (set_timerfd k s1)) as Hk by (intros; by apply (tinv_ext F s1)).
  destruct (match timers_ s with [] => true | (w, _) :: _ => _ end) eqn:E.
  - destruct (resettimerfd_ok tv (expiration_ t) s1 Htv Hw) as (k & Hrun & Harm).
    apply armed_at_by in Harm. exists k. unfold timer_at. simpl. rewrite Hh. cbn [deref mbind result_bind].
    unfold Expiration. rewrite Hrun. split_and!; try done. unfold rings. simpl.
    destruct l as [|[u q] l]; [done|]. right.
    destruct (timers_ s) as [|[v r] lo]; [by subst u|]. rewrite E in Hfirst. by subst u.
  - exists (timerfd s). replace (set_timerfd (timerfd s) s1) with s1 by done.
    split_and!; try done. unfold rings in *. simpl.
    destruct (timers_ s) as [|[v r] lo]; [done|]. rewrite E in Hfirst.
    destruct l as [|[u q] l]; [done|]. by apply (covered_later late s s1 v).
Qed.

(** ** CancelInLoop *)

Lemma same_head_or_later (l l' : list Entry) e w p :
  sorted l -> l ≡ₚ e :: (w, p) :: l' ->
  match l with [] => False | (v, _) :: _ => ts_ns v <= ts_ns w end.
Proof.
  intros Hs Hp. destruct l as [|[v q] l]; [by apply Permutation_nil_cons in Hp|].
  assert ((w, p) ∈ (v, q) :: l) as Hin by (rewrite Hp; right; left).
  destruct (sorted_head _ _ _ Hs Hin) as [[= -> ->]|Hlt]; [done|].
  apply pair_less_true in Hlt. simpl in Hlt. unfold Timestamp.ltb in Hlt.
  destruct Hlt as [?|[-> _]]; bsimpl; lia.
Qed.

(** Cancelling a timer of the queue deletes it. *)
Lemma CancelInLoop_active tid late p t F s :
  tinv F s -> heap s !! p = Some t -> p ∉ F -> rings late s ->
  exists l l', let s' := set_active l' (set_heap (delete p (heap s)) (set_timers l s)) in
    CancelInLoop tid tid (mkTimerID p (sequence_ t)) s = Ok s' /\ tinv F s' /\ rings late s' /\
    timers_ s ≡ₚ (expiration_ t, p) :: l.
Proof.
  intros Hi Hh Hp Hr. pose proof Hi as [Hs Ha Ht Hact Hrg Hf].
  assert ((p, sequence_ t) ∈ active_timers_ s) as Hpa by (apply Hact; eauto).
  assert ((expiration_ t, p) ∈ timers_ s) as Hpt by (apply Ht; eauto).
  destruct (set_erase_mem _ _ Hs Hpt) as (l & El & Hl & Hpl).
  destruct (set_erase_mem _ _ Ha Hpa) as (l' & El' & Hl' & Hpl').
  exists l, l'. set (s' := set_active _ _).
  pose proof (sorted_NoDup _ Hs) as Hnd. rewrite Hpl in Hnd. apply NoDup_cons in Hnd as [Hnd _].
  pose proof (sorted_NoDup _ Ha) as Hnd'. rewrite Hpl' in Hnd'. apply NoDup_cons in Hnd' as [Hnd' _].
  assert (tinv F s') as Hi'.
  { split; simpl; try done.
    - intros w q. specialize (Ht w q). rewrite Hpl, elem_of_cons in Ht.
      destruct (decide (q = p)) as [->|Hne].
      + rewrite lookup_delete_eq. split; [|by intros (? & ? & _)]. intros Hin.
        destruct (proj1 Ht (or_intror Hin)) as (t' & ? & <- & _). assert (t' = t) as -> by congruence. done.
      + rewrite lookup_delete_ne by done. rewrite <- Ht. naive_solver.
    - intros q n. specialize (Hact q n). rewrite Hpl', elem_of_cons in Hact.
      destruct (decide (q = p)) as [->|Hne].
      + rewrite lookup_delete_eq. split; [|by intros (? & ? & _)]. intros Hin.
        destruct (proj1 Hact (or_intror Hin)) as (t' & ? & <- & _). assert (t' = t) as -> by congruence. done.
      + rewrite lookup_delete_ne by done. rewrite <- Hact. naive_solver.
    - intros q t' [_ Hq]%lookup_delete_Some. by apply Hrg.
    - intros q Hq. rewrite lookup_delete_ne by (by intros <-). by apply Hf. }
  split_and!; try done.
  - unfold CancelInLoop, timer_at, free. rewrite AssertInLoopThread_refl. simpl.
    rewrite (tinv_same_size _ s Hi). simpl. rewrite (proj2 (set_find_spec _ _ Ha) Hpa).
    unfold timer_at. rewrite Hh. cbn [deref mbind result_bind]. unfold Expiration. rewrite El. simpl.
    rewrite Hh. simpl. rewrite El'. simpl. fold s'. by rewrite (tinv_same_size F _ Hi').
  - unfold rings in *. simpl. destruct l as [|[w q] l]; [done|].
    pose proof (same_head_or_later _ _ _ _ _ Hs Hpl) as Hhd.
    destruct (timers_ s) as [|[v r] lo]; [done|]. by apply (covered_later late s s' v).
Qed.

(** Any other identifier leaves the queue as it is; while callbacks run it is
    remembered. *)
Lemma CancelInLoop_inactive tid id F s :
  tinv F s -> (forall t, heap s !! timer_ id = Some t -> sequence_ t = id_sequence_ id -> timer_ id ∈ F) ->
  CancelInLoop tid tid id s =
    Ok (if is_calling_expired_timers_ s
        then set_canceling (set_insert (timer_ id, id_sequence_ id) (canceling_timers_ s)).2 s else s).
Proof.
  intros Hi Hid. unfold CancelInLoop. rewrite AssertInLoopThread_refl. simpl.
  pose proof (tinv_same_size _ s Hi) as Hsz. rewrite Hsz. simpl.
  replace (set_find _ (active_timers_ s)) with false.
  - destruct (is_calling_expired_timers_ s); simpl; [|by rewrite Hsz].
    unfold same_size in *. simpl. by rewrite Hsz.
  - symmetry. apply not_true_iff_false. rewrite set_find_spec by apply (ti_asorted _ _ Hi).
    rewrite (ti_active _ _ Hi). intros (t & Ht & Hseq & Hn). by apply Hn, (Hid t).
Qed.
End Facts.
