(* ===== verification/TimerRun.v ===== *)
(** * Firing: what one call of the timer queue's [HandleRead] does

    A cut of the queue at the current time, one callback per expired timer in
    order, and the repeating ones armed again.  Callbacks may add and cancel
    timers. *)

From S2P Require Import Prelude LoopThread Duration Timestamp Channel OrdSet TimerQueue TimerFacts.
#[local] Open Scope Z_scope.

Section Run.
Context {Cb U K : Type} `{TimerfdLaws K}.
Abbreviation tworld := (tworld Cb U K).
Implicit Types (s : tworld) (p : ptr) (t : InvokeTimer Cb) (F : list ptr).

(** ** GetExpired *)

Lemma erase_active_spec it t s :
  sorted (active_timers_ s) -> heap s !! it.2 = Some t -> (it.2, sequence_ t) ∈ active_timers_ s ->
  exists l, erase_active it s = Ok (set_active l s) /\ sorted l /\
    active_timers_ s ≡ₚ (it.2, sequence_ t) :: l.
Proof.
  intros Ha Hh Hin. destruct (set_erase_mem _ _ Ha Hin) as (l & El & Hl & Hp).
  exists l. unfold erase_active, timer_at. rewrite Hh. simpl. unfold Sequence. by rewrite El.
Qed.

(** The loop of [GetExpired] takes the timers it moved out from the active set. *)
Lemma erase_actives_spec its F s :
  NoDup (its.*2) -> sorted (active_timers_ s) ->
  (forall p q, (p, q) ∈ active_timers_ s <->
     exists t, heap s !! p = Some t /\ sequence_ t = q /\ p ∉ F) ->
  (forall p, p ∈ its.*2 -> is_Some (heap s !! p) /\ p ∉ F) ->
  exists l, foldM erase_active its s = Ok (set_active l s) /\ sorted l /\
    forall p q, (p, q) ∈ l <-> exists t, heap s !! p = Some t /\ sequence_ t = q /\ p ∉ its.*2 ++ F.
Proof.
  revert F s. induction its as [|[w p] its IH]; intros F s Hnd Ha Hact Hin; simpl in *.
  - exists (active_timers_ s). split; [by destruct s|]. by split.
  - apply NoDup_cons in Hnd as [Hp Hnd]. destruct (Hin p) as [[t Ht] HpF]; [left|].
    assert ((p, sequence_ t) ∈ active_timers_ s) as Hpa by (apply Hact; eauto).
    destruct (erase_active_spec (w, p) t s Ha Ht Hpa) as (l & -> & Hl & Hpl). simpl in Hpl |- *.
    pose proof (sorted_NoDup _ Ha) as Hnd'. rewrite Hpl in Hnd'. apply NoDup_cons in Hnd' as [Hnd' _].
    destruct (IH (p :: F) (set_active l s)) as (l2 & Hrun & Hl2 & Hspec); try done.
    + simpl. intros q n. specialize (Hact q n). rewrite Hpl, elem_of_cons in Hact.
      destruct (decide (q = p)) as [->|Hne].
      * split; [|intros (? & _ & _ & Hn); exfalso; apply Hn; left]. intros Hq.
        destruct (proj1 Hact (or_intror Hq)) as (t' & ? & <- & _). assert (t' = t) as -> by congruence. done.
      * setoid_rewrite not_elem_of_cons. naive_solver.
    + simpl. intros q Hq. destruct (Hin q) as [? ?]; [by right|]. split; [done|].
      apply not_elem_of_cons. split; [by intros ->|done].
    + exists l2. split; [exact Hrun|]. split; [done|]. intros q n. rewrite Hspec. simpl.
      setoid_rewrite not_elem_of_cons. setoid_rewrite not_elem_of_app. setoid_rewrite not_elem_of_cons.
      naive_solver.
Qed.

(** The queue cut in two. *)
Section Cut.
Context (expired rest : list (Timestamp * ptr)) (F : list ptr) (s : tworld).
Context (Hi : tinv F s) (Hcut : timers_ s = expired ++ rest).

Lemma cut_expired p : p ∈ expired.*2 -> is_Some (heap s !! p) /\ p ∉ F.
Proof.
  intros ([w q] & -> & Hin)%list_elem_of_fmap.
  assert ((w, q) ∈ timers_ s) as (t & ? & _ & ?)%(ti_timers _ _ Hi) by (rewrite Hcut; set_solver). simpl. eauto.
Qed.

Lemma cut_NoDup : NoDup (expired.*2).
Proof.
  pose proof (sorted_NoDup _ (ti_sorted _ _ Hi)) as Hnd. rewrite Hcut in Hnd. apply NoDup_app in Hnd as [Hnd _].
  apply NoDup_fmap_2_strong; [|done]. intros [w p] [w' p'] Hx Hy Hxy. simpl in Hxy. subst p'.
  assert ((w, p) ∈ timers_ s) as (t & ? & <- & _)%(ti_timers _ _ Hi) by (rewrite Hcut; set_solver).
  assert ((w', p) ∈ timers_ s) as (t' & ? & <- & _)%(ti_timers _ _ Hi) by (rewrite Hcut; set_solver). congruence.
Qed.

Lemma cut_tinv l :
  sorted rest -> sorted l ->
  (forall p q, (p, q) ∈ l <-> exists t, heap s !! p = Some t /\ sequence_ t = q /\ p ∉ expired.*2 ++ F) ->
  tinv (expired.*2 ++ F) (set_active l (set_timers rest s)).
Proof.
  intros Hrest Hl Hspec. pose proof Hi as [Hs Ha Ht Hact Hrg Hf]. split; simpl; try done.
  - intros w p. pose proof (Ht w p) as Hwp. rewrite Hcut, elem_of_app in Hwp. split.
    + intros Hin. destruct (proj1 Hwp (or_intror Hin)) as (t & Hh & <- & HF).
      exists t. split_and!; try done. rewrite not_elem_of_app. split; [|done].
      intros ([w' p'] & -> & Hin')%list_elem_of_fmap. simpl in *.
      assert ((w', p') ∈ timers_ s) as (t' & ? & <- & _)%Ht by (rewrite Hcut; set_solver).
      assert (t' = t) as -> by congruence.
      pose proof (sorted_NoDup _ Hs) as Hnd'. rewrite Hcut in Hnd'.
      apply NoDup_app in Hnd' as (_ & Hd & _). by apply (Hd _ Hin').
    + intros (t & Hh & <- & Hn). apply not_elem_of_app in Hn as [Hn HF].
      destruct (proj2 Hwp ltac:(eauto)) as [Hin|]; [|done]. exfalso. apply Hn.
      apply list_elem_of_fmap. by exists (expiration_ t, p).
  - intros p [Hp|Hp]%elem_of_app; [|auto]. by apply cut_expired.
Qed.
End Cut.

Lemma GetExpired_spec now F s :
  tinv F s ->
  exists expired rest l, let s' := set_active l (set_timers rest s) in
    GetExpired now s = Ok (expired, s') /\ tinv (expired.*2 ++ F) s' /\
    timers_ s = expired ++ rest /\ NoDup (expired.*2) /\
    (forall w p, (w, p) ∈ expired -> ts_ns w <= ts_ns now) /\
    (forall w p, (w, p) ∈ rest -> ts_ns now < ts_ns w).
Proof.
  intros Hi. pose proof Hi as [Hs Ha Ht Hact Hrg Hf].
  destruct (lower_bound (now, UINTPTR_MAX) (timers_ s)) as [expired rest] eqn:El.
  destruct (lower_bound_spec _ _ _ _ Hs El) as (Heq & Hs1 & Hs2 & Hle & Hgt).
  assert (forall w p, (w, p) ∈ rest -> ts_ns now < ts_ns w) as Hrest.
  { intros w p Hin. pose proof (Hgt _ Hin) as Hg. apply not_true_iff_false in Hg.
    rewrite less_pair in Hg. simpl in Hg. unfold Timestamp.ltb in Hg.
    assert ((w, p) ∈ timers_ s) as (t & [[_ Hp] _]%Hrg & _)%Ht by (rewrite Heq; set_solver).
    destruct (Z.lt_trichotomy (ts_ns w) (ts_ns now)) as [?|[?|?]]; [..|done]; exfalso; apply Hg.
    - left. blia.
    - right. split; [by destruct w, now; simpl in *; subst|]. blia. }
  destruct (erase_actives_spec expired F (set_timers rest s)) as (l & Hrun & Hl & Hspec); try done.
  { by eapply cut_NoDup. } { intros p Hp. by apply (cut_expired expired rest F s Hi Heq p). }
  pose proof (cut_tinv expired rest F s Hi Heq l Hs2 Hl Hspec) as Hi'.
  exists expired, rest, l. intros s'. split_and!; try done.
  - unfold GetExpired. rewrite (tinv_same_size F s Hi). simpl. rewrite El. rewrite assert_true.
    2:{ destruct rest as [|[w p] rest]; [done|]. unfold Timestamp.ltb.
        specialize (Hrest w p ltac:(left)). blia. }
    cbn [mbind result_bind]. rewrite Hrun. cbn [mbind result_bind].
    change (set_active l (set_timers rest s)) with s'. by rewrite (tinv_same_size _ s' Hi').
  - exact (cut_NoDup expired rest F s Hi Heq).
  - intros w p Hin. specialize (Hle _ Hin). apply pair_less_true in Hle. simpl in Hle.
    unfold Timestamp.ltb in Hle. destruct Hle as [?|[-> _]]; bsimpl; lia.
Qed.

(** ** What callbacks do to the queue

    A callback reaches it only by [AddTimer] and [Cancel], called in the loop's
    thread, where [RunInLoop] calls its argument; beside it may change its own state
    and, of the kernel, all but the timerfd's alarm. *)

Inductive tstep (tid : thread_id) : tworld -> tworld -> Prop :=
  | step_add tv new cb when interval id s s' :
      heap s !! new = None -> 0 < new < UINTPTR_MAX -> 0 <= ts_ns when < 2 ^ 63 -> sane tv ->
      AddTimer tid (fun f => f tid) tv new cb when interval s = Ok (id, s') -> tstep tid s s'
  | step_cancel id s s' :
      Cancel tid (fun f => f tid) id s = Ok s' -> tstep tid s s'
  | step_user u k s : alarm k = alarm (timerfd s) -> tstep tid s (set_timerfd k (set_user u s)).

Lemma tinv_alloc F p t s :
  tinv F s -> heap s !! p = None -> 0 < p < UINTPTR_MAX -> 0 <= ts_ns (expiration_ t) < 2 ^ 63 ->
  tinv (p :: F) (set_heap (<[p := t]> (heap s)) s).
Proof.
  intros [Hs Ha Ht Hact Hrg Hf] Hp Hr He. split; simpl; try done.
  - intros w q. rewrite Ht. setoid_rewrite not_elem_of_cons. destruct (decide (q = p)) as [->|].
    + rewrite lookup_insert_eq. naive_solver.
    + rewrite lookup_insert_ne by done. naive_solver.
  - intros q n. rewrite Hact. setoid_rewrite not_elem_of_cons. destruct (decide (q = p)) as [->|].
    + rewrite lookup_insert_eq. naive_solver.
    + rewrite lookup_insert_ne by done. naive_solver.
  - intros q t'. destruct (decide (q = p)) as [->|].
    + rewrite lookup_insert_eq. by intros [= <-].
    + rewrite lookup_insert_ne by done. apply Hrg.
  - intros q [->|Hq]%elem_of_cons; [rewrite lookup_insert_eq; eauto|].
    destruct (decide (q = p)) as [->|]; [rewrite lookup_insert_eq; eauto|].
    rewrite lookup_insert_ne by done. auto.
Qed.

(** From [s0] to [s]: the invariant; timers in flight untouched; a remembered
    cancellation stays remembered. *)
Record running F (late : option Timestamp) (s0 s : tworld) : Prop := {
  run_inv : tinv F s;
  run_rings : rings late s;
  run_calling : is_calling_expired_timers_ s = is_calling_expired_timers_ s0;
  run_heap p : p ∈ F -> heap s !! p = heap s0 !! p;
  run_sorted : sorted (canceling_timers_ s);
  run_canceling x : x ∈ canceling_timers_ s0 -> x ∈ canceling_timers_ s
}.
Lemma running_refl F late s :
  tinv F s -> rings late s -> sorted (canceling_timers_ s) -> running F late s s.
Proof. by split. Qed.

Lemma AddTimer_running tid tv new cb when interval id F late s0 s s' :
  running F late s0 s ->
  heap s !! new = None -> 0 < new < UINTPTR_MAX -> 0 <= ts_ns when < 2 ^ 63 -> sane tv ->
  AddTimer tid (fun f => f tid) tv new cb when interval s = Ok (id, s') -> running F late s0 s'.
Proof.
  intros [Hi Hr Hc Hh Hs Hcan] Hnew Hrange Hw Htv Hrun. unfold AddTimer in Hrun.
  apply bind_ok in Hrun as ([t created] & Et & Hrun).
  set (s1 := set_created _ _) in Hrun.
  assert (expiration_ t = when) as Hexp.
  { unfold InvokeTimer_new in Et. inv_ok. done. }
  assert (new ∉ F) as HnF.
  { intros Hin. destruct (ti_inflight _ _ Hi _ Hin) as [x Hx]. congruence. }
  assert (tinv (new :: F) s1) as Hi1.
  { apply (tinv_ext _ (set_heap (<[new := t]> (heap s)) s)); try done.
    apply tinv_alloc; try done. by rewrite Hexp. }
  destruct (AddTimerInLoop_spec tid late tv new t F s1) as (l & l' & k & Hadd & Hi2 & Hr2 & _); try done.
  { simpl. by rewrite lookup_insert_eq. }
  rewrite Hadd in Hrun. cbn [mbind result_bind] in Hrun. unfold timer_at in Hrun. simpl in Hrun.
  rewrite lookup_insert_eq in Hrun. simpl in Hrun. injection Hrun as <- <-.
  split; try done. intros p Hp. simpl. rewrite lookup_insert_ne by (by intros ->). auto.
Qed.

Lemma CancelInLoop_running tid id F late s0 s s' :
  running F late s0 s -> CancelInLoop tid tid id s = Ok s' -> running F late s0 s'.
Proof.
  intros [Hi Hr Hc Hh Hs Hcan] Hrun.
  destruct (set_find (timer_ id, id_sequence_ id) (active_timers_ s)) eqn:Ef.
  - apply set_find_spec in Ef; [|apply Hi]. apply (ti_active _ _ Hi) in Ef as (t & Ht & Hseq & HpF).
    destruct (CancelInLoop_active tid late _ t F s Hi Ht HpF Hr) as (l & l' & Hrun' & Hi' & Hr' & _).
    destruct id as [p q]. simpl in *. subst q. rewrite Hrun' in Hrun. injection Hrun as <-.
    split; try done. intros q Hq. simpl. rewrite lookup_delete_ne by (by intros ->). auto.
  - rewrite (CancelInLoop_inactive tid id F s Hi) in Hrun.
    2:{ intros t Ht Hseq. destruct (decide (timer_ id ∈ F)) as [|Hn]; [done|]. exfalso.
        apply not_true_iff_false in Ef. apply Ef, set_find_spec; [apply Hi|].
        apply (ti_active _ _ Hi). eauto. }
    injection Hrun as <-. destruct (is_calling_expired_timers_ s) eqn:E; [|split; congruence || done].
    destruct (set_insert_spec (timer_ id, id_sequence_ id) (canceling_timers_ s) Hs) as [Hs' Hin].
    split; try done; simpl.
    + by apply (tinv_ext F s).
    + congruence.
    + intros x Hx. apply Hin. right. auto.
Qed.

Lemma tstep_running tid F late s0 s s' :
  running F late s0 s -> tstep tid s s' -> running F late s0 s'.
Proof.
  intros Hrun Hstep. destruct Hstep.
  - by eapply AddTimer_running.
  - by eapply CancelInLoop_running.
  - destruct Hrun as [Hi Hr]. split; try done; [by apply (tinv_ext F s)|].
    revert Hr. by apply rings_alarm.
Qed.

Lemma tsteps_running tid F late s0 s s' :
  running F late s0 s -> star (tstep tid) s s' -> running F late s0 s'.
Proof.
  intros Hrun Hst. apply (star_invariant (tstep tid) (running F late s0) s s'); [|done..].
  intros. by eapply tstep_running.
Qed.

(** ** Reset *)

(** The timer after [Restart(now)]. *)
Definition restarted (now : Timestamp) t : InvokeTimer Cb :=
  mkTimer (mkTimestamp (ts_ns now + ns_ (interval_ t))) (callback_ t) (interval_ t) (repeat_ t)
    (sequence_ t).

(** Whether [Reset] arms a fired timer again. *)
Definition rearms s p t : bool :=
  repeat_ t && negb (set_find (p, sequence_ t) (canceling_timers_ s)).

(** What becomes of a fired timer. *)
Definition after_fire now s p t : option (InvokeTimer Cb) :=
  if rearms s p t then Some (restarted now t) else None.

(** The next expiration of a repeating timer is positive and fits. *)
Definition can_restart (now : Timestamp) t : Prop :=
  repeat_ t = true -> 0 < ts_ns now + ns_ (interval_ t) < 2 ^ 63.

Lemma Restart_ok now t : can_restart now t -> repeat_ t = true -> Restart now t = Ok (restarted now t).
Proof.
  intros Hc Hr. specialize (Hc Hr). unfold Restart. rewrite Hr. unfold Timestamp.plus, add_assign, Nanoseconds.
  rewrite ck64_ok by (unfold in_i64; lia). simpl. unfold restarted. by rewrite Hr.
Qed.

Lemma free_ok p t F s :
  tinv (p :: F) s -> heap s !! p = Some t -> p ∉ F ->
  free p s = Ok (set_heap (delete p (heap s)) s) /\ tinv F (set_heap (delete p (heap s)) s).
Proof.
  intros [Hs Ha Ht Hact Hrg Hf] Hh Hp. split; [by unfold free, timer_at; rewrite Hh|].
  split; simpl; try done.
  - intros w q. rewrite Ht. setoid_rewrite not_elem_of_cons. destruct (decide (q = p)) as [->|].
    + rewrite lookup_delete_eq. naive_solver.
    + rewrite lookup_delete_ne by done. naive_solver.
  - intros q n. rewrite Hact. setoid_rewrite not_elem_of_cons. destruct (decide (q = p)) as [->|].
    + rewrite lookup_delete_eq. naive_solver.
    + rewrite lookup_delete_ne by done. naive_solver.
  - intros q t' [_ Hq]%lookup_delete_Some. by apply Hrg.
  - intros q Hq. rewrite lookup_delete_ne by (by intros <-). apply Hf. by right.
Qed.

Lemma reset_one_spec tid now it t F s :
  tinv (it.2 :: F) s -> it.2 ∉ F -> heap s !! it.2 = Some t -> can_restart now t ->
  rings (Some Timestamp_0) s ->
  exists s', reset_one tid tid now it s = Ok s' /\ tinv F s' /\ rings (Some Timestamp_0) s' /\
    heap s' !! it.2 = after_fire now s it.2 t /\
    (forall p, p <> it.2 -> heap s' !! p = heap s !! p) /\
    canceling_timers_ s' = canceling_timers_ s.
Proof.
  destruct it as [w0 p]. cbn [snd]. intros Hi Hp Hh Hc Hr. unfold reset_one, timer_at. cbn [snd]. rewrite Hh.
  cbn [deref mbind result_bind]. unfold Repeat, Sequence. fold (rearms s p t).
  unfold after_fire. destruct (rearms s p t) eqn:E.
  - apply andb_true_iff in E as [Erep _]. rewrite (Restart_ok now t Hc Erep). cbn [mbind result_bind].
    specialize (Hc Erep). set (s1 := set_heap _ s).
    assert (tinv (p :: F) s1) as Hi1.
    { destruct Hi as [Hs Ha Ht Hact Hrg Hf]. split; simpl; try done.
      - intros w q. rewrite Ht. setoid_rewrite not_elem_of_cons. destruct (decide (q = p)) as [->|].
        + naive_solver.
        + rewrite lookup_insert_ne by done. naive_solver.
      - intros q n. rewrite Hact. setoid_rewrite not_elem_of_cons. destruct (decide (q = p)) as [->|].
        + naive_solver.
        + rewrite lookup_insert_ne by done. naive_solver.
      - intros q t'. destruct (decide (q = p)) as [->|].
        + rewrite lookup_insert_eq. intros [= <-]. simpl. split; [by apply (Hrg p t)|]. lia.
        + rewrite lookup_insert_ne by done. apply Hrg.
      - intros q Hq. destruct (decide (q = p)) as [->|]; [rewrite lookup_insert_eq; eauto|].
        rewrite lookup_insert_ne by done. auto. }
    destruct (Insert_spec tid p (restarted now t) F s1) as (l & l' & -> & Hi2 & Hl); try done.
    { simpl. by rewrite lookup_insert_eq. }
    cbn [mbind result_bind]. eexists; split; [done|]. split_and!; try done.
    + pose proof (insert_first _ _ _ _ (ti_sorted _ _ Hi1) (ti_sorted _ _ Hi2) Hl) as Hfst.
      unfold rings in *. simpl in *. destruct l as [|[u q] l]; [done|].
      destruct (timers_ s) as [|[v r] lo]; [|destruct (Timestamp.ltb _ v)].
      * left. exists Timestamp_0. split; [done|]. subst u. simpl. lia.
      * left. exists Timestamp_0. split; [done|]. subst u. simpl. lia.
      * by apply (covered_later _ s _ v).
    + simpl. by rewrite lookup_insert_eq.
    + intros q Hq. simpl. by rewrite lookup_insert_ne.
  - destruct (free_ok p t F s Hi Hh Hp) as [-> Hi']. eexists; split; [done|]. split_and!; try done.
    + simpl. by rewrite lookup_delete_eq.
    + intros q Hq. simpl. by rewrite lookup_delete_ne.
Qed.

Lemma reset_loop_spec tid now its F s :
  tinv (its.*2 ++ F) s -> NoDup (its.*2) -> (forall p, p ∈ its.*2 -> p ∉ F) ->
  (forall p t, p ∈ its.*2 -> heap s !! p = Some t -> can_restart now t) ->
  rings (Some Timestamp_0) s ->
  exists s', foldM (reset_one tid tid now) its s = Ok s' /\ tinv F s' /\ rings (Some Timestamp_0) s' /\
    (forall p t, p ∈ its.*2 -> heap s !! p = Some t -> heap s' !! p = after_fire now s p t) /\
    (forall p, p ∉ its.*2 -> heap s' !! p = heap s !! p).
Proof.
  revert s. induction its as [|[w p] its IH]; simpl; intros s Hi Hnd HF Hc Hr.
  - exists s. split_and!; try done. intros p t Hp. by apply elem_of_nil in Hp.
  - apply NoDup_cons in Hnd as [Hp Hnd].
    destruct (ti_inflight _ _ Hi p ltac:(left)) as [t Ht].
    destruct (reset_one_spec tid now (w, p) t (its.*2 ++ F) s) as (s1 & -> & Hi1 & Hr1 & Hp1 & Ho1 & Hc1);
      try done.
    { rewrite not_elem_of_app. split; [done|]. apply HF. left. }
    { apply (Hc p); [left|done]. }
    simpl in *. destruct (IH s1) as (s' & -> & Hi' & Hr' & Hin' & Hout'); try done.
    + intros q Hq. apply HF. by right.
    + intros q x Hq Hx. rewrite Ho1 in Hx by (by intros ->). apply (Hc q); [by right|done].
    + exists s'. split_and!; try done.
      * intros q x [->|Hq]%elem_of_cons Hx.
        -- rewrite Hout' by done. rewrite Hp1. by assert (x = t) as -> by congruence.
        -- rewrite <- Ho1 in Hx by (by intros ->). rewrite (Hin' q x Hq Hx).
           unfold after_fire, rearms. by rewrite Hc1.
      * intros q Hq. apply not_elem_of_cons in Hq as [Hqp Hq]. rewrite Hout' by done. by apply Ho1.
Qed.

(** The timerfd was set at [tv] for the first timer, if that is valid. *)
Definition set_for_first (tv : timeval) s : Prop :=
  match timers_ s with [] => True | (w, _) :: _ => IsValid w = true -> armed_at s tv w end.

(** The end of [Reset]: the timerfd is armed for the first timer. *)
Lemma Reset_end tv' F s :
  tinv F s -> sane tv' -> rings (Some Timestamp_0) s ->
  exists k, (next_expire ← (match timers_ s with
                 | [] => Ok Timestamp_0
                 | (_, p) :: _ => t ← timer_at p s; Ok (Expiration t)
                 end);
    if IsValid next_expire then resettimerfd tv' next_expire s else Ok s) = Ok (set_timerfd k s) /\
    tinv F (set_timerfd k s) /\ rings None (set_timerfd k s) /\
    set_for_first tv' (set_timerfd k s).
Proof.
  intros Hi Htv Hr. assert (forall k, tinv F (set_timerfd k s)) as Hk by (intros; by apply (tinv_ext F s)).
  assert (set_timerfd (timerfd s) s = s) as Hsame by by destruct s.
  unfold set_for_first, rings in *. destruct (timers_ s) as [|[w p] l] eqn:El.
  - exists (timerfd s). rewrite Hsame. simpl. rewrite El. split_and!; try done.
  - assert ((w, p) ∈ timers_ s) as Hin by (rewrite El; left).
    apply (ti_timers _ _ Hi) in Hin as (t & Ht & <- & _).
    unfold timer_at. rewrite Ht. cbn [deref mbind result_bind]. unfold Expiration.
    destruct (ti_range _ _ Hi p t Ht) as [_ Hw]. unfold IsValid.
    destruct (Z.gtb_spec (ts_ns (expiration_ t)) 0) as [Hpos|Hneg].
    + destruct (resettimerfd_ok tv' (expiration_ t) s Htv Hw) as (k & Hrun & Harm).
      exists k. rewrite Hrun. split_and!; try done; simpl; rewrite El; [right; by eapply armed_at_by|done].
    + exists (timerfd s). rewrite Hsame, El. split_and!; try done.
      * destruct Hr as [(n & [= <-] & Hn)|]; [simpl in Hn; lia|by right].
      * unfold IsValid. intros Hx%Z.gtb_lt. lia.
Qed.

Lemma reset_loop_calling tid now its s s' :
  foldM (reset_one tid tid now) its s = Ok s' ->
  is_calling_expired_timers_ s' = is_calling_expired_timers_ s.
Proof.
  apply (foldM_invariant
    (fun x => is_calling_expired_timers_ x = is_calling_expired_timers_ s)); [|done].
  intros it x x' Hx Hrun. rewrite <- Hx. unfold reset_one, free in Hrun. inv_ok.
  destruct (_ && _); inv_ok; [|done]. destruct x2 as [b y]. inv_ok.
  unfold Insert in E1. inv_ok.
  repeat (match goal with Hx : context [set_insert ?a ?b] |- _ => destruct (set_insert a b) end; inv_ok).
  done.
Qed.

Lemma reset_loop_user tid now its s s' :
  foldM (reset_one tid tid now) its s = Ok s' -> user s' = user s.
Proof.
  apply (foldM_invariant (fun x => user x = user s)); [|done].
  intros it x x' Hx Hrun. rewrite <- Hx. unfold reset_one, free in Hrun. inv_ok.
  destruct (_ && _); inv_ok; [|done]. destruct x2 as [b y]. inv_ok.
  unfold Insert in E1. inv_ok.
  repeat (match goal with Hx : context [set_insert ?a ?b] |- _ => destruct (set_insert a b) end; inv_ok).
  done.
Qed.
End Run.
