(* ===== verification/TimerProps.v ===== *)
(** * What the timer queue promises

    Adding, cancelling, and the round of callbacks; a timerfd to run them on; the
    race in [AddTimer]. *)

From S2P Require Import Prelude LoopThread Duration Timestamp Channel OrdSet TimerQueue TimerFacts.
From S2P Require Import TimerRun.
#[local] Open Scope Z_scope.

Section Props.
Context {Cb U K : Type} `{TimerfdLaws K}.
Abbreviation tworld := (tworld Cb U K).
Implicit Types (s : tworld) (p : ptr) (t : InvokeTimer Cb) (F : list ptr).

(** [AddTimer] in the loop's thread. *)
Lemma AddTimer_spec tid late tv new cb when interval t created F s :
  tinv F s -> rings late s -> sane tv ->
  heap s !! new = None -> 0 < new < UINTPTR_MAX -> 0 <= ts_ns when < 2 ^ 63 ->
  InvokeTimer_new cb when interval (num_created_ s) = Ok (t, created) ->
  exists s', AddTimer tid (fun f => f tid) tv new cb when interval s =
      Ok (mkTimerID new (sequence_ t), s') /\
    tinv F s' /\ rings late s' /\ heap s' = <[new := t]> (heap s) /\
    timers_ s' ≡ₚ (when, new) :: timers_ s /\ (new, sequence_ t) ∈ active_timers_ s'.
Proof.
  intros Hi Hr Htv Hnew Hrange Hw Et. unfold AddTimer. rewrite Et. cbn [mbind result_bind].
  assert (expiration_ t = when) as Hexp by (unfold InvokeTimer_new in Et; by inv_ok).
  assert (new ∉ F) as HnF.
  { intros Hin. destruct (ti_inflight _ _ Hi _ Hin) as [x Hx]. congruence. }
  set (s1 := set_created _ _).
  assert (tinv (new :: F) s1) as Hi1.
  { apply (tinv_ext _ (set_heap (<[new := t]> (heap s)) s)); try done.
    apply tinv_alloc; try done. by rewrite Hexp. }
  destruct (AddTimerInLoop_spec tid late tv new t F s1) as (l & l' & k & -> & Hi2 & Hr2 & Hl); try done.
  { simpl. by rewrite lookup_insert_eq. }
  cbn [mbind result_bind]. unfold timer_at. simpl. rewrite lookup_insert_eq. simpl.
  eexists; split; [done|]. split_and!; try done.
  - rewrite <- Hexp. exact Hl.
  - apply (ti_active _ _ Hi2). exists t. simpl. by rewrite lookup_insert_eq.
Qed.

(** Adding a timer in the loop's thread succeeds: the heap gains the new
    object and nothing else changes in it, the sets gain its entries, the
    identifier returned names it, and the timerfd is armed for a time no later
    than the first timer. *)
Theorem AddTimer_adds tid tv new cb when interval t created F s :
  tinv F s -> rings None s -> sane tv ->
  heap s !! new = None -> 0 < new < UINTPTR_MAX -> 0 <= ts_ns when < 2 ^ 63 ->
  InvokeTimer_new cb when interval (num_created_ s) = Ok (t, created) ->
  exists s', AddTimer tid (fun f => f tid) tv new cb when interval s =
      Ok (mkTimerID new (sequence_ t), s') /\
    tinv F s' /\ rings None s' /\ heap s' = <[new := t]> (heap s) /\
    timers_ s' ≡ₚ (when, new) :: timers_ s /\ (new, sequence_ t) ∈ active_timers_ s'.
Proof. apply AddTimer_spec. Qed.

(** [CancelInLoop] for any identifier. *)
Lemma CancelInLoop_spec tid late id F s :
  tinv F s -> rings late s ->
  exists s', CancelInLoop tid tid id s = Ok s' /\ tinv F s' /\ rings late s' /\
    (timer_ id, id_sequence_ id) ∉ active_timers_ s' /\
    heap s' = (if decide ((timer_ id, id_sequence_ id) ∈ active_timers_ s)
               then delete (timer_ id) (heap s) else heap s).
Proof.
  intros Hi Hr. destruct (decide (_ ∈ active_timers_ s)) as [Hin|Hin].
  - apply (ti_active _ _ Hi) in Hin as (t & Ht & Hseq & HpF). destruct id as [p q]. simpl in *. subst q.
    destruct (CancelInLoop_active tid late p t F s Hi Ht HpF Hr) as (l & l' & Hrun & Hi' & Hr' & _).
    eexists; split; [exact Hrun|]. split_and!; try done.
    rewrite (ti_active _ _ Hi'). simpl. intros (t' & Ht' & _). by rewrite lookup_delete_eq in Ht'.
  - rewrite (CancelInLoop_inactive tid id F s Hi).
    2:{ intros t Ht Hseq. destruct (decide (timer_ id ∈ F)) as [|Hn]; [done|]. exfalso.
        apply Hin, (ti_active _ _ Hi). eauto. }
    eexists; split; [done|]. destruct (is_calling_expired_timers_ s); split_and!; try done.
    by apply (tinv_ext F s).
Qed.

(** Cancelling never fails in the loop's thread.  If the identifier's address
    and sequence number are those of a timer of the queue, that timer and no other
    is deleted; otherwise no timer changes, whether the identifier is stale, was
    never valid, or its timer is being fired. *)
Theorem Cancel_cancels tid id F s :
  tinv F s -> rings None s ->
  exists s', Cancel tid (fun f => f tid) id s = Ok s' /\ tinv F s' /\ rings None s' /\
    (timer_ id, id_sequence_ id) ∉ active_timers_ s' /\
    heap s' = (if decide ((timer_ id, id_sequence_ id) ∈ active_timers_ s)
               then delete (timer_ id) (heap s) else heap s).
Proof. apply CancelInLoop_spec. Qed.

(** Callbacks return, and reach the queue only by its members. *)
Definition well_behaved (tid : thread_id) (call : Cb -> tworld -> result tworld) : Prop :=
  forall cb F s, tinv F s -> exists s', call cb s = Ok s' /\ star (tstep tid) s s'.

(** The callbacks of some timers. *)
Definition callbacks s (its : list Entry) : list Cb :=
  omap (fun it => callback_ <$> heap s !! it.2) its.

Lemma callbacks_run tid call F late s0 s its :
  well_behaved tid call -> running F late s0 s -> (forall p, p ∈ its.*2 -> p ∈ F) ->
  exists s', foldM (OnTimerTriggered call) its s = Ok s' /\
    foldM call (callbacks s0 its) s = Ok s' /\ star (tstep tid) s s' /\ running F late s0 s'.
Proof.
  intros Hcall. revert s. induction its as [|[w p] its IH]; intros s Hrun Hin.
  - exists s. split_and!; try done. constructor.
  - assert (p ∈ F) as Hp by (apply Hin; left).
    destruct (ti_inflight _ _ (run_inv _ _ _ _ Hrun) p Hp) as [t Ht].
    pose proof (run_heap _ _ _ _ Hrun p Hp) as Hh. rewrite Ht in Hh.
    assert (callbacks s0 ((w, p) :: its) = callback_ t :: callbacks s0 its) as ->.
    { unfold callbacks. simpl. by rewrite <- Hh. }
    cbn [foldM]. assert (OnTimerTriggered call (w, p) s = call (callback_ t) s) as ->.
    { unfold OnTimerTriggered, timer_at. simpl. by rewrite Ht. }
    destruct (Hcall (callback_ t) F s) as (s1 & Hc1 & Hst1); [apply Hrun|].
    destruct (IH s1) as (s' & H1 & H2 & Hst & Hr').
    { by eapply tsteps_running. }
    { intros q Hq. apply Hin. by right. }
    exists s'. rewrite Hc1. cbn [mbind result_bind]. split_and!; try done.
    clear -Hst1 Hst. induction Hst1; [done|]. econstructor; eauto.
Qed.

(** The round, step by step; the callbacks' own state is as the last one left it. *)
Lemma timer_HandleRead_spec tid call tv tv' F s :
  tinv F s -> well_behaved tid call -> sane tv -> sane tv' ->
  (forall p t, heap s !! p = Some t -> can_restart (Now tv) t) ->
  exists expired rest s1 s2 s',
    timers_ s = expired ++ rest /\
    (forall w p, (w, p) ∈ expired -> ts_ns w <= ts_ns (Now tv)) /\
    (forall w p, (w, p) ∈ rest -> ts_ns (Now tv) < ts_ns w) /\
    heap s1 = heap s /\ timers_ s1 = rest /\ user s1 = user s /\ canceling_timers_ s1 = [] /\
    foldM call (callbacks s expired) s1 = Ok s2 /\ star (tstep tid) s1 s2 /\
    HandleRead tid call tid tv tv' s = Ok s' /\
    tinv F s' /\ rings None s' /\ set_for_first tv' s' /\ is_calling_expired_timers_ s' = false /\
    (forall p t, p ∈ expired.*2 -> heap s !! p = Some t ->
       heap s' !! p = after_fire (Now tv) s2 p t) /\
    (forall p, p ∉ expired.*2 -> heap s' !! p = heap s2 !! p) /\ user s' = user s2.
Proof.
  intros Hi Hcall Htv Htv' Hres.
  assert (tinv F (readtimerfd s)) as Hi0 by by apply (tinv_ext F s).
  destruct (GetExpired_spec (Now tv) F (readtimerfd s) Hi0)
    as (expired & rest & l & Hget & Hi1 & Heq & Hnd & Hle & Hgt).
  set (s1 := set_canceling [] (set_calling true (set_active l (set_timers rest (readtimerfd s))))).
  assert (running (expired.*2 ++ F) (Some Timestamp_0) s1 s1) as Hrun1.
  { apply running_refl.
    - by eapply tinv_ext; [..|exact Hi1].
    - unfold rings. simpl. destruct rest as [|[w p] rest]; [done|]. left. exists Timestamp_0.
      split; [done|]. specialize (Hgt w p ltac:(left)). unfold sane in Htv. simpl. lia.
    - apply sorted_nil. }
  destruct (callbacks_run tid call _ _ s1 s1 expired Hcall Hrun1) as (s2 & Hf & Hf' & Hst & Hrun2).
  { intros p Hp. apply elem_of_app. by left. }
  set (s3 := set_calling false s2).
  assert (tinv (expired.*2 ++ F) s3) as Hi3 by (apply (tinv_ext _ s2); [done..|apply Hrun2]).
  assert (forall p, p ∈ expired.*2 -> heap s3 !! p = heap s !! p) as Hh3.
  { intros p Hp. rewrite (run_heap _ _ _ _ Hrun2); [done|]. apply elem_of_app. by left. }
  destruct (reset_loop_spec tid (Now tv) expired F s3) as (s4 & Hloop & Hi4 & Hr4 & Hin4 & Hout4); try done.
  { intros p Hp HpF. apply list_elem_of_fmap in Hp as ([w p'] & -> & Hp). simpl in HpF.
    assert ((w, p') ∈ timers_ (readtimerfd s)) as Hpt by (rewrite Heq; set_solver).
    apply (ti_timers _ _ Hi0) in Hpt as (? & _ & _ & ?). done. }
  { intros p t Hp Ht. rewrite Hh3 in Ht by done. by apply (Hres p). }
  { apply Hrun2. }
  destruct (Reset_end tv' F s4 Hi4 Htv' Hr4) as (k & Hend & Hi5 & Hr5 & Hf5).
  exists expired, rest, s1, s2, (set_timerfd k s4). split_and!; try done.
  - unfold HandleRead. rewrite AssertInLoopThread_refl. cbn [mbind result_bind]. rewrite Hget.
    cbn [mbind result_bind]. fold s1. rewrite Hf. cbn [mbind result_bind]. fold s3.
    unfold Reset. rewrite Hloop. cbn [mbind result_bind]. exact Hend.
  - simpl. by rewrite (reset_loop_calling _ _ _ _ _ Hloop).
  - intros p t Hp Ht. simpl. rewrite (Hin4 p t Hp); [done|]. by rewrite Hh3.
  - exact (reset_loop_user _ _ _ _ _ Hloop).
Qed.

(** [C10] A timer event.  The queue is cut at the current time: every timer due is
    fired and no other; the callbacks run once each, in order of expiration, and
    each one sees what the earlier ones did.  Afterwards a fired timer that
    repeats and was not cancelled meanwhile is armed for now plus its interval, any
    other fired timer is deleted; no other timer is touched by [HandleRead]
    itself; the two sets agree with the heap.  The timerfd has been set, by the clock
    [tv'] that [Reset] read, to ring when the first timer expires, or after the least
    delay of 100 microseconds if that is later (if its expiration is not valid, it is
    armed already).  None of the assertions fails. *)
Theorem HandleRead_fires tid call tv tv' F s :
  tinv F s -> well_behaved tid call -> sane tv -> sane tv' ->
  (forall p t, heap s !! p = Some t -> can_restart (Now tv) t) ->
  exists expired rest s1 s2 s',
    timers_ s = expired ++ rest /\
    (forall w p, (w, p) ∈ expired -> ts_ns w <= ts_ns (Now tv)) /\
    (forall w p, (w, p) ∈ rest -> ts_ns (Now tv) < ts_ns w) /\
    heap s1 = heap s /\ timers_ s1 = rest /\ user s1 = user s /\ canceling_timers_ s1 = [] /\
    foldM call (callbacks s expired) s1 = Ok s2 /\ star (tstep tid) s1 s2 /\
    HandleRead tid call tid tv tv' s = Ok s' /\
    tinv F s' /\ rings None s' /\ set_for_first tv' s' /\ is_calling_expired_timers_ s' = false /\
    (forall p t, p ∈ expired.*2 -> heap s !! p = Some t ->
       heap s' !! p = after_fire (Now tv) s2 p t) /\
    (forall p, p ∉ expired.*2 -> heap s' !! p = heap s2 !! p).
Proof.
  intros Hi Hcall Htv Htv' Hres.
  destruct (timer_HandleRead_spec tid call tv tv' F s Hi Hcall Htv Htv' Hres) as (expired & rest & s1 & s2 & s' & Hx).
  exists expired, rest, s1, s2, s'. naive_solver.
Qed.

(** A timer cancelled while its own round of callbacks runs, by whatever
    callback, is not armed again, whatever the later callbacks do. *)
Theorem cancelled_not_rearmed tid p t F late s0 s s1 s2 :
  running F late s0 s -> p ∈ F -> heap s !! p = Some t -> is_calling_expired_timers_ s = true ->
  Cancel tid (fun f => f tid) (mkTimerID p (sequence_ t)) s = Ok s1 -> star (tstep tid) s1 s2 ->
  rearms s2 p t = false /\ forall now, after_fire now s2 p t = None.
Proof.
  intros Hrun Hp Ht Hcalling Hcancel Hst.
  enough (rearms s2 p t = false) as Hno by (split; [done|]; intros; unfold after_fire; by rewrite Hno).
  unfold rearms. apply andb_false_iff. right. apply negb_false_iff.
  unfold Cancel in Hcancel. pose proof (run_inv _ _ _ _ Hrun) as Hi.
  rewrite (CancelInLoop_inactive tid _ F s Hi), Hcalling in Hcancel by (by intros; simpl).
  injection Hcancel as <-. simpl in Hst.
  destruct (set_insert_spec (p, sequence_ t) (canceling_timers_ s)) as [Hs Hin]; [apply Hrun|].
  set (s1 := set_canceling _ s) in *.
  assert (running F late s1 s1) as Hrun1.
  { apply running_refl; [by apply (tinv_ext F s)|apply Hrun|done]. }
  pose proof (tsteps_running _ _ _ _ _ _ Hrun1 Hst) as Hrun2.
  apply set_find_spec; [apply Hrun2|]. apply (run_canceling _ _ _ _ Hrun2). apply Hin. by left.
Qed.

(** Every timer is due after the epoch. *)
Lemma rings_after_epoch F s : tinv F s -> rings (Some (mkTimestamp (-1))) s.
Proof.
  intros Hi. unfold rings. destruct (timers_ s) as [|[w p] l] eqn:El; [done|]. left. eexists; split; [done|].
  assert ((w, p) ∈ timers_ s) as Hin by (rewrite El; left).
  apply (ti_timers _ _ Hi) in Hin as (t & Ht & <- & _). apply (ti_range _ _ Hi) in Ht. simpl. lia.
Qed.
End Props.

(** ** A timerfd *)

(** The time last set; each read returns eight bytes. *)
#[export] Instance sim_timerfd : TimerfdKernel (option (timeval * timespec)) := {|
  timerfd_settime := fun at_ ts _ => (0, Some (at_, ts));
  timerfd_read := fun _ => (8, None);
  alarm := fun k => k
|}.

#[export] Instance sim_timerfd_laws : TimerfdLaws (option (timeval * timespec)).
Proof. by split. Qed.

(** Callbacks that count into the user state, and one that cancels. *)
Inductive demo_cb := Count (n : Z) | CancelTimer (id : InvokeTimerID).

Definition demo_call (tid : thread_id) (cb : demo_cb) (s : tworld demo_cb (list Z) (option (timeval * timespec))) :
    result (tworld demo_cb (list Z) (option (timeval * timespec))) :=
  match cb with
  | Count n => Ok (set_user (user s ++ [n]) s)
  | CancelTimer id => Cancel tid (fun f => f tid) id s
  end.

Lemma demo_call_ok tid : well_behaved tid (demo_call tid).
Proof.
  intros [n|id] F s Hi.
  - eexists; split; [done|]. eapply star_step; [by apply (step_user _ (user s ++ [n]) (timerfd s))|constructor].
  - destruct (CancelInLoop_spec tid _ id F s Hi (rings_after_epoch F s Hi)) as (s' & Hs' & _).
    exists s'. split; [done|]. eapply star_step; [by eapply step_cancel|constructor].
Qed.

(** ** Witnesses *)

Definition demo_empty : tworld demo_cb (list Z) (option (timeval * timespec)) :=
  mkTWorld ∅ 0 [] [] false [] None [].

Lemma demo_empty_inv : tinv [] demo_empty.
Proof.
  split; simpl; try apply sorted_nil.
  - intros w p. rewrite lookup_empty. split; [intros Hn; by apply elem_of_nil in Hn|naive_solver].
  - intros p q. rewrite lookup_empty. split; [intros Hn; by apply elem_of_nil in Hn|naive_solver].
  - intros p t Hp. by rewrite lookup_empty in Hp.
  - intros p Hn. by apply elem_of_nil in Hn.
Qed.

Lemma AddTimer_adds_witness :
  exists s', AddTimer 1 (fun f => f 1) (mkTimeval 5 0) 1000 (Count 7) (mkTimestamp 6000000000)
      (double_of_Z 2) demo_empty = Ok (mkTimerID 1000 1, s') /\
    tinv [] s' /\ rings None s' /\
    heap s' = <[1000 := mkTimer (mkTimestamp 6000000000) (Count 7) (mkDuration 2000000000) true 1]>
      (heap demo_empty) /\
    timers_ s' ≡ₚ [(mkTimestamp 6000000000, 1000)] /\ (1000, 1) ∈ active_timers_ s'.
Proof.
  apply (AddTimer_adds 1 (mkTimeval 5 0) 1000 (Count 7) (mkTimestamp 6000000000) (double_of_Z 2)
    (mkTimer (mkTimestamp 6000000000) (Count 7) (mkDuration 2000000000) true 1) 1 [] demo_empty).
  - apply demo_empty_inv.
  - exact I.
  - vm_compute. reflexivity.
  - reflexivity.
  - unfold UINTPTR_MAX. lia.
  - simpl. lia.
  - vm_compute. reflexivity.
Defined.

(** A repeating timer at 1000 due at second 6, and one at 2000 that cancels it, due a
    nanosecond earlier. *)
Definition demo_rep : InvokeTimer demo_cb :=
  mkTimer (mkTimestamp 6000000000) (Count 7) (mkDuration 2000000000) true 1.
Definition demo_one : InvokeTimer demo_cb :=
  mkTimer (mkTimestamp 5999999999) (CancelTimer (mkTimerID 1000 1)) Duration_0 false 2.
Definition demo_two : tworld demo_cb (list Z) (option (timeval * timespec)) :=
  mkTWorld {[1000 := demo_rep; 2000 := demo_one]} 2
    [(mkTimestamp 5999999999, 2000); (mkTimestamp 6000000000, 1000)] [(1000, 1); (2000, 2)]
    false [] (Some (mkTimeval 5 0, mkTimespec 0 999999999)) [].

Lemma demo_two_heap p t :
  heap demo_two !! p = Some t <-> (p = 1000 /\ t = demo_rep) \/ (p = 2000 /\ t = demo_one).
Proof.
  simpl. destruct (decide (p = 1000)) as [->|H1].
  - rewrite lookup_insert_eq. naive_solver.
  - rewrite lookup_insert_ne by done. rewrite lookup_singleton_Some. naive_solver.
Qed.

Lemma demo_two_inv : tinv [] demo_two.
Proof.
  split.
  - apply sorted_cons. split; [apply sorted_cons; split; [apply sorted_nil|]|].
    + intros ? Hn. by apply elem_of_nil in Hn.
    + intros y [->|Hn]%elem_of_cons; [done|by apply elem_of_nil in Hn].
  - apply sorted_cons. split; [apply sorted_cons; split; [apply sorted_nil|]|].
    + intros ? Hn. by apply elem_of_nil in Hn.
    + intros y [->|Hn]%elem_of_cons; [done|by apply elem_of_nil in Hn].
  - intros w p. setoid_rewrite demo_two_heap. cbn [timers_ demo_two]. rewrite !elem_of_cons.
    split; [intros [?|[?|Hn]]; [| |by apply elem_of_nil in Hn]; simplify_eq|]; set_solver.
  - intros p q. setoid_rewrite demo_two_heap. cbn [active_timers_ demo_two]. rewrite !elem_of_cons.
    split; [intros [?|[?|Hn]]; [| |by apply elem_of_nil in Hn]; simplify_eq|]; set_solver.
  - intros p t [[-> ->]|[-> ->]]%demo_two_heap; unfold UINTPTR_MAX; simpl; lia.
  - intros p Hn. by apply elem_of_nil in Hn.
Qed.

Lemma demo_two_rings : rings None demo_two.
Proof. right. exists (mkTimeval 5 0), (mkTimespec 0 999999999). by vm_compute. Qed.

Lemma Cancel_cancels_witness :
  exists s', Cancel 1 (fun f => f 1) (mkTimerID 1000 1) demo_two = Ok s' /\ tinv [] s' /\ rings None s' /\
    (1000, 1) ∉ active_timers_ s' /\
    heap s' = (if decide ((1000, 1) ∈ active_timers_ demo_two)
               then delete 1000 (heap demo_two) else heap demo_two).
Proof.
  apply (Cancel_cancels 1 (mkTimerID 1000 1) [] demo_two).
  - apply demo_two_inv.
  - apply demo_two_rings.
Defined.

Lemma HandleRead_fires_witness :
  HandleRead 1 (demo_call 1) 1 (mkTimeval 6 0) (mkTimeval 6 0) demo_two =
    Ok (mkTWorld ∅ 2 [] [] false [(1000, 1)] None [7]) /\
  exists expired rest s1 s2 s',
      timers_ demo_two = expired ++ rest /\
      (forall w p, (w, p) ∈ expired -> ts_ns w <= ts_ns (Now (mkTimeval 6 0))) /\
      (forall w p, (w, p) ∈ rest -> ts_ns (Now (mkTimeval 6 0)) < ts_ns w) /\
      heap s1 = heap demo_two /\ timers_ s1 = rest /\ user s1 = user demo_two /\ canceling_timers_ s1 = [] /\
      foldM (demo_call 1) (callbacks demo_two expired) s1 = Ok s2 /\ star (tstep 1) s1 s2 /\
      HandleRead 1 (demo_call 1) 1 (mkTimeval 6 0) (mkTimeval 6 0) demo_two = Ok s' /\
      tinv [] s' /\ rings None s' /\ set_for_first (mkTimeval 6 0) s' /\ is_calling_expired_timers_ s' = false /\
      (forall p t, p ∈ expired.*2 -> heap demo_two !! p = Some t ->
         heap s' !! p = after_fire (Now (mkTimeval 6 0)) s2 p t) /\
      (forall p, p ∉ expired.*2 -> heap s' !! p = heap s2 !! p).
Proof.
  split; [vm_compute; reflexivity|].
  apply (HandleRead_fires 1 (demo_call 1) (mkTimeval 6 0) (mkTimeval 6 0) [] demo_two).
  - apply demo_two_inv.
  - apply demo_call_ok.
  - vm_compute. reflexivity.
  - vm_compute. reflexivity.
  - intros p t [[-> ->]|[-> ->]]%demo_two_heap; unfold can_restart; vm_compute; intuition congruence.
Defined.

(** While 1000 and 2000 are being fired. *)
Definition demo_firing : tworld demo_cb (list Z) (option (timeval * timespec)) :=
  mkTWorld {[1000 := demo_rep; 2000 := demo_one]} 2 [] [] true [] None [].

Lemma demo_firing_running : running [2000; 1000] None demo_firing demo_firing.
Proof.
  apply running_refl; [|exact I|apply sorted_nil]. split; try apply sorted_nil.
  - intros w p. setoid_rewrite demo_two_heap. simpl.
    split; [intros Hn; by apply elem_of_nil in Hn|]. intros (t & [[-> _]|[-> _]] & _ & Hn); set_solver.
  - intros p q. setoid_rewrite demo_two_heap. simpl.
    split; [intros Hn; by apply elem_of_nil in Hn|]. intros (t & [[-> _]|[-> _]] & _ & Hn); set_solver.
  - intros p t [[-> ->]|[-> ->]]%demo_two_heap; unfold UINTPTR_MAX; simpl; lia.
  - intros p [->|[->|Hn]%elem_of_cons]%elem_of_cons; [..|by apply elem_of_nil in Hn]; eexists; reflexivity.
Qed.

Lemma cancelled_not_rearmed_witness :
  exists s1, Cancel 1 (fun f => f 1) (mkTimerID 1000 1) demo_firing = Ok s1 /\
    rearms s1 1000 demo_rep = false /\ forall now, after_fire now s1 1000 demo_rep = None.
Proof.
  eexists. split; [vm_compute; reflexivity|].
  eapply (cancelled_not_rearmed 1 1000 demo_rep [2000; 1000] None demo_firing demo_firing).
  - apply demo_firing_running.
  - right. left.
  - reflexivity.
  - reflexivity.
  - vm_compute. reflexivity.
  - apply star_refl.
Defined.

(** ** The race in [AddTimer]

    Called by another thread, [AddTimer] leaves the timer to the loop's thread and
    then reads its sequence number. *)

(** The loop's thread adds the timer and, its time having come, fires it before
    [RunInLoop] returns to the caller. *)
Definition queue_then_fire (tv : timeval) (f : thread_id -> tworld demo_cb (list Z) (option (timeval * timespec)) ->
    result (tworld demo_cb (list Z) (option (timeval * timespec)))) (s : tworld demo_cb (list Z) (option (timeval * timespec))) :=
  s ← f 1 s; HandleRead 1 (demo_call 1) 1 tv tv s.

(** Under that schedule the sequence number is read from a deleted object. *)
Theorem AddTimer_reads_deleted_timer :
  (exists s', queue_then_fire (mkTimeval 6 0) (fun cur => AddTimerInLoop 1 cur (mkTimeval 5 0) 1000)
     (set_heap {[1000 := mkTimer (mkTimestamp 6000000000) (Count 7) Duration_0 false 1]} demo_empty) =
     Ok s' /\ user s' = [7]) /\
  AddTimer 1 (queue_then_fire (mkTimeval 6 0)) (mkTimeval 5 0) 1000 (Count 7)
    (mkTimestamp 6000000000) (double_of_Z 0) demo_empty = Err Undef.
Proof. split; [eexists; split; vm_compute; reflexivity|]. vm_compute. reflexivity. Qed.
