(* ===== verification/EventLoop.v ===== *)
(** * EventLoop (evk/event_loop.h, evk/event_loop.cc)

    The state of one loop, its members, and [Run].  [F] is the type of functors,
    [Cb] of channel callbacks and [U] of what they own beside the loop; [exec] and
    [call] run them.  The eventfd behind [wakeup_fd_] is part of the kernel. *)

From S2P Require Import Prelude LoopThread Duration Timestamp Channel EPoller ServerStatus LoopChannels.
From S2P Require Import TimerQueue EventFd.
#[local] Open Scope Z_scope.

Definition kPollTimeMs : Z := 10000.

Section EventLoop.
Context {F Cb U K : Type} `{EpollKernel K, EventfdKernel K}.

(** [threads]: the thread-local [loop_in_this_thread_] of every thread;
    [timer_channel_]: the channel of [timer_queue_]. *)
Record lworld := mkLWorld {
  tid_ : thread_id;
  status_ : Status;
  is_calling_pending_functors_ : bool;
  pending_functors_ : list F;
  wakeup_channel_ : ptr;
  timer_channel_ : ptr;
  active_channels_ : list ptr;
  threads : gmap thread_id ptr;
  io : EPoller.world Cb K;
  user : U
}.

Definition set_status s w := mkLWorld (tid_ w) s (is_calling_pending_functors_ w)
  (pending_functors_ w) (wakeup_channel_ w) (timer_channel_ w) (active_channels_ w) (threads w)
  (io w) (user w).
Definition set_calling b w := mkLWorld (tid_ w) (status_ w) b
  (pending_functors_ w) (wakeup_channel_ w) (timer_channel_ w) (active_channels_ w) (threads w)
  (io w) (user w).
Definition set_pending l w := mkLWorld (tid_ w) (status_ w) (is_calling_pending_functors_ w)
  l (wakeup_channel_ w) (timer_channel_ w) (active_channels_ w) (threads w) (io w) (user w).
Definition set_active l w := mkLWorld (tid_ w) (status_ w) (is_calling_pending_functors_ w)
  (pending_functors_ w) (wakeup_channel_ w) (timer_channel_ w) l (threads w) (io w) (user w).
Definition set_threads m w := mkLWorld (tid_ w) (status_ w) (is_calling_pending_functors_ w)
  (pending_functors_ w) (wakeup_channel_ w) (timer_channel_ w) (active_channels_ w) m (io w) (user w).
Definition set_io i w := mkLWorld (tid_ w) (status_ w) (is_calling_pending_functors_ w)
  (pending_functors_ w) (wakeup_channel_ w) (timer_channel_ w) (active_channels_ w) (threads w)
  i (user w).
Definition set_user u w := mkLWorld (tid_ w) (status_ w) (is_calling_pending_functors_ w)
  (pending_functors_ w) (wakeup_channel_ w) (timer_channel_ w) (active_channels_ w) (threads w)
  (io w) u.

(** A member that acts on channels, poller and kernel. *)
Definition on_io (f : EPoller.world Cb K -> result (EPoller.world Cb K)) (w : lworld) : result lworld :=
  i ← f (io w); Ok (set_io i w).

Definition GetEventLoopOfCurrentThread (cur : thread_id) (w : lworld) : option ptr := threads w !! cur.

(** ** Waking up *)

(** A short write is logged. *)
Definition Wakeup (w : lworld) : lworld :=
  let '(n, k) := efd_write 1 (kernel (io w)) in set_io (set_kernel k (io w)) w.

Definition HandleRead (w : lworld) : lworld :=
  let '(n, k) := efd_read (kernel (io w)) in set_io (set_kernel k (io w)) w.

Definition Stop (cur : thread_id) (w : lworld) : lworld :=
  let w := set_status kStopping w in
  if negb (IsInLoopThread (tid_ w) cur) then Wakeup w else w.

(** ** Functors *)

(** The critical section of [QueueInLoop]. *)
Definition push_functor (cb : F) (w : lworld) : lworld := set_pending (pending_functors_ w ++ [cb]) w.

(** Its test: whether to wake the loop. *)
Definition must_wake (cur : thread_id) (w : lworld) : bool :=
  negb (IsInLoopThread (tid_ w) cur) || is_calling_pending_functors_ w.

Definition QueueInLoop (cur : thread_id) (cb : F) (w : lworld) : lworld :=
  let w := push_functor cb w in
  if must_wake cur w then Wakeup w else w.

(** The critical section of [DoPendingFunctors]: the functors taken. *)
Definition swap_functors (w : lworld) : list F * lworld := (pending_functors_ w, set_pending [] w).

Section Exec.
Context (exec : F -> lworld -> result lworld) (call : Cb -> lworld -> result lworld).

Definition RunInLoop (cur : thread_id) (cb : F) (w : lworld) : result lworld :=
  if IsInLoopThread (tid_ w) cur then exec cb w else Ok (QueueInLoop cur cb w).

Definition DoPendingFunctors (w : lworld) : result lworld :=
  let w := set_calling true w in
  let '(functors, w) := swap_functors w in
  w ← foldM exec functors w;
  Ok (set_calling false w).

(** ** Run *)

Definition get_channel (p : ptr) (w : lworld) : result (Channel Cb) := channel_at (io w) p.
Definition put_channel (p : ptr) (c : Channel Cb) (w : lworld) : lworld :=
  set_io (EPoller.set_channel p c (io w)) w.

(** [channel->HandleEvent()]. *)
Definition handle_channel (p : ptr) (w : lworld) : result lworld :=
  Channel.HandleEvent (get_channel p) (put_channel p) call w.

(** [poller_->poll(kPollTimeMs, &active_channels_)]. *)
Definition poll_active (tv : timeval) (w : lworld) : result lworld :=
  let w := set_active [] w in
  '(i, active, _) ← EPoller.poll tv kPollTimeMs (active_channels_ w) (io w);
  Ok (set_active active (set_io i w)).

(** One turn of the loop.  [env]: what other threads do before the wait returns. *)
Definition turn (env : lworld -> lworld) (tv : timeval) (w : lworld) : result lworld :=
  w ← poll_active tv (env w);
  w ← foldM handle_channel (active_channels_ w) w;
  DoPendingFunctors w.

(** The [while] loop: [None] when the fuel ends first.  The schedule [sched]
    gives each turn what other threads do in it and the clock. *)
Fixpoint Run_loop (fuel : nat) (sched : nat -> (lworld -> lworld) * timeval) (i : nat) (w : lworld) :
    option (result lworld) :=
  if IsRunning (status_ w) then
    match fuel with
    | O => None
    | S fuel =>
        match turn (sched i).1 (sched i).2 w with
        | Ok w => Run_loop fuel sched (S i) w
        | Err f => Some (Err f)
        end
    end
  else Some (Ok (set_status kStopped w)).

Definition Run (fuel : nat) (sched : nat -> (lworld -> lworld) * timeval) (cur : thread_id)
    (w : lworld) : option (result lworld) :=
  match (_ ← assert (negb (IsRunning (status_ w))); AssertInLoopThread (tid_ w) cur) with
  | Ok _ => Run_loop fuel sched 0 (set_status kRunning (set_status kStarting w))
  | Err f => Some (Err f)
  end.
End Exec.

(** ** Construction and destruction *)

(** What [eventfd] and [timerfd_create] returned. *)
Definition create_eventfd (evfd : Z) : result Z := if evfd <? 0 then Err Fatal else Ok evfd.
Definition createtimerfd (timerfd : Z) : result Z := if timerfd <? 0 then Err Fatal else Ok timerfd.

(** The constructor of the timer queue: its channel, at [tp], watched for reading. *)
Definition TimerQueue_new (this : ptr) (cur : thread_id) (timerfd : Z) (tp : ptr) (on_timer : Cb)
    (i : EPoller.world Cb K) : result (EPoller.world Cb K) :=
  timerfd_ ← createtimerfd timerfd;
  let c := SetReadCallback on_timer (Channel_new this timerfd_) in
  Channel_change this cur cur EnableRead tp (EPoller.set_channel tp c i).

(** The constructor, called by thread [cur]: the descriptors that [eventfd],
    [timerfd_create] and [epoll_create] returned, the addresses of the two
    channels, and their read callbacks. *)
Definition EventLoop_new (this : ptr) (cur : thread_id) (evfd timerfd epollfd : Z)
    (wp tp : ptr) (on_wakeup on_timer : Cb) (chans : gmap ptr (Channel Cb)) (k : K)
    (locals : gmap thread_id ptr) (u : U) : result lworld :=
  wakeup_fd_ ← create_eventfd evfd;
  let chans := <[wp := Channel_new this wakeup_fd_]> chans in
  poller ← EPoller_new cur epollfd;
  i ← TimerQueue_new this cur timerfd tp on_timer (mkWorld poller chans k);
  match locals !! cur with
  | Some _ => Err Fatal
  | None =>
      c ← channel_at i wp;
      i ← Channel_change this cur cur EnableRead wp (EPoller.set_channel wp (SetReadCallback on_wakeup c) i);
      Ok (mkLWorld cur kInitialized false [] wp tp [] (<[cur := this]> locals) i u)
  end.

(** Destroying a channel object. *)
Definition destroy_channel (p : ptr) (w : lworld) : result lworld :=
  c ← get_channel p w;
  _ ← Channel_dtor c;
  Ok (set_io (mkWorld (poller (io w)) (delete p (channels (io w))) (kernel (io w))) w).

(** The timer queue's destructor disables and removes its channel, then the channel
    is destroyed; it deletes the timers by [delete_timers] of TimerQueue.v. *)
Definition TimerQueue_dtor (this : ptr) (cur : thread_id) (w : lworld) : result lworld :=
  w ← on_io (Channel_change this (tid_ w) cur DisableAll (timer_channel_ w)) w;
  w ← on_io (Channel_Remove this (tid_ w) cur (timer_channel_ w)) w;
  destroy_channel (timer_channel_ w) w.

(** The destructor's body, then the members in reverse order: the timer queue and,
    last, the wakeup channel. *)
Definition EventLoop_dtor (this : ptr) (cur : thread_id) (w : lworld) : result lworld :=
  _ ← assert (IsStopped (status_ w));
  w ← on_io (Channel_change this (tid_ w) cur DisableAll (wakeup_channel_ w)) w;
  let w := set_threads (delete cur (threads w)) w in
  w ← TimerQueue_dtor this cur w;
  destroy_channel (wakeup_channel_ w) w.
End EventLoop.
Arguments lworld : clear implicits.

(** ** The timer members, given [timer_queue_]'s *)

Section Timers.
Context {TC TS : Type} (AddTimer : TC -> Timestamp -> double -> TS -> result (InvokeTimerID * TS))
  (Cancel : InvokeTimerID -> TS -> result TS).

Definition RunAt (time : Timestamp) (cb : TC) (s : TS) : result (InvokeTimerID * TS) :=
  AddTimer cb time (double_of_Z 0) s.

(** [tv]: the clock. *)
Definition RunAfter (tv : timeval) (delay_s : double) (cb : TC) (s : TS) : result (InvokeTimerID * TS) :=
  d ← Duration_double delay_s;
  time ← Timestamp.plus (Now tv) d;
  RunAt time cb s.

Definition RunEvery (tv : timeval) (interval_s : double) (cb : TC) (s : TS) :
    result (InvokeTimerID * TS) :=
  d ← Duration_double interval_s;
  time ← Timestamp.plus (Now tv) d;
  AddTimer cb time interval_s s.

Definition CancelTimer (timerid : InvokeTimerID) (s : TS) : result TS := Cancel timerid s.
End Timers.
