(* ===== verification/EventLoopProps.v ===== *)
(** * The life of an event loop: construction, [Run] until [Stop], destruction *)

From S2P Require Import Prelude LoopThread Duration Timestamp Channel EPoller EPollerFacts EventFd.
From S2P Require Import SimKernel ServerStatus LoopChannels TimerQueue EventLoop.
#[local] Open Scope Z_scope.

(** ** Construction *)

Section New.
Context {F Cb U K : Type} `{EpollLaws K, EventfdKernel K}.

(** The constructor.  In a thread without a loop, on fresh descriptors, it
    succeeds: the thread's loop is this one, nothing is pending, the poller's
    invariant holds, and the kernel watches the eventfd and the timerfd, and
    nothing else, for reading.  In a thread that has a loop it ends the process. *)
Theorem EventLoop_new_inv this cur evfd timerfd epollfd wp tp (on_wakeup on_timer : Cb) (k : K) locals (u : U) :
  0 <= evfd -> 0 <= timerfd -> 0 <= epollfd -> evfd <> timerfd -> wp <> tp ->
  interest k = ∅ -> (forall k', pollable k' evfd /\ pollable k' timerfd) ->
  (locals !! cur = None ->
   exists w : lworld F Cb U K,
    EventLoop_new this cur evfd timerfd epollfd wp tp on_wakeup on_timer ∅ k locals u = Ok w /\
    status_ w = kInitialized /\ pending_functors_ w = [] /\ threads w = <[cur := this]> locals /\
    inv_but None (io w) /\
    interest (kernel (io w)) =
      <[evfd := mkEvent kReadable wp]> {[timerfd := mkEvent kReadable tp]}) /\
  (is_Some (locals !! cur) ->
    EventLoop_new (F := F) this cur evfd timerfd epollfd wp tp on_wakeup on_timer ∅ k locals u = Err Fatal).
Proof.
  intros He Ht Hp Hne Hptr Hk Hpoll.
  set (c1 := SetReadCallback on_timer (Channel_new this timerfd)).
  set (w0 := mkWorld (mkEPoller cur kInitEventListSize ∅)
               (<[tp := c1]> (<[wp := Channel_new this evfd]> ∅)) k : EPoller.world Cb K).
  assert (inv_but None w0) as Hi0.
  { split; simpl.
    - intros fd p Hx. by rewrite lookup_empty in Hx.
    - intros fd [x Hx]. by rewrite Hk, lookup_empty in Hx.
    - intros p c. destruct (decide (p = tp)) as [->|].
      + rewrite lookup_insert_eq. intros [= <-]. by left.
      + rewrite lookup_insert_ne by done. intros [<- <-]%lookup_singleton_Some. by left.
    - done. }
  destruct (Channel_change_spec this cur EnableRead tp c1 w0 Hi0) as (w1 & Hr1 & Hi1 & Hc1 & Hk1 & Hm1 & Ho1).
  { split_and!; try done; simpl; [by rewrite lookup_insert_eq|]. intros _. split; [done|apply Hpoll]. }
  simpl in Hc1, Hk1, Hm1. rewrite insert_insert_eq in Hc1.
  assert (EventLoop_new (F := F) this cur evfd timerfd epollfd wp tp on_wakeup on_timer ∅ k locals u =
    match locals !! cur with
    | Some _ => Err Fatal
    | None =>
      c ← channel_at w1 wp;
      i ← Channel_change this cur cur EnableRead wp (EPoller.set_channel wp (SetReadCallback on_wakeup c) w1);
      Ok (mkLWorld cur kInitialized false [] wp tp [] (<[cur := this]> locals) i u)
    end) as ->.
  { unfold EventLoop_new, create_eventfd, TimerQueue_new, createtimerfd, EPoller_new.
    replace (evfd <? 0) with false by blia. replace (timerfd <? 0) with false by blia.
    replace (epollfd <? 0) with false by blia. cbn [mbind result_bind]. fold c1.
    change (EPoller.set_channel tp c1 _) with w0. by rewrite Hr1. }
  split; [|by intros [x ->]].
  intros ->. unfold channel_at. rewrite Hc1. rewrite lookup_insert_ne, lookup_insert_eq by done.
  cbn [deref mbind result_bind]. set (c2 := SetReadCallback on_wakeup _). set (w2 := EPoller.set_channel wp c2 w1).
  assert (inv_but None w2) as Hi2.
  { apply (inv_new_channel wp c2 w1 Hi1); [|done]. intros c.
    rewrite Hc1, lookup_insert_ne, lookup_insert_eq by done. by intros [= <-]. }
  destruct (Channel_change_spec this cur EnableRead wp c2 w2 Hi2) as (w3 & Hr3 & Hi3 & Hc3 & Hk3 & Hm3 & _).
  { split_and!; try done; simpl.
    - by rewrite lookup_insert_eq.
    - intros _. split; [|apply Hpoll]. rewrite Hm1. by rewrite lookup_insert_ne by done. }
  rewrite Hr3. eexists; split; [done|]. split_and!; try done. simpl.
  rewrite Hk3. simpl. rewrite Hk1, Hk. by rewrite insert_empty.
Qed.
End New.

(** ** Destruction *)

Section Dtor.
Context {F Cb U K : Type} `{EpollKernel K, EventfdKernel K}.
Implicit Types (i : EPoller.world Cb K) (w : lworld F Cb U K).

(** Whether channel [p] exists and is marked as added to its loop. *)
Definition added_at p i : option bool := added_to_loop_ <$> channels i !! p.

Lemma added_set_channel p q c i :
  added_at p (EPoller.set_channel q c i) =
    if decide (p = q) then Some (added_to_loop_ c) else added_at p i.
Proof.
  unfold added_at. simpl. destruct (decide (p = q)) as [->|].
  - by rewrite lookup_insert_eq.
  - by rewrite lookup_insert_ne.
Qed.

Lemma Update_added op p q i i' : Update op p i = Ok i' -> added_at q i' = added_at q i.
Proof.
  unfold Update. intros Hr. inv_ok. destruct (epoll_ctl _ _ _ _) as [ret k].
  destruct (ret <? 0); [destruct op|]; inv_ok; done.
Qed.

Lemma channel_added p i c : channel_at i p = Ok c -> added_at p i = Some (added_to_loop_ c).
Proof. unfold channel_at, added_at. intros Hc%deref_ok. by rewrite Hc. Qed.

Lemma UpdateChannel_added cur p q i i' :
  EPoller.UpdateChannel cur p i = Ok i' -> added_at q i' = added_at q i.
Proof.
  unfold EPoller.UpdateChannel. intros Hr. inv_ok.
  destruct ((index_ _ =? kNew) || _); [|by eapply Update_added].
  inv_ok. apply (Update_added _ _ q) in Hr. rewrite Hr, added_set_channel.
  apply channel_added in E0. destruct (index_ x0 =? kNew); inv_ok;
    destruct (decide (q = p)) as [->|]; done.
Qed.

Lemma RemoveChannel_added cur p q i i' :
  EPoller.RemoveChannel cur p i = Ok i' -> added_at q i' = added_at q i.
Proof.
  unfold EPoller.RemoveChannel. intros Hr. inv_ok. rewrite added_set_channel.
  assert (added_at q x6 = added_at q i) as Hq.
  { destruct (index_ x0 =? kAdded); inv_ok; [|done]. by rewrite (Update_added _ _ q _ _ E6). }
  destruct (decide (q = p)) as [->|]; [|done].
  apply channel_added in E7. cbn [added_to_loop_ SetIndex]. congruence.
Qed.

Lemma Channel_change_added this tid cur ch p q i i' :
  Channel_change this tid cur ch p i = Ok i' ->
  added_at q i' = if decide (q = p) then Some true else added_at q i.
Proof.
  unfold Channel_change, Channel_Update, Loop_UpdateChannel. intros Hr. inv_ok.
  rewrite (UpdateChannel_added _ _ q _ _ Hr), !added_set_channel. by destruct (decide (q = p)).
Qed.

Lemma Channel_Remove_added this tid cur p q i i' :
  Channel_Remove this tid cur p i = Ok i' -> q <> p -> added_at q i' = added_at q i.
Proof.
  unfold Channel_Remove, Loop_RemoveChannel. intros Hr Hq. inv_ok.
  rewrite (RemoveChannel_added _ _ q _ _ Hr), !added_set_channel. by destruct (decide (q = p)).
Qed.

Lemma EventLoop_dtor_fails this cur w :
  timer_channel_ w <> wakeup_channel_ w -> is_ok (EventLoop_dtor this cur w) = false.
Proof.
  intros Hne. destruct (EventLoop_dtor this cur w) as [w'|] eqn:Hr; [exfalso|done].
  unfold EventLoop_dtor, TimerQueue_dtor, on_io, destroy_channel in Hr. inv_ok. simpl in *.
  repeat match goal with
  | Hc : Channel_change _ _ _ _ _ _ = Ok _ |- _ =>
      apply (Channel_change_added _ _ _ _ _ (wakeup_channel_ w)) in Hc
  | Hc : Channel_Remove _ _ _ _ _ = Ok _ |- _ =>
      apply (Channel_Remove_added _ _ _ _ (wakeup_channel_ w)) in Hc; [|congruence]
  | Hc : get_channel (wakeup_channel_ w) _ = Ok _ |- _ =>
      apply channel_added in Hc; unfold added_at in Hc; simpl in Hc;
      rewrite lookup_delete_ne in Hc by congruence
  | Hd : Channel_dtor ?c = Ok _, Hc : _ = Some (added_to_loop_ ?c) |- _ =>
      unfold Channel_dtor in Hd; inv_ok
  end.
  repeat match goal with
  | Hd : context [decide _] |- _ =>
      first [rewrite decide_True in Hd by done | rewrite decide_False in Hd by congruence]
  | Hd : negb _ = true |- _ => apply negb_true_iff in Hd
  end.
  unfold added_at in *. congruence.
Qed.

(** No event loop can be destroyed.  The destructor's call of
    [DisableAllEvent] marks the wakeup channel as added to the loop, and nothing
    removes it (the call of [Remove] is commented out), so an assertion of the
    channel's own destructor fails, whatever the state. *)
Theorem EventLoop_dtor_never_returns this cur w :
  timer_channel_ w <> wakeup_channel_ w -> is_ok (EventLoop_dtor this cur w) = false.
Proof. apply EventLoop_dtor_fails. Qed.
End Dtor.

(** ** The pieces of a turn *)

Section Pieces.
Context {F Cb U K : Type} `{EpollLaws K, EventfdKernel K}.
Abbreviation lworld := (lworld F Cb U K).
Implicit Types w : lworld.

(** The wait succeeds: what it changes are the events received and the poller's
    vector, and it reports registered channels. *)
Lemma poll_active_spec tv w :
  inv_but None (io w) -> event_list_size (poller (io w)) < 2 ^ 62 ->
  exists i a, poll_active tv w = Ok (set_active a (set_io i (set_active [] w))) /\ inv_but None i /\
    kernel i = (epoll_wait (event_list_size (poller (io w))) kPollTimeMs (kernel (io w))).2 /\
    owner_tid (poller i) = owner_tid (poller (io w)) /\
    (forall q, marks <$> channels i !! q = marks <$> channels (io w) !! q) /\
    Forall (fun p => exists c, channels i !! p = Some c /\ index_ c = kAdded) a /\
    (forall q, event_handling_ <$> channels i !! q = event_handling_ <$> channels (io w) !! q).
Proof.
  intros Hi Hs. pose proof (poll_spec tv kPollTimeMs [] (io w) Hi Hs) as Hp.
  assert (exists i a ts, EPoller.poll tv kPollTimeMs [] (io w) = Ok (i, a, ts)) as (i & a & ts & Hr).
  { destruct (epoll_wait _ _ _).1; destruct Hp as (i & Hr & _); eauto. }
  clear Hp. exists i, a. unfold poll_active. simpl. rewrite Hr. split; [done|].
  destruct (poll_keeps _ _ _ _ _ _ _ Hr) as [Hk Ho].
  destruct (poll_marks _ _ _ _ _ _ _ Hi Hs Hr) as (Hi' & Hm & Hh). split_and!; try done.
  by apply (reported_known tv kPollTimeMs [] (io w) i a ts).
Qed.

Context (call : Cb -> lworld -> result lworld).

(** [HandleEvent] of a channel whose dispatch no callback disturbs. *)
Lemma handle_channel_spec p c w :
  channels (io w) !! p = Some c ->
  (forall k x x' cx, call k x = Ok x' -> channels (io x) !! p = Some cx ->
     exists c', channels (io x') !! p = Some c' /\ same_dispatch cx c') ->
  handle_channel call p w =
    (w' ← foldM call (due c) (put_channel p (set_handling true c) w);
     c' ← channel_at (io w') p; Ok (put_channel p (set_handling false c') w')).
Proof.
  intros Hc Hk. unfold handle_channel. apply (HandleEvent_spec (get_channel p) (put_channel p) call).
  - intros x y. unfold get_channel, channel_at. simpl. by rewrite lookup_insert_eq.
  - intros k x x' cx Hr Hx%deref_ok. destruct (Hk k x x' cx Hr Hx) as (c' & Hc' & Hs). exists c'.
    unfold get_channel, channel_at. by rewrite Hc'.
  - unfold get_channel, channel_at. by rewrite Hc.
Qed.
End Pieces.

(** ** [Run] until [Stop] *)

Section Stop.
Context {F Cb U K : Type} `{EpollKernel K, EventfdKernel K}.
Abbreviation lworld := (lworld F Cb U K).
Context (exec : F -> lworld -> result lworld) (call : Cb -> lworld -> result lworld).

(** Callbacks and functors may stop the loop; only [Run] sets it running. *)
Definition never_restarts {A} (f : A -> lworld -> result lworld) : Prop :=
  forall a w w', f a w = Ok w' -> status_ w <> kRunning -> status_ w' <> kRunning.

Lemma foldM_never_restarts {A} (f : A -> lworld -> result lworld) l w w' :
  never_restarts f -> foldM f l w = Ok w' -> status_ w <> kRunning -> status_ w' <> kRunning.
Proof.
  intros Hf Hrun Hw. apply (foldM_invariant (fun x => status_ x <> kRunning) f l w w'); [|done..].
  intros a x x' Hx Hr. by eapply Hf.
Qed.

Lemma handle_channel_never_restarts : never_restarts call -> never_restarts (handle_channel call).
Proof.
  intros Hc p w w' Hr Hw. unfold handle_channel, HandleEvent, get_channel in Hr. inv_ok.
  assert (forall (t : bool) fn a b, (if t then call_opt call fn a else Ok a) = Ok b ->
    status_ a <> kRunning -> status_ b <> kRunning) as Hopt.
  { intros [] [cb|] a b Hab Ha; simpl in Hab; inv_ok; eauto. }
  simpl. eapply Hopt; [done|]. eapply Hopt; [done|]. eapply Hopt; [done|]. by eapply Hopt.
Qed.

(** A turn that begins after [Stop], or during which [Stop] is called, ends with
    the loop stopping. *)
Lemma turn_stopped env tv w w' :
  never_restarts exec -> never_restarts call -> status_ (env w) <> kRunning ->
  turn exec call env tv w = Ok w' -> status_ w' <> kRunning.
Proof.
  intros He Hc Hs Hr. unfold turn in Hr. inv_ok.
  assert (status_ x <> kRunning) as Hx.
  { unfold poll_active in E. inv_ok. by destruct x1 as [[i active] t]; inv_ok. }
  eapply foldM_never_restarts in E0; [|by apply handle_channel_never_restarts|done].
  unfold DoPendingFunctors in Hr. simpl in Hr. inv_ok. simpl.
  eapply foldM_never_restarts in E1; done.
Qed.

(** [C28] [Stop] ends [Run].  Let every turn return (from states satisfying [P],
    which turns preserve), and let another thread call [Stop] during turn [n].
    Then [Run] returns, after at most [n+1] turns, with the status [kStopped]. *)
Theorem Stop_ends_Run (P : lworld -> Prop) sched n cur w :
  never_restarts exec -> never_restarts call ->
  (forall i w, P w -> exists w', turn exec call (sched i).1 (sched i).2 w = Ok w' /\ P w') ->
  (forall w, status_ ((sched n).1 w) = kStopping) ->
  status_ w <> kRunning -> cur = tid_ w -> P (set_status kRunning (set_status kStarting w)) ->
  exists w', P w' /\ forall fuel, (n < fuel)%nat ->
    Run exec call fuel sched cur w = Some (Ok (set_status kStopped w')).
Proof.
  intros He Hc Hturn Hstop Hs -> HP.
  assert (forall m i x, (i + m = n)%nat -> P x ->
    exists w', P w' /\ forall fuel, (m < fuel)%nat ->
      Run_loop exec call fuel sched i x = Some (Ok (set_status kStopped w'))) as Hloop.
  { induction m as [|m IH]; intros i x Him Hx.
    - destruct (Hturn i x Hx) as (y & Hy & Py). destruct (IsRunning (status_ x)) eqn:Er.
      + exists y. split; [done|]. intros [|fuel] Hf; [lia|]. simpl. rewrite Er, Hy.
        assert (status_ y <> kRunning) as Hys.
        { eapply turn_stopped; [done|done| |exact Hy]. replace i with n by lia. by rewrite Hstop. }
        assert (IsRunning (status_ y) = false) as Ey by by apply bool_decide_eq_false.
        destruct fuel; simpl; by rewrite Ey.
      + exists x. split; [done|]. intros [|fuel] Hf; simpl; by rewrite Er.
    - destruct (IsRunning (status_ x)) eqn:Er.
      + destruct (Hturn i x Hx) as (y & Hy & Py).
        destruct (IH (S i) y ltac:(lia) Py) as (w' & Pw' & Hrun).
        exists w'. split; [done|]. intros [|fuel] Hf; [lia|]. simpl. rewrite Er, Hy. apply Hrun. lia.
      + exists x. split; [done|]. intros [|fuel] Hf; simpl; by rewrite Er. }
  destruct (Hloop n 0%nat _ eq_refl HP) as (w' & Pw' & Hrun). exists w'. split; [done|].
  intros fuel Hf. unfold Run. rewrite AssertInLoopThread_refl.
  replace (IsRunning (status_ w)) with false by (symmetry; by apply bool_decide_eq_false).
  by apply Hrun.
Qed.
End Stop.

(** ** Witnesses *)

Definition demo_new : result (lworld Z Z unit sim) :=
  EventLoop_new 7 1 4 5 6 50 60 1 2 ∅ (mkSim ∅ [] 0) ∅ tt.

Lemma EventLoop_new_inv_witness :
  (exists w, demo_new = Ok w /\ status_ w = kInitialized /\ pending_functors_ w = [] /\
    threads w = {[1 := 7]} /\ inv_but None (io w) /\
    interest (kernel (io w)) = <[4 := mkEvent kReadable 50]> {[5 := mkEvent kReadable 60]}) /\
  EventLoop_new (F := Z) (U := unit) 7 1 4 5 6 50 60 1 2 ∅ (mkSim ∅ [] 0) {[1 := 7]} tt = Err Fatal.
Proof.
  split.
  - apply (EventLoop_new_inv (F := Z) (U := unit) 7 1 4 5 6 50 60 1 2 (mkSim ∅ [] 0) ∅ tt);
      first [done | by split].
  - apply (EventLoop_new_inv (F := Z) (U := unit) 7 1 4 5 6 50 60 1 2 (mkSim ∅ [] 0) {[1 := 7]} tt);
      first [done | by split | by eexists].
Defined.

(** The loop just constructed, stopped, fails in its destructor by an assertion. *)
Lemma EventLoop_dtor_never_returns_witness :
  exists w, demo_new = Ok w /\ EventLoop_dtor 7 1 (set_status kStopped w) = Err AssertFail /\
    is_ok (EventLoop_dtor 7 1 (set_status kStopped w)) = false.
Proof.
  eexists. split; [vm_compute; reflexivity|]. split; [vm_compute; reflexivity|].
  apply EventLoop_dtor_never_returns. discriminate.
Defined.

(** A loop without channels or functors; another thread stops it in turn 2. *)
Definition demo_idle : lworld Z Z unit sim :=
  mkLWorld 1 kInitialized false [] 50 60 [] ∅ (mkWorld (mkEPoller 1 16 ∅) ∅ (mkSim ∅ [] 0)) tt.
Definition demo_sched (i : nat) : (lworld Z Z unit sim -> lworld Z Z unit sim) * timeval :=
  (if decide (i = 2%nat) then Stop 2 else fun w => w, mkTimeval 0 0).
Definition idle (w : lworld Z Z unit sim) : Prop :=
  pending_functors_ w = [] /\ poller (io w) = mkEPoller 1 16 ∅ /\ sim_ready (kernel (io w)) = [].

Lemma demo_turn i w :
  idle w -> exists w', turn (fun _ => Ok) (fun _ => Ok) (demo_sched i).1 (demo_sched i).2 w = Ok w' /\ idle w'.
Proof.
  intros (Hp & Hpo & Hr).
  assert (idle ((demo_sched i).1 w)) as (Hp' & Hpo' & Hr').
  { unfold demo_sched. case_decide; simpl; [|done]. unfold Stop. simpl.
    destruct (negb _); [|by split_and!].
    unfold Wakeup. simpl. unfold sim_efd_write. by destruct (_ <? _). }
  unfold turn, poll_active, EPoller.poll. set (w0 := (demo_sched i).1 w) in *. clearbody w0.
  assert (forall n t, epoll_wait n t (kernel (io w0)) = (Events [], kernel (io w0))) as Hw.
  { intros n t. simpl. unfold sim_wait. rewrite Hr'. by rewrite filter_nil, take_nil. }
  cbn [io set_active]. rewrite Hw. cbn. unfold DoPendingFunctors. cbn. rewrite Hp'. cbn.
  eexists; split; [done|]. by split_and!.
Qed.

Lemma Stop_ends_Run_witness :
  Run (fun _ => Ok) (fun _ => Ok) 3 demo_sched 1 demo_idle =
    Some (Ok (mkLWorld 1 kStopped false [] 50 60 [] ∅ (mkWorld (mkEPoller 1 16 ∅) ∅ (mkSim ∅ [] 1)) tt)) /\
  exists w', idle w' /\ forall fuel, (2 < fuel)%nat ->
    Run (fun _ => Ok) (fun _ => Ok) fuel demo_sched 1 demo_idle = Some (Ok (set_status kStopped w')).
Proof.
  split; [vm_compute; reflexivity|].
  apply (Stop_ends_Run (fun _ => Ok) (fun _ => Ok) idle demo_sched 2 1 demo_idle).
  - intros a w w' [= <-]. done.
  - intros a w w' [= <-]. done.
  - apply demo_turn.
  - intros w. simpl. unfold Stop. simpl. destruct (negb _); [|done]. unfold Wakeup. simpl.
    unfold sim_efd_write. by destruct (_ <? _).
  - discriminate.
  - reflexivity.
  - by split_and!.
Defined.
