(* ===== verification/LoopTimers.v ===== *)
(** * The timer queue in its event loop (evk/timer_queue.cc with evk/event_loop.cc)

    TimerQueue.v and EventLoop.v put together: the queue is part of the loop's state,
    its timerfd part of the loop's kernel, its [HandleRead] the read callback of a
    channel the loop polls, and timer callbacks act on the whole loop. *)

From S2P Require Import Prelude LoopThread Duration Timestamp Channel EPoller EPollerFacts EventFd.
From S2P Require Import SimKernel ServerStatus LoopChannels OrdSet TimerQueue TimerFacts TimerRun TimerProps.
From S2P Require Import EventLoop.
#[local] Open Scope Z_scope.

(** The functors that the timer members give to the loop ([AddTimerInLoop] and
    [CancelInLoop], bound to their argument), and the others. *)
Inductive tfunctor (G : Type) :=
  | FAddTimer (timer : ptr)
  | FCancel (timerid : InvokeTimerID)
  | FCall (g : G).
Arguments FAddTimer {G} timer. Arguments FCancel {G} timerid. Arguments FCall {G} g.

(** The read callbacks of the loop's own two channels, and the other callbacks. *)
Inductive loop_cb (Cb : Type) := OnWakeup | OnTimer | OnChannel (cb : Cb).
Arguments OnWakeup {Cb}. Arguments OnTimer {Cb}. Arguments OnChannel {Cb} cb.

(** The members of [TimerQueue], but for the timerfd. *)
Record tqueue (TC : Type) := mkQueue {
  q_heap : gmap ptr (InvokeTimer TC);
  q_created : Z;
  q_timers : list (Timestamp * ptr);
  q_active : list (ptr * Z);
  q_calling : bool;
  q_canceling : list (ptr * Z)
}.
Arguments mkQueue {TC}. Arguments q_heap {TC}. Arguments q_created {TC}. Arguments q_timers {TC}.
Arguments q_active {TC}. Arguments q_calling {TC}. Arguments q_canceling {TC}.

Section LoopTimers.
Context {G Cb TC V K : Type} `{EpollKernel K, EventfdKernel K, TimerfdKernel K}.

Abbreviation qworld := (lworld (tfunctor G) (loop_cb Cb) (tqueue TC * V) K).
Abbreviation tstate := (tworld TC qworld K).

(** The loop as the timer queue sees it, and back. *)
Definition to_tw (w : qworld) : tstate :=
  let q := (EventLoop.user w).1 in
  mkTWorld (q_heap q) (q_created q) (q_timers q) (q_active q) (q_calling q) (q_canceling q)
    (kernel (io w)) w.
Definition from_tw (s : tstate) : qworld :=
  let w := TimerQueue.user s in
  EventLoop.set_user
    (mkQueue (heap s) (num_created_ s) (timers_ s) (active_timers_ s) (is_calling_expired_timers_ s)
       (canceling_timers_ s), (EventLoop.user w).2)
    (set_io (set_kernel (timerfd s) (io w)) w).

(** A timer callback. *)
Context (tcall : TC -> qworld -> result qworld).
Definition call_timer (cb : TC) (s : tstate) : result tstate := w ← tcall cb (from_tw s); Ok (to_tw w).

(** [TimerQueue::HandleRead], with the clock on entry and at the end. *)
Definition on_timer (tv tv' : timeval) (w : qworld) : result qworld :=
  s ← TimerQueue.HandleRead (tid_ w) call_timer (tid_ w) tv tv' (to_tw w); Ok (from_tw s).

(** The callback of a channel, run in the loop's thread. *)
Definition call_loop (other : Cb -> qworld -> result qworld) (tv tv' : timeval) (cb : loop_cb Cb) (w : qworld) :
    result qworld :=
  match cb with
  | OnWakeup => Ok (EventLoop.HandleRead w)
  | OnTimer => on_timer tv tv' w
  | OnChannel cb => other cb w
  end.

(** A functor, run in the loop's thread. *)
Definition exec_loop (other : G -> qworld -> result qworld) (tv : timeval) (f : tfunctor G) (w : qworld) :
    result qworld :=
  match f with
  | FAddTimer timer => s ← AddTimerInLoop (tid_ w) (tid_ w) tv timer (to_tw w); Ok (from_tw s)
  | FCancel timerid => s ← CancelInLoop (tid_ w) (tid_ w) timerid (to_tw w); Ok (from_tw s)
  | FCall g => other g w
  end.

(** [RunInLoop] for the queue: at once in the loop's thread, else by a functor. *)
Definition run_in_loop (cur tid : thread_id) (f : tfunctor G)
    (body : thread_id -> tstate -> result tstate) (s : tstate) : result tstate :=
  if IsInLoopThread tid cur then body cur s
  else Ok (to_tw (EventLoop.QueueInLoop cur f (from_tw s))).

(** [AddTimer] and [Cancel], called by thread [cur]. *)
Definition loop_AddTimer (cur : thread_id) (tv : timeval) (new : ptr) (cb : TC) (when : Timestamp)
    (interval : double) (w : qworld) : result (InvokeTimerID * qworld) :=
  '(id, s) ← AddTimer (tid_ w) (run_in_loop cur (tid_ w) (FAddTimer new)) tv new cb when interval (to_tw w);
  Ok (id, from_tw s).
Definition loop_Cancel (cur : thread_id) (timerid : InvokeTimerID) (w : qworld) : result qworld :=
  s ← Cancel (tid_ w) (run_in_loop cur (tid_ w) (FCancel timerid)) timerid (to_tw w); Ok (from_tw s).

(** The loop's timer members. *)
Definition loop_RunAt (cur : thread_id) (tv : timeval) (new : ptr) : Timestamp -> TC -> qworld ->
    result (InvokeTimerID * qworld) :=
  EventLoop.RunAt (fun cb when interval w => loop_AddTimer cur tv new cb when interval w).

(** ** The two views *)

Lemma from_to w : from_tw (to_tw w) = w.
Proof. by destruct w as [? ? ? ? ? ? ? ? [? ? ?] [[? ? ? ? ? ?] ?]]. Qed.

Lemma tinv_from F s : tinv F s -> tinv F (to_tw (from_tw s)).
Proof. by apply tinv_ext. Qed.

Lemma rings_from late s : rings late s -> rings late (to_tw (from_tw s)).
Proof. by apply rings_alarm. Qed.

(** The queue does not see the rest of the loop. *)
Definition same_queue (w w' : qworld) : Prop :=
  (EventLoop.user w').1 = (EventLoop.user w).1 /\ alarm (kernel (io w')) = alarm (kernel (io w)).

Lemma tinv_same_queue F w w' : (EventLoop.user w').1 = (EventLoop.user w).1 -> tinv F (to_tw w) -> tinv F (to_tw w').
Proof. intros Hu. apply tinv_ext; simpl; by rewrite Hu. Qed.

Lemma rings_same_queue late w w' : same_queue w w' -> rings late (to_tw w) -> rings late (to_tw w').
Proof. intros [Hu Ha]. apply rings_alarm; simpl; [by rewrite Hu|done]. Qed.

(** The callbacks of some timers act on the loop as they do on the queue's state. *)
Lemma calls_from cbs s s' :
  foldM call_timer cbs s = Ok s' -> foldM tcall cbs (from_tw s) = Ok (from_tw s').
Proof.
  revert s. induction cbs as [|cb cbs IH]; intros s; cbn [foldM]; [by intros [= ->]|].
  intros (s1 & Hc & Hr)%bind_ok. apply bind_ok in Hc as (w & Hw & [= <-]).
  rewrite Hw. cbn [mbind result_bind]. rewrite <- (from_to w). by apply IH.
Qed.

(** Callbacks that leave the queue and the alarm alone. *)
Lemma quiet_well_behaved tid :
  (forall cb w, exists w', tcall cb w = Ok w' /\ same_queue w w') -> well_behaved tid call_timer.
Proof.
  intros Hq cb F s Hi. destruct (Hq cb (from_tw s)) as (w' & Hr & Hu & Ha).
  exists (to_tw w'). unfold call_timer. rewrite Hr. split; [done|]. eapply star_step; [|apply star_refl].
  assert (to_tw w' = set_timerfd (kernel (io w')) (TimerQueue.set_user w' s)) as ->
    by (unfold to_tw; by rewrite Hu). by apply step_user.
Qed.

Lemma in_own_thread tid f body s : run_in_loop tid tid f body s = body tid s.
Proof. unfold run_in_loop, IsInLoopThread. by rewrite Z.eqb_refl. Qed.

(** Timer callbacks leave the loop's timer channel alone. *)
Definition keeps_channel (p : ptr) : Prop :=
  forall cb w w', tcall cb w = Ok w' -> channels (io w') !! p = channels (io w) !! p.

Lemma calls_keep_channel p cbs w w' :
  keeps_channel p -> foldM tcall cbs w = Ok w' -> channels (io w') !! p = channels (io w) !! p.
Proof.
  intros Hk. apply (foldM_invariant (fun x => channels (io x) !! p = channels (io w) !! p)); [|done].
  intros cb x x' Hx Hr. rewrite <- Hx. by eapply Hk.
Qed.
End LoopTimers.

(** ** A turn of the loop in which the timerfd is readable *)

Section Turn.
Context {G Cb TC V K : Type} `{EpollLaws K, EventfdKernel K, TimerfdLaws K}.
Abbreviation qworld := (lworld (tfunctor G) (loop_cb Cb) (tqueue TC * V) K).
Context (tcall : TC -> qworld -> result qworld).
Implicit Types w : qworld.

Definition queue w : tqueue TC := (EventLoop.user w).1.

(** The timers due at [now] were fired: [w1] is the loop with the queue cut, [w2]
    what their callbacks, called in order, make of it, [w3] the loop afterwards, the
    timerfd having been set at [at_]. *)
Record fired (now : Timestamp) (at_ : timeval) (F : list ptr) w0 (expired rest : list (Timestamp * ptr)) w1 w2 w3 : Prop := {
  f_cut : q_timers (queue w0) = expired ++ rest;
  f_due t p : (t, p) ∈ expired -> ts_ns t <= ts_ns now;
  f_later t p : (t, p) ∈ rest -> ts_ns now < ts_ns t;
  f_start : q_heap (queue w1) = q_heap (queue w0) /\ q_timers (queue w1) = rest /\
    pending_functors_ w1 = pending_functors_ w0 /\ (EventLoop.user w1).2 = (EventLoop.user w0).2;
  f_calls : foldM tcall (callbacks (to_tw w0) expired) w1 = Ok w2;
  f_end : pending_functors_ w3 = pending_functors_ w2 /\ (EventLoop.user w3).2 = (EventLoop.user w2).2;
  f_inv : tinv F (to_tw w3) /\ rings None (to_tw w3);
  f_set : set_for_first at_ (to_tw w3);
  f_fired p t : p ∈ expired.*2 -> q_heap (queue w0) !! p = Some t ->
    q_heap (queue w3) !! p = after_fire now (to_tw w2) p t;
  f_others p : p ∉ expired.*2 -> q_heap (queue w3) !! p = q_heap (queue w2) !! p
}.

Context (other : Cb -> qworld -> result qworld) (tv tv' : timeval).

(** What [HandleRead] needs. *)
Record can_fire (F : list ptr) w : Prop := {
  cf_inv : tinv F (to_tw w);
  cf_calls : well_behaved (tid_ w) (call_timer tcall);
  cf_clock : sane tv /\ sane tv';
  cf_restart p t : q_heap (queue w) !! p = Some t -> can_restart (Now tv) t
}.

(** [HandleRead] in the loop. *)
Lemma on_timer_spec F w :
  can_fire F w ->
  exists expired rest w1 w2 w3, on_timer tcall tv tv' w = Ok w3 /\
    fired (Now tv) tv' F w expired rest w1 w2 w3 /\
    channels (io w1) = channels (io w) /\ channels (io w3) = channels (io w2).
Proof.
  intros [Hi Hwb [Htv Htv'] Hres].
  destruct (timer_HandleRead_spec (tid_ w) (call_timer tcall) tv tv' F (to_tw w) Hi Hwb Htv Htv' Hres)
    as (expired & rest & s1 & s2 & s' & Hcut & Hdue & Hlater & Hh1 & Ht1 & Hu1 & _ & Hcalls & _ & Hrun &
        Hi' & Hr' & Hset & _ & Hfired & Hothers & Hu').
  exists expired, rest, (from_tw s1), (from_tw s2), (from_tw s').
  unfold on_timer. rewrite Hrun. cbn [mbind result_bind]. split; [done|]. split.
  - apply calls_from in Hcalls. split; try done.
    + unfold from_tw. simpl. rewrite Hu1. by split_and!.
    + unfold from_tw. simpl. by rewrite Hu'.
    + split; [by apply tinv_from|by apply rings_from].
  - unfold from_tw. simpl. by rewrite Hu1, Hu'.
Qed.

(** The event on the timer channel. *)
Lemma handle_timer_channel F w p c :
  channels (io w) !! p = Some c -> read_fn_ c = Some OnTimer -> revents_ c = POLLIN ->
  can_fire F w -> keeps_channel tcall p ->
  exists expired rest w1 w2 w3, handle_channel (call_loop tcall other tv tv') p w = Ok w3 /\
    fired (Now tv) tv' F w expired rest w1 w2 w3.
Proof.
  intros Hc Hfn Hrev Hcf Hkeep. set (c1 := set_handling true c). set (wa := put_channel p c1 w).
  assert (can_fire F wa) as Hcf' by (destruct Hcf; split; try done; by apply (tinv_same_queue F w)).
  destruct (on_timer_spec F wa Hcf') as (expired & rest & w1 & w2 & w3 & Hrun & Hf & Hc1 & Hc3).
  assert (channels (io w3) !! p = Some c1) as Hc'.
  { rewrite Hc3, (calls_keep_channel tcall p _ w1 w2 Hkeep (f_calls _ _ _ _ _ _ _ _ _ Hf)), Hc1.
    apply lookup_insert_eq. }
  exists expired, rest, w1, w2, (put_channel p (set_handling false c1) w3). split.
  - unfold handle_channel, Channel.HandleEvent, get_channel, channel_at. rewrite Hc.
    cbn [deref mbind result_bind]. fold c1. fold wa.
    assert (channels (io wa) !! p = Some c1) as Ha by apply lookup_insert_eq.
    assert (revents_ c1 = POLLIN /\ read_fn_ c1 = Some OnTimer) as [Hr1 Hf1] by done.
    clear Hf Hc1 Hcf'. clearbody wa. clearbody c1.
    do 3 (rewrite Ha; cbn [deref mbind result_bind]; rewrite Hr1; simpl).
    rewrite Hf1. simpl. rewrite Hrun. cbn [mbind result_bind]. rewrite Hc'. cbn [deref mbind result_bind].
    rewrite Hr1. simpl. by rewrite Hc'.
  - destruct Hf as [? ? ? ? ? ? [Hti Hri] ? ? ?]. split; try done.
    split; [by apply (tinv_same_queue F w3)|by apply (rings_same_queue None w3)].
Qed.

(** [C15] The loop and its timers.  If the wait reports that the timerfd is readable, and
    nothing else, the turn fires exactly the timers that are due: their callbacks are
    called once each, in order of expiration, in the loop's thread; repeating ones
    are armed again and the others deleted; the timerfd has been set, by the clock
    [tv'] that [Reset] read, to ring when the first timer left expires, or after the
    least delay of 100 microseconds if that is later.  The turn then goes on with the functors that are
    pending, those queued by the callbacks included. *)
Theorem timer_turn exec env tv0 F w c :
  let w0 := env w in
  let p := timer_channel_ w0 in
  inv_but None (io w0) -> event_list_size (poller (io w0)) < 2 ^ 62 ->
  (epoll_wait (event_list_size (poller (io w0))) kPollTimeMs (kernel (io w0))).1 = Events [mkEvent POLLIN p] ->
  channels (io w0) !! p = Some c -> read_fn_ c = Some OnTimer ->
  can_fire F w0 -> keeps_channel tcall p ->
  exists expired rest w1 w2 w3, fired (Now tv) tv' F w0 expired rest w1 w2 w3 /\
    turn exec (call_loop tcall other tv tv') env tv0 w = DoPendingFunctors exec w3.
Proof.
  intros w0 p Hi Hs Hw Hc Hfn Hcf Hkeep.
  pose proof (poll_spec tv0 kPollTimeMs [] (io w0) Hi Hs) as Hpoll. rewrite Hw in Hpoll.
  destruct Hpoll as (i & Hrun & _ & Hch & _). simpl in Hch.
  set (wa := set_active [p] (set_io i (set_active [] w0))).
  set (c1 := SetRevents (i32 POLLIN) c).
  assert (channels (io wa) !! p = Some c1) as Hc1.
  { simpl. rewrite Hch. unfold deliver. simpl. by rewrite lookup_alter_eq, Hc. }
  assert (can_fire F wa) as Hcf'.
  { destruct Hcf. split; try done. by apply (tinv_same_queue F w0). }
  destruct (handle_timer_channel F wa p c1 Hc1 Hfn) as (expired & rest & w1 & w2 & w3 & Hh & Hf); try done.
  exists expired, rest, w1, w2, w3. split; [by destruct Hf; split|].
  unfold turn, poll_active. fold w0.
  change (io (set_active [] w0)) with (io w0). change (active_channels_ (set_active [] w0)) with (@nil ptr).
  rewrite Hrun. cbn [mbind result_bind app fmap list_fmap]. change (ev_ptr _) with p. fold wa.
  change (active_channels_ wa) with [p]. cbn [foldM]. by rewrite Hh.
Qed.

(** ** [RunAfter] from any thread *)

Lemma QueueInLoop_queue cur f w :
  EventLoop.user (QueueInLoop cur f w) = EventLoop.user w /\
  pending_functors_ (QueueInLoop cur f w) = pending_functors_ w ++ [f].
Proof.
  unfold QueueInLoop. destruct (must_wake cur _); [|done]. unfold Wakeup.
  by destruct (efd_write 1 (kernel (io (push_functor f w)))).
Qed.

(** [AddTimerInLoop] by the loop. *)
Lemma FAddTimer_spec exec tv0 new t F w :
  tinv (new :: F) (to_tw w) -> new ∉ F -> q_heap (queue w) !! new = Some t -> rings None (to_tw w) -> sane tv0 ->
  exists w', exec_loop exec tv0 (FAddTimer new) w = Ok w' /\ tinv F (to_tw w') /\ rings None (to_tw w') /\
    q_timers (queue w') ≡ₚ (expiration_ t, new) :: q_timers (queue w).
Proof.
  intros Hi Hn Ht Hr Hs.
  destruct (AddTimerInLoop_spec (tid_ w) None tv0 new t F (to_tw w) Hi Hn Ht Hs Hr)
    as (l & l' & k & Hrun & Hi' & Hr' & Hl).
  eexists. cbn [exec_loop]. rewrite Hrun. split; [done|].
  split_and!; [by apply tinv_from|by apply rings_from|exact Hl].
Qed.

(** Called by the loop's own thread, [RunAfter] puts the timer into the queue at
    once.  Called by another, it creates the timer, queues the functor that will
    insert it, and returns an identifier that names it; and whenever the loop runs
    that functor, the timer still in flight, it is inserted and the timerfd armed in
    time for it.  The expiration is the delay after the call in both cases. *)
Theorem RunAfter_any_thread cur tv0 new cb delay d t created F w :
  tinv F (to_tw w) -> rings None (to_tw w) -> sane tv0 ->
  q_heap (queue w) !! new = None -> 0 < new < UINTPTR_MAX ->
  Duration_double delay = Ok d -> 0 <= ts_ns (Now tv0) + ns_ d < 2 ^ 63 ->
  let when := mkTimestamp (ts_ns (Now tv0) + ns_ d) in
  InvokeTimer_new cb when (double_of_Z 0) (q_created (queue w)) = Ok (t, created) ->
  exists w1, RunAfter (loop_AddTimer cur tv0 new) tv0 delay cb w = Ok (mkTimerID new (sequence_ t), w1) /\
    q_heap (queue w1) = <[new := t]> (q_heap (queue w)) /\
    if decide (cur = tid_ w) then
      tinv F (to_tw w1) /\ rings None (to_tw w1) /\
      q_timers (queue w1) ≡ₚ (when, new) :: q_timers (queue w)
    else
      tinv (new :: F) (to_tw w1) /\ q_timers (queue w1) = q_timers (queue w) /\
      pending_functors_ w1 = pending_functors_ w ++ [FAddTimer new] /\
      forall exec tv2 F' w2,
        tinv (new :: F') (to_tw w2) -> new ∉ F' -> q_heap (queue w2) !! new = Some t ->
        rings None (to_tw w2) -> sane tv2 ->
        exists w3, exec_loop exec tv2 (FAddTimer new) w2 = Ok w3 /\ tinv F' (to_tw w3) /\
          rings None (to_tw w3) /\ q_timers (queue w3) ≡ₚ (when, new) :: q_timers (queue w2).
Proof.
  intros Hi Hr Hs Hnew Hrange Hd Hwhen when Ht.
  assert (expiration_ t = when) as Hexp by (unfold InvokeTimer_new in Ht; by inv_ok).
  assert (RunAfter (loop_AddTimer cur tv0 new) tv0 delay cb w =
    loop_AddTimer cur tv0 new cb when (double_of_Z 0) w) as ->.
  { unfold RunAfter, RunAt. rewrite Hd. cbn [mbind result_bind]. unfold Timestamp.plus, add_assign, Nanoseconds.
    by rewrite ck64_ok by (unfold in_i64; lia). }
  unfold loop_AddTimer, AddTimer. change (num_created_ (to_tw w)) with (q_created (queue w)). rewrite Ht.
  cbn [mbind result_bind]. set (s1 := set_created _ _). destruct (decide (cur = tid_ w)) as [->|Hne].
  - rewrite in_own_thread.
    destruct (AddTimer_spec (tid_ w) None tv0 new cb when (double_of_Z 0) t created F (to_tw w) Hi Hr Hs Hnew Hrange Hwhen Ht)
      as (s' & Hrun & Hi' & Hr' & Hh & Hl & _).
    unfold AddTimer in Hrun. change (num_created_ (to_tw w)) with (q_created (queue w)) in Hrun. rewrite Ht in Hrun.
    cbn [mbind result_bind] in Hrun. fold s1 in Hrun. rewrite Hrun. cbn [mbind result_bind].
    eexists. split; [done|]. split_and!; [exact Hh|by apply tinv_from|by apply rings_from|exact Hl].
  - unfold run_in_loop, IsInLoopThread. rewrite (proj2 (Z.eqb_neq _ _)) by congruence.
    destruct (QueueInLoop_queue cur (FAddTimer new) (from_tw s1)) as [Hu Hp].
    set (w1 := QueueInLoop cur (FAddTimer new) (from_tw s1)) in *. cbn [mbind result_bind].
    assert (heap (to_tw w1) = <[new := t]> (q_heap (queue w))) as Hh by (simpl; by rewrite Hu).
    unfold timer_at. rewrite Hh, lookup_insert_eq. cbn [deref mbind result_bind].
    exists w1. rewrite from_to. split; [done|]. split; [exact Hh|]. split_and!.
    + apply (tinv_ext _ (set_heap (<[new := t]> (heap (to_tw w))) (to_tw w))); [exact Hh|simpl; by rewrite Hu..|].
      apply tinv_alloc; try done. by rewrite Hexp.
    + unfold queue. by rewrite Hu.
    + exact Hp.
    + intros exec tv2 F' w2 Hi2 Hn2 Ht2 Hr2 Hs2. rewrite <- Hexp. by apply FAddTimer_spec.
Qed.
End Turn.
