(* ===== verification/LoopTimersDemo.v ===== *)
(** * A loop with a timer on a concrete kernel

    The kernel of SimKernel.v and a timerfd that holds the time last set. *)

From S2P Require Import Prelude LoopThread Duration Timestamp Channel EPoller EPollerFacts EventFd.
From S2P Require Import SimKernel ServerStatus LoopChannels OrdSet TimerQueue TimerFacts TimerRun TimerProps.
From S2P Require Import EventLoop LoopTimers.
#[local] Open Scope Z_scope.

Record tsim := mkTsim { ts_base : sim; ts_alarm : option (timeval * timespec) }.

Definition on_base {A} (f : sim -> A * sim) (k : tsim) : A * tsim :=
  ((f (ts_base k)).1, mkTsim (f (ts_base k)).2 (ts_alarm k)).

#[export] Instance tsim_epoll : EpollKernel tsim := {|
  interest := fun k => interest (ts_base k);
  epoll_ctl := fun op fd ev => on_base (epoll_ctl op fd ev);
  epoll_wait := fun n t => on_base (epoll_wait n t);
  pollable := fun k fd => pollable (ts_base k) fd
|}.

#[export] Instance tsim_epoll_laws : EpollLaws tsim.
Proof.
  split.
  - intros op fd ev k. exact (ctl_error op fd ev (ts_base k)).
  - intros fd ev k. exact (ctl_add fd ev (ts_base k)).
  - intros fd ev k. exact (ctl_mod fd ev (ts_base k)).
  - intros fd ev k. exact (ctl_del fd ev (ts_base k)).
  - intros op fd ev k. exact (ctl_set op fd ev (ts_base k)).
  - intros fd ev k. exact (ctl_unset fd ev (ts_base k)).
  - intros n t k. exact (wait_interest n t (ts_base k)).
  - intros n t k evs. exact (wait_events n t (ts_base k) evs).
Qed.

#[export] Instance tsim_eventfd : EventfdKernel tsim := {|
  efd_count := fun k => efd_count (ts_base k);
  efd_write := fun n => on_base (efd_write n);
  efd_read := on_base efd_read
|}.

#[export] Instance tsim_timerfd : TimerfdKernel tsim := {|
  timerfd_settime := fun at_ ts k => (0, mkTsim (ts_base k) (Some (at_, ts)));
  timerfd_read := fun k => (8, mkTsim (ts_base k) None);
  alarm := ts_alarm
|}.

#[export] Instance tsim_timerfd_laws : TimerfdLaws tsim.
Proof. by split. Qed.

(** ** Loop 7 of thread 1: a repeating timer at 1000, due at second 6; the timerfd,
    descriptor 9, is readable.  A timer's callback queues its number as a functor,
    and running that appends it to a list. *)

Abbreviation tdemo := (lworld (tfunctor Z) (loop_cb Z) (tqueue Z * list Z) tsim).

Definition timer_chan : Channel (loop_cb Z) :=
  SetIndex kAdded (set_added true (set_events kReadable (SetReadCallback OnTimer (Channel_new 7 9)))).

Definition beep : InvokeTimer Z := mkTimer (mkTimestamp 6000000000) 42 (mkDuration 2000000000) true 1.

Definition timer_w : tdemo :=
  mkLWorld 1 kRunning false [] 50 60 [] ∅
    (mkWorld (mkEPoller 1 16 {[9 := 60]}) {[60 := timer_chan]}
       (mkTsim (mkSim {[9 := mkEvent kReadable 60]} [mkEvent POLLIN 60] 0) (Some (mkTimeval 5 0, mkTimespec 1 0))))
    (mkQueue {[1000 := beep]} 1 [(mkTimestamp 6000000000, 1000)] [(1000, 1)] false [], []).

Definition later (n : Z) (w : tdemo) : result tdemo := Ok (QueueInLoop (tid_ w) (FCall n) w).
Definition append (n : Z) (w : tdemo) : result tdemo :=
  Ok (set_user ((user w).1, (user w).2 ++ [n]) w).

Lemma later_quiet n w : exists w', later n w = Ok w' /\ same_queue w w'.
Proof.
  eexists. split; [done|]. unfold QueueInLoop. by destruct (must_wake (tid_ w) _).
Qed.

Lemma timer_w_epoll : inv_but None (io timer_w).
Proof.
  split; simpl.
  - intros fd p [<- <-]%lookup_singleton_Some. exists timer_chan, kReadable. by rewrite !lookup_singleton_eq.
  - intros fd [x [<- <-]%lookup_singleton_Some]. rewrite lookup_singleton_eq. eauto.
  - intros p c [<- <-]%lookup_singleton_Some. right. by rewrite lookup_singleton_eq.
  - done.
Qed.

Lemma timer_w_inv : tinv [] (to_tw timer_w).
Proof.
  split; simpl.
  - apply sorted_cons. split; [apply sorted_nil|]. by intros ? ?%elem_of_nil.
  - apply sorted_cons. split; [apply sorted_nil|]. by intros ? ?%elem_of_nil.
  - intros t p. rewrite list_elem_of_singleton. setoid_rewrite lookup_singleton_Some.
    split; [intros [= -> ->]; exists beep; set_solver|]. by intros (x & [<- <-] & <- & _).
  - intros p n. rewrite list_elem_of_singleton. setoid_rewrite lookup_singleton_Some.
    split; [intros [= -> ->]; exists beep; set_solver|]. by intros (x & [<- <-] & <- & _).
  - intros p t [<- <-]%lookup_singleton_Some. unfold UINTPTR_MAX. simpl. lia.
  - by intros p ?%elem_of_nil.
Qed.

Lemma timer_turn_witness :
  exists w', turn (exec_loop append (mkTimeval 6 0)) (call_loop later (fun _ => Ok) (mkTimeval 6 0) (mkTimeval 6 0))
      (fun w => w) (mkTimeval 6 0) timer_w = Ok w' /\
    (user w').2 = [42] /\ q_timers (queue w') = [(mkTimestamp 8000000000, 1000)] /\
    alarm (kernel (io w')) = Some (mkTimeval 6 0, mkTimespec 2 0).
Proof.
  destruct (timer_turn later (fun _ : Z => Ok) (mkTimeval 6 0) (mkTimeval 6 0) (exec_loop append (mkTimeval 6 0))
    (fun w => w) (mkTimeval 6 0) [] timer_w timer_chan) as (expired & rest & w1 & w2 & w3 & Hf & Hrun).
  - apply timer_w_epoll.
  - reflexivity.
  - vm_compute. reflexivity.
  - reflexivity.
  - reflexivity.
  - split.
    + apply timer_w_inv.
    + apply quiet_well_behaved, later_quiet.
    + by split; vm_compute.
    + intros p t Hp. change (({[1000 := beep]} : gmap ptr (InvokeTimer Z)) !! p = Some t) in Hp.
      apply lookup_singleton_Some in Hp as [<- <-]. by vm_compute.
  - intros n w w' [= <-]. unfold QueueInLoop. by destruct (must_wake (tid_ w) _).
  - rewrite Hrun. destruct (turn (exec_loop append (mkTimeval 6 0)) (call_loop later (fun _ => Ok) (mkTimeval 6 0)
      (mkTimeval 6 0)) (fun w => w) (mkTimeval 6 0) timer_w) as [w'|f] eqn:E; [|vm_compute in E; discriminate E].
    rewrite <- Hrun. exists w'. split; [reflexivity|]. vm_compute in E. injection E as <-. by split_and!.
Defined.

(** Thread 2 asks for a timer one second after second 5. *)
Lemma RunAfter_any_thread_witness :
  exists w1, RunAfter (loop_AddTimer 2 (mkTimeval 5 0) 2000) (mkTimeval 5 0) (double_of_Z 1) 7 timer_w =
      Ok (mkTimerID 2000 2, w1) /\
    pending_functors_ w1 = [FAddTimer 2000] /\ tinv [2000] (to_tw w1).
Proof.
  destruct (RunAfter_any_thread (Cb := Z) (V := list Z) (G := Z) (K := tsim) 2 (mkTimeval 5 0) 2000 7 (double_of_Z 1)
    (mkDuration 1000000000) (mkTimer (mkTimestamp 6000000000) 7 (mkDuration 0) false 2) 2 [] timer_w)
    as (w1 & Hrun & _ & Hi & _ & Hp & _).
  - apply timer_w_inv.
  - right. exists (mkTimeval 5 0), (mkTimespec 1 0). by vm_compute.
  - by vm_compute.
  - reflexivity.
  - unfold UINTPTR_MAX. lia.
  - vm_compute. reflexivity.
  - by vm_compute.
  - vm_compute. reflexivity.
  - exists w1. split; [exact Hrun|]. split; [exact Hp|exact Hi].
Defined.
