(* ===== verification/LoopClock.v ===== *)
(** * A loop and its timers, over any number of turns

    LoopTimers.v run turn after turn: other threads add and cancel timers and queue
    functors, the wait reports any of the loop's channels, and the code of timers,
    channels and functors does the same in the loop's thread. *)

From S2P Require Import Prelude LoopThread Duration Timestamp Channel EPoller EPollerFacts EventFd.
From S2P Require Import ServerStatus LoopChannels OrdSet TimerQueue TimerFacts TimerRun TimerProps.
From S2P Require Import EventLoop EventLoopProps LoopTimers.
#[local] Open Scope Z_scope.

(** The timerfd, the eventfd and epoll leave each other alone. *)
Class ClockLaws (K : Type) `{EpollKernel K, EventfdKernel K, TimerfdKernel K} := {
  settime_epoll at_ ts k : interest (timerfd_settime at_ ts k).2 = interest k;
  tread_epoll k : interest (timerfd_read k).2 = interest k;
  ewrite_epoll n k : interest (efd_write n k).2 = interest k;
  eread_epoll k : interest (efd_read k).2 = interest k;
  ewrite_alarm n k : alarm (efd_write n k).2 = alarm k;
  eread_alarm k : alarm (efd_read k).2 = alarm k;
  wait_alarm n t k : alarm (epoll_wait n t k).2 = alarm k
}.

(** What code does to the loop: add a timer (with the address of the new object and
    the clock), cancel one, queue a functor, change its own state. *)
Inductive op (G TC V : Type) :=
  | OAdd (tv : timeval) (new : ptr) (cb : TC) (when : Timestamp) (interval : double)
  | OCancel (timerid : InvokeTimerID)
  | OQueue (g : G)
  | OSet (f : V -> V).
Arguments OAdd {G TC V} tv new cb when interval. Arguments OCancel {G TC V} timerid.
Arguments OQueue {G TC V} g. Arguments OSet {G TC V} f.

(** The code: of a timer, a channel, a functor. *)
Inductive site (G Cb TC : Type) := OfTimer (cb : TC) | OfChannel (cb : Cb) | OfFunctor (g : G).
Arguments OfTimer {G Cb TC} cb. Arguments OfChannel {G Cb TC} cb. Arguments OfFunctor {G Cb TC} g.

(** What another thread does, or the world to the kernel. *)
Inductive deed (G TC V K : Type) := Do (by_ : thread_id) (o : op G TC V) | Outside (f : K -> K).
Arguments Do {G TC V K} by_ o. Arguments Outside {G TC V K} f.

(** A turn: the deeds before the wait returns, and the clock then, when the timers
    are run, when the timerfd is set again, and when a functor adds a timer. *)
Record lap (G TC V K : Type) := mkLap {
  deeds : list (deed G TC V K);
  at_poll : timeval; at_timer : timeval; at_reset : timeval; at_functors : timeval
}.
Arguments mkLap {G TC V K}. Arguments deeds {G TC V K}. Arguments at_poll {G TC V K}.
Arguments at_timer {G TC V K}. Arguments at_reset {G TC V K}. Arguments at_functors {G TC V K}.

Section LoopClock.
Context {G Cb TC V K : Type} `{EpollKernel K, EventfdKernel K, TimerfdKernel K}.
Abbreviation qworld := (lworld (tfunctor G) (loop_cb Cb) (tqueue TC * V) K).
Context (code : site G Cb TC -> qworld -> list (op G TC V)).

Definition run_op (cur : thread_id) (o : op G TC V) (w : qworld) : result qworld :=
  match o with
  | OAdd tv new cb when interval => '(_, w) ← loop_AddTimer cur tv new cb when interval w; Ok w
  | OCancel id => loop_Cancel cur id w
  | OQueue g => Ok (QueueInLoop cur (FCall g) w)
  | OSet f => Ok (EventLoop.set_user ((EventLoop.user w).1, f (EventLoop.user w).2) w)
  end.

Definition run_code (x : site G Cb TC) (w : qworld) : result qworld := foldM (run_op (tid_ w)) (code x w) w.

Definition run_deed (d : deed G TC V K) (w : qworld) : result qworld :=
  match d with
  | Do by_ o => run_op by_ o w
  | Outside f => Ok (set_io (set_kernel (f (kernel (io w))) (io w)) w)
  end.

Definition clock_call (tv tv' : timeval) : loop_cb Cb -> qworld -> result qworld :=
  call_loop (fun cb => run_code (OfTimer cb)) (fun cb => run_code (OfChannel cb)) tv tv'.
Definition clock_exec (tv : timeval) : tfunctor G -> qworld -> result qworld :=
  exec_loop (fun g => run_code (OfFunctor g)) tv.

Definition run_lap (x : lap G TC V K) (w : qworld) : result qworld :=
  w ← foldM run_deed (deeds x) w;
  EventLoop.turn (clock_exec (at_functors x)) (clock_call (at_timer x) (at_reset x)) id (at_poll x) w.

Definition run_laps (l : list (lap G TC V K)) (w : qworld) : result qworld := foldM run_lap l w.
End LoopClock.

(** ** What the timer queue's members leave alone *)

Section Kept.
Context {Cb U K : Type} `{EpollKernel K, EventfdKernel K, TimerfdKernel K, !ClockLaws K}.
Abbreviation tworld := (tworld Cb U K).
Implicit Types (s : tworld) (t : InvokeTimer Cb).

(** No timer appears, or changes but for its expiration. *)
Definition same_timer t t' : Prop :=
  interval_ t' = interval_ t /\ repeat_ t' = repeat_ t /\ sequence_ t' = sequence_ t.
Definition evolves (h h' : gmap ptr (InvokeTimer Cb)) : Prop :=
  forall p t', h' !! p = Some t' -> exists t, h !! p = Some t /\ same_timer t t'.

Lemma evolves_refl h : evolves h h.
Proof. intros p t Ht. by exists t. Qed.

Lemma evolves_trans h1 h2 h3 : evolves h1 h2 -> evolves h2 h3 -> evolves h1 h3.
Proof.
  intros H12 H23 p t3 Ht3. destruct (H23 p t3 Ht3) as (t2 & Ht2 & E1 & E2 & E3).
  destruct (H12 p t2 Ht2) as (t1 & Ht1 & F1 & F2 & F3). exists t1. split; [done|]. split_and!; congruence.
Qed.

Lemma evolves_delete h p : evolves h (delete p h).
Proof. intros q t [_ Ht]%lookup_delete_Some. by exists t. Qed.

Record tkept s s' : Prop := {
  tk_user : TimerQueue.user s' = TimerQueue.user s;
  tk_interest : interest (timerfd s') = interest (timerfd s);
  tk_created : num_created_ s' = num_created_ s;
  tk_heap : evolves (heap s) (heap s')
}.

Lemma tkept_refl s : tkept s s.
Proof. split; try done. apply evolves_refl. Qed.

Lemma tkept_trans s1 s2 s3 : tkept s1 s2 -> tkept s2 s3 -> tkept s1 s3.
Proof. intros [] []. split; [congruence..|]. by eapply evolves_trans. Qed.

Lemma tkept_fold {X} (f : X -> tworld -> result tworld) l s s' :
  (forall x a b, f x a = Ok b -> tkept a b) -> foldM f l s = Ok s' -> tkept s s'.
Proof.
  intros Hf. apply (foldM_invariant (tkept s)); [|apply tkept_refl].
  intros x a b Ha Hb%Hf. by eapply tkept_trans.
Qed.

Lemma resettimerfd_tkept tv e s s' : resettimerfd tv e s = Ok s' -> tkept s s'.
Proof.
  unfold resettimerfd. intros Hr. inv_ok. pose proof (settime_epoll tv x (timerfd s)) as Hs.
  destruct (timerfd_settime _ _ _) as [r k]. inv_ok. split; try done. apply evolves_refl.
Qed.

Lemma Insert_tkept tid cur p s b s' : Insert tid cur p s = Ok (b, s') -> tkept s s' /\ heap s' = heap s.
Proof.
  unfold Insert. intros Hr. inv_ok.
  repeat (match goal with Hx : context [set_insert ?a ?b] |- _ => destruct (set_insert a b) end; inv_ok).
  split; [|done]. split; try done. apply evolves_refl.
Qed.

Lemma AddTimerInLoop_tkept tid cur tv p s s' :
  AddTimerInLoop tid cur tv p s = Ok s' -> tkept s s' /\ heap s' = heap s.
Proof.
  unfold AddTimerInLoop. intros Hr. inv_ok. destruct x0 as [b s1]. apply Insert_tkept in E0 as [Hk Hh].
  destruct b; inv_ok; [|done]. rewrite <- Hh. split.
  - eapply tkept_trans; [exact Hk|]. by eapply resettimerfd_tkept.
  - unfold resettimerfd in Hr. inv_ok. destruct (timerfd_settime _ _ _) as [r k]. by inv_ok.
Qed.

Lemma CancelInLoop_tkept tid cur i s s' : CancelInLoop tid cur i s = Ok s' -> tkept s s'.
Proof.
  unfold CancelInLoop, free. intros Hr. inv_ok.
  destruct (set_find _ _); inv_ok.
  - destruct (set_erase _ (timers_ s)). inv_ok. split; try done. apply evolves_delete.
  - destruct (is_calling_expired_timers_ s); inv_ok; split; try done; apply evolves_refl.
Qed.

Lemma GetExpired_tkept now s e s' : GetExpired now s = Ok (e, s') -> tkept s s'.
Proof.
  unfold GetExpired. intros Hr. inv_ok. destruct (lower_bound _ _) as [l rest]. inv_ok.
  apply (tkept_trans _ (set_timers rest s)); [split; try done; apply evolves_refl|].
  eapply tkept_fold; [|exact E1]. intros it a b Hab. unfold erase_active in Hab. inv_ok.
  destruct (set_erase _ _). inv_ok. split; try done. apply evolves_refl.
Qed.

Lemma reset_one_tkept tid cur now it s s' : reset_one tid cur now it s = Ok s' -> tkept s s'.
Proof.
  unfold reset_one, free, timer_at. intros Hr. inv_ok. apply deref_ok in E.
  destruct (_ && _) eqn:Er; inv_ok; [|split; try done; apply evolves_delete].
  destruct x1 as [b s1]. inv_ok. apply Insert_tkept in E1 as [Hk _]. eapply tkept_trans; [|exact Hk].
  split; try done. intros q t'. simpl. destruct (decide (q = it.2)) as [->|]; [|rewrite lookup_insert_ne by done; eauto].
  - rewrite lookup_insert_eq. intros [= <-]. exists x. split; [done|]. unfold Restart in E0. by inv_ok.
  - intros Ht. by exists t'.
Qed.

Lemma Reset_tkept tid cur tv e now s s' : Reset tid cur tv e now s = Ok s' -> tkept s s'.
Proof.
  unfold Reset. intros Hr. apply bind_ok in Hr as (s1 & Hf & Hr). apply bind_ok in Hr as (n & _ & Hr).
  eapply tkept_trans; [eapply tkept_fold; [|exact Hf]; intros; by eapply reset_one_tkept|].
  destruct (IsValid n); [by eapply resettimerfd_tkept|]. inv_ok. apply tkept_refl.
Qed.

(** [HandleRead] but for the callbacks. *)
Lemma HandleRead_parts tid call cur tv tv' s s' :
  TimerQueue.HandleRead tid call cur tv tv' s = Ok s' ->
  exists its s1 s2, tkept s s1 /\ foldM (OnTimerTriggered call) its s1 = Ok s2 /\ tkept s2 s'.
Proof.
  unfold TimerQueue.HandleRead. intros Hr. apply bind_ok in Hr as (? & _ & Hr).
  apply bind_ok in Hr as ([its s1] & Hg & Hr). apply bind_ok in Hr as (s2 & Hf & Hr).
  apply GetExpired_tkept in Hg. apply Reset_tkept in Hr.
  exists its, (set_canceling [] (TimerQueue.set_calling true s1)), s2. split_and!; try done.
  - apply (tkept_trans _ (readtimerfd s)).
    { split; try done; [apply tread_epoll|apply evolves_refl]. }
    eapply tkept_trans; [exact Hg|]. split; try done. apply evolves_refl.
  - eapply tkept_trans; [|exact Hr]. split; try done. apply evolves_refl.
Qed.
End Kept.

Section Clock.
Context {G Cb TC V K : Type} `{EpollLaws K, EventfdKernel K, TimerfdLaws K, !ClockLaws K}.
Abbreviation qworld := (lworld (tfunctor G) (loop_cb Cb) (tqueue TC * V) K).
Abbreviation tstate := (tworld TC qworld K).
Implicit Types (w : qworld) (s : tstate) (o : op G TC V) (x : lap G TC V K).
Context (code : site G Cb TC -> qworld -> list (op G TC V)) (D : Z).

(** ** What code leaves alone *)

(** The timers that functors will add. *)
Definition flying (l : list (tfunctor G)) : list ptr :=
  omap (fun f => match f with FAddTimer p => Some p | _ => None end) l.

Lemma flying_app l l' : flying (l ++ l') = flying l ++ flying l'.
Proof. apply omap_app. Qed.

Record kept w w' : Prop := {
  kp_tid : tid_ w' = tid_ w;
  kp_poller : poller (io w') = poller (io w);
  kp_channels : channels (io w') = channels (io w);
  kp_interest : interest (kernel (io w')) = interest (kernel (io w));
  kp_pending : exists l, pending_functors_ w' = pending_functors_ w ++ l /\ flying l = []
}.

Lemma kept_refl w : kept w w.
Proof. split; try done. exists []. by rewrite app_nil_r. Qed.

Lemma kept_trans w1 w2 w3 : kept w1 w2 -> kept w2 w3 -> kept w1 w3.
Proof.
  intros [? ? ? ? (l & Hl & Fl)] [? ? ? ? (l' & Hl' & Fl')]. split; [congruence..|].
  exists (l ++ l'). by rewrite Hl', Hl, app_assoc, flying_app, Fl, Fl'.
Qed.

(** A repeating timer's interval is positive and at most [D]. *)
Definition small (t : InvokeTimer TC) : Prop := repeat_ t = true -> 0 < ns_ (interval_ t) <= D.

(** A property of the timers and their number that no member breaks. *)
Record heap_inv (J : gmap ptr (InvokeTimer TC) -> Z -> Prop) : Prop := {
  hi_evolves h h' n : evolves h h' -> J h n -> J h' n;
  hi_new h n p cb when interval t n' :
    J h n -> InvokeTimer_new cb when interval n = Ok (t, n') -> small t -> J (<[p := t]> h) n'
}.

Definition heap_at (J : gmap ptr (InvokeTimer TC) -> Z -> Prop) w : Prop := J (q_heap (queue w)) (q_created (queue w)).

Definition after w w' : Prop := kept w w' /\ forall J, heap_inv J -> heap_at J w -> heap_at J w'.

Lemma after_refl w : after w w.
Proof. split; [apply kept_refl|done]. Qed.

Lemma after_trans w1 w2 w3 : after w1 w2 -> after w2 w3 -> after w1 w3.
Proof. intros [Hk HJ] [Hk' HJ']. split; [by eapply kept_trans|auto]. Qed.

Lemma tkept_after s s' : tkept s s' -> after (from_tw s) (from_tw s').
Proof.
  intros [Hu Hk Hc Hh]. split.
  - unfold from_tw. rewrite Hu. split; try done. exists []. by rewrite app_nil_r.
  - intros J HJ. unfold heap_at, from_tw. simpl. rewrite Hc. by apply HJ.
Qed.

(** The conditions on an operation: the clock works, the new object is fresh, and
    the numbers are in range. *)
Definition op_ok o w : Prop :=
  match o with
  | OAdd tv new cb when interval =>
      sane tv /\ q_heap (queue w) !! new = None /\ 0 < new < UINTPTR_MAX /\ 0 <= ts_ns when < 2 ^ 63 /\
      exists t n, InvokeTimer_new cb when interval (q_created (queue w)) = Ok (t, n) /\ small t
  | _ => True
  end.

Lemma queue_io cur f w :
  let w' := QueueInLoop cur f w in
  tid_ w' = tid_ w /\ poller (io w') = poller (io w) /\ channels (io w') = channels (io w) /\
  interest (kernel (io w')) = interest (kernel (io w)).
Proof.
  unfold QueueInLoop, Wakeup, push_functor. pose proof (ewrite_epoll 1 (kernel (io w))) as E.
  destruct (must_wake _ _); simpl; [destruct (efd_write 1 (kernel (io w))) as [n k]|]; done.
Qed.

Lemma queue_after cur f w : flying [f] = [] -> after w (QueueInLoop cur f w).
Proof.
  intros Hf. destruct (queue_io cur f w) as (? & ? & ? & ?). destruct (QueueInLoop_queue cur f w) as [Hu Hp].
  split; [split; try done; by exists [f]|]. intros J _. unfold heap_at, queue. by rewrite Hu.
Qed.

(** An operation in the loop's thread. *)
Lemma op_after o w w' : op_ok o w -> run_op (tid_ w) o w = Ok w' -> after w w'.
Proof.
  destruct o as [tv new cb when i|id|g|f]; simpl; intros Ho Hr.
  - destruct Ho as (_ & _ & _ & _ & t & n & Ht & Hsm). unfold loop_AddTimer, AddTimer in Hr.
    change (num_created_ (to_tw w)) with (q_created (queue w)) in Hr. rewrite Ht in Hr.
    cbn [mbind result_bind] in Hr. rewrite in_own_thread in Hr.
    apply bind_ok in Hr as ([i1 w1] & Hr & [= <-]). apply bind_ok in Hr as ([i2 s2] & Hr & [= _ <-]).
    apply bind_ok in Hr as (s3 & Hr & Hs). apply bind_ok in Hs as (t3 & _ & [= _ <-]).
    apply AddTimerInLoop_tkept in Hr as [Hr _]. apply tkept_after in Hr as [Hk HJ]. split.
    + eapply kept_trans; [|exact Hk]. split; try done. exists []. by rewrite app_nil_r.
    + intros J Hi Hw. apply HJ; [done|]. unfold heap_at, from_tw. simpl. by eapply (hi_new J Hi).
  - unfold loop_Cancel, Cancel in Hr. rewrite in_own_thread in Hr. apply bind_ok in Hr as (s & Hr & [= <-]).
    apply CancelInLoop_tkept in Hr. apply tkept_after in Hr. by rewrite from_to in Hr.
  - injection Hr as <-. by apply queue_after.
  - injection Hr as <-. split; [|done]. split; try done. exists []. by rewrite app_nil_r.
Qed.

(** ** Code runs *)

(** What code does to the queue. *)
Definition runs_to (late : option Timestamp) F w w' : Prop :=
  tinv F (to_tw w') /\ rings late (to_tw w') /\ star (tstep (tid_ w)) (to_tw w) (to_tw w').

(** Only what the queue does not see changes. *)
Lemma unseen_step tid u k s : alarm k = alarm (timerfd s) -> star (tstep tid) s (TimerQueue.set_user u (set_timerfd k s)).
Proof. intros Ha. eapply star_step; [by apply (step_user _ u k s)|]. by destruct s; constructor. Qed.

Lemma same_queue_runs late F w w' :
  same_queue w w' -> tinv F (to_tw w) -> rings late (to_tw w) -> runs_to late F w w'.
Proof.
  intros [Hu Ha] Hi Hr. split; [by eapply tinv_same_queue|]. split; [by eapply rings_same_queue|].
  assert (to_tw w' = TimerQueue.set_user w' (set_timerfd (kernel (io w')) (to_tw w))) as ->
    by (unfold to_tw; by rewrite Hu). by apply unseen_step.
Qed.

Lemma queue_same cur f w : same_queue w (QueueInLoop cur f w).
Proof.
  unfold QueueInLoop, Wakeup, push_functor. pose proof (ewrite_alarm 1 (kernel (io w))) as E.
  destruct (must_wake _ _); simpl; [destruct (efd_write 1 (kernel (io w))) as [n k]|]; by split.
Qed.

Lemma view_step tid s s' : tstep tid s s' -> star (tstep tid) s (to_tw (from_tw s')).
Proof.
  intros Hs. eapply star_step; [exact Hs|].
  assert (to_tw (from_tw s') = TimerQueue.set_user (from_tw s') (set_timerfd (timerfd s') s')) as -> by by destruct s'.
  by apply unseen_step.
Qed.

Lemma op_runs late o F w :
  tinv F (to_tw w) -> rings late (to_tw w) -> op_ok o w ->
  exists w', run_op (tid_ w) o w = Ok w' /\ runs_to late F w w'.
Proof.
  destruct o as [tv new cb when i|id|g|f]; simpl; intros Hi Hr Ho.
  - destruct Ho as (Hs & Hnew & Hrange & Hw & t & n & Ht & _).
    destruct (AddTimer_spec (tid_ w) late tv new cb when i t n F (to_tw w) Hi Hr Hs Hnew Hrange Hw Ht)
      as (s & Hrun & Hi' & Hr' & _).
    exists (from_tw s). split.
    + change (q_created (queue w)) with (num_created_ (to_tw w)) in Ht.
      unfold loop_AddTimer, AddTimer in *. rewrite Ht in *. cbn [mbind result_bind] in *.
      rewrite in_own_thread. by rewrite Hrun.
    + split; [by apply tinv_from|]. split; [by apply rings_from|]. apply view_step. by eapply step_add.
  - destruct (CancelInLoop_spec (tid_ w) late id F (to_tw w) Hi Hr) as (s & Hrun & Hi' & Hr' & _).
    exists (from_tw s). split.
    + unfold loop_Cancel, Cancel. rewrite in_own_thread. by rewrite Hrun.
    + split; [by apply tinv_from|]. split; [by apply rings_from|]. apply view_step. by eapply step_cancel.
  - eexists. split; [done|]. apply same_queue_runs; [apply queue_same|done..].
  - eexists. split; [done|]. by apply same_queue_runs.
Qed.

(** Every piece of code has its operations' conditions hold when they are reached. *)
Definition code_ok : Prop := forall (x : site G Cb TC) w, throughout op_ok (run_op (tid_ w)) (code x w) w.
Context (Hcode : code_ok).

Lemma ops_after l w w' :
  throughout op_ok (run_op (tid_ w)) l w -> foldM (run_op (tid_ w)) l w = Ok w' -> after w w'.
Proof.
  revert w. induction l as [|o l IH]; intros w Ht Hr; cbn [foldM] in Hr; [injection Hr as <-; apply after_refl|].
  apply throughout_cons in Ht as [Ho Ht]. apply bind_ok in Hr as (w1 & Hr1 & Hr).
  pose proof (op_after o w w1 Ho Hr1) as Ha1. specialize (Ht w1 Hr1).
  rewrite <- (kp_tid _ _ (proj1 Ha1)) in Ht, Hr. eapply after_trans; [exact Ha1|]. by apply IH.
Qed.

Lemma code_after (x : site G Cb TC) w w' : run_code code x w = Ok w' -> after w w'.
Proof. apply ops_after, Hcode. Qed.

Lemma ops_run late l F w :
  tinv F (to_tw w) -> rings late (to_tw w) -> throughout op_ok (run_op (tid_ w)) l w ->
  exists w', foldM (run_op (tid_ w)) l w = Ok w' /\ runs_to late F w w'.
Proof.
  revert w. induction l as [|o l IH]; intros w Hi Hr Ht; cbn [foldM].
  { exists w. split; [done|]. split; [done|]. split; [done|constructor]. }
  apply throughout_cons in Ht as [Ho Ht]. destruct (op_runs late o F w Hi Hr Ho) as (w1 & Hr1 & Hi1 & Hrg1 & Hst1).
  pose proof (op_after o w w1 Ho Hr1) as Ha1. specialize (Ht w1 Hr1).
  pose proof (kp_tid _ _ (proj1 Ha1)) as Htid. rewrite <- Htid in Ht.
  destruct (IH w1 Hi1 Hrg1 Ht) as (w' & Hr' & Hi' & Hrg' & Hst').
  exists w'. rewrite Hr1. cbn [mbind result_bind]. rewrite Htid in Hr'. split; [done|].
  split; [done|]. split; [done|]. rewrite Htid in Hst'. by eapply star_trans.
Qed.

Lemma code_runs late (x : site G Cb TC) F w :
  tinv F (to_tw w) -> rings late (to_tw w) ->
  exists w', run_code code x w = Ok w' /\ runs_to late F w w'.
Proof. intros Hi Hr. by apply ops_run. Qed.

Abbreviation timer_code := (fun cb => run_code code (OfTimer cb)).

(** In the loop's thread, whichever it is, the members do the same. *)
Lemma tstep_thread tid tid' s s' : tstep tid s s' -> tstep tid' s s'.
Proof.
  intros [tv new cb when i d s1 s2 ? ? ? ? Hr|i s1 s2 Hr|u k s1 Hk]; [eapply step_add|eapply step_cancel|by apply step_user];
    try done.
  - unfold AddTimer, AddTimerInLoop, Insert in *. cbv beta in *.
    rewrite AssertInLoopThread_refl in Hr |- *. exact Hr.
  - unfold Cancel, CancelInLoop in *. cbv beta in *. rewrite AssertInLoopThread_refl in Hr |- *. exact Hr.
Qed.

Lemma code_well_behaved tid : well_behaved tid (call_timer timer_code).
Proof.
  intros cb F s Hi. apply tinv_from in Hi.
  destruct (code_runs _ (OfTimer cb) F (from_tw s) Hi (rings_after_epoch F _ Hi)) as (w' & Hr & _ & _ & Hst).
  exists (to_tw w'). unfold call_timer. rewrite Hr. split; [done|].
  assert (to_tw (from_tw s) = TimerQueue.set_user (from_tw s) (set_timerfd (timerfd s) s)) as Hv by by destruct s.
  eapply star_trans; [by apply (unseen_step tid (from_tw s) (timerfd s) s)|]. rewrite <- Hv.
  clear -Hst. induction Hst; [constructor|]. econstructor; [by eapply tstep_thread|done].
Qed.

(** ** A timer event *)

Lemma on_timer_after tv tv' w w' : on_timer timer_code tv tv' w = Ok w' -> after w w'.
Proof.
  unfold on_timer. intros (s & Hr & [= <-])%bind_ok.
  destruct (HandleRead_parts _ _ _ _ _ _ _ Hr) as (its & s1 & s2 & Hbegin & Hc & Hend).
  apply tkept_after in Hbegin, Hend. rewrite from_to in Hbegin.
  eapply after_trans; [exact Hbegin|]. eapply after_trans; [|exact Hend]. revert Hc.
  apply (foldM_invariant (fun s => after (from_tw s1) (from_tw s))); [|apply after_refl].
  intros it a b Ha Hb. unfold OnTimerTriggered in Hb. apply bind_ok in Hb as (t & _ & Hb).
  unfold call_timer in Hb. apply bind_ok in Hb as (y & Hy & [= <-]). rewrite from_to.
  eapply after_trans; [exact Ha|]. by eapply code_after.
Qed.

(** ** The invariant

    [ahead]: the functors taken from the queue and not called yet.  A timer that is
    in neither of the queue's sets is named by exactly one functor. *)
Definition all_small (h : gmap ptr (InvokeTimer TC)) (_ : Z) : Prop := forall p t, h !! p = Some t -> small t.

Lemma all_small_inv : heap_inv all_small.
Proof.
  split.
  - intros h h' n He Hs p t' Ht'. destruct (He p t' Ht') as (t & Ht & E1 & E2 & _). unfold small. rewrite E1, E2.
    by apply (Hs p).
  - intros h n p cb when i t n' Hs _ Ht q t'. destruct (decide (q = p)) as [->|].
    + rewrite lookup_insert_eq. by intros [= <-].
    + rewrite lookup_insert_ne by done. apply Hs.
Qed.

Record clock_inv (ahead : list (tfunctor G)) w : Prop := {
  ki_epoll : inv_but None (io w);
  ki_timers : tinv (flying (ahead ++ pending_functors_ w)) (to_tw w);
  ki_flying : NoDup (flying (ahead ++ pending_functors_ w));
  ki_rings : rings None (to_tw w);
  ki_small : heap_at all_small w
}.

Lemma kept_epoll w w' : kept w w' -> inv_but None (io w) -> inv_but None (io w').
Proof. intros [_ Hp Hc Hk _] [Hm Hkn Hx Hs]. split; rewrite ?Hp, ?Hc; try done; rewrite Hk; done. Qed.

Lemma after_clock ahead ahead' w w' :
  after w w' -> clock_inv ahead w -> NoDup (flying (ahead' ++ pending_functors_ w)) ->
  tinv (flying (ahead' ++ pending_functors_ w)) (to_tw w') -> rings None (to_tw w') -> clock_inv ahead' w'.
Proof.
  intros [Hk HJ] [Hi _ _ _ Hs] Hnd Ht Hr. destruct (kp_pending _ _ Hk) as (l & Hl & Fl). split.
  - by eapply kept_epoll.
  - by rewrite Hl, app_assoc, flying_app, Fl, app_nil_r.
  - by rewrite Hl, app_assoc, flying_app, Fl, app_nil_r.
  - done.
  - by apply (HJ all_small all_small_inv).
Qed.

Lemma runs_clock ahead w w' :
  clock_inv ahead w -> runs_to None (flying (ahead ++ pending_functors_ w)) w w' -> after w w' -> clock_inv ahead w'.
Proof. intros Hc (Hi & Hr & _) Ha. eapply after_clock; [done|done|apply Hc|done|done]. Qed.

(** Only what the queue and the poller do not see changes. *)
Lemma unseen_clock ahead w w' :
  same_queue w w' -> kept w w' -> clock_inv ahead w -> clock_inv ahead w'.
Proof.
  intros Hq Hk Hc. eapply runs_clock; [done|apply same_queue_runs; [done|apply Hc..]|].
  split; [done|]. intros J HJ. unfold heap_at, queue. by rewrite (proj1 Hq).
Qed.

(** ** Callbacks and functors *)

Definition clocks_ok (x : lap G TC V K) : Prop :=
  sane (at_timer x) /\ sane (at_reset x) /\ sane (at_functors x) /\ ts_ns (Now (at_timer x)) + D < 2 ^ 63.

Lemma call_clock x k ahead w :
  clocks_ok x -> clock_inv ahead w ->
  exists w', clock_call code (at_timer x) (at_reset x) k w = Ok w' /\ clock_inv ahead w' /\ after w w'.
Proof.
  intros (Ht & Hrs & _ & HD) Hc. destruct k as [| |cb]; simpl.
  - assert (kept w (EventLoop.HandleRead w) /\ same_queue w (EventLoop.HandleRead w)) as [Hk Hq].
    { unfold EventLoop.HandleRead. pose proof (eread_epoll (kernel (io w))). pose proof (eread_alarm (kernel (io w))).
      destruct (efd_read (kernel (io w))) as [n k]. split; [|by split]. split; try done. exists []. by rewrite app_nil_r. }
    eexists. split; [done|]. split; [by eapply unseen_clock|]. split; [done|].
    intros J _. unfold heap_at, queue. by rewrite (proj1 Hq).
  - destruct (on_timer_spec timer_code (at_timer x) (at_reset x) (flying (ahead ++ pending_functors_ w)) w)
      as (expired & rest & w1 & w2 & w3 & Hr & Hf & _).
    { split; [apply Hc|apply code_well_behaved|done|]. intros p t Hp Hrep. unfold sane in Ht.
      destruct (ki_small _ _ Hc p t Hp Hrep). lia. }
    exists w3. split; [exact Hr|]. apply on_timer_after in Hr. split; [|done].
    destruct (f_inv _ _ _ _ _ _ _ _ _ _ Hf). eapply after_clock; [done|done|apply Hc|done|done].
  - destruct (code_runs None (OfChannel cb) _ w (ki_timers _ _ Hc) (ki_rings _ _ Hc)) as (w' & Hr & Hruns).
    exists w'. split; [done|]. pose proof (code_after _ _ _ Hr). split; [by eapply runs_clock|done].
Qed.

Lemma exec_clock tv f ahead w :
  sane tv -> clock_inv (f :: ahead) w ->
  exists w', clock_exec code tv f w = Ok w' /\ clock_inv ahead w' /\ after w w'.
Proof.
  intros Hs Hc. pose proof Hc as [_ Hi Hnd Hr _]. destruct f as [p|i|g].
  - simpl in Hi, Hnd. apply NoDup_cons in Hnd as [Hp Hnd].
    destruct (ti_inflight _ _ Hi p) as [t Ht]; [left|].
    destruct (FAddTimer_spec (fun g => run_code code (OfFunctor g)) tv p t _ w Hi Hp Ht Hr Hs) as (w' & Hrun & Hi' & Hr' & _).
    exists w'. split; [exact Hrun|].
    assert (after w w') as Ha.
    { simpl in Hrun. apply bind_ok in Hrun as (s & Hrun & [= <-]). apply AddTimerInLoop_tkept in Hrun as [Hrun _].
      apply tkept_after in Hrun. by rewrite from_to in Hrun. }
    split; [|done]. by eapply after_clock.
  - destruct (CancelInLoop_spec (tid_ w) None i _ (to_tw w) Hi Hr) as (s & Hrun & Hi' & Hr' & _).
    exists (from_tw s). simpl. rewrite Hrun. split; [done|]. apply CancelInLoop_tkept, tkept_after in Hrun.
    rewrite from_to in Hrun. split; [|done]. eapply after_clock; [done|done|done|by apply tinv_from|by apply rings_from].
  - destruct (code_runs None (OfFunctor g) _ w Hi Hr) as (w' & Hrun & Hi' & Hr' & _).
    exists w'. split; [exact Hrun|]. pose proof (code_after _ _ _ Hrun). split; [|done]. by eapply after_clock.
Qed.

(** ** What others do *)

Definition deed_ok (d : deed G TC V K) w : Prop :=
  match d with
  | Do _ o => op_ok o w
  | Outside f => interest (f (kernel (io w))) = interest (kernel (io w)) /\ alarm (f (kernel (io w))) = alarm (kernel (io w))
  end.

(** What holds of the timers after a step of any kind. *)
Definition then_heap w w' : Prop := forall J, heap_inv J -> heap_at J w -> heap_at J w'.

Lemma pushed_clock cur f w :
  flying [f] = [] -> clock_inv [] w -> clock_inv [] (QueueInLoop cur f w) /\ then_heap w (QueueInLoop cur f w).
Proof.
  intros Hf Hc. pose proof (queue_after cur f w Hf) as [Hk HJ]. split; [|exact HJ].
  by apply (unseen_clock [] w); [apply queue_same|..].
Qed.

(** A timer made by another thread, in flight until the loop adds it. *)
Lemma add_elsewhere cur tv new cb when i w :
  cur <> tid_ w -> clock_inv [] w -> op_ok (OAdd tv new cb when i) w ->
  exists w', run_op cur (OAdd tv new cb when i) w = Ok w' /\ clock_inv [] w' /\ then_heap w w'.
Proof.
  intros Hne Hc (Hs & Hnew & Hrange & Hw & t & n & Ht & Hsm). simpl. unfold loop_AddTimer, AddTimer.
  change (num_created_ (to_tw w)) with (q_created (queue w)). rewrite Ht. cbn [mbind result_bind].
  unfold run_in_loop, IsInLoopThread. rewrite (proj2 (Z.eqb_neq _ _)) by congruence.
  set (s1 := set_created _ _). set (w1 := QueueInLoop cur (FAddTimer new) (from_tw s1)).
  destruct (QueueInLoop_queue cur (FAddTimer new) (from_tw s1)) as [Hu Hp]. fold w1 in Hu, Hp.
  destruct (queue_io cur (FAddTimer new) (from_tw s1)) as (_ & Hpo & Hch & Hin). fold w1 in Hpo, Hch, Hin.
  assert (heap (to_tw w1) = <[new := t]> (q_heap (queue w))) as Hh by (simpl; by rewrite Hu).
  cbn [mbind result_bind]. unfold timer_at. rewrite Hh, lookup_insert_eq. cbn [deref mbind result_bind].
  exists w1. rewrite from_to. split; [done|].
  assert (then_heap w w1) as HJ.
  { intros J HJ Hj. unfold heap_at, queue. rewrite Hu. by eapply (hi_new J HJ). }
  split; [|exact HJ].
  assert (Permutation (flying ([] ++ pending_functors_ w1)) (new :: flying ([] ++ pending_functors_ w))) as Hperm.
  { simpl. rewrite Hp. change (pending_functors_ (from_tw s1)) with (pending_functors_ w). rewrite flying_app.
    simpl. by rewrite <- Permutation_cons_append. }
  destruct Hc as [Hi Hti Hnd Hr Hsmall]. split.
  - destruct Hi as [Hm Hkn Hx Hsz]. split; rewrite ?Hpo, ?Hch; try done; rewrite Hin; done.
  - apply (tinv_permute (new :: flying ([] ++ pending_functors_ w))); [done|].
    apply (tinv_ext _ (set_heap (<[new := t]> (heap (to_tw w))) (to_tw w))); [exact Hh|simpl; by rewrite Hu..|].
    apply tinv_alloc; try done. by assert (expiration_ t = when) as -> by (unfold InvokeTimer_new in Ht; by inv_ok).
  - rewrite Hperm. apply NoDup_cons. split; [|done]. intros Hf. destruct (ti_inflight _ _ Hti new Hf) as [y Hy].
    unfold to_tw in Hy. simpl in Hy. unfold queue in Hnew. congruence.
  - destruct (queue_same cur (FAddTimer new) (from_tw s1)) as [_ Ha]. fold w1 in Ha.
    apply (rings_alarm None (to_tw w)); [simpl; by rewrite Hu|exact Ha|done].
  - apply (HJ all_small all_small_inv), Hsmall.
Qed.

Lemma deed_clock d w :
  clock_inv [] w -> deed_ok d w -> exists w', run_deed d w = Ok w' /\ clock_inv [] w' /\ then_heap w w'.
Proof.
  intros Hc Hd. destruct d as [cur o|f]; simpl in *.
  - destruct (decide (cur = tid_ w)) as [->|Hne].
    + destruct (op_runs None o _ w (ki_timers _ _ Hc) (ki_rings _ _ Hc) Hd) as (w' & Hr & Hruns).
      pose proof (op_after o w w' Hd Hr) as Ha. exists w'. split; [done|]. split; [by eapply runs_clock|exact (proj2 Ha)].
    + destruct o as [tv new cb when i|i|g|f]; simpl.
      * by apply add_elsewhere.
      * unfold loop_Cancel, Cancel, run_in_loop, IsInLoopThread. rewrite (proj2 (Z.eqb_neq _ _)) by congruence.
        cbn [mbind result_bind]. eexists. split; [done|]. rewrite !from_to. by apply pushed_clock.
      * eexists. split; [done|]. by apply pushed_clock.
      * eexists. split; [done|]. split; [|by intros J].
        apply (unseen_clock [] w); [by split| |done]. split; try done. exists []. by rewrite app_nil_r.
  - destruct Hd as [Hk Ha]. eexists. split; [done|]. split; [|by intros J].
    apply (unseen_clock [] w); [by split| |done]. split; try done. exists []. by rewrite app_nil_r.
Qed.

(** ** A turn *)

Lemma then_refl w : then_heap w w.
Proof. by intros J. Qed.

Lemma then_trans w1 w2 w3 : then_heap w1 w2 -> then_heap w2 w3 -> then_heap w1 w3.
Proof. intros H12 H23 J HJ Hj. by apply H23, H12. Qed.

(** Events are received, or the flag of a dispatch changes. *)
Lemma marks_clock ahead w w' :
  same_queue w w' -> pending_functors_ w' = pending_functors_ w -> inv_but None (io w') ->
  clock_inv ahead w -> clock_inv ahead w'.
Proof.
  intros Hq Hp Hi [_ Ht Hn Hr Hs]. split; rewrite ?Hp; try done.
  - by apply (tinv_same_queue _ w); [apply Hq|].
  - by apply (rings_same_queue None w).
  - unfold heap_at, queue in *. by rewrite (proj1 Hq).
Qed.

Lemma put_clock ahead p c c' w :
  channels (io w) !! p = Some c -> shape c' = shape c -> clock_inv ahead w -> clock_inv ahead (put_channel p c' w).
Proof.
  intros Hp He Hc. apply (marks_clock ahead w); try done.
  apply (inv_shape None (<[p := c']> (channels (io w)))); [|apply Hc].
  intros q. destruct (decide (q = p)) as [->|]; [|by rewrite lookup_insert_ne].
  rewrite lookup_insert_eq, Hp. simpl. by rewrite He.
Qed.

(** The queue only grows, by functors that add no timer. *)
Definition appends w w' : Prop := exists l, pending_functors_ w' = pending_functors_ w ++ l /\ flying l = [].

Lemma appends_trans w1 w2 w3 : appends w1 w2 -> appends w2 w3 -> appends w1 w3.
Proof.
  intros (l & Hl & Fl) (l' & Hl' & Fl'). exists (l ++ l'). by rewrite Hl', Hl, app_assoc, flying_app, Fl, Fl'.
Qed.

Lemma calls_clock x l ahead w :
  clocks_ok x -> clock_inv ahead w ->
  exists w', foldM (clock_call code (at_timer x) (at_reset x)) l w = Ok w' /\ clock_inv ahead w' /\ after w w'.
Proof.
  intros Hx. revert w. induction l as [|k l IH]; intros w Hc; cbn [foldM].
  { exists w. split; [done|]. split; [done|apply after_refl]. }
  destruct (call_clock x k ahead w Hx Hc) as (w1 & Hr1 & Hc1 & Ha1). destruct (IH w1 Hc1) as (w' & Hr & Hc' & Ha).
  exists w'. rewrite Hr1. split; [done|]. split; [done|]. by eapply after_trans.
Qed.

Lemma call_after x k w w' :
  clock_call code (at_timer x) (at_reset x) k w = Ok w' -> channels (io w') = channels (io w).
Proof.
  destruct k as [| |cb]; simpl.
  - intros [= <-]. unfold EventLoop.HandleRead. by destruct (efd_read _).
  - intros Hr%on_timer_after. apply (kp_channels _ _ (proj1 Hr)).
  - intros Hr%code_after. apply (kp_channels _ _ (proj1 Hr)).
Qed.

Lemma handle_clock x p w :
  clocks_ok x -> clock_inv [] w -> is_Some (channels (io w) !! p) ->
  exists w', handle_channel (clock_call code (at_timer x) (at_reset x)) p w = Ok w' /\ clock_inv [] w' /\
    then_heap w w' /\ appends w w' /\ forall q, is_Some (channels (io w) !! q) -> is_Some (channels (io w') !! q).
Proof.
  intros Hx Hc [c Hp]. set (w1 := put_channel p (set_handling true c) w).
  destruct (calls_clock x (due c) [] w1 Hx) as (w2 & Hr & Hc2 & Ha); [by eapply put_clock|].
  pose proof (kp_channels _ _ (proj1 Ha)) as Hch.
  assert (channels (io w2) !! p = Some (set_handling true c)) as Hp2 by (rewrite Hch; apply lookup_insert_eq).
  exists (put_channel p (set_handling false (set_handling true c)) w2). split_and!.
  - rewrite (handle_channel_spec _ p c w Hp).
    + fold w1. rewrite Hr. cbn [mbind result_bind]. unfold channel_at. by rewrite Hp2.
    + intros k y y' cy Hy%call_after Hcy. exists cy. rewrite Hy. by split.
  - by eapply put_clock.
  - intros J HJ Hj. exact (proj2 Ha J HJ Hj).
  - exact (kp_pending _ _ (proj1 Ha)).
  - intros q Hq. simpl. destruct (decide (q = p)) as [->|]; [rewrite lookup_insert_eq; by eexists|].
    rewrite lookup_insert_ne by done. rewrite Hch. simpl. by rewrite lookup_insert_ne.
Qed.

Lemma handles_clock x l w :
  clocks_ok x -> clock_inv [] w -> Forall (fun p => is_Some (channels (io w) !! p)) l ->
  exists w', foldM (handle_channel (clock_call code (at_timer x) (at_reset x))) l w = Ok w' /\ clock_inv [] w' /\
    then_heap w w' /\ appends w w'.
Proof.
  intros Hx. revert w. induction l as [|p l IH]; intros w Hc Hl; cbn [foldM].
  { exists w. split_and!; [done..|apply then_refl|]. exists []. by rewrite app_nil_r. }
  apply Forall_cons in Hl as [Hp Hl].
  destruct (handle_clock x p w Hx Hc Hp) as (w1 & Hr1 & Hc1 & Ha1 & Hap1 & Hd).
  destruct (IH w1 Hc1) as (w' & Hr & Hc' & Ha & Hap); [eapply Forall_impl; [exact Hl|]; intros q; apply Hd|].
  exists w'. rewrite Hr1. split; [done|]. split; [done|]. split; [by eapply then_trans|by eapply appends_trans].
Qed.

Lemma execs_clock tv l ahead w :
  sane tv -> clock_inv (l ++ ahead) w ->
  exists w', foldM (clock_exec code tv) l w = Ok w' /\ clock_inv ahead w' /\ after w w'.
Proof.
  intros Hs. revert w. induction l as [|f l IH]; intros w Hc; cbn [foldM].
  { exists w. split; [done|]. split; [done|apply after_refl]. }
  destruct (exec_clock tv f (l ++ ahead) w Hs Hc) as (w1 & Hr1 & Hc1 & Ha1). destruct (IH w1 Hc1) as (w' & Hr & Hc' & Ha).
  exists w'. rewrite Hr1. split; [done|]. split; [done|]. by eapply after_trans.
Qed.

Lemma swap_clock w : clock_inv [] w -> clock_inv (pending_functors_ w) (set_pending [] w).
Proof.
  intros [Hi Ht Hn Hr Hs]. simpl in *. split; simpl; rewrite ?app_nil_r; try done.
  by apply (tinv_same_queue _ w).
Qed.

(** Taking the queue, and the end of [DoPendingFunctors]. *)
Lemma taken_clock w : clock_inv [] w -> clock_inv (pending_functors_ w) (set_pending [] (set_calling true w)).
Proof. intros Hc. apply (swap_clock (set_calling true w)). by apply (marks_clock [] w); [..|apply Hc|]. Qed.

Lemma done_clock w w1 :
  clock_inv [] w1 -> after (set_pending [] (set_calling true w)) w1 ->
  clock_inv [] (set_calling false w1) /\ then_heap w (set_calling false w1) /\
  flying (pending_functors_ (set_calling false w1)) = [].
Proof.
  intros Hc Ha. split_and!.
  - by apply (marks_clock [] w1); [..|apply Hc|].
  - intros J HJ Hj. by apply (proj2 Ha J HJ).
  - destruct (kp_pending _ _ (proj1 Ha)) as (l & Hl & Fl). simpl. by rewrite Hl.
Qed.

Lemma functors_clock tv w :
  sane tv -> clock_inv [] w ->
  exists w', DoPendingFunctors (clock_exec code tv) w = Ok w' /\ clock_inv [] w' /\ then_heap w w' /\
    flying (pending_functors_ w') = [].
Proof.
  intros Hs Hc. unfold DoPendingFunctors. simpl. pose proof (taken_clock w Hc) as Ht.
  rewrite <- (app_nil_r (pending_functors_ w)) in Ht.
  destruct (execs_clock tv (pending_functors_ w) [] _ Hs Ht) as (w1 & Hr & Hc1 & Ha).
  exists (set_calling false w1). rewrite Hr. split; [done|]. by apply done_clock.
Qed.

Lemma poll_clock tv w :
  clock_inv [] w -> event_list_size (poller (io w)) < 2 ^ 62 ->
  exists w', poll_active tv w = Ok w' /\ clock_inv [] w' /\ then_heap w w' /\
    pending_functors_ w' = pending_functors_ w /\ Forall (fun p => is_Some (channels (io w') !! p)) (active_channels_ w').
Proof.
  intros Hc Hs. destruct (poll_active_spec tv w (ki_epoll _ _ Hc) Hs) as (i & a & Hr & Hi & Hk & _ & _ & Ha & _).
  eexists. split; [exact Hr|]. split_and!; try done.
  - apply (marks_clock [] w); try done. split; [done|]. simpl. by rewrite Hk, wait_alarm.
  - by intros J.
  - eapply Forall_impl; [exact Ha|]. intros p (c & Hp & _). by exists c.
Qed.

Definition lap_ok x w : Prop :=
  clocks_ok x /\ throughout deed_ok run_deed (deeds x) w /\
  forall w1, foldM run_deed (deeds x) w = Ok w1 -> event_list_size (poller (io w1)) < 2 ^ 62.

Fixpoint laps_ok (l : list (lap G TC V K)) w : Prop :=
  match l with
  | [] => True
  | x :: l => lap_ok x w /\ forall w', run_lap code x w = Ok w' -> laps_ok l w'
  end.

Lemma deeds_clock l w :
  clock_inv [] w -> throughout deed_ok run_deed l w ->
  exists w', foldM run_deed l w = Ok w' /\ clock_inv [] w' /\ then_heap w w'.
Proof.
  revert w. induction l as [|d l IH]; intros w Hc Ht; cbn [foldM].
  { exists w. split_and!; [done..|apply then_refl]. }
  apply throughout_cons in Ht as [Hd Ht]. destruct (deed_clock d w Hc Hd) as (w1 & Hr1 & Hc1 & Ha1).
  destruct (IH w1 Hc1 (Ht w1 Hr1)) as (w' & Hr & Hc' & Ha). exists w'. rewrite Hr1. split; [done|].
  split; [done|]. by eapply then_trans.
Qed.

(** What the turn has done when it comes to the functors. *)
Lemma to_functors x w w1 :
  clocks_ok x -> clock_inv [] w1 -> foldM run_deed (deeds x) w = Ok w1 ->
  event_list_size (poller (io w1)) < 2 ^ 62 ->
  exists w3, run_lap code x w = DoPendingFunctors (clock_exec code (at_functors x)) w3 /\ clock_inv [] w3 /\
    then_heap w1 w3 /\ appends w1 w3.
Proof.
  intros Hx Hc1 Hr1 Hs. destruct (poll_clock (at_poll x) w1 Hc1 Hs) as (w2 & Hr2 & Hc2 & Ha2 & Hp2 & Hl).
  destruct (handles_clock x _ w2 Hx Hc2 Hl) as (w3 & Hr3 & Hc3 & Ha3 & Hap). exists w3. split.
  - unfold run_lap, turn. rewrite Hr1. cbn [mbind result_bind]. simpl. rewrite Hr2. cbn [mbind result_bind].
    by rewrite Hr3.
  - split; [done|]. split; [by eapply then_trans|]. unfold appends. by rewrite <- Hp2.
Qed.

Lemma lap_clock x w :
  clock_inv [] w -> lap_ok x w ->
  exists w', run_lap code x w = Ok w' /\ clock_inv [] w' /\ then_heap w w' /\ flying (pending_functors_ w') = [].
Proof.
  intros Hc (Hx & Hd & Hs). destruct (deeds_clock (deeds x) w Hc Hd) as (w1 & Hr1 & Hc1 & Ha1).
  destruct (to_functors x w w1 Hx Hc1 Hr1 (Hs w1 Hr1)) as (w3 & -> & Hc3 & Ha3 & _).
  destruct (functors_clock (at_functors x) w3 ltac:(apply Hx) Hc3) as (w' & Hr & Hc' & Ha & Hf).
  exists w'. split_and!; try done. do 2 (eapply then_trans; [done|]). done.
Qed.

Lemma laps_clock l w :
  clock_inv [] w -> flying (pending_functors_ w) = [] -> laps_ok l w ->
  exists w', run_laps code l w = Ok w' /\ clock_inv [] w' /\ then_heap w w' /\ flying (pending_functors_ w') = [].
Proof.
  revert w. induction l as [|x l IH]; intros w Hc Hf Hl.
  { exists w. split_and!; [done..|apply then_refl|done]. }
  destruct Hl as [Hx Hl]. destruct (lap_clock x w Hc Hx) as (w1 & Hr1 & Hc1 & Ha1 & Hf1).
  destruct (IH w1 Hc1 Hf1 (Hl w1 Hr1)) as (w' & Hr & Hc' & Ha & Hf'). exists w'. unfold run_laps. cbn [foldM].
  rewrite Hr1. split; [exact Hr|]. split_and!; try done. by eapply then_trans.
Qed.

(** ** Cancelling *)

(** No timer is named by [i], nor will be. *)
Definition gone (i : InvokeTimerID) (h : gmap ptr (InvokeTimer TC)) (n : Z) : Prop :=
  id_sequence_ i <= n /\ forall t, h !! timer_ i = Some t -> sequence_ t <> id_sequence_ i.

Lemma InvokeTimer_new_seq (cb : TC) when interval n t n' :
  InvokeTimer_new cb when interval n = Ok (t, n') -> sequence_ t = n + 1 /\ n' = n + 1.
Proof.
  unfold InvokeTimer_new. intros Hr. inv_ok. unfold ck32 in *. simpl.
  destruct ((_ <=? _) && (_ <? _)) eqn:E1; inv_ok. apply andb_true_iff in E1 as [?%Z.leb_le ?%Z.ltb_lt].
  split; [done|]. unfold i32. rewrite Z.mod_small; lia.
Qed.

Lemma gone_inv i : heap_inv (gone i).
Proof.
  split.
  - intros h h' n He [Hn Hg]. split; [done|]. intros t' Ht'. destruct (He _ _ Ht') as (t & Ht & _ & _ & ->).
    by apply Hg.
  - intros h n p cb when d t n' [Hn Hg] (Hs & ->)%InvokeTimer_new_seq _. split; [lia|]. intros t'.
    destruct (decide (timer_ i = p)) as [->|]; [|rewrite lookup_insert_ne by done; apply Hg].
    rewrite lookup_insert_eq. intros [= <-]. lia.
Qed.

Lemma counted_inv k : heap_inv (fun _ n => k <= n).
Proof. split; [done|]. intros h n p cb when d t n' Hk (_ & ->)%InvokeTimer_new_seq _. lia. Qed.

(** With nothing in flight, no timer that [i] names survives [CancelInLoop]. *)
Lemma CancelInLoop_gone tid i s s' :
  tinv [] s -> id_sequence_ i <= num_created_ s -> CancelInLoop tid tid i s = Ok s' ->
  gone i (heap s') (num_created_ s').
Proof.
  intros Hi Hn Hr. destruct (CancelInLoop_spec tid _ i [] s Hi (rings_after_epoch [] s Hi)) as (s1 & Hr1 & Hi1 & _ & Ha & _).
  rewrite Hr in Hr1. injection Hr1 as <-. split; [by rewrite (tk_created _ _ (CancelInLoop_tkept _ _ _ _ _ Hr))|].
  intros t Ht Hs. apply Ha, (ti_active _ _ Hi1). exists t. split_and!; try done. apply not_elem_of_nil.
Qed.

Lemma exec_cancel tv i ahead w :
  sane tv -> clock_inv (FCancel i :: ahead) w -> flying (ahead ++ pending_functors_ w) = [] ->
  id_sequence_ i <= q_created (queue w) ->
  exists w', clock_exec code tv (FCancel i) w = Ok w' /\ clock_inv ahead w' /\ after w w' /\ heap_at (gone i) w'.
Proof.
  intros Hs Hc Hf Hn. destruct (exec_clock tv (FCancel i) ahead w Hs Hc) as (w' & Hr & Hc' & Ha).
  exists w'. split_and!; try done. simpl in Hr. apply bind_ok in Hr as (s & Hr & [= <-]).
  pose proof (ki_timers _ _ Hc) as Hi. simpl in Hi. rewrite Hf in Hi. by apply (CancelInLoop_gone _ i _ s) in Hr.
Qed.

(** A cancellation that is pending, behind every timer in flight. *)
Lemma functors_cancel tv i l1 l2 w :
  sane tv -> clock_inv [] w -> pending_functors_ w = l1 ++ FCancel i :: l2 -> flying l2 = [] ->
  id_sequence_ i <= q_created (queue w) ->
  exists w', DoPendingFunctors (clock_exec code tv) w = Ok w' /\ clock_inv [] w' /\ heap_at (gone i) w' /\
    flying (pending_functors_ w') = [].
Proof.
  intros Hs Hc Hp Hf Hn. unfold DoPendingFunctors. simpl. pose proof (taken_clock w Hc) as Ht. rewrite Hp in Ht |- *.
  set (w0 := set_pending [] (set_calling true w)) in *.
  destruct (execs_clock tv l1 (FCancel i :: l2) w0 Hs Ht) as (w1 & Hr1 & Hc1 & Ha1).
  destruct (kp_pending _ _ (proj1 Ha1)) as (l & Hl & Fl).
  destruct (exec_cancel tv i l2 w1 Hs Hc1) as (w2 & Hr2 & Hc2 & Ha2 & Hg).
  { by rewrite Hl, !flying_app, Hf, Fl. }
  { by apply (proj2 Ha1 _ (counted_inv (id_sequence_ i))). }
  rewrite <- (app_nil_r l2) in Hc2. destruct (execs_clock tv l2 [] w2 Hs Hc2) as (w3 & Hr3 & Hc3 & Ha3).
  exists (set_calling false w3). rewrite foldM_app, Hr1. cbn [mbind result_bind foldM]. rewrite Hr2.
  cbn [mbind result_bind]. rewrite Hr3. split; [done|].
  destruct (done_clock w w3 Hc3) as (Hc' & _ & Hf').
  { eapply after_trans; [exact Ha1|]. by eapply after_trans. }
  split; [done|]. split; [|done]. by apply (proj2 Ha3 _ (gone_inv i)).
Qed.

(** The turn in which a timer is cancelled. *)
Lemma lap_cancel x cur i w :
  clock_inv [] w -> id_sequence_ i <= q_created (queue w) -> deeds x = [Do cur (OCancel i)] -> lap_ok x w ->
  (cur = tid_ w -> timer_ i ∉ flying (pending_functors_ w)) ->
  exists w', run_lap code x w = Ok w' /\ clock_inv [] w' /\ heap_at (gone i) w' /\ flying (pending_functors_ w') = [].
Proof.
  intros Hc Hn Hdeeds Hx Hcur. destruct (decide (cur = tid_ w)) as [->|Hne].
  - destruct Hx as (Hx & Hd & Hs). destruct (deeds_clock (deeds x) w Hc Hd) as (w1 & Hr1 & Hc1 & _).
    assert (heap_at (gone i) w1) as Hg.
    { pose proof Hr1 as Hr. rewrite Hdeeds in Hr. cbn [foldM] in Hr. apply bind_ok in Hr as (w' & Hr & [= ->]).
      simpl in Hr. unfold loop_Cancel, Cancel in Hr. rewrite in_own_thread in Hr.
      apply bind_ok in Hr as (s & Hr & [= <-]). pose proof (CancelInLoop_tkept _ _ _ _ _ Hr) as Hk.
      destruct (CancelInLoop_spec (tid_ w) None i _ (to_tw w) (ki_timers _ _ Hc) (ki_rings _ _ Hc)) as (s1 & Hr' & Hi1 & _ & Ha & _).
      rewrite Hr in Hr'. injection Hr' as <-. split; [exact (eq_ind_r (fun n => _ <= n) Hn (tk_created _ _ Hk))|].
      intros t Ht Hsq. apply Ha, (ti_active _ _ Hi1). exists t. split_and!; try done. by apply Hcur. }
    destruct (to_functors x w w1 Hx Hc1 Hr1 (Hs w1 Hr1)) as (w3 & -> & Hc3 & Ha3 & _).
    destruct (functors_clock (at_functors x) w3 ltac:(apply Hx) Hc3) as (w' & Hr & Hc' & Ha & Hf).
    exists w'. split_and!; try done; apply (Ha _ (gone_inv i)), (Ha3 _ (gone_inv i)), Hg.
  - destruct Hx as (Hx & Hd & Hs). destruct (deeds_clock (deeds x) w Hc Hd) as (w1 & Hr1 & Hc1 & Ha1).
    destruct (to_functors x w w1 Hx Hc1 Hr1 (Hs w1 Hr1)) as (w3 & -> & Hc3 & Ha3 & l & Hl & Fl).
    assert (pending_functors_ w1 = pending_functors_ w ++ [FCancel i]) as Hp.
    { rewrite Hdeeds in Hr1. cbn [foldM] in Hr1. apply bind_ok in Hr1 as (w' & Hr & [= <-]). simpl in Hr.
      unfold loop_Cancel, Cancel, run_in_loop, IsInLoopThread in Hr. rewrite (proj2 (Z.eqb_neq _ _)) in Hr by congruence.
      injection Hr as <-. rewrite !from_to. apply QueueInLoop_queue. }
    apply (functors_cancel (at_functors x) i (pending_functors_ w) l w3); [apply Hx|done| |done|].
    + by rewrite Hl, Hp, <- app_assoc.
    + apply (Ha3 _ (counted_inv (id_sequence_ i))), (Ha1 _ (counted_inv (id_sequence_ i))), Hn.
Qed.

(** ** The beginning *)

(** A loop in which no timer was made and nothing is pending. *)
Record clock_idle w : Prop := {
  idle_epoll : inv_but None (io w);
  idle_heap : q_heap (queue w) = ∅;
  idle_timers : q_timers (queue w) = [] /\ q_active (queue w) = [];
  idle_pending : pending_functors_ w = []
}.

Lemma idle_clock w : clock_idle w -> clock_inv [] w /\ flying (pending_functors_ w) = [].
Proof.
  intros [Hi Hh [Ht Ha] Hp]. rewrite Hp. split; [|done]. split; rewrite ?Hp; try done.
  - split; simpl; fold (queue w); rewrite ?Ht, ?Ha, ?Hh; try apply sorted_nil.
    + intros u p. rewrite lookup_empty. split; [by intros ?%elem_of_nil|by intros (? & ? & _)].
    + intros p n. rewrite lookup_empty. split; [by intros ?%elem_of_nil|by intros (? & ? & _)].
    + intros p t. by rewrite lookup_empty.
    + by intros p ?%elem_of_nil.
  - apply NoDup_nil_2.
  - unfold rings. simpl. fold (queue w). by rewrite Ht.
  - intros p t. by rewrite Hh, lookup_empty.
Qed.

(** A timer in flight. *)
Lemma in_flight p l : p ∈ flying l <-> FAddTimer p ∈ l.
Proof.
  unfold flying. rewrite list_elem_of_omap. split.
  - intros ([q| |] & Hin & [= ->]). done.
  - intros Hin. by exists (FAddTimer p).
Qed.

(** The loop's own thread cancels a timer whose functor has not run yet: the functor
    stays, and so does the timer. *)
Theorem cancel_in_flight_lost p t w :
  clock_inv [] w -> q_heap (queue w) !! p = Some t -> FAddTimer p ∈ pending_functors_ w ->
  exists w', loop_Cancel (tid_ w) (mkTimerID p (sequence_ t)) w = Ok w' /\
    q_heap (queue w') !! p = Some t /\ q_timers (queue w') = q_timers (queue w) /\
    pending_functors_ w' = pending_functors_ w.
Proof.
  intros Hc Ht Hin. apply in_flight in Hin. unfold loop_Cancel, Cancel. rewrite in_own_thread.
  rewrite (CancelInLoop_inactive (tid_ w) _ _ _ (ki_timers _ _ Hc)) by (intros; exact Hin).
  eexists. split; [done|]. by destruct (is_calling_expired_timers_ (to_tw w)).
Qed.
End Clock.

(** [C13] The loop keeps its timers.  Begin with a loop without timers, and let it turn
    any number of times while other threads add and cancel timers, the wait reports
    any of its channels, and the code of timers, channels and functors adds and
    cancels timers too.  No assertion fails and nothing is undefined; after every
    turn each timer is in both of the queue's sets and each entry is that of a
    timer; the timerfd, as last set, rings no later than the first timer expires, or
    100 microseconds after it was set; and the kernel watches what the channels say. *)
Theorem loop_keeps_timers {G Cb TC V K} `{EpollLaws K, EventfdKernel K, TimerfdLaws K, !ClockLaws K}
    code D laps (w : lworld (tfunctor G) (loop_cb Cb) (tqueue TC * V) K) :
  code_ok code D -> clock_idle w -> laps_ok code D laps w ->
  exists w', run_laps code laps w = Ok w' /\
    (forall u p, (u, p) ∈ q_timers (queue w') <-> exists t, q_heap (queue w') !! p = Some t /\ expiration_ t = u) /\
    (forall p n, (p, n) ∈ q_active (queue w') <-> exists t, q_heap (queue w') !! p = Some t /\ sequence_ t = n) /\
    sorted (q_timers (queue w')) /\ sorted (q_active (queue w')) /\
    rings None (to_tw w') /\ inv_but None (io w').
Proof.
  intros Hcode Hidle Hl. destruct (idle_clock D w Hidle) as [Hc Hf].
  destruct (laps_clock code D Hcode laps w Hc Hf Hl) as (w' & Hr & [Hi Ht _ Hrg _] & _ & Hf').
  exists w'. split; [done|]. simpl in Ht. rewrite Hf' in Ht. destruct Ht as [Hs Ha Ht Hact _ _]. split_and!; try done.
  - intros u p. rewrite (Ht u p). split; [intros (t & ? & ? & _); by exists t|].
    intros (t & ? & ?). exists t. split_and!; try done. apply not_elem_of_nil.
  - intros p n. rewrite (Hact p n). split; [intros (t & ? & ? & _); by exists t|].
    intros (t & ? & ?). exists t. split_and!; try done. apply not_elem_of_nil.
Qed.

(** [C14] Cancelling takes effect.  A thread other than the loop's cancels a timer by
    its identifier, the timer being in the queue, in flight, or gone; or the loop's
    thread cancels one that is not in flight.  When that turn ends, and after any
    number of further turns, no timer of that name exists: it will not be called
    again. *)
Theorem cancel_takes_effect {G Cb TC V K} `{EpollLaws K, EventfdKernel K, TimerfdLaws K, !ClockLaws K}
    code D cur i x laps (w : lworld (tfunctor G) (loop_cb Cb) (tqueue TC * V) K) :
  code_ok code D -> clock_inv D [] w -> id_sequence_ i <= q_created (queue w) ->
  deeds x = [Do cur (OCancel i)] -> laps_ok code D (x :: laps) w ->
  (cur = tid_ w -> FAddTimer (timer_ i) ∉ pending_functors_ w) ->
  exists w', run_laps code (x :: laps) w = Ok w' /\
    forall t, q_heap (queue w') !! timer_ i = Some t -> sequence_ t <> id_sequence_ i.
Proof.
  intros Hcode Hc Hn Hd [Hx Hl] Hcur.
  destruct (lap_cancel code D Hcode x cur i w Hc Hn Hd Hx) as (w1 & Hr1 & Hc1 & Hg1 & Hf1).
  { intros E Hin%in_flight. by apply Hcur. }
  destruct (laps_clock code D Hcode laps w1 Hc1 Hf1 (Hl w1 Hr1)) as (w' & Hr & _ & Hh & _).
  exists w'. unfold run_laps. cbn [foldM]. rewrite Hr1. split; [exact Hr|].
  apply (Hh _ (gone_inv D i) Hg1).
Qed.
