(* ===== verification/LoopClockDemo.v ===== *)
(** * Turns of a loop with timers, on the kernel of LoopTimersDemo.v *)

From S2P Require Import Prelude LoopThread Duration Timestamp Channel EPoller EPollerFacts EventFd.
From S2P Require Import SimKernel ServerStatus LoopChannels OrdSet TimerQueue TimerFacts TimerRun TimerProps.
From S2P Require Import EventLoop EventLoopProps LoopTimers LoopTimersDemo LoopClock.
#[local] Open Scope Z_scope.

#[export] Instance tsim_clock : ClockLaws tsim.
Proof. split; intros; simpl; unfold sim_efd_write; try done; by destruct (_ <? _). Qed.

(** ** Checking what the turns rely on *)

Section Check.
Context {G Cb TC V K : Type} `{EpollKernel K, EventfdKernel K, TimerfdKernel K}.
Abbreviation qworld := (lworld (tfunctor G) (loop_cb Cb) (tqueue TC * V) K).
Context (code : site G Cb TC -> qworld -> list (op G TC V)) (D : Z).

Definition op_b (o : op G TC V) (w : qworld) : bool :=
  match o with
  | OAdd tv new cb when interval =>
      (0 <? ts_ns (Now tv)) && negb (bool_decide (is_Some (q_heap (queue w) !! new))) &&
      (0 <? new) && (new <? UINTPTR_MAX) && (0 <=? ts_ns when) && (ts_ns when <? 2 ^ 63) &&
      match InvokeTimer_new cb when interval (q_created (queue w)) with
      | Ok (t, _) => negb (repeat_ t) || (0 <? ns_ (interval_ t)) && (ns_ (interval_ t) <=? D)
      | Err _ => false
      end
  | _ => true
  end.

Lemma op_check o w : op_b o w = true -> op_ok D o w.
Proof.
  destruct o as [tv new cb when d| | |]; try done. simpl. rewrite !andb_true_iff.
  intros [[[[[[Hs Hn] H1'] H2'] H3'] H4'] Ht]. unfold sane. rewrite !Z.ltb_lt, Z.leb_le in *.
  apply negb_true_iff, bool_decide_eq_false, eq_None_not_Some in Hn. split_and!; try done.
  destruct (InvokeTimer_new _ _ _ _) as [[t n]|]; [|done]. exists t, n. split; [done|]. intros Hr. rewrite Hr in Ht.
  simpl in Ht. apply andb_true_iff in Ht. by rewrite Z.ltb_lt, Z.leb_le in Ht.
Qed.

Definition clocks_b (x : lap G TC V K) : bool :=
  (0 <? ts_ns (Now (at_timer x))) && (0 <? ts_ns (Now (at_reset x))) && (0 <? ts_ns (Now (at_functors x))) &&
  (ts_ns (Now (at_timer x)) + D <? 2 ^ 63).

Definition deed_b (d : deed G TC V K) (w : qworld) : bool := match d with Do _ o => op_b o w | Outside _ => true end.

Fixpoint laps_b (l : list (lap G TC V K)) (w : qworld) : bool :=
  match l with
  | [] => true
  | x :: l =>
      clocks_b x && throughout_b deed_b run_deed (deeds x) w &&
      match foldM run_deed (deeds x) w with Ok w1 => event_list_size (poller (io w1)) <? 2 ^ 62 | Err _ => true end &&
      match run_lap code x w with Ok w' => laps_b l w' | Err _ => true end
  end.

(** The world does not change what the loop relies on. *)
Definition outside_fine (d : deed G TC V K) : Prop :=
  match d with Outside f => forall k, interest (f k) = interest k /\ alarm (f k) = alarm k | _ => True end.

Lemma laps_check l w : Forall (fun x => Forall outside_fine (deeds x)) l -> laps_b l w = true -> laps_ok code D l w.
Proof.
  intros Hl. revert w. induction Hl as [|x l Hx _ IH]; intros w Hb; [done|]. simpl in Hb.
  apply andb_true_iff in Hb as [[[Hck Hth]%andb_true_iff Hsz]%andb_true_iff Hb].
  unfold clocks_b in Hck. rewrite !andb_true_iff, !Z.ltb_lt in Hck. destruct Hck as [[[? ?] ?] ?].
  split; [|intros w' Hr; rewrite Hr in Hb; by apply IH]. split; [by split_and!|]. split.
  - intros l1 d l2 w' Heq Hr. assert (deed_b d w' = true) as Hd.
    { revert Heq Hr. by apply (throughout_check deed_b (fun d w => deed_b d w = true) run_deed). }
    rewrite Heq in Hx. apply Forall_app in Hx as [_ [Hd' _]%Forall_cons].
    destruct d as [? o|f]; [by apply op_check|apply Hd'].
  - intros w1 Hr. rewrite Hr in Hsz. by apply Z.ltb_lt.
Qed.
End Check.

(** ** Loop 7 of thread 1, as its constructor leaves it: the eventfd is 8, the
    timerfd 9.  A timer appends its number to a list; a functor, where it can, makes
    a timer at 3000 for second 6. *)

Abbreviation clock_world := (lworld (tfunctor Z) (loop_cb Z) (tqueue Z * list Z) tsim).

Definition remind (n : Z) : op Z Z (list Z) := OAdd (mkTimeval 5 0) 3000 n (mkTimestamp 6000000000) (double_of_Z 0).

Definition clock_code (x : site Z Z Z) (w : clock_world) : list (op Z Z (list Z)) :=
  match x with
  | OfTimer n => [OSet (fun l => l ++ [n])]
  | OfChannel _ => []
  | OfFunctor g => if op_b 2000000000 (remind g) w then [remind g] else []
  end.

Lemma throughout_one {X Y} (P : X -> Y -> Prop) f x (y : Y) : P x y -> throughout P f [x] y.
Proof. intros Hp [|? []] ? ? ? [= <- <-]; [|done..]. by intros [= <-]. Qed.

Lemma clock_code_ok : code_ok clock_code 2000000000.
Proof.
  intros [n|n|g] w; unfold clock_code.
  - by apply throughout_one.
  - by intros [] ? ? ? ?.
  - destruct (op_b 2000000000 (remind g) w) eqn:E; [|by intros [] ? ? ? ?].
    apply throughout_one. by apply op_check.
Qed.

Definition clock_start : result clock_world :=
  EventLoop_new 7 1 8 9 6 50 60 OnWakeup OnTimer ∅ (mkTsim (mkSim ∅ [] 0) None) ∅ (mkQueue ∅ 0 [] [] false [], []).

Definition ready (evs : list epoll_event) : deed Z Z (list Z) tsim :=
  Outside (fun k => mkTsim (mkSim (sim_interest (ts_base k)) evs (sim_count (ts_base k))) (ts_alarm k)).

(** In second 5 thread 2 asks for a timer in second 6, every two seconds, and queues
    functor 7; in second 6 the timerfd is readable; later thread 2 cancels. *)
Definition ask : lap Z Z (list Z) tsim :=
  mkLap [Do 2 (OAdd (mkTimeval 5 0) 1000 42 (mkTimestamp 6000000000) (double_of_Z 2)); Do 2 (OQueue 7);
         ready [mkEvent POLLIN 50]] (mkTimeval 5 0) (mkTimeval 5 0) (mkTimeval 5 0) (mkTimeval 5 0).
Definition ring (s : Z) : lap Z Z (list Z) tsim :=
  mkLap [ready [mkEvent POLLIN 60]] (mkTimeval s 0) (mkTimeval s 0) (mkTimeval s 0) (mkTimeval s 0).
Definition cancel : lap Z Z (list Z) tsim :=
  mkLap [Do 2 (OCancel (mkTimerID 1000 1))] (mkTimeval 7 0) (mkTimeval 7 0) (mkTimeval 7 0) (mkTimeval 7 0).

Lemma clock_start_idle : exists w, clock_start = Ok w /\ clock_idle w.
Proof.
  destruct (EventLoop_new_inv (F := tfunctor Z) 7 1 8 9 6 50 60 (@OnWakeup Z) OnTimer (mkTsim (mkSim ∅ [] 0) None) ∅
    (mkQueue ∅ 0 [] [] false [] : tqueue Z, [] : list Z)) as [Hr _]; try done.
  destruct (Hr eq_refl) as (w & Hw & _ & Hp & _ & Hi & _). exists w. split; [exact Hw|].
  assert (EventLoop.user w = (mkQueue ∅ 0 [] [] false [], [])) as Hu.
  { clear -Hw. vm_compute in Hw. injection Hw as <-. reflexivity. }
  split; unfold queue; rewrite ?Hu; done.
Qed.

Lemma loop_keeps_timers_witness :
  exists w w', clock_start = Ok w /\ run_laps clock_code [ask; ring 6] w = Ok w' /\
    (EventLoop.user w').2 = [42; 7] /\ q_timers (queue w') = [(mkTimestamp 8000000000, 1000)] /\
    (exists t, q_heap (queue w') !! 1000 = Some t /\ expiration_ t = mkTimestamp 8000000000) /\
    rings None (to_tw w').
Proof.
  destruct clock_start_idle as (w & Hw & Hidle). exists w.
  destruct (loop_keeps_timers clock_code 2000000000 [ask; ring 6] w) as (w' & Hr & Ht & _ & _ & _ & Hrg & _).
  - apply clock_code_ok.
  - exact Hidle.
  - apply laps_check.
    + repeat constructor.
    + clear -Hw. vm_compute in Hw. injection Hw as <-. vm_compute. reflexivity.
  - exists w'. split; [exact Hw|]. split; [exact Hr|].
    assert ((EventLoop.user w').2 = [42; 7] /\ q_timers (queue w') = [(mkTimestamp 8000000000, 1000)]) as [Hu Hq].
    { clear -Hw Hr. vm_compute in Hw. injection Hw as <-. vm_compute in Hr. injection Hr as <-. split; reflexivity. }
    split; [exact Hu|]. split; [exact Hq|]. split; [|exact Hrg]. apply Ht. rewrite Hq. left.
Defined.

(** Asked for, fired once, and cancelled by thread 2: it does not fire in second 8. *)
Lemma cancel_takes_effect_witness :
  exists w w1 w', clock_start = Ok w /\ run_laps clock_code [ask; ring 6] w = Ok w1 /\
    (exists t, q_heap (queue w1) !! 1000 = Some t /\ sequence_ t = 1) /\
    run_laps clock_code [cancel; ring 8] w1 = Ok w' /\
    (forall t, q_heap (queue w') !! 1000 = Some t -> sequence_ t <> 1) /\ (EventLoop.user w').2 = [42; 7].
Proof.
  destruct clock_start_idle as (w & Hw & Hidle). exists w.
  destruct (idle_clock 2000000000 w Hidle) as [Hc Hf].
  destruct (laps_clock clock_code 2000000000 clock_code_ok [ask; ring 6] w Hc Hf) as (w1 & Hr1 & Hc1 & _ & Hf1).
  { apply laps_check.
    - repeat constructor.
    - clear -Hw. vm_compute in Hw. injection Hw as <-. vm_compute. reflexivity. }
  exists w1. destruct (cancel_takes_effect clock_code 2000000000 2 (mkTimerID 1000 1) cancel [ring 8] w1) as (w' & Hr & Hg).
  - apply clock_code_ok.
  - exact Hc1.
  - clear -Hw Hr1. vm_compute in Hw. injection Hw as <-. vm_compute in Hr1. injection Hr1 as <-. vm_compute. discriminate.
  - reflexivity.
  - apply laps_check.
    + repeat constructor.
    + clear -Hw Hr1. vm_compute in Hw. injection Hw as <-. vm_compute in Hr1. injection Hr1 as <-. vm_compute. reflexivity.
  - intros E. exfalso. clear -Hw Hr1 E. vm_compute in Hw. injection Hw as <-. vm_compute in Hr1. injection Hr1 as <-.
    discriminate E.
  - exists w'. split; [exact Hw|]. split; [exact Hr1|].
    split; [clear -Hw Hr1; vm_compute in Hw; injection Hw as <-; vm_compute in Hr1; injection Hr1 as <-;
      eexists; split; reflexivity|].
    split; [exact Hr|]. split; [exact Hg|].
    clear -Hw Hr1 Hr. vm_compute in Hw. injection Hw as <-. vm_compute in Hr1. injection Hr1 as <-.
    vm_compute in Hr. injection Hr as <-. reflexivity.
Defined.
