(* ===== verification/LoopRace.v ===== *)
(** * Threads and one loop: no functor is lost, no wake-up is missed

    The members of EventLoop.v cut into the steps other threads can see (the
    critical sections, the atomic flags, the eventfd), interleaved.  Rule
    induction over the interleavings gives the two promises of [QueueInLoop] and
    [Stop]. *)

From S2P Require Import Prelude LoopThread Duration Timestamp Channel EPoller ServerStatus LoopChannels.
From S2P Require Import TimerQueue EventFd SimKernel EventLoop.
#[local] Open Scope Z_scope.

(** Where the loop's thread is in [Run]. *)
Inductive loop_pc (F : Type) :=
  | AtCheck                              (* the condition of the while loop *)
  | AtPoll                               (* waiting in poll *)
  | AtHandle                             (* handling the active channels *)
  | BeforeSwap                           (* in DoPendingFunctors, flag set *)
  | InFunctors (todo : list F)           (* calling the functors it took *)
  | InQueue (back : loop_pc F)           (* in QueueInLoop, after the critical section *)
  | Exited.
Arguments AtCheck {F}. Arguments AtPoll {F}. Arguments AtHandle {F}. Arguments BeforeSwap {F}.
Arguments InFunctors {F} todo. Arguments InQueue {F} back. Arguments Exited {F}.

Section Race.
Context {F Cb U K : Type} `{EpollKernel K, EventfdLaws K}.
Abbreviation lworld := (lworld F Cb U K).

(** [waking]: the other threads between their critical section (or the store of
    [Stop]) and their [Wakeup]; [queued], [executed]: what was queued and called,
    in order. *)
Record cstate := mkC {
  loop : lworld;
  pc : loop_pc F;
  waking : list thread_id;
  queued : list F;
  executed : list F
}.

(** Where callbacks and functors of the loop's thread run. *)
Definition runs_user_code (c : loop_pc F) : Prop :=
  match c with AtHandle | InFunctors _ => True | _ => False end.

Inductive step : cstate -> cstate -> Prop :=
  (* another thread *)
  | other_push cur cb w c l q e : cur <> tid_ w ->
      step (mkC w c l q e) (mkC (push_functor cb w) c (cur :: l) (q ++ [cb]) e)
  | other_stop cur w c l q e : cur <> tid_ w ->
      step (mkC w c l q e) (mkC (set_status kStopping w) c (cur :: l) q e)
  | other_wake cur l1 l2 w c q e :
      step (mkC w c (l1 ++ cur :: l2) q e)
        (mkC (if must_wake cur w then Wakeup w else w) c (l1 ++ l2) q e)
  (* the loop's thread: the loop *)
  | loop_check w l q e : IsRunning (status_ w) = true ->
      step (mkC w AtCheck l q e) (mkC w AtPoll l q e)
  | loop_exit w l q e : IsRunning (status_ w) = false ->
      step (mkC w AtCheck l q e) (mkC (set_status kStopped w) Exited l q e)
  | loop_polled w l q e : step (mkC w AtPoll l q e) (mkC w AtHandle l q e)
  | loop_drain w l q e : step (mkC w AtHandle l q e) (mkC (HandleRead w) AtHandle l q e)
  | loop_flag w l q e : step (mkC w AtHandle l q e) (mkC (set_calling true w) BeforeSwap l q e)
  | loop_swap w l q e :
      step (mkC w BeforeSwap l q e)
        (mkC (swap_functors w).2 (InFunctors (swap_functors w).1) l q e)
  | loop_call f fs w l q e :
      step (mkC w (InFunctors (f :: fs)) l q e) (mkC w (InFunctors fs) l q (e ++ [f]))
  | loop_unflag w l q e :
      step (mkC w (InFunctors []) l q e) (mkC (set_calling false w) AtCheck l q e)
  (* the loop's thread: what callbacks and functors do *)
  | loop_push cb w c l q e : runs_user_code c ->
      step (mkC w c l q e) (mkC (push_functor cb w) (InQueue c) l (q ++ [cb]) e)
  | loop_wake w c l q e :
      step (mkC w (InQueue c) l q e) (mkC (if must_wake (tid_ w) w then Wakeup w else w) c l q e)
  | loop_stop w c l q e : runs_user_code c ->
      step (mkC w c l q e) (mkC (set_status kStopping w) c l q e)
  | loop_user u w c l q e : runs_user_code c ->
      step (mkC w c l q e) (mkC (set_user u w) c l q e).

(** The functors taken and not yet called. *)
Fixpoint todo (c : loop_pc F) : list F :=
  match c with InFunctors fs => fs | InQueue c => todo c | _ => [] end.

(** The swap of this turn is still ahead. *)
Definition will_swap (c : loop_pc F) : Prop :=
  match c with AtHandle | BeforeSwap | InQueue _ => True | _ => False end.

(** What [is_calling_pending_functors_] is, and which nestings occur. *)
Fixpoint flag_at (c : loop_pc F) : bool :=
  match c with BeforeSwap | InFunctors _ => true | InQueue c => flag_at c | _ => false end.
Definition pc_ok (c : loop_pc F) : Prop :=
  match c with InQueue c => runs_user_code c | _ => True end.

Definition count (s : cstate) : Z := efd_count (kernel (io (loop s))).

(** The loop will be woken: the eventfd is readable, or a thread is about to write. *)
Definition awake (s : cstate) : Prop := 0 < count s \/ waking s <> [].

Record race_inv (s : cstate) : Prop := {
  r_fifo : queued s = executed s ++ todo (pc s) ++ pending_functors_ (loop s);
  r_wake : pending_functors_ (loop s) <> [] -> awake s \/ will_swap (pc s);
  r_stop : pc s = AtPoll -> status_ (loop s) <> kRunning -> awake s;
  r_flag : is_calling_pending_functors_ (loop s) = flag_at (pc s);
  r_pc : pc_ok (pc s);
  r_threads : Forall (fun t => t <> tid_ (loop s)) (waking s)
}.

Lemma Wakeup_count (w : lworld) : 0 < efd_count (kernel (io (Wakeup w))).
Proof.
  unfold Wakeup. pose proof (efd_write_pos (kernel (io w))) as Hp.
  destruct (efd_write 1 (kernel (io w))) as [n k]. done.
Qed.

Lemma Wakeup_same (w : lworld) :
  tid_ (Wakeup w) = tid_ w /\ status_ (Wakeup w) = status_ w /\
  is_calling_pending_functors_ (Wakeup w) = is_calling_pending_functors_ w /\
  pending_functors_ (Wakeup w) = pending_functors_ w.
Proof. unfold Wakeup. by destruct (efd_write 1 (kernel (io w))). Qed.

Lemma HandleRead_same (w : lworld) :
  tid_ (HandleRead w) = tid_ w /\ status_ (HandleRead w) = status_ w /\
  is_calling_pending_functors_ (HandleRead w) = is_calling_pending_functors_ w /\
  pending_functors_ (HandleRead w) = pending_functors_ w.
Proof. unfold HandleRead. by destruct (efd_read (kernel (io w))). Qed.

Lemma must_wake_other cur (w : lworld) : cur <> tid_ w -> must_wake cur w = true.
Proof.
  intros Hne. unfold must_wake, IsInLoopThread.
  replace (tid_ w =? cur) with false; [done|]. symmetry. apply Z.eqb_neq. congruence.
Qed.

Lemma must_wake_self (w : lworld) : must_wake (tid_ w) w = is_calling_pending_functors_ w.
Proof. unfold must_wake, IsInLoopThread. by rewrite Z.eqb_refl. Qed.

Lemma race_step s s' : race_inv s -> step s s' -> race_inv s'.
Proof.
  intros [Hf Hw Hs Hc Hp Ht] Hstep.
  destruct Hstep; simpl in *; try (by split; simpl; eauto);
    unfold awake, count in *; simpl in *.
  - (* other_push *)
    split; simpl; unfold awake, count; simpl; auto. by rewrite Hf, !app_assoc.
  - (* other_stop *)
    split; simpl; unfold awake, count; simpl; auto.
  - (* other_wake *)
    apply Forall_app in Ht as [Ht1 Ht2]. apply Forall_cons in Ht2 as [Hcur Ht2].
    rewrite (must_wake_other cur w Hcur). pose proof (Wakeup_count w).
    destruct (Wakeup_same w) as (E1 & E2 & E3 & E4).
    split; simpl; unfold awake, count; simpl; rewrite ?E1, ?E2, ?E3, ?E4; auto.
    apply Forall_app. auto.
  - (* loop_check *)
    apply bool_decide_eq_true in H2.
    split; simpl; unfold awake, count; simpl; auto.
  - (* loop_drain *)
    destruct (HandleRead_same w) as (E1 & E2 & E3 & E4).
    split; simpl; unfold awake, count; simpl; rewrite ?E1, ?E2, ?E3, ?E4; auto; try done.
  - (* loop_swap *)
    split; simpl; unfold awake, count; simpl; auto; try done. by rewrite app_nil_r.
  - (* loop_call *)
    split; simpl; unfold awake, count; simpl; auto; try done. by rewrite Hf, <- !app_assoc.
  - (* loop_push *)
    split; simpl; unfold awake, count; simpl; auto; try done. by rewrite Hf, !app_assoc.
  - (* loop_wake *)
    rewrite must_wake_self, Hc. pose proof (Wakeup_count w).
    destruct (Wakeup_same w) as (E1 & E2 & E3 & E4).
    destruct c; simpl in *; try done.
    split; simpl; unfold awake, count; simpl; rewrite ?E1, ?E2, ?E3, ?E4; auto; try done.
  - (* loop_stop *)
    split; simpl; unfold awake, count; simpl; auto. by intros ->.
Qed.

(** A loop that enters [Run]'s while loop: what was queued before has woken it. *)
Definition ready (w : lworld) : Prop :=
  is_calling_pending_functors_ w = false /\
  (pending_functors_ w <> [] -> 0 < efd_count (kernel (io w))).

Definition start (w : lworld) : cstate := mkC w AtCheck [] (pending_functors_ w) [].

Lemma race_start w : ready w -> race_inv (start w).
Proof. intros [Hc Hw]. split; simpl; auto; try done. intros Hne. left. left. by apply Hw. Qed.

Lemma race_reachable w s : ready w -> star step (start w) s -> race_inv s.
Proof.
  intros Hr Hst. eapply (star_invariant step race_inv); [|by apply race_start|done].
  intros. by eapply race_step.
Qed.

(** [C9] No lost wake-up.  Whatever the interleaving of the loop's thread with the
    calls of [QueueInLoop] and [Stop] of other threads, of its callbacks and of
    its functors: when the loop waits in [poll] with the eventfd not readable and
    no other thread is about to write it, no functor is pending and nobody has
    asked the loop to stop. *)
Theorem no_lost_wakeup w s :
  ready w -> star step (start w) s -> pc s = AtPoll ->
  efd_count (kernel (io (loop s))) = 0 -> waking s = [] ->
  pending_functors_ (loop s) = [] /\ status_ (loop s) = kRunning.
Proof.
  intros Hr Hst Hpc Hcount Hwk. pose proof (race_reachable w s Hr Hst) as [_ Hw Hs _ _ _].
  assert (~ awake s) as Hno by (unfold awake, count; rewrite Hcount, Hwk; intros [?|?]; [lia|done]).
  rewrite Hpc in Hw. split.
  - destruct (pending_functors_ (loop s)) eqn:E; [done|]. exfalso. destruct (Hw ltac:(done)) as [Ha|[]]. by apply Hno in Ha.
  - destruct (decide (status_ (loop s) = kRunning)); [done|]. exfalso. by apply Hno, Hs.
Qed.

(** [C17] Functors run exactly once and in the order of their critical sections:
    what has been called, what the loop has taken and what is pending are, in this
    order, all that was queued. *)
Theorem functors_fifo w s :
  ready w -> star step (start w) s ->
  queued s = executed s ++ todo (pc s) ++ pending_functors_ (loop s).
Proof. intros Hr Hst. apply (race_reachable w s Hr Hst). Qed.

(** ** The function and the steps

    Functors that queue others. *)
Section Refines.
Context (spawn : F -> list F).

Definition queue_all (l : list F) (w : lworld) : lworld :=
  foldl (fun w g => QueueInLoop (tid_ w) g w) w l.
Definition spawning (f : F) (w : lworld) : result lworld := Ok (queue_all (spawn f) w).

Lemma star_app (a b c : cstate) : star step a b -> star step b c -> star step a c.
Proof. induction 1; [done|]. intros. econstructor; eauto. Qed.

Lemma queue_steps g w c l q e :
  runs_user_code c -> star step (mkC w c l q e) (mkC (QueueInLoop (tid_ w) g w) c l (q ++ [g]) e).
Proof.
  intros Hc. eapply star_step; [by apply (loop_push g)|].
  eapply star_step; [apply loop_wake|]. apply star_refl.
Qed.

Lemma queue_all_steps gs w c l q e :
  runs_user_code c -> star step (mkC w c l q e) (mkC (queue_all gs w) c l (q ++ gs) e).
Proof.
  intros Hc. revert w q. induction gs as [|g gs IH]; intros w q.
  - rewrite app_nil_r. apply star_refl.
  - eapply star_app; [by apply (queue_steps g)|]. 
    replace (q ++ g :: gs) with ((q ++ [g]) ++ gs) by (by rewrite <- app_assoc). apply IH.
Qed.

Lemma functors_steps fs w l q e :
  exists w', foldM spawning fs w = Ok w' /\
    star step (mkC w (InFunctors fs) l q e)
      (mkC w' (InFunctors []) l (q ++ mjoin (spawn <$> fs)) (e ++ fs)).
Proof.
  revert w q e. induction fs as [|f fs IH]; intros w q e.
  - exists w. rewrite !app_nil_r. split; [done|apply star_refl].
  - destruct (IH (queue_all (spawn f) w) (q ++ spawn f) (e ++ [f])) as (w' & Hrun & Hst).
    exists w'. split; [done|]. eapply star_step; [apply loop_call|].
    eapply star_app; [by apply queue_all_steps|]. cbn [fmap list_fmap mjoin list_join].
    by rewrite <- !app_assoc in Hst.
Qed.
End Refines.

(** [C29] [DoPendingFunctors] implements the steps: run on functors that queue more
    functors, it returns, it calls each functor that was pending when it began and
    none of those queued meanwhile, which are left pending in order, and its run is
    a path of the interleaving model. *)
Theorem DoPendingFunctors_refines spawn w l q e :
  exists w', DoPendingFunctors (spawning spawn) w = Ok w' /\
    star step (mkC w AtHandle l q e)
      (mkC w' AtCheck l (q ++ mjoin (spawn <$> pending_functors_ w)) (e ++ pending_functors_ w)).
Proof.
  unfold DoPendingFunctors. simpl.
  destruct (functors_steps spawn (pending_functors_ w) (set_pending [] (set_calling true w)) l q e)
    as (w' & Hrun & Hst).
  rewrite Hrun. eexists; split; [done|].
  eapply star_step; [apply loop_flag|]. eapply star_step; [apply loop_swap|].
  eapply star_app; [exact Hst|]. eapply star_step; [apply loop_unflag|]. apply star_refl.
Qed.

(** ** Before [Run] *)

(** A functor that the loop's thread queues before it calls [Run] wakes
    nobody: the eventfd stays as it was, so the first [poll] waits its ten seconds
    (or for another event) although the functor is pending. *)
Theorem queue_before_run_sleeps cb (w : lworld) :
  is_calling_pending_functors_ w = false ->
  exists s, star step (mkC (set_status kRunning (QueueInLoop (tid_ w) cb w)) AtCheck [] [] []) s /\
    pc s = AtPoll /\ kernel (io (loop s)) = kernel (io w) /\
    pending_functors_ (loop s) = pending_functors_ w ++ [cb].
Proof.
  intros Hc. unfold QueueInLoop. change (tid_ w) with (tid_ (push_functor cb w)).
  rewrite must_wake_self. simpl. rewrite Hc. eexists. split.
  - eapply star_step; [by apply loop_check|]. apply star_refl.
  - done.
Qed.

(** A [Stop] before [Run] is forgotten: [Run] overwrites the status. *)
Theorem Stop_before_Run_lost exec call fuel sched (w : lworld) :
  status_ w <> kRunning ->
  Run exec call fuel sched (tid_ w) (Stop (tid_ w) w) = Run exec call fuel sched (tid_ w) w.
Proof.
  intros Hs. unfold Stop, IsInLoopThread. simpl. rewrite Z.eqb_refl. unfold Run. simpl.
  by replace (IsRunning (status_ w)) with false by (symmetry; by apply bool_decide_eq_false).
Qed.
End Race.

(** ** Witnesses *)

Definition demo_loop : lworld Z Z unit sim :=
  mkLWorld 1 kRunning false [] 50 60 [] ∅
    (mkWorld (mkEPoller 1 16 ∅) ∅ (mkSim ∅ [] 0)) tt.

Lemma demo_ready : ready demo_loop.
Proof. by split. Qed.

Lemma no_lost_wakeup_witness :
  let s := mkC demo_loop AtPoll [] [] [] in
  star step (start demo_loop) s /\ pending_functors_ (loop s) = [] /\ status_ (loop s) = kRunning.
Proof.
  split; [eapply star_step; [by apply loop_check|apply star_refl]|].
  apply (no_lost_wakeup demo_loop (mkC demo_loop AtPoll [] [] [])).
  - apply demo_ready.
  - eapply star_step; [by apply loop_check|apply star_refl].
  - reflexivity.
  - reflexivity.
  - reflexivity.
Defined.

Lemma functors_fifo_witness :
  let s := mkC (push_functor 9 demo_loop) AtCheck [2] [9] [] in
  queued s = executed s ++ todo (pc s) ++ pending_functors_ (loop s).
Proof.
  apply (functors_fifo demo_loop (mkC (push_functor 9 demo_loop) AtCheck [2] [9] [])).
  - apply demo_ready.
  - eapply star_step; [apply (other_push 2 9 demo_loop AtCheck [] [] []); discriminate|].
    apply star_refl.
Defined.

Lemma queue_before_run_sleeps_witness :
  exists s, star step (mkC (set_status kRunning (QueueInLoop 1 9 demo_loop)) AtCheck [] [] []) s /\
    pc s = AtPoll /\ kernel (io (loop s)) = mkSim ∅ [] 0 /\ pending_functors_ (loop s) = [9].
Proof. apply (queue_before_run_sleeps 9 demo_loop). reflexivity. Defined.

Lemma Stop_before_Run_lost_witness :
  let w := set_status kInitialized demo_loop in
  Run (fun _ => Ok) (fun _ => Ok) 3 (fun _ => (fun w => w, mkTimeval 0 0)) 1 (Stop 1 w) =
  Run (fun _ => Ok) (fun _ => Ok) 3 (fun _ => (fun w => w, mkTimeval 0 0)) 1 w.
Proof.
  apply (Stop_before_Run_lost (fun _ => Ok) (fun _ => Ok) 3 (fun _ => (fun w => w, mkTimeval 0 0))
    (set_status kInitialized demo_loop)). discriminate.
Defined.

(** A functor that queues its predecessor: 2 is called, 1 is left pending. *)
Lemma DoPendingFunctors_refines_witness :
  let spawn := fun f : Z => if 0 <? f then [f - 1] else [] in
  let w := push_functor 2 demo_loop in
  exists w', DoPendingFunctors (spawning spawn) w = Ok w' /\ pending_functors_ w' = [1] /\
    star step (mkC w AtHandle [] [2] []) (mkC w' AtCheck [] [2; 1] [2]).
Proof.
  intros spawn w. destruct (DoPendingFunctors_refines spawn w [] [2] []) as (w' & Hr & Hst).
  exists w'. split; [exact Hr|]. split; [|exact Hst]. vm_compute in Hr. injection Hr as <-. reflexivity.
Defined.
