(* ===== verification/LoopLiveness.v ===== *)
(** * Threads and one loop: what is queued is called, and a stop stops

    The interleavings of LoopRace.v as infinite runs.  A run is fair when the loop's
    thread goes on whenever it can: its callbacks and functors return, and [poll]
    returns when the eventfd is readable or about to be written. *)

From S2P Require Import Prelude LoopThread Duration Timestamp Channel EPoller ServerStatus LoopChannels.
From S2P Require Import TimerQueue EventFd SimKernel EventLoop LoopRace.
From Stdlib Require Import Relation_Operators Lexicographic_Product.
#[local] Open Scope Z_scope.

Section Liveness.
Context {F Cb U K : Type} `{EpollKernel K, EventfdLaws K}.
Abbreviation lworld := (lworld F Cb U K).
Abbreviation cstate := (@cstate F Cb U K).
Implicit Types (s : cstate) (w : lworld).

(** The loop's thread goes on to the next point of [Run]. *)
Inductive advance : cstate -> cstate -> Prop :=
  | adv_check w l q e : IsRunning (status_ w) = true -> advance (mkC w AtCheck l q e) (mkC w AtPoll l q e)
  | adv_exit w l q e : IsRunning (status_ w) = false ->
      advance (mkC w AtCheck l q e) (mkC (set_status kStopped w) Exited l q e)
  | adv_polled w l q e : advance (mkC w AtPoll l q e) (mkC w AtHandle l q e)
  | adv_flag w l q e : advance (mkC w AtHandle l q e) (mkC (set_calling true w) BeforeSwap l q e)
  | adv_swap w l q e : advance (mkC w BeforeSwap l q e)
      (mkC (swap_functors w).2 (InFunctors (swap_functors w).1) l q e)
  | adv_call f fs w l q e :
      advance (mkC w (InFunctors (f :: fs)) l q e) (mkC w (InFunctors fs) l q (e ++ [f]))
  | adv_unflag w l q e :
      advance (mkC w (InFunctors []) l q e) (mkC (set_calling false w) AtCheck l q e).

Lemma advance_step s s' : advance s s' -> step s s'.
Proof. destruct 1; by constructor. Qed.

(** The point of [Run] the loop's thread is at, outside [QueueInLoop]. *)
Fixpoint point (c : loop_pc F) : loop_pc F := match c with InQueue c => point c | _ => c end.

Lemma step_advances s s' :
  step s s' -> advance s s' \/
  (point (pc s') = point (pc s) /\ executed s' = executed s /\
   (exists l, queued s' = queued s ++ l) /\
   (status_ (loop s') = status_ (loop s) \/ status_ (loop s') = kStopping)).
Proof.
  destruct 1; try (left; by constructor); right; simpl; split_and!; try done; auto;
    try (by exists []; rewrite app_nil_r); try by eexists.
  - case_match; [left; apply Wakeup_same|by left].
  - left. apply HandleRead_same.
  - case_match; [left; apply Wakeup_same|by left].
Qed.

(** ** Fair runs *)

Record run_from (w : lworld) (r : nat -> cstate) : Prop := {
  run_start : r O = start w;
  run_step i : step (r i) (r (S i))
}.

Definition fair (r : nat -> cstate) : Prop :=
  forall i, pc (r i) <> Exited -> (pc (r i) = AtPoll -> awake (r i)) ->
    exists j, (i <= j)%nat /\ advance (r j) (r (S j)).

Lemma run_star w r i : run_from w r -> star step (start w) (r i).
Proof.
  intros [H0' Hs]. rewrite <- H0'. induction i as [|i IH]; [apply star_refl|]. by eapply star_snoc.
Qed.

Lemma run_inv w r i : ready w -> run_from w r -> race_inv (r i).
Proof. intros Hr Hrun. exact (race_reachable w (r i) Hr (run_star w r i Hrun)). Qed.

(** A fair run in which the thread can go on until [goal], each advance bringing it
    closer, reaches [goal]. *)
Lemma fair_reaches {A} (R : A -> A -> Prop) (m : cstate -> A) (goal : cstate -> Prop) r :
  well_founded R -> (forall i, step (r i) (r (S i))) -> fair r ->
  (forall i, goal (r i) -> goal (r (S i))) ->
  (forall i, goal (r i) \/ (pc (r i) <> Exited /\ (pc (r i) = AtPoll -> awake (r i)))) ->
  (forall i, advance (r i) (r (S i)) -> goal (r (S i)) \/ R (m (r (S i))) (m (r i))) ->
  (forall i, point (pc (r (S i))) = point (pc (r i)) -> executed (r (S i)) = executed (r i) ->
     m (r (S i)) = m (r i)) ->
  forall i, exists j, (i <= j)%nat /\ goal (r j).
Proof.
  intros Hwf Hstep Hfair Hkeep Hgo Hadv Hsame i.
  remember (m (r i)) as a eqn:Ea. revert i Ea. induction (Hwf a) as [a _ IH]. intros i ->.
  destruct (Hgo i) as [Hg|[Hx Hp]]; [by exists i|].
  destruct (Hfair i Hx Hp) as (j & Hij & Hj).
  assert (forall d, (exists k, (i <= k)%nat /\ (goal (r k) \/ R (m (r k)) (m (r i)))) \/ m (r (i + d)%nat) = m (r i))
    as Hd.
  { induction d as [|d IHd]; [right; by rewrite Nat.add_0_r|].
    destruct IHd as [?|Hm]; [by left|]. rewrite Nat.add_succ_r.
    destruct (step_advances _ _ (Hstep (i + d)%nat)) as [Ha|(Hpt & He & _)].
    - left. exists (S (i + d)). split; [lia|]. rewrite <- Hm. by apply Hadv.
    - right. rewrite <- Hm. by apply Hsame. }
  assert (exists k, (i <= k)%nat /\ (goal (r k) \/ R (m (r k)) (m (r i)))) as (k & Hk & [Hg|Hlt]).
  { destruct (Hd (j - i)%nat) as [?|Hm]; [done|]. replace (i + (j - i))%nat with j in Hm by lia.
    exists (S j). split; [lia|]. rewrite <- Hm. by apply Hadv. }
  - by exists k.
  - destruct (IH _ Hlt k eq_refl) as (n & Hn & Hg). exists n. split; [lia|done].
Qed.

(** ** Queued functors are called *)

(** How many points the thread is away from taking the pending functors. *)
Definition phase (c : loop_pc F) : nat :=
  match c with InFunctors _ => 5 | AtCheck => 4 | AtPoll => 3 | AtHandle => 2 | BeforeSwap => 1 | _ => 0 end.

(** How many advances at most until the functor that was queued [n]-th is called. *)
Definition distance (n : nat) s : nat :=
  (n - length (executed s)) +
  (if decide (n < length (executed s) + length (todo (pc s)))%nat then 0 else phase (point (pc s))).

Lemma todo_point (c : loop_pc F) : todo (point c) = todo c.
Proof. by induction c. Qed.

Lemma distance_same n s s' :
  point (pc s') = point (pc s) -> executed s' = executed s -> distance n s' = distance n s.
Proof.
  intros Hp He. unfold distance. rewrite <- (todo_point (pc s)), <- (todo_point (pc s')). by rewrite Hp, He.
Qed.

Lemma distance_advance n s s' :
  race_inv s -> (n < length (queued s))%nat -> advance s s' ->
  (n < length (executed s') \/ distance n s' < distance n s)%nat \/ pc s' = Exited.
Proof.
  intros Hi Hn Ha. pose proof (r_fifo _ Hi) as Hf. apply (f_equal length) in Hf. rewrite !length_app in Hf.
  destruct (decide (n < length (executed s))%nat) as [Hd|Hd].
  { left. left. destruct Ha; simpl in *; rewrite ?length_app; lia. }
  destruct Ha; simpl in *; unfold distance; simpl; rewrite ?length_app; simpl;
    repeat case_decide; auto; left; lia.
Qed.

(** What holds from some point of a run on. *)
Definition from (i : nat) (r : nat -> cstate) : nat -> cstate := fun k => r (i + k)%nat.

Lemma fair_from i r : fair r -> fair (from i r).
Proof.
  intros Hf k Hx Hp. destruct (Hf (i + k)%nat Hx Hp) as (j & Hj & Ha).
  exists (j - i)%nat. split; [lia|]. unfold from.
  replace (i + (j - i))%nat with j by lia. by replace (i + S (j - i))%nat with (S j) by lia.
Qed.

Lemma step_queued s s' : step s s' -> exists l, queued s' = queued s ++ l.
Proof. destruct 1; simpl; try (by exists []; rewrite app_nil_r); by eexists. Qed.

Lemma queued_later w r i k : run_from w r -> exists l, queued (r (i + k)%nat) = queued (r i) ++ l.
Proof.
  intros [_ Hs]. induction k as [|k [l IH]].
  - exists []. by rewrite Nat.add_0_r, app_nil_r.
  - rewrite Nat.add_succ_r. destruct (step_queued _ _ (Hs (i + k)%nat)) as [l' ->].
    exists (l ++ l'). by rewrite IH, app_assoc.
Qed.

Lemma exited_stays s s' : step s s' -> pc s = Exited -> pc s' = Exited.
Proof. destruct 1; simpl; intros Hp; subst; try done. Qed.

Lemma executed_grows s s' : step s s' -> (length (executed s) <= length (executed s'))%nat.
Proof. destruct 1; simpl; rewrite ?length_app; lia. Qed.

(** While the functor waits, the thread can go on. *)
Lemma waiting_awake n s :
  race_inv s -> (n < length (queued s))%nat -> (length (executed s) <= n)%nat -> pc s = AtPoll -> awake s.
Proof.
  intros Hi Hn He Hp. pose proof (r_fifo _ Hi) as Hf. apply (f_equal length) in Hf.
  rewrite !length_app, Hp in Hf. simpl in Hf.
  destruct (r_wake _ Hi) as [Ha|Hw]; [|done|by rewrite Hp in Hw].
  intros Hnil. rewrite Hnil in Hf. simpl in Hf. lia.
Qed.

(** [C11] Liveness.  In every fair run, a functor that has been queued, by whichever
    thread, is eventually called, in its turn, unless the loop exits first. *)
Theorem queued_is_called w (r : nat -> cstate) i n f :
  ready w -> run_from w r -> fair r -> queued (r i) !! n = Some f ->
  exists j, (i <= j)%nat /\ (executed (r j) !! n = Some f \/ pc (r j) = Exited).
Proof.
  intros Hr Hrun Hfair Hq. pose proof (lookup_lt_Some _ _ _ Hq) as Hn.
  assert (forall k, race_inv (from i r k)) as Hinv by (intros k; exact (run_inv w r (i + k) Hr Hrun)).
  assert (forall k, (n < length (queued (from i r k)))%nat) as Hlen.
  { intros k. destruct (queued_later w r i k Hrun) as [l E]. unfold from. rewrite E, length_app. lia. }
  assert (forall k, step (from i r k) (from i r (S k))) as Hstep.
  { intros k. unfold from. rewrite Nat.add_succ_r. apply Hrun. }
  destruct (fair_reaches lt (distance n) (fun s => (n < length (executed s))%nat \/ pc s = Exited) (from i r))
    with (i := O) as (k & _ & Hk).
  - apply lt_wf.
  - exact Hstep.
  - by apply fair_from.
  - intros k [Hk|Hk]; [left|right; exact (exited_stays _ _ (Hstep k) Hk)].
    pose proof (executed_grows _ _ (Hstep k)). lia.
  - intros k. destruct (decide (n < length (executed (from i r k)))%nat) as [?|He]; [by left; left|].
    destruct (pc (from i r k)) eqn:Ep; try (right; split; done); [|by left; right].
    right. split; [done|]. intros _. apply (waiting_awake n); [done..| |done]. lia.
  - intros k Ha. destruct (distance_advance n _ _ (Hinv k) (Hlen k) Ha) as [[?|?]|?]; auto.
  - intros k. apply distance_same.
  - exists (i + k)%nat. split; [lia|]. destruct Hk as [Hk|Hk]; [left|by right].
    pose proof (r_fifo _ (Hinv k)) as Hf. destruct (queued_later w r i k Hrun) as [l E].
    unfold from in Hf, Hk. rewrite E in Hf. rewrite <- (lookup_app_l _ (todo (pc (r (i + k)%nat)) ++ pending_functors_ (loop (r (i + k)%nat)))) by done.
    rewrite <- Hf. by rewrite lookup_app_l.
Qed.

(** ** A stop stops *)

(** Where the thread is, and what it has still to call before it looks at the
    status. *)
Definition to_exit s : nat * nat :=
  (match point (pc s) with
   | AtPoll => 5 | AtHandle => 4 | BeforeSwap => 3 | InFunctors _ => 2 | AtCheck => 1 | _ => 0
   end%nat, length (todo (pc s))).

Definition closer : nat * nat -> nat * nat -> Prop := slexprod nat nat lt lt.

Lemma to_exit_same s s' : point (pc s') = point (pc s) -> to_exit s' = to_exit s.
Proof. intros Hp. unfold to_exit. rewrite <- (todo_point (pc s)), <- (todo_point (pc s')). by rewrite Hp. Qed.

Lemma to_exit_advance s s' :
  status_ (loop s) <> kRunning -> advance s s' -> pc s' = Exited \/ closer (to_exit s') (to_exit s).
Proof.
  intros Hs Ha. unfold closer, to_exit. destruct Ha; simpl in *; [|by left|right..].
  - by apply bool_decide_eq_true in H2.
  - apply left_slex. lia.
  - apply left_slex. lia.
  - apply left_slex. lia.
  - apply right_slex. lia.
  - apply left_slex. lia.
Qed.

Lemma stopped_stays s s' : step s s' -> status_ (loop s) <> kRunning -> status_ (loop s') <> kRunning.
Proof.
  intros Hs Hn. destruct (step_advances _ _ Hs) as [Ha|(_ & _ & _ & [->| ->])]; try done. by destruct Ha.
Qed.

(** [C27] Liveness of [Stop].  In every fair run in which some thread has called
    [Stop], whoever it was and whatever else is queued meanwhile, the loop exits. *)
Theorem stop_exits w (r : nat -> cstate) i :
  ready w -> run_from w r -> fair r -> status_ (loop (r i)) <> kRunning ->
  exists j, (i <= j)%nat /\ pc (r j) = Exited.
Proof.
  intros Hr Hrun Hfair Hs.
  assert (forall k, step (from i r k) (from i r (S k))) as Hstep.
  { intros k. unfold from. rewrite Nat.add_succ_r. apply Hrun. }
  assert (forall k, status_ (loop (from i r k)) <> kRunning) as Hst.
  { induction k as [|k IH]; [unfold from; by rewrite Nat.add_0_r|]. exact (stopped_stays _ _ (Hstep k) IH). }
  destruct (fair_reaches closer to_exit (fun s => pc s = Exited) (from i r)) with (i := O) as (k & _ & Hk).
  - apply wf_slexprod; apply lt_wf.
  - exact Hstep.
  - by apply fair_from.
  - intros k. exact (exited_stays _ _ (Hstep k)).
  - intros k. destruct (pc (from i r k)) eqn:Ep; auto; right; split; try done.
    intros _. exact (r_stop _ (run_inv w r (i + k) Hr Hrun) Ep (Hst k)).
  - intros k Ha. by apply to_exit_advance.
  - intros k Hp _. by apply to_exit_same.
  - exists (i + k)%nat. split; [lia|done].
Qed.
End Liveness.

(** ** Witnesses

    The loop's thread alone, going round for ever. *)

Section Solo.
Context {F Cb U K : Type} `{EpollKernel K, EventfdLaws K}.

Definition solo (s : cstate (F := F) (Cb := Cb) (U := U) (K := K)) : cstate :=
  let 'mkC w c l q e := s in
  match c with
  | AtCheck =>
      if IsRunning (status_ w) then mkC w AtPoll l q e else mkC (set_status kStopped w) Exited l q e
  | AtPoll => mkC w AtHandle l q e
  | AtHandle => mkC (set_calling true w) BeforeSwap l q e
  | BeforeSwap => mkC (swap_functors w).2 (InFunctors (swap_functors w).1) l q e
  | InFunctors (f :: fs) => mkC w (InFunctors fs) l q (e ++ [f])
  | InFunctors [] => mkC (set_calling false w) AtCheck l q e
  | InQueue _ | Exited => s
  end.

Definition going (s : cstate (F := F) (Cb := Cb) (U := U) (K := K)) : Prop :=
  IsRunning (status_ (loop s)) = true /\ match pc s with InQueue _ | Exited => False | _ => True end.

Lemma solo_advance s : going s -> advance s (solo s) /\ going (solo s).
Proof.
  destruct s as [w c l q e]. intros [Hr Hp]. simpl in *.
  destruct c as [| | | |[|f fs]| |]; simpl; try done; rewrite ?Hr; split; by constructor.
Qed.

Definition solo_run (s : cstate) (i : nat) : cstate := Nat.iter i solo s.

Lemma solo_going s i : going s -> going (solo_run s i).
Proof. intros Hg. induction i as [|i IH]; [done|]. by apply solo_advance. Qed.

Lemma solo_fair w : going (start w) -> run_from w (solo_run (start w)) /\ fair (solo_run (start w)).
Proof.
  intros Hg. split.
  - split; [done|]. intros i. apply advance_step, solo_advance. by apply solo_going.
  - intros i _ _. exists i. split; [lia|]. apply solo_advance. by apply solo_going.
Qed.
End Solo.

(** Functor 9 is pending and the eventfd readable. *)
Definition live_loop : EventLoop.lworld Z Z unit sim := Wakeup (push_functor 9 demo_loop).

Lemma queued_is_called_witness :
  exists j, executed (solo_run (start live_loop) j) !! 0%nat = Some 9.
Proof.
  destruct (solo_fair live_loop) as [Hrun Hfair]; [by split|].
  destruct (queued_is_called live_loop (solo_run (start live_loop)) 0 0 9) as (j & _ & Hj).
  - split; [reflexivity|]. intros _. vm_compute. reflexivity.
  - exact Hrun.
  - exact Hfair.
  - reflexivity.
  - exists j. destruct Hj as [Hj|Hj]; [exact Hj|].
    assert (going (solo_run (start live_loop) j)) as [_ Hp] by (apply solo_going; by split).
    rewrite Hj in Hp. destruct Hp.
Defined.

(** Thread 2 stops the loop, and goes on stopping it. *)
Definition stop_again (s : cstate (F := Z) (Cb := Z) (U := unit) (K := sim)) : cstate :=
  mkC (set_status kStopping (loop s)) (pc s) (2 :: waking s) (queued s) (executed s).

Definition stop_run (i : nat) : cstate (F := Z) (Cb := Z) (U := unit) (K := sim) :=
  match i with
  | O => start demo_loop
  | S O => stop_again (start demo_loop)
  | S (S n) => Nat.iter n stop_again (mkC (set_status kStopped (set_status kStopping demo_loop)) Exited [2] [] [])
  end.

Lemma stop_again_step s : tid_ (loop s) = 1 -> step s (stop_again s).
Proof. destruct s as [w c l q e]. intros Ht. simpl in Ht. apply (other_stop 2 w).
  rewrite Ht. discriminate.
Qed.

Lemma stop_run_exited n : tid_ (loop (stop_run (S (S n)))) = 1 /\ pc (stop_run (S (S n))) = Exited.
Proof. induction n as [|n IH]; [done|]. exact IH. Qed.

Lemma stop_exits_witness : exists j, (1 <= j)%nat /\ pc (stop_run j) = Exited.
Proof.
  apply (stop_exits demo_loop stop_run 1).
  - apply demo_ready.
  - split; [reflexivity|]. intros [|[|n]].
    + apply stop_again_step. reflexivity.
    + apply loop_exit. reflexivity.
    + apply stop_again_step. apply stop_run_exited.
  - intros i Hx _. exists 1%nat. destruct i as [|[|n]].
    + split; [lia|]. apply adv_exit. reflexivity.
    + split; [lia|]. apply adv_exit. reflexivity.
    + destruct Hx. apply stop_run_exited.
  - discriminate.
Defined.
