(* ===== verification/SocketOps.v ===== *)
(** * Socket operations (evk/socket_ops.h/.cc, evk/socket.h/.cc, evk/inet_address.h/.cc)

    The wrappers of the socket system calls, the [Socket] class and [InetAddress].
    The system calls, [errno] and the text form of addresses ([inet_ntop],
    [inet_pton]) are an interface. *)

From S2P Require Import Prelude Bytes Slice Format.
#[local] Open Scope Z_scope.

(** The 28 bytes of [struct sockaddr_in6], which [sockaddr_in] overlays: bytes 4 to 7
    are [sin_addr] or [sin6_flowinfo].  Ports and addresses are in network order. *)
Record sockaddr := mkSockaddr {
  sin_family : Z;
  sin_port : Z;
  sin_addr : Z;
  sin6_addr : bytes;
  sin6_scope_id : Z
}.

Definition sockaddr_zero : sockaddr := mkSockaddr 0 0 0 (replicate 16 x00) 0.

Definition AF_INET : Z := 2.
Definition AF_INET6 : Z := 10.
Definition INADDR_ANY : Z := 0.
Definition INADDR_LOOPBACK : Z := 0x7f000001.
Definition INET_ADDRSTRLEN : Z := 16.
Definition INET6_ADDRSTRLEN : Z := 46.
Definition in6addr_any : bytes := replicate 16 x00.
Definition in6addr_loopback : bytes := replicate 15 x00 ++ [x01].

Definition SOCK_STREAM : Z := 1.
Definition SOCK_NONBLOCK : Z := 0x800.
Definition SOCK_CLOEXEC : Z := 0x80000.
Definition SOMAXCONN : Z := 4096.
Definition O_NONBLOCK : Z := 0x800.
Definition FD_CLOEXEC : Z := 1.
Inductive fcntl_cmd := F_GETFL | F_SETFL | F_GETFD | F_SETFD.

Definition IPPROTO_TCP : Z := 6.
Definition SOL_SOCKET : Z := 1.
Definition TCP_NODELAY : Z := 1.
Definition SO_REUSEADDR : Z := 2.
Definition SO_KEEPALIVE : Z := 9.
Definition SO_REUSEPORT : Z := 15.

Definition EPERM : Z := 1.
Definition EINTR : Z := 4.
Definition EBADF : Z := 9.
Definition EAGAIN : Z := 11.
Definition EMFILE : Z := 24.
Definition EPROTO : Z := 71.
Definition ECONNABORTED : Z := 103.

Class NetKernel (K : Type) := {
  errno : K -> Z;
  set_errno : Z -> K -> K;
  socket : Z -> Z -> K -> Z * K;
  connect : Z -> sockaddr -> Z -> K -> Z * K;
  accept : Z -> K -> Z * sockaddr * K;
  bind : Z -> sockaddr -> Z -> K -> Z * K;
  listen : Z -> Z -> K -> Z * K;
  close : Z -> K -> Z * K;
  fcntl : Z -> fcntl_cmd -> Z -> K -> Z * K;
  setsockopt : Z -> Z -> Z -> Z -> Z -> K -> Z * K;   (* fd, level, option, value, length *)
  getsockopt_error : Z -> K -> Z * Z;                  (* value, SO_ERROR *)
  getsockname : Z -> K -> Z * sockaddr;
  getpeername : Z -> K -> Z * sockaddr;
  open_null : K -> Z * K;
  option_value : K -> Z -> Z -> Z -> Z                 (* fd, level, option *)
}.

(** fcntl(2) on a negative descriptor fails with [EBADF]; setsockopt(2) of an
    integer option with a length shorter than an [int] fails with [EINVAL] and sets
    nothing. *)
Class NetLaws (K : Type) `{NetKernel K} := {
  fcntl_badfd fd cmd arg k : fd < 0 ->
    (fcntl fd cmd arg k).1 = -1 /\ errno (fcntl fd cmd arg k).2 = EBADF;
  setsockopt_short fd level opt v len k : len < 4 ->
    (setsockopt fd level opt v len k).1 = -1 /\
    option_value (setsockopt fd level opt v len k).2 = option_value k
}.

Section SocketOps.
Context {K : Type} `{NetKernel K}.

(** ** socket_ops.cc *)

Definition SetNonBlockAndCloseOnExec (sockfd : Z) (k : K) : K :=
  let '(flags, k) := fcntl sockfd F_GETFL 0 k in
  let '(ret, k) := fcntl sockfd F_SETFL (Z.lor flags O_NONBLOCK) k in
  let '(flags, k) := fcntl sockfd F_GETFD 0 k in
  let '(ret, k) := fcntl sockfd F_SETFD (Z.lor flags FD_CLOEXEC) k in
  k.

Definition CreateNonblockingSocket (family : Z) (k : K) : result (Z * K) :=
  let '(sockfd, k) := socket family (Z.lor SOCK_STREAM (Z.lor SOCK_NONBLOCK SOCK_CLOEXEC)) k in
  if sockfd <? 0 then Err Fatal else Ok (sockfd, k).

(** The length passed is the size of [struct sockaddr]. *)
Definition sizeof_sockaddr : Z := 16.
Definition sizeof_sockaddr_in6 : Z := 28.

Definition Connect (sockfd : Z) (addr : sockaddr) (k : K) : Z * K := connect sockfd addr sizeof_sockaddr k.

(** [errno] values that are only logged. *)
Definition accept_expected (e : Z) : bool :=
  bool_decide (e ∈ [EAGAIN; ECONNABORTED; EINTR; EPROTO; EPERM; EMFILE]).

Definition Accept (sockfd : Z) (k : K) : result (Z * sockaddr * K) :=
  let '(connfd, addr, k) := accept sockfd k in
  let k := SetNonBlockAndCloseOnExec connfd k in
  if connfd <? 0 then
    let saved_errno := errno k in
    if accept_expected saved_errno then Ok (connfd, addr, set_errno saved_errno k) else Err Fatal
  else Ok (connfd, addr, k).

Definition Bind (sockfd : Z) (addr : sockaddr) (k : K) : result K :=
  let '(ret, k) := bind sockfd addr sizeof_sockaddr k in if ret <? 0 then Err Fatal else Ok k.

Definition Listen (sockfd : Z) (k : K) : result K :=
  let '(ret, k) := listen sockfd SOMAXCONN k in if ret <? 0 then Err Fatal else Ok k.

Definition Close (sockfd : Z) (k : K) : K := (close sockfd k).2.

Definition GetSocketError (sockfd : Z) (k : K) : Z :=
  let '(ret, optval) := getsockopt_error sockfd k in if ret <? 0 then errno k else optval.

Definition GetLocalAddr (sockfd : Z) (k : K) : sockaddr :=
  let '(ret, addr) := getsockname sockfd k in if ret <? 0 then sockaddr_zero else addr.
Definition GetPeerAddr (sockfd : Z) (k : K) : sockaddr :=
  let '(ret, addr) := getpeername sockfd k in if ret <? 0 then sockaddr_zero else addr.

(** The third argument of [memcmp] is [sizeof(...) == 0]. *)
Definition IsSelfConnect (sockfd : Z) (k : K) : result bool :=
  let localaddr := GetLocalAddr sockfd k in
  let peeraddr := GetPeerAddr sockfd k in
  if sin_family localaddr =? AF_INET then
    Ok ((sin_port localaddr =? sin_port peeraddr) && (sin_addr localaddr =? sin_addr peeraddr))
  else if sin_family localaddr =? AF_INET6 then
    if sin_port localaddr =? sin_port peeraddr then
      r ← memcmp_n (sin6_addr localaddr) (sin6_addr peeraddr)
            (if Z.of_nat (length (sin6_addr localaddr)) =? 0 then 1 else 0);
      Ok (negb (r =? 0))
    else Ok false
  else Ok false.

(** ** The text form of addresses *)

Section Text.
Context (inet_ntop4 : Z -> string) (inet_ntop6 : bytes -> string)
  (inet_pton4 : bytes -> option Z) (inet_pton6 : bytes -> option bytes).

(** The characters left in the buffer, or nothing when it was not written. *)
Definition ToIp (size : Z) (addr : sockaddr) : result (option string) :=
  if sin_family addr =? AF_INET then
    _ ← assert (size >=? INET_ADDRSTRLEN); Ok (Some (inet_ntop4 (sin_addr addr)))
  else if sin_family addr =? AF_INET6 then
    _ ← assert (size >=? INET6_ADDRSTRLEN); Ok (Some (inet_ntop6 (sin6_addr addr)))
  else Ok None.

(** [strlen] of a buffer that was not written is undefined. *)
Definition ToIpPort (size : Z) (addr : sockaddr) : result string :=
  ip ← ToIp size addr;
  buf ← deref ip;
  let end_ := Z.of_nat (String.length buf) in
  let port := ntohs (sin_port addr) in
  _ ← assert (size >? end_);
  Ok (buf ++ snprintf (Z.to_nat (size - end_)) (":" ++ print_d port))%string.

(** A failure of [inet_pton] is logged and leaves the address. *)
Definition ParseFromIpPort4 (ip : bytes) (port : Z) (addr : sockaddr) : sockaddr :=
  mkSockaddr AF_INET (htons port) (default (sin_addr addr) (inet_pton4 ip)) (sin6_addr addr)
    (sin6_scope_id addr).
Definition ParseFromIpPort6 (ip : bytes) (port : Z) (addr : sockaddr) : sockaddr :=
  mkSockaddr AF_INET6 (htons port) (sin_addr addr) (default (sin6_addr addr) (inet_pton6 ip))
    (sin6_scope_id addr).

(** ** InetAddress

    [junk]: what the object held before ([memset] of [sockaddr_in] clears the
    first 16 bytes only). *)

Definition InetAddress_port (junk : sockaddr) (port : Z) (loop_back_only ipv6 : bool) : sockaddr :=
  if ipv6 then
    mkSockaddr AF_INET6 (htons port) 0 (if loop_back_only then in6addr_loopback else in6addr_any) 0
  else
    mkSockaddr AF_INET (htons port) (htonl (if loop_back_only then INADDR_LOOPBACK else INADDR_ANY))
      (replicate 8 x00 ++ drop 8 (sin6_addr junk)) (sin6_scope_id junk).

(** [ip.data()] up to its terminator. *)
Definition InetAddress_ip (junk : sockaddr) (ip : Slice) (port : Z) (ipv6 : bool) : result sockaddr :=
  n ← strlen (data_ ip);
  let text := take (Z.to_nat n) (data_ ip) in
  if ipv6 then Ok (ParseFromIpPort6 text port sockaddr_zero)
  else Ok (ParseFromIpPort4 text port
         (mkSockaddr 0 0 0 (replicate 8 x00 ++ drop 8 (sin6_addr junk)) (sin6_scope_id junk))).

(** A [sockaddr_in] is the first 16 bytes. *)
Definition InetAddress_in (junk addr : sockaddr) : sockaddr :=
  mkSockaddr (sin_family addr) (sin_port addr) (sin_addr addr)
    (take 8 (sin6_addr addr) ++ drop 8 (sin6_addr junk)) (sin6_scope_id junk).
Definition InetAddress_in6 (addr6 : sockaddr) : sockaddr := addr6.
Definition GetSockAddr (a : sockaddr) : sockaddr := a.

Definition Family (a : sockaddr) : Z := sin_family a.
Definition InetAddress_ToIpPort (a : sockaddr) : result string := ToIpPort 64 a.
Definition InetAddress_ToIp (a : sockaddr) : result string := ip ← ToIp 64 a; deref ip.
Definition PortNetEndian (a : sockaddr) : Z := sin_port a.
Definition ToPort (a : sockaddr) : Z := ntohs (PortNetEndian a).
Definition IpNetEndian (a : sockaddr) : result Z :=
  _ ← assert (Family a =? AF_INET); Ok (sin_addr a).
Definition SetSockAddrInet6 (addr6 : sockaddr) (a : sockaddr) : sockaddr := addr6.
Definition SetScopeID (scope_id : Z) (a : sockaddr) : sockaddr :=
  if Family a =? AF_INET6
  then mkSockaddr (sin_family a) (sin_port a) (sin_addr a) (sin6_addr a) scope_id else a.

(** [gethostbyname_r]'s answer: its value, and the host's type, address length and
    first address. *)
Definition Resolve (answer : Z * option (Z * Z * Z)) (a : sockaddr) : result (bool * sockaddr) :=
  match answer with
  | (0, Some (h_addrtype, h_length, h_addr)) =>
      _ ← assert ((h_addrtype =? AF_INET) && (h_length =? 4));
      Ok (true, mkSockaddr (sin_family a) (sin_port a) h_addr (sin6_addr a) (sin6_scope_id a))
  | _ => Ok (false, a)
  end.

(** [ToIpPort] always fits its 64 bytes: an address of [inet_ntop]'s length, a
    colon and at most five digits. *)
Lemma ToIpPort_fits a s :
  (forall x, (String.length (inet_ntop4 x) < 16)%nat) ->
  (forall x, (String.length (inet_ntop6 x) < 46)%nat) ->
  InetAddress_ToIpPort a = Ok s ->
  exists ip, InetAddress_ToIp a = Ok ip /\ s = (ip ++ ":" ++ print_d (ToPort a))%string /\
    (String.length s <= 51)%nat.
Proof.
  intros H4 H6. unfold InetAddress_ToIpPort, InetAddress_ToIp, ToIpPort. intros Hr. inv_ok.
  exists x0. assert (String.length x0 < 46)%nat as Hlen.
  { unfold ToIp in E. destruct (sin_family a =? AF_INET); [|destruct (sin_family a =? AF_INET6)];
      inv_ok; simplify_eq; [|apply H6]. specialize (H4 (sin_addr a)). lia. }
  rewrite E. cbn [mbind result_bind]. split; [done|].
  assert (0 <= ntohs (sin_port a) < 10 ^ Z.of_nat 5) as Hp.
  { pose proof (le_value_range (rev (le_bytes 2 (sin_port a)))) as Hb.
    rewrite length_rev, length_le_bytes in Hb. unfold ntohs, htons. simpl in *. lia. }
  pose proof (length_pretty_Z (ntohs (sin_port a)) 5 ltac:(lia) ltac:(lia)) as Hl.
  replace (_ <? 0) with false in Hl by blia.
  assert (String.length (":" ++ print_d (ntohs (sin_port a))) <= 6)%nat
    by (rewrite length_string_app; change (String.length ":") with 1%nat; unfold print_d; lia).
  rewrite snprintf_fits by lia. split; [done|]. rewrite length_string_app. lia.
Qed.
End Text.

(** ** Socket (socket.cc): the options pass the value as the length *)

Definition int_of_bool (on : bool) : Z := if on then 1 else 0.

Definition SetTcpNoDelay (on : bool) (sockfd : Z) (k : K) : K :=
  let optval := int_of_bool on in (setsockopt sockfd IPPROTO_TCP TCP_NODELAY optval (u32 optval) k).2.
Definition SetReuseAddr (on : bool) (sockfd : Z) (k : K) : K :=
  let optval := int_of_bool on in (setsockopt sockfd SOL_SOCKET SO_REUSEADDR optval (u32 optval) k).2.
(** A failure is logged when [on]. *)
Definition SetReusePort (on : bool) (sockfd : Z) (k : K) : K :=
  let optval := int_of_bool on in (setsockopt sockfd SOL_SOCKET SO_REUSEPORT optval (u32 optval) k).2.
Definition SetKeepAlive (on : bool) (sockfd : Z) (k : K) : K :=
  let optval := int_of_bool on in (setsockopt sockfd SOL_SOCKET SO_KEEPALIVE optval (u32 optval) k).2.

Definition BindAddress (localaddr : sockaddr) (sockfd : Z) (k : K) : result K :=
  Bind sockfd (GetSockAddr localaddr) k.

Definition Socket_Listen (sockfd : Z) (k : K) : result K := Listen sockfd k.

(** [Socket::Accept]: the peer address is stored on success. *)
Definition Socket_Accept (peeraddr : sockaddr) (sockfd : Z) (k : K) : result (Z * sockaddr * K) :=
  '(connfd, addr, k) ← Accept sockfd k;
  Ok (connfd, if connfd >=? 0 then SetSockAddrInet6 addr peeraddr else peeraddr, k).
End SocketOps.
