(* ===== verification/SocketKernel.v ===== *)
(** * Stream sockets as the connection uses them

    The system calls of a connected socket and what write(2), readv(2) and
    shutdown(2) document: [tx k fd] is every byte the kernel has accepted for
    sending, [wr_shut] whether the sending side was shut down. *)

From S2P Require Import Prelude Bytes Slice Buffer BufferFacts BufferSpec BufferIO EPoller EventFd.
#[local] Open Scope Z_scope.

(** [errno] values. *)
Definition EPIPE : Z := 32.
Definition ECONNRESET : Z := 104.
Definition EWOULDBLOCK : Z := 11.

Class SocketKernel (K : Type) := {
  sock_write : Z -> bytes -> K -> Z * Z * K;       (* value, errno *)
  sock_readv : Z -> list Z -> K -> readv_answer * K;
  sock_shutdown : Z -> K -> Z * K;
  sock_error : Z -> K -> Z;
  tx : K -> Z -> bytes;
  wr_shut : K -> Z -> bool
}.

(** What each call leaves alone is stated with what it does. *)
Class SocketLaws (K : Type) `{EpollKernel K, EventfdKernel K, SocketKernel K} := {
  write_fails fd d k : (sock_write fd d k).1.1 < 0 ->
    (sock_write fd d k).1.1 = -1 /\ tx (sock_write fd d k).2 fd = tx k fd;
  write_sends fd d k : 0 <= (sock_write fd d k).1.1 ->
    (sock_write fd d k).1.1 <= Z.of_nat (length d) /\
    tx (sock_write fd d k).2 fd = tx k fd ++ take (Z.to_nat (sock_write fd d k).1.1) d;
  write_interest fd d k : interest (sock_write fd d k).2 = interest k;
  write_shut fd d k : wr_shut (sock_write fd d k).2 = wr_shut k;
  readv_result fd v k : readv_contract v (sock_readv fd v k).1;
  readv_tx fd v k : tx (sock_readv fd v k).2 = tx k;
  readv_interest fd v k : interest (sock_readv fd v k).2 = interest k;
  readv_shut fd v k : wr_shut (sock_readv fd v k).2 = wr_shut k;
  shutdown_shuts fd k : 0 <= (sock_shutdown fd k).1 -> wr_shut (sock_shutdown fd k).2 fd = true;
  shutdown_tx fd k : tx (sock_shutdown fd k).2 = tx k;
  shutdown_interest fd k : interest (sock_shutdown fd k).2 = interest k;
  ctl_tx op fd ev k : tx (epoll_ctl op fd ev k).2 = tx k;
  ctl_shut op fd ev k : wr_shut (epoll_ctl op fd ev k).2 = wr_shut k;
  efd_tx n k : tx (efd_write n k).2 = tx k;
  efd_shut n k : wr_shut (efd_write n k).2 = wr_shut k;
  efd_interest n k : interest (efd_write n k).2 = interest k
}.
