(* ===== verification/TcpConnection.v ===== *)
(** * TcpConnection (evk/tcp_conn.h, evk/tcp_conn.cc)

    A connection in its event loop.  The loop is the one of EventLoop.v, so that
    [QueueInLoop], [RunInLoop] and the channel's members are the ones proved
    there; the connection is part of the loop's [user] state.  [G] are the other
    functors of the loop, [Cb] the callbacks of its channels, [A] addresses, [U] the
    application's state. *)

From S2P Require Import Prelude Bytes Slice Buffer BufferIO LoopThread Duration Timestamp Channel.
From S2P Require Import EPoller EventFd ServerStatus LoopChannels EventLoop SocketKernel.
#[local] Open Scope Z_scope.

Inductive ConnStatus := kDisconnected | kConnecting | kConnected | kDisconnecting.
Inductive ConnType := kIncoming | kOutgoing.

#[export] Instance ConnStatus_eq_dec : EqDecision ConnStatus.
Proof. solve_decision. Defined.

(** The functors a connection gives to its loop.  The lambdas of [Send] capture
    their argument by reference: [FSendSlice] and [FSendBuffer] hold addresses. *)
Inductive functor (G : Type) :=
  | FWriteComplete
  | FHighWaterMark (len : Z)
  | FSendSlice (message : ptr)
  | FSendBuffer (message : ptr)
  | FShutdownInLoop
  | FOther (g : G).
Arguments FWriteComplete {G}. Arguments FHighWaterMark {G} len. Arguments FSendSlice {G} message.
Arguments FSendBuffer {G} message. Arguments FShutdownInLoop {G}. Arguments FOther {G} g.

(** The channel callbacks bound to the connection. *)
Inductive conn_cb := OnRead | OnWrite | OnClose | OnError.

Section TcpConnection.
Context {G Cb A U K : Type} `{EpollKernel K, EventfdKernel K, SocketKernel K}.

(** [write_complete_cb_] and [high_water_mark_cb_]: whether they are set. *)
Record TcpConnection := mkConn {
  loop_ : ptr;
  name_ : string;
  type_ : ConnType;
  status_ : ConnStatus;
  channel_ : ptr;
  local_addr_ : A;
  peer_addr_ : A;
  write_complete_cb_ : bool;
  high_water_mark_cb_ : bool;
  high_water_mark_ : Z;
  input_buffer_ : Buffer;
  output_buffer_ : Buffer
}.

(** [slices], [buf_vars]: the [Slice] objects and [Buffer*] variables alive, by
    address; [buffers]: the application's buffers. *)
Record cuser := mkUser {
  conn : TcpConnection;
  slices : gmap ptr Slice;
  buf_vars : gmap ptr ptr;
  buffers : gmap ptr Buffer;
  app : U
}.

Abbreviation cworld := (lworld (functor G) Cb cuser K).

Definition set_conn_status s c := mkConn (loop_ c) (name_ c) (type_ c) s (channel_ c) (local_addr_ c)
  (peer_addr_ c) (write_complete_cb_ c) (high_water_mark_cb_ c) (high_water_mark_ c)
  (input_buffer_ c) (output_buffer_ c).
Definition set_input b c := mkConn (loop_ c) (name_ c) (type_ c) (status_ c) (channel_ c) (local_addr_ c)
  (peer_addr_ c) (write_complete_cb_ c) (high_water_mark_cb_ c) (high_water_mark_ c)
  b (output_buffer_ c).
Definition set_output b c := mkConn (loop_ c) (name_ c) (type_ c) (status_ c) (channel_ c) (local_addr_ c)
  (peer_addr_ c) (write_complete_cb_ c) (high_water_mark_cb_ c) (high_water_mark_ c)
  (input_buffer_ c) b.
Definition SetType t c := mkConn (loop_ c) (name_ c) t (status_ c) (channel_ c) (local_addr_ c)
  (peer_addr_ c) (write_complete_cb_ c) (high_water_mark_cb_ c) (high_water_mark_ c)
  (input_buffer_ c) (output_buffer_ c).
Definition SetWriteCompleteCallback set c := mkConn (loop_ c) (name_ c) (type_ c) (status_ c)
  (channel_ c) (local_addr_ c) (peer_addr_ c) set (high_water_mark_cb_ c) (high_water_mark_ c)
  (input_buffer_ c) (output_buffer_ c).
Definition SetHighWaterMarkCallback set high_water_mark c := mkConn (loop_ c) (name_ c) (type_ c)
  (status_ c) (channel_ c) (local_addr_ c) (peer_addr_ c) (write_complete_cb_ c) set high_water_mark
  (input_buffer_ c) (output_buffer_ c).

Definition IsConnected c : bool := bool_decide (status_ c = kConnected).
Definition IsDisconnected c : bool := bool_decide (status_ c = kDisconnected).

Definition the_conn (w : cworld) : TcpConnection := conn (user w).
Definition set_conn (c : TcpConnection) (w : cworld) : cworld :=
  set_user (mkUser c (slices (user w)) (buf_vars (user w)) (buffers (user w)) (app (user w))) w.
Definition SetStatus (s : ConnStatus) (w : cworld) : cworld :=
  set_conn (set_conn_status s (the_conn w)) w.
Definition set_sock (k : K) (w : cworld) : cworld := set_io (set_kernel k (io w)) w.

(** The channel object of the connection. *)
Definition the_channel (w : cworld) : result (Channel Cb) :=
  channel_at (io w) (channel_ (the_conn w)).

Context (junk : nat -> byte).

(** The constructor, on the address given to the channel; the socket options are
    set by [Socket].  [bind]: the callbacks bound to this connection. *)
Definition TcpConnection_new (bind : conn_cb -> Cb) (loop : ptr) (name : string) (sockfd : Z) (local peer : A)
    (channel : ptr) : result (TcpConnection * Channel Cb) :=
  input ← Buffer_new junk kInitialSize kCheapPrependSize;
  output ← Buffer_new junk kInitialSize kCheapPrependSize;
  Ok (mkConn loop name kIncoming kConnecting channel local peer false false (64 * 1024 * 1024)
        input output,
      SetErrorCallback (bind OnError) (SetCloseCallback (bind OnClose) (SetWriteCallback (bind OnWrite)
        (SetReadCallback (bind OnRead) (Channel_new loop sockfd))))).

Definition TcpConnection_dtor (c : TcpConnection) : result unit :=
  assert (bool_decide (status_ c = kDisconnected)).

(** [cur] is the calling thread; [this_loop] the address of the loop object. *)
Context (this_loop : ptr) (cur : thread_id).

Definition in_loop (w : cworld) : result unit := AssertInLoopThread (tid_ w) cur.

(** [channel_->EnableReadEvent()] and its siblings. *)
Definition change_channel (ch : change) (w : cworld) : result cworld :=
  on_io (Channel_change this_loop (tid_ w) cur ch (channel_ (the_conn w))) w.

Definition ShutdownInLoop (w : cworld) : result cworld :=
  _ ← in_loop w;
  c ← the_channel w;
  if negb (IsWriting c) then Ok (set_sock (sock_shutdown (fd_ c) (kernel (io w))).2 w) else Ok w.

(** ** Sending *)

(** [SendInLoop(const void* message, size_t len)]: [message] is the memory from the
    pointer on. *)
Definition SendInLoop (message : bytes) (len : Z) (w : cworld) : result cworld :=
  _ ← in_loop w;
  let conn := the_conn w in
  if bool_decide (status_ conn = kDisconnected) then Ok w else
  c ← the_channel w;
  queued ← Buffer_size (output_buffer_ conn);
  '(nwrote, remaining, faultError, w) ←
    (if negb (IsWriting c) && (queued =? 0) then
       d ← mem_read message 0 len;
       let '(n, errno, k) := sock_write (fd_ c) d (kernel (io w)) in
       let w := set_sock k w in
       if n >=? 0 then
         let remaining := u64 (len - n) in
         Ok (n, remaining, false,
             if (remaining =? 0) && write_complete_cb_ conn
             then QueueInLoop cur FWriteComplete w else w)
       else
         Ok (0, len, negb (errno =? EWOULDBLOCK) && ((errno =? EPIPE) || (errno =? ECONNRESET)), w)
     else Ok (0, len, false, w));
  _ ← assert (remaining <=? len);
  if negb faultError && (remaining >? 0) then
    oldLen ← Buffer_size (output_buffer_ (the_conn w));
    let w := if (u64 (oldLen + remaining) >=? high_water_mark_ (the_conn w))
                  && (oldLen <? high_water_mark_ (the_conn w)) && high_water_mark_cb_ (the_conn w)
             then QueueInLoop cur (FHighWaterMark (u64 (oldLen + remaining))) w else w in
    d ← mem_read message nwrote remaining;
    b ← Append junk d (output_buffer_ (the_conn w));
    let w := set_conn (set_output b (the_conn w)) w in
    c ← the_channel w;
    if negb (IsWriting c) then change_channel EnableWrite w else Ok w
  else Ok w.

Definition SendInLoop_slice (message : Slice) (w : cworld) : result cworld :=
  SendInLoop (data_ message) (size_ message) w.

(** [NextAll] on the application's buffer at [p]. *)
Definition set_buffer (p : ptr) (b : Buffer) (w : cworld) : cworld :=
  set_user (mkUser (conn (user w)) (slices (user w)) (buf_vars (user w))
    (<[p := b]> (buffers (user w))) (app (user w))) w.

(** [Send(const Slice&)], given the address of the slice. *)
Definition Send_slice (message : ptr) (w : cworld) : result cworld :=
  if bool_decide (status_ (the_conn w) = kConnected) then
    if IsInLoopThread (tid_ w) cur then
      s ← deref (slices (user w) !! message); SendInLoop_slice s w
    else Ok (QueueInLoop cur (FSendSlice message) w)
  else Ok w.

(** [Send(const void*, int)]: the slice is a temporary, at address [tmp], whose
    lifetime ends with the call. *)
Definition Send (tmp : ptr) (message : bytes) (len : Z) (w : cworld) : result cworld :=
  let u := user w in
  let w := set_user (mkUser (conn u) (<[tmp := Slice_ptr message (u64 len)]> (slices u)) (buf_vars u)
                       (buffers u) (app u)) w in
  w ← Send_slice tmp w;
  let u := user w in
  Ok (set_user (mkUser (conn u) (delete tmp (slices u)) (buf_vars u) (buffers u) (app u)) w).

(** [Send(Buffer* message)]: the parameter is a variable, at address [var], whose
    lifetime ends with the call. *)
Definition Send_buffer (var message : ptr) (w : cworld) : result cworld :=
  let u := user w in
  let w := set_user (mkUser (conn u) (slices u) (<[var := message]> (buf_vars u)) (buffers u) (app u)) w in
  w ← (if bool_decide (status_ (the_conn w) = kConnected) then
         if IsInLoopThread (tid_ w) cur then
           b ← deref (buffers (user w) !! message);
           n ← Buffer_length b;
           w ← SendInLoop (data b) n w;
           b ← deref (buffers (user w) !! message);
           Ok (set_buffer message (Reset b) w)
         else Ok (QueueInLoop cur (FSendBuffer var) w)
       else Ok w);
  let u := user w in
  Ok (set_user (mkUser (conn u) (slices u) (delete var (buf_vars u)) (buffers u) (app u)) w).

Definition Shutdown (w : cworld) : result cworld :=
  if bool_decide (status_ (the_conn w) = kConnected) then
    let w := SetStatus kDisconnecting w in
    if IsInLoopThread (tid_ w) cur then ShutdownInLoop w
    else Ok (QueueInLoop cur FShutdownInLoop w)
  else Ok w.

(** ** Events

    [conn_cb_], [msg_cb_] and [close_cb_] act on the world. *)
Context (conn_cb_ msg_cb_ close_cb_ : cworld -> result cworld).

Definition OnConnectEstablished (w : cworld) : result cworld :=
  _ ← in_loop w;
  _ ← assert (bool_decide (status_ (the_conn w) = kConnecting));
  let w := SetStatus kConnected w in
  w ← change_channel EnableRead w;
  conn_cb_ w.

Definition OnConnectDestroyed (w : cworld) : result cworld :=
  _ ← in_loop w;
  w ← (if bool_decide (status_ (the_conn w) = kConnected) then
         let w := SetStatus kDisconnected w in
         w ← change_channel DisableAll w;
         conn_cb_ w
       else Ok w);
  on_io (Channel_Remove this_loop (tid_ w) cur (channel_ (the_conn w))) w.

Definition HandleError (w : cworld) : result cworld :=
  c ← the_channel w; let _ := sock_error (fd_ c) (kernel (io w)) in Ok w.

Definition HandleClose (w : cworld) : result cworld :=
  _ ← in_loop w;
  _ ← assert (bool_decide (status_ (the_conn w) = kConnected)
              || bool_decide (status_ (the_conn w) = kDisconnecting));
  let w := SetStatus kDisconnected w in
  w ← change_channel DisableAll w;
  close_cb_ w.

Definition HandleRead (w : cworld) : result cworld :=
  _ ← in_loop w;
  c ← the_channel w;
  let readv := fun v => (sock_readv (fd_ c) v (kernel (io w))).1 in
  '(n, _, b) ← ReadFromFD junk readv (input_buffer_ (the_conn w));
  writable ← WritableBytes (input_buffer_ (the_conn w));
  let vec := if writable <? 65536 then [writable; 65536] else [writable] in
  let w := set_sock (sock_readv (fd_ c) vec (kernel (io w))).2 w in
  let w := set_conn (set_input b (the_conn w)) w in
  if n >? 0 then msg_cb_ w
  else if n =? 0 then HandleClose w
  else HandleError w.

Definition HandleWrite (w : cworld) : result cworld :=
  _ ← in_loop w;
  c ← the_channel w;
  if IsWriting c then
    len ← Buffer_size (output_buffer_ (the_conn w));
    d ← mem_read (data (output_buffer_ (the_conn w))) 0 len;
    let '(n, errno, k) := sock_write (fd_ c) d (kernel (io w)) in
    let w := set_sock k w in
    if n >? 0 then
      b ← Skip (u64 n) (output_buffer_ (the_conn w));
      let w := set_conn (set_output b (the_conn w)) w in
      len ← Buffer_size b;
      if len =? 0 then
        w ← change_channel DisableWrite w;
        let w := if write_complete_cb_ (the_conn w) then QueueInLoop cur FWriteComplete w else w in
        if bool_decide (status_ (the_conn w) = kDisconnecting) then ShutdownInLoop w else Ok w
      else Ok w
    else Ok w
  else Ok w.

(** ** Running the functors and callbacks of the connection *)

Context (write_complete : cworld -> result cworld) (high_water_mark : Z -> cworld -> result cworld)
  (exec_other : G -> cworld -> result cworld).

Definition exec_functor (f : functor G) (w : cworld) : result cworld :=
  match f with
  | FWriteComplete => write_complete w
  | FHighWaterMark len => high_water_mark len w
  | FSendSlice message =>
      s ← deref (slices (user w) !! message); SendInLoop_slice s w
  | FSendBuffer message =>
      p ← deref (buf_vars (user w) !! message);
      b ← deref (buffers (user w) !! p);
      '(s, b) ← NextAll b;
      SendInLoop_slice s (set_buffer p b w)
  | FShutdownInLoop => ShutdownInLoop w
  | FOther g => exec_other g w
  end.

Definition call_channel (cb : conn_cb) (w : cworld) : result cworld :=
  match cb with
  | OnRead => HandleRead w
  | OnWrite => HandleWrite w
  | OnClose => HandleClose w
  | OnError => HandleError w
  end.
End TcpConnection.
Arguments TcpConnection : clear implicits.
Arguments cuser : clear implicits.
