(* ===== verification/TcpConnFacts.v ===== *)
(** * The connection's state and what its steps leave alone *)

From S2P Require Import Prelude Bytes Slice Buffer BufferFacts BufferIO LoopThread Duration Timestamp.
From S2P Require Import Channel EPoller EPollerFacts EventFd ServerStatus LoopChannels EventLoop.
From S2P Require Import SocketKernel TcpConnection.
#[local] Open Scope Z_scope.

Section Facts.
Context {G Cb A U K : Type} `{EpollLaws K, EventfdKernel K, SocketKernel K, !SocketLaws K}.
Abbreviation cworld := (lworld (functor G) Cb (cuser A U) K).
Implicit Types (w : cworld) (c : Channel Cb).

(** ** Observations *)

Definition output w : bytes := content (output_buffer_ (the_conn w)).
Definition input w : bytes := content (input_buffer_ (the_conn w)).
Definition sent w (fd : Z) : bytes := tx (kernel (io w)) fd.
Definition shut w (fd : Z) : bool := wr_shut (kernel (io w)) fd.

(** [w'] differs from [w] at most in the pending functors and the eventfd. *)
Record quiet w w' : Prop := {
  q_user : user w' = user w;
  q_tid : tid_ w' = tid_ w;
  q_poller : poller (io w') = poller (io w);
  q_channels : channels (io w') = channels (io w);
  q_interest : interest (kernel (io w')) = interest (kernel (io w));
  q_tx : tx (kernel (io w')) = tx (kernel (io w));
  q_shut : wr_shut (kernel (io w')) = wr_shut (kernel (io w));
  q_status : EventLoop.status_ w' = EventLoop.status_ w
}.

Lemma quiet_refl w : quiet w w.
Proof. by split. Qed.

Lemma post_spec cur (b : bool) f w :
  let w' := if b then QueueInLoop cur f w else w in
  quiet w w' /\ pending_functors_ w' = pending_functors_ w ++ (if b then [f] else []).
Proof.
  destruct b; simpl; [|by rewrite app_nil_r].
  unfold QueueInLoop. destruct (must_wake cur _); [|by split].
  unfold Wakeup. simpl. pose proof (efd_tx 1 (kernel (io w))) as E1.
  pose proof (efd_shut 1 (kernel (io w))) as E2. pose proof (efd_interest 1 (kernel (io w))) as E3.
  destruct (efd_write 1 (kernel (io w))) as [n k]. by split.
Qed.

Lemma quiet_inv w w' : quiet w w' -> inv_but None (io w) -> inv_but None (io w').
Proof.
  intros [_ _ Hp Hc Hi _ _] [Hm Hk Hx Hs]. split; rewrite ?Hp, ?Hc; try done;
    rewrite Hi; done.
Qed.

(** [w'] has the user state of [w] but for the output buffer [b]. *)
Definition only_output w w' (b : Buffer) : Prop :=
  user w' = user (set_conn (set_output b (the_conn w)) w) /\ tid_ w' = tid_ w.

Lemma nothing_output w : only_output w w (output_buffer_ (the_conn w)).
Proof. split; [|done]. destruct w as [? ? ? ? ? ? ? ? ? [[] ? ? ? ?]]. done. Qed.

Lemma same_output w w' :
  user w' = user w -> tid_ w' = tid_ w -> only_output w w' (output_buffer_ (the_conn w)).
Proof. intros Hu Ht. split; [|done]. rewrite Hu. apply nothing_output. Qed.

(** ** The channel's members do not send *)

Definition same_socket (i i' : EPoller.world Cb K) : Prop :=
  tx (kernel i') = tx (kernel i) /\ wr_shut (kernel i') = wr_shut (kernel i).

Lemma Update_socket op p i i' : Update op p i = Ok i' -> same_socket i i'.
Proof.
  unfold Update. intros Hr. inv_ok.
  pose proof (ctl_tx op (fd_ x) (mkEvent (u32 (events_ x)) p) (kernel i)) as E1.
  pose proof (ctl_shut op (fd_ x) (mkEvent (u32 (events_ x)) p) (kernel i)) as E2.
  destruct (epoll_ctl _ _ _ _) as [ret k].
  destruct (ret <? 0); [destruct op|]; inv_ok; by split.
Qed.

Lemma UpdateChannel_socket cur p i i' : EPoller.UpdateChannel cur p i = Ok i' -> same_socket i i'.
Proof.
  unfold EPoller.UpdateChannel. intros Hr. inv_ok.
  destruct ((index_ _ =? kNew) || _); [|by eapply Update_socket].
  inv_ok. apply Update_socket in Hr. destruct (index_ x0 =? kNew); inv_ok; done.
Qed.

Lemma Channel_change_socket this tid cur ch p i i' :
  Channel_change this tid cur ch p i = Ok i' -> same_socket i i'.
Proof.
  unfold Channel_change, Channel_Update, Loop_UpdateChannel. intros Hr. inv_ok.
  by apply UpdateChannel_socket in Hr.
Qed.

Lemma Channel_Remove_socket this tid cur p i i' :
  Channel_Remove this tid cur p i = Ok i' -> same_socket i i'.
Proof.
  unfold Channel_Remove, Loop_RemoveChannel, EPoller.RemoveChannel. intros Hr. inv_ok.
  destruct (index_ _ =? kAdded); inv_ok; [|done].
  match goal with Hu : Update _ _ _ = Ok _ |- _ => by apply Update_socket in Hu end.
Qed.

(** ** The invariant of an established connection *)

Context (this_loop : ptr).

(** [c]: the connection's channel object. *)
Record conn_inv w c : Prop := {
  ci_epoll : inv_but None (io w);
  ci_channel : channels (io w) !! channel_ (the_conn w) = Some c;
  ci_loop : Channel.loop_ c = this_loop;
  ci_owner : owner_tid (poller (io w)) = tid_ w;
  ci_added : index_ c = kAdded;
  ci_mask : exists r b, events_ c = mask r b;
  ci_in : wf (input_buffer_ (the_conn w));
  ci_out : wf (output_buffer_ (the_conn w));
  ci_writing : status_ (the_conn w) <> kDisconnected -> (IsWriting c = true <-> output w <> [])
}.

Lemma mask_writing r b c : events_ c = mask r b -> IsWriting c = b.
Proof. unfold IsWriting. intros ->. by destruct r, b. Qed.

Lemma conn_registrable w c :
  conn_inv w c -> registrable this_loop (tid_ w) (channel_ (the_conn w)) c (io w).
Proof.
  intros Hi. split_and!; [apply Hi..|]. intros Hn. pose proof (ci_added _ _ Hi) as Ha.
  unfold kNew, kAdded in *. lia.
Qed.

(** A step that only queues functors. *)
Lemma conn_inv_quiet w w' c : quiet w w' -> conn_inv w c -> conn_inv w' c.
Proof.
  intros Hq Hi. pose proof (quiet_inv _ _ Hq (ci_epoll _ _ Hi)). destruct Hq as [Hu Ht Hp Hc _ _ _], Hi.
  split; unfold output, the_conn in *; rewrite ?Hu, ?Hc, ?Ht, ?Hp; done.
Qed.

(** A change of interest. *)
Lemma change_channel_spec w c ch :
  inv_but None (io w) -> registrable this_loop (tid_ w) (channel_ (the_conn w)) c (io w) ->
  let c' := SetIndex kAdded (set_added true (set_events (change_events ch (events_ c)) c)) in
  exists i, change_channel this_loop (tid_ w) ch w = Ok (set_io i w) /\ inv_but None i /\
    channels i = <[channel_ (the_conn w) := c']> (channels (io w)) /\
    owner_tid (poller i) = owner_tid (poller (io w)) /\ same_socket (io w) i.
Proof.
  intros Hi Hr c'. destruct (Channel_change_spec this_loop (tid_ w) ch _ c (io w) Hi Hr)
    as (i & Hrun & Hi' & Hch & _ & _ & Ho).
  exists i. unfold change_channel, on_io. rewrite Hrun. split_and!; try done; by eapply Channel_change_socket.
Qed.

Lemma conn_inv_change w c ch i :
  conn_inv w c -> inv_but None i ->
  let c' := SetIndex kAdded (set_added true (set_events (change_events ch (events_ c)) c)) in
  channels i = <[channel_ (the_conn w) := c']> (channels (io w)) ->
  owner_tid (poller i) = owner_tid (poller (io w)) ->
  (status_ (the_conn w) <> kDisconnected -> (IsWriting c' = true <-> output w <> [])) ->
  conn_inv (set_io i w) c'.
Proof.
  intros Hi Hi' c' Hch Ho Hw. destruct Hi as [_ Hc Hl How Ha (r & b & Hm) Hin Hout _].
  split; unfold output, the_conn in *; simpl; try done.
  - by rewrite Hch, lookup_insert_eq.
  - by rewrite Ho.
  - rewrite Hm, change_events_mask. destruct ch; eauto.
Qed.

(** Only the kernel's sockets change. *)
Lemma conn_inv_sock w c k :
  conn_inv w c -> interest k = interest (kernel (io w)) -> conn_inv (set_sock k w) c.
Proof.
  intros [[Hm Hk Hx Hs] ? ? ? ? ? ? ? ?] Hi. split; try done.
  split; simpl; try done; rewrite Hi; done.
Qed.

(** Only the output buffer changes. *)
Lemma conn_inv_output w c b :
  conn_inv w c -> wf b ->
  (status_ (the_conn w) <> kDisconnected -> (IsWriting c = true <-> content b <> [])) ->
  conn_inv (set_conn (set_output b (the_conn w)) w) c.
Proof. intros [? ? ? ? ? ? ? ? ?] Hb Hw. by split. Qed.

Lemma len_zero b : (len b =? 0) = bool_decide (content b = []).
Proof.
  unfold len. destruct (content b) as [|x l]; [done|].
  rewrite bool_decide_eq_false_2 by done. apply Z.eqb_neq. simpl. lia.
Qed.
End Facts.
