(* ===== verification/TcpSend.v ===== *)
(** * Sending: the stream of a connection

    What [SendInLoop] accepts and [HandleWrite] passes on, as a stream: the bytes the
    kernel has taken followed by those in the output buffer. *)

From S2P Require Import Prelude Bytes Slice Buffer BufferFacts BufferIO LoopThread Duration Timestamp.
From S2P Require Import Channel EPoller EPollerFacts EventFd ServerStatus LoopChannels EventLoop.
From S2P Require Import SocketKernel TcpConnection TcpConnFacts.
#[local] Open Scope Z_scope.

Section Send.
Context {G Cb A U K : Type} `{EpollLaws K, EventfdKernel K, SocketKernel K, !SocketLaws K}.
Abbreviation cworld := (lworld (functor G) Cb (cuser A U) K).
Implicit Types (w : cworld) (c : Channel Cb).
Context (junk : nat -> byte) (this_loop : ptr).

(** Room to append [n] bytes to the output buffer. *)
Definition room w (n : Z) : Prop :=
  3 * (len (output_buffer_ (the_conn w)) + n + reserved_prepend_size_ (output_buffer_ (the_conn w))) < 2 ^ 62.

(** A write that the kernel refused because the peer is gone. *)
Definition peer_gone (fd : Z) (k : K) : Prop :=
  exists d, let '(n, errno, _) := sock_write fd d k in
    n < 0 /\ (errno = EPIPE \/ errno = ECONNRESET).

(** ** The two halves of [SendInLoop] *)

Definition write_first (cur : thread_id) (message : bytes) (len : Z) c w :
    result (Z * Z * bool * cworld) :=
  queued ← Buffer_size (output_buffer_ (the_conn w));
  if negb (IsWriting c) && (queued =? 0) then
    d ← mem_read message 0 len;
    let '(n, errno, k) := sock_write (fd_ c) d (kernel (io w)) in
    let w1 := set_sock k w in
    if n >=? 0 then
      let remaining := u64 (len - n) in
      Ok (n, remaining, false,
          if (remaining =? 0) && write_complete_cb_ (the_conn w)
          then QueueInLoop cur FWriteComplete w1 else w1)
    else
      Ok (0, len, negb (errno =? EWOULDBLOCK) && ((errno =? EPIPE) || (errno =? ECONNRESET)), w1)
  else Ok (0, len, false, w).

Definition queue_rest (cur : thread_id) (message : bytes) (nwrote remaining : Z) w :
    result cworld :=
  oldLen ← Buffer_size (output_buffer_ (the_conn w));
  let w := if (u64 (oldLen + remaining) >=? high_water_mark_ (the_conn w))
                && (oldLen <? high_water_mark_ (the_conn w)) && high_water_mark_cb_ (the_conn w)
           then QueueInLoop cur (FHighWaterMark (u64 (oldLen + remaining))) w else w in
  d ← mem_read message nwrote remaining;
  b ← Append junk d (output_buffer_ (the_conn w));
  let w := set_conn (set_output b (the_conn w)) w in
  c ← the_channel w;
  if negb (IsWriting c) then change_channel this_loop cur EnableWrite w else Ok w.

(** What the first half did: [n] bytes went to the kernel, or the peer is gone. *)
Record wrote w c (d : bytes) (n rest : Z) (fault : bool) (w1 : cworld) : Prop := {
  wr_inv : conn_inv this_loop w1 c;
  wr_user : user w1 = user w;
  wr_tid : tid_ w1 = tid_ w;
  wr_rest : 0 <= n /\ 0 <= rest /\ n + rest = Z.of_nat (length d);
  wr_sent : sent w1 (fd_ c) = sent w (fd_ c) ++ take (Z.to_nat n) d;
  wr_shut' : wr_shut (kernel (io w1)) = wr_shut (kernel (io w));
  wr_order : 0 < n \/ fault = true -> output w = [];
  wr_posts : exists post : bool,
    pending_functors_ w1 = pending_functors_ w ++ (if post then [FWriteComplete] else []) /\
    (0 < Z.of_nat (length d) -> post = (rest =? 0) && write_complete_cb_ (the_conn w));
  wr_fault : fault = true -> n = 0 /\ peer_gone (fd_ c) (kernel (io w))
}.

Lemma write_first_spec message n c w :
  conn_inv this_loop w c -> status_ (the_conn w) <> kDisconnected ->
  0 <= n <= Z.of_nat (length message) -> n < 2 ^ 62 ->
  let d := take (Z.to_nat n) message in
  exists nw rest fault w1, write_first (tid_ w) message n c w = Ok (nw, rest, fault, w1) /\
    wrote w c d nw rest fault w1.
Proof.
  intros Hi Hs Hn Hmax d. unfold write_first.
  assert (length d = Z.to_nat n) as Hd by (unfold d; rewrite length_take; lia).
  rewrite (Buffer_length_ok _ (ci_out _ _ _ Hi) : Buffer_size _ = _). cbn [mbind result_bind].
  rewrite len_zero. fold (output w).
  assert (wrote w c d 0 n false w) as Hnone.
  { split; try done; try lia; [by rewrite app_nil_r|]. exists false. rewrite app_nil_r.
    split; [done|]. intros Hpos. by replace (n =? 0) with false by blia. }
  destruct (negb (IsWriting c) && _) eqn:E; [|exists 0, n, false, w; by split].
  apply andb_true_iff in E as [_ Hempty%bool_decide_eq_true].
  rewrite mem_read_ok by lia. cbn [mbind result_bind].
  replace (sub message 0 n) with d by (unfold sub, d; simpl; by rewrite drop_0).
  pose proof (write_interest (fd_ c) d (kernel (io w))) as Hint.
  pose proof (write_shut (fd_ c) d (kernel (io w))) as Hsh.
  pose proof (write_fails (fd_ c) d (kernel (io w))) as Hfail.
  pose proof (write_sends (fd_ c) d (kernel (io w))) as Hsend.
  destruct (sock_write (fd_ c) d (kernel (io w))) as [[r errno] k] eqn:Ek.
  simpl in Hint, Hsh, Hfail, Hsend. pose proof (conn_inv_sock this_loop w c k Hi Hint) as Hi1.
  rewrite Z.geb_leb. destruct (Z.leb_spec 0 r) as [Hr|Hr].
  - destruct (Hsend Hr) as [Hle Htx]. rewrite u64_id by (unfold in_u64; lia).
    set (post := (n - r =? 0) && _).
    destruct (post_spec (tid_ w) post FWriteComplete (set_sock k w)) as [Hq Hp].
    eexists r, (n - r), false, _. split; [done|].
    pose proof (conn_inv_quiet this_loop _ _ c Hq Hi1) as Hi2. destruct Hq as [Hu Ht _ _ _ Hx Hy].
    split; try done; try lia.
    + unfold sent. rewrite Hx. simpl. exact Htx.
    + rewrite Hy. simpl. exact Hsh.
    + exists post. split; [exact Hp|]. done.
  - destruct (Hfail Hr) as [_ Htx]. eexists 0, n, _, _. split; [done|].
    split; try done; try lia.
    + unfold sent. simpl. by rewrite Htx, app_nil_r.
    + exists false. rewrite app_nil_r. split; [done|]. intros Hpos. by replace (n =? 0) with false by blia.
    + intros [_ Hf]%andb_true_iff. split; [done|]. exists d. rewrite Ek.
      apply orb_true_iff in Hf as [Hf%Z.eqb_eq|Hf%Z.eqb_eq]; auto.
Qed.

(** The crossing of the high water mark, between [before] and [after] queued bytes. *)
Definition crossing (hw : Z) (hcb : bool) (before after : Z) : list (functor G) :=
  if (after >=? hw) && (before <? hw) && hcb then [FHighWaterMark after] else [].

Lemma queue_rest_spec message nw rest c w :
  conn_inv this_loop w c -> status_ (the_conn w) <> kDisconnected ->
  0 <= nw -> 0 < rest -> nw + rest <= Z.of_nat (length message) -> room w rest ->
  exists w' c' b, queue_rest (tid_ w) message nw rest w = Ok w' /\
    conn_inv this_loop w' c' /\ fd_ c' = fd_ c /\ only_output w w' b /\
    reserved_prepend_size_ b = reserved_prepend_size_ (output_buffer_ (the_conn w)) /\
    content b = output w ++ sub message nw rest /\
    sent w' (fd_ c) = sent w (fd_ c) /\ wr_shut (kernel (io w')) = wr_shut (kernel (io w)) /\
    pending_functors_ w' = pending_functors_ w ++
      crossing (high_water_mark_ (the_conn w)) (high_water_mark_cb_ (the_conn w))
        (len (output_buffer_ (the_conn w))) (len b).
Proof.
  intros Hi Hs Hnw Hrest Hlen Hroom. unfold queue_rest. set (old := len (output_buffer_ (the_conn w))).
  rewrite (Buffer_length_ok _ (ci_out _ _ _ Hi) : Buffer_size _ = _). cbn [mbind result_bind]. fold old.
  pose proof (len_nonneg (output_buffer_ (the_conn w))) as Hold. fold old in Hold.
  pose proof (wf_reserve _ (ci_out _ _ _ Hi)). unfold room in Hroom. fold old in Hroom.
  rewrite !u64_id by (unfold in_u64; lia).
  set (post := (old + rest >=? _) && _ && _).
  destruct (post_spec (tid_ w) post (FHighWaterMark (old + rest)) w) as [Hq Hp].
  set (w1 := if post then _ else w) in *. pose proof (conn_inv_quiet this_loop _ _ c Hq Hi) as Hi1.
  destruct Hq as [Hu Ht Hpo Hch _ Hx Hy]. assert (the_conn w1 = the_conn w) as Hconn by (unfold the_conn; by rewrite Hu).
  rewrite mem_read_ok by lia. cbn [mbind result_bind]. rewrite Hconn.
  assert (length (sub message nw rest) = Z.to_nat rest) as Hsub by (rewrite length_sub; lia).
  destruct (Write_spec junk (sub message nw rest) _ (ci_out _ _ _ Hi)) as (b & Hb & Hwb & Hcb & _ & Hres).
  { fold old. lia. }
  unfold Append. rewrite Hb. cbn [mbind result_bind].
  assert (len b = old + rest) as Hlenb by (unfold len, old; rewrite Hcb, length_app; unfold len; lia).
  assert (content b <> []) as Hne by (intros He; unfold len in Hlenb; rewrite He in Hlenb; simpl in Hlenb; lia).
  set (w2 := set_conn (set_output b (the_conn w)) w1).
  unfold the_channel, channel_at. change (channel_ (the_conn w2)) with (channel_ (the_conn w)).
  change (io w2) with (io w1). rewrite Hch, (ci_channel _ _ _ Hi). cbn [deref mbind result_bind].
  assert (only_output w w2 b) as Hout.
  { split; [|done]. unfold w2, set_conn. simpl. by rewrite Hu. }
  destruct (IsWriting c) eqn:Ew; cbn [negb].
  - exists w2, c, b. split_and!; try done.
    + unfold w2. rewrite <- Hconn. apply conn_inv_output; [done..|]. intros _. by rewrite Ew.
    + unfold sent. simpl. by rewrite Hx.
    + rewrite Hlenb. exact Hp.
  - destruct (change_channel_spec this_loop w2 c EnableWrite) as (i & Hrun & Hii & Hci & Hoi & Hsi).
    { apply Hi1. }
    { pose proof (conn_registrable this_loop w1 c Hi1) as Hreg. by rewrite Hconn in Hreg. }
    rewrite <- Ht. change (tid_ w1) with (tid_ w2). rewrite Hrun.
    set (c' := SetIndex kAdded _) in *. exists (set_io i w2), c', b. destruct Hsi as [Htx Hshut].
    split_and!; try done.
    + destruct Hi1 as [_ Hc1 Hl1 How Ha (r & wr & Hm) Hin Ho _]. rewrite Hconn in *.
      split; try done; simpl.
      * by rewrite Hci, lookup_insert_eq.
      * by rewrite Hoi.
      * rewrite Hm. exists r, true. apply (change_events_mask EnableWrite).
      * intros _. rewrite (mask_writing r true); [done|]. simpl. rewrite Hm.
        apply (change_events_mask EnableWrite).
    + unfold sent. simpl. rewrite Htx. simpl. by rewrite Hx.
    + simpl. rewrite Hshut. simpl. by rewrite Hy.
    + rewrite Hlenb. exact Hp.
Qed.

Lemma SendInLoop_unfold message n c w :
  conn_inv this_loop w c -> status_ (the_conn w) <> kDisconnected ->
  SendInLoop junk this_loop (tid_ w) message n w =
    '(nw, rest, fault, w1) ← write_first (tid_ w) message n c w;
    _ ← assert (rest <=? n);
    if negb fault && (rest >? 0)
    then queue_rest (tid_ w) message nw rest w1
    else Ok w1.
Proof.
  intros Hi Hs. unfold SendInLoop, in_loop, the_channel, channel_at. rewrite AssertInLoopThread_refl.
  cbn [mbind result_bind]. rewrite bool_decide_eq_false_2 by done.
  rewrite (ci_channel _ _ _ Hi). cbn [deref mbind result_bind]. unfold write_first.
  destruct (Buffer_size (output_buffer_ (the_conn w))); [|done]. reflexivity.
Qed.

(** After the first half the output buffer is as it was. *)
Lemma wrote_same w c d n rest fault w1 :
  wrote w c d n rest fault w1 ->
  the_conn w1 = the_conn w /\ output w1 = output w /\ only_output w w1 (output_buffer_ (the_conn w)).
Proof.
  intros [_ Hu Ht _ _ _ _ _ _]. assert (the_conn w1 = the_conn w) as Hconn by (unfold the_conn; by rewrite Hu).
  split_and!; [done|unfold output; by rewrite Hconn|]. split; [|done]. rewrite Hu. apply nothing_output.
Qed.

Lemma take_split (message : bytes) nw rest :
  0 <= nw -> 0 <= rest ->
  take (Z.to_nat (nw + rest)) message =
    take (Z.to_nat nw) (take (Z.to_nat (nw + rest)) message) ++ sub message nw rest.
Proof.
  intros. rewrite <- (take_drop (Z.to_nat nw) (take (Z.to_nat (nw + rest)) message)) at 1. f_equal.
  unfold sub. rewrite skipn_firstn_comm. f_equal. lia.
Qed.

Lemma crossing_none hw hcb n : crossing hw hcb n n = [].
Proof. unfold crossing. destruct (Z.ltb_spec n hw), (Z.geb_spec n hw); try done; lia. Qed.

(** The bytes in order and the functors queued, for a message that is not dropped. *)
Definition in_order (message : bytes) (n : Z) c w w' (b : Buffer) : Prop :=
  sent w' (fd_ c) ++ output w' = sent w (fd_ c) ++ output w ++ take (Z.to_nat n) message /\
  (sent w' (fd_ c) = sent w (fd_ c) \/ output w = []) /\
  pending_functors_ w' = pending_functors_ w ++
    (if bool_decide (output w' = []) && write_complete_cb_ (the_conn w) then [FWriteComplete] else []) ++
    crossing (high_water_mark_ (the_conn w)) (high_water_mark_cb_ (the_conn w))
      (len (output_buffer_ (the_conn w))) (len b).

Lemma all_in_order message n c w w1 nw :
  wrote w c (take (Z.to_nat n) message) nw 0 false w1 -> 0 < n <= Z.of_nat (length message) ->
  output w = [] /\ in_order message n c w w1 (output_buffer_ (the_conn w)).
Proof.
  intros Hw Hn. destruct (wrote_same _ _ _ _ _ _ _ Hw) as (_ & Hout & _).
  destruct Hw as [_ _ _ (Hnw & _ & Hsum) Hsent _ Hord (post & Hpend & Hpost) _].
  rewrite length_take in Hsum, Hpost. specialize (Hord ltac:(left; lia)). unfold in_order. rewrite Hout, Hord. split_and!; try done.
  - rewrite app_nil_r, Hsent. simpl. f_equal. apply take_ge. rewrite length_take. lia.
  - by right.
  - rewrite Hpend, Hpost by lia. by rewrite crossing_none, bool_decide_eq_true_2, app_nil_r.
Qed.

Lemma rest_in_order message nw rest c w w1 w' b :
  wrote w c (take (Z.to_nat (nw + rest)) message) nw rest false w1 ->
  0 < rest -> nw + rest <= Z.of_nat (length message) -> output w' = content b ->
  content b = output w1 ++ sub message nw rest -> sent w' (fd_ c) = sent w1 (fd_ c) ->
  pending_functors_ w' = pending_functors_ w1 ++
    crossing (high_water_mark_ (the_conn w1)) (high_water_mark_cb_ (the_conn w1))
      (len (output_buffer_ (the_conn w1))) (len b) ->
  in_order message (nw + rest) c w w' b.
Proof.
  intros Hw Hrest Hlen Hout Hb Hs' Hp'. destruct (wrote_same _ _ _ _ _ _ _ Hw) as (Hconn & Hout1 & _).
  destruct Hw as [_ _ _ (Hnw & _ & Hsum) Hsent _ Hord (post & Hpend & Hpost) _].
  rewrite length_take in Hpost. unfold in_order. rewrite Hout, Hb, Hs', Hsent, Hout1. split_and!.
  - rewrite (take_split message nw rest) at 2 by lia. destruct (decide (0 < nw)) as [Hgt|].
    + rewrite Hord by by left. simpl. by rewrite <- !app_assoc.
    + assert (nw = 0) as -> by lia. simpl. rewrite app_nil_r. done.
  - destruct (decide (0 < nw)) as [Hgt|]; [right; by apply Hord; left|].
    left. assert (nw = 0) as -> by lia. by rewrite app_nil_r.
  - rewrite Hp', Hpend, Hpost, Hconn by lia. rewrite (bool_decide_eq_false_2 (_ ++ _ = [])).
    + replace (rest =? 0) with false by blia. by rewrite app_nil_r.
    + intros [_ Hnil]%app_nil. assert (length (sub message nw rest) = 0)%nat as Hz by by rewrite Hnil.
      rewrite length_sub in Hz; lia.
Qed.

(** What [SendInLoop] does with [n] bytes: they are in order, or the peer is gone. *)
Lemma SendInLoop_spec message n c w :
  conn_inv this_loop w c -> status_ (the_conn w) <> kDisconnected ->
  0 < n <= Z.of_nat (length message) -> room w n ->
  exists w' c' b, SendInLoop junk this_loop (tid_ w) message n w = Ok w' /\
    conn_inv this_loop w' c' /\ fd_ c' = fd_ c /\ only_output w w' b /\ output w' = content b /\
    reserved_prepend_size_ b = reserved_prepend_size_ (output_buffer_ (the_conn w)) /\
    len b <= len (output_buffer_ (the_conn w)) + n /\
    wr_shut (kernel (io w')) = wr_shut (kernel (io w)) /\
    (in_order message n c w w' b \/
     (output w = [] /\ output w' = [] /\ sent w' (fd_ c) = sent w (fd_ c) /\
      pending_functors_ w' = pending_functors_ w /\ peer_gone (fd_ c) (kernel (io w)))).
Proof.
  intros Hi Hs Hn Hroom. rewrite (SendInLoop_unfold _ _ c) by done.
  pose proof (len_nonneg (output_buffer_ (the_conn w))). pose proof (wf_reserve _ (ci_out _ _ _ Hi)).
  destruct (write_first_spec message n c w Hi Hs) as (nw & rest & fault & w1 & -> & Hw); [lia|unfold room in Hroom; lia|].
  destruct (wrote_same _ _ _ _ _ _ _ Hw) as (Hconn & Hout & Honly).
  pose proof Hw as [Hi1 _ Ht (Hnw & Hrest0 & Hsum) Hsent Hsh Hord (post & Hpend & Hpost) Hfault].
  rewrite length_take in Hsum, Hpost.
  assert (nw + rest = n) as <- by lia.
  cbn [mbind result_bind]. rewrite assert_true by blia. cbn [mbind result_bind]. rewrite Z.gtb_ltb.
  destruct fault; cbn [negb andb]; [|destruct (Z.ltb_spec 0 rest) as [Hpos|Hzero]].
  - exists w1, c, (output_buffer_ (the_conn w)). specialize (Hord ltac:(by right)).
    destruct (Hfault eq_refl) as [-> Hgone].
    split_and!; try done; [lia|]. right. split_and!; try congruence; [by rewrite Hsent, app_nil_r|].
    rewrite Hpend, Hpost by lia. replace (rest =? 0) with false by blia. by rewrite app_nil_r.
  - destruct (queue_rest_spec message nw rest c w1 Hi1)
      as (w' & c' & b & Hrun & Hi' & Hfd & [Hu' Ht'] & Hres & Hb & Hs' & Hsh' & Hp'); rewrite ?Hconn in *; try done; try lia.
    { unfold room in *. rewrite Hconn. lia. }
    rewrite Ht in Hrun. exists w', c', b.
    assert (output w' = content b) as Hout' by (unfold output, the_conn; rewrite Hu'; done).
    split_and!; try done; [split; [|congruence]| |congruence|].
    { rewrite Hu'. destruct Honly as [Hu _]. unfold set_conn, the_conn in *. simpl in *. by rewrite Hu. }
    { unfold len. rewrite Hb, Hout, length_app, length_sub by lia. unfold output. lia. }
    left. eapply (rest_in_order message nw rest c w w1); rewrite ?Hconn; done || lia.
  - assert (rest = 0) as -> by lia. destruct (all_in_order message (nw + 0) c w w1 nw Hw Hn) as [Hnil Hall].
    exists w1, c, (output_buffer_ (the_conn w)). split_and!; try done; [lia|by left].
Qed.

(** No bytes at all: at most an empty write. *)
Lemma SendInLoop_empty message c w :
  conn_inv this_loop w c -> status_ (the_conn w) <> kDisconnected ->
  exists w' post, SendInLoop junk this_loop (tid_ w) message 0 w = Ok w' /\
    conn_inv this_loop w' c /\ user w' = user w /\ tid_ w' = tid_ w /\
    sent w' (fd_ c) = sent w (fd_ c) /\ wr_shut (kernel (io w')) = wr_shut (kernel (io w)) /\
    pending_functors_ w' = pending_functors_ w ++ (if post : bool then [FWriteComplete] else []).
Proof.
  intros Hi Hs. rewrite (SendInLoop_unfold _ _ c) by done.
  destruct (write_first_spec message 0 c w Hi Hs) as (nw & rest & fault & w1 & -> & Hw); [lia..|].
  destruct Hw as [Hi1 Hu Ht (Hnw & Hrest & Hsum) Hsent Hsh _ (post & Hpend & _) _]. simpl in Hsum.
  assert (nw = 0 /\ rest = 0) as [-> ->] by lia. cbn [mbind result_bind]. simpl.
  rewrite andb_false_r. exists w1, post. split_and!; try done. by rewrite Hsent, app_nil_r.
Qed.

(** The stream is intact.  [SendInLoop] with [n] bytes, on an open connection,
    returns and keeps the connection's invariant; the bytes the kernel has taken
    followed by those still buffered grow by exactly the message, in order, with
    nothing sent ahead of what was buffered; write-complete is announced exactly
    if everything was taken at once, the high water mark exactly if the buffer
    crosses it, with its new length.  The one exception is a peer that is gone
    ([EPIPE], [ECONNRESET]): the message is dropped and nothing announced. *)
Theorem SendInLoop_stream message n c w :
  conn_inv this_loop w c -> status_ (the_conn w) <> kDisconnected ->
  0 < n <= Z.of_nat (length message) -> room w n ->
  exists w' c' b, SendInLoop junk this_loop (tid_ w) message n w = Ok w' /\
    conn_inv this_loop w' c' /\ fd_ c' = fd_ c /\ only_output w w' b /\ output w' = content b /\
    wr_shut (kernel (io w')) = wr_shut (kernel (io w)) /\
    ((sent w' (fd_ c) ++ output w' = sent w (fd_ c) ++ output w ++ take (Z.to_nat n) message /\
      (sent w' (fd_ c) = sent w (fd_ c) \/ output w = []) /\
      pending_functors_ w' = pending_functors_ w ++
        (if bool_decide (output w' = []) && write_complete_cb_ (the_conn w) then [FWriteComplete] else []) ++
        crossing (high_water_mark_ (the_conn w)) (high_water_mark_cb_ (the_conn w))
          (len (output_buffer_ (the_conn w))) (len b))
     \/
     (output w = [] /\ output w' = [] /\ sent w' (fd_ c) = sent w (fd_ c) /\
      pending_functors_ w' = pending_functors_ w)).
Proof.
  intros Hi Hs Hn Hroom.
  destruct (SendInLoop_spec message n c w Hi Hs Hn Hroom)
    as (w' & c' & b & Hrun & Hi' & Hfd & Ho & Hb & _ & _ & Hsh & [Hin|(? & ? & ? & ? & _)]);
    exists w', c', b; split_and!; auto.
Qed.
End Send.
