(* ===== verification/TcpConnProps.v ===== *)
(** * Draining the output buffer *)

From S2P Require Import Prelude Bytes Slice Buffer BufferFacts BufferIO LoopThread Duration Timestamp.
From S2P Require Import Channel EPoller EPollerFacts EventFd ServerStatus LoopChannels EventLoop.
From S2P Require Import SocketKernel TcpConnection TcpConnFacts.
#[local] Open Scope Z_scope.

Section Props.
Context {G Cb A U K : Type} `{EpollLaws K, EventfdKernel K, SocketKernel K, !SocketLaws K}.
Abbreviation cworld := (lworld (functor G) Cb (cuser A U) K).
Implicit Types (w : cworld) (c : Channel Cb).
Context (junk : nat -> byte) (this_loop : ptr).

(** ** Draining the output buffer *)

(** The kernel was asked to shut the sending side down, having taken what it has. *)
Definition asked_shutdown w (fd : Z) : Prop :=
  exists k, kernel (io w) = (sock_shutdown fd k).2 /\ tx (kernel (io w)) fd = tx k fd.

Lemma ShutdownInLoop_spec w c :
  conn_inv this_loop w c ->
  if IsWriting c then ShutdownInLoop (tid_ w) w = Ok w
  else exists k, ShutdownInLoop (tid_ w) w = Ok (set_sock k w) /\ k = (sock_shutdown (fd_ c) (kernel (io w))).2 /\
    conn_inv this_loop (set_sock k w) c /\ tx k = tx (kernel (io w)).
Proof.
  intros Hi. unfold ShutdownInLoop, in_loop, the_channel, channel_at. rewrite AssertInLoopThread_refl.
  cbn [mbind result_bind]. rewrite (ci_channel _ _ _ Hi). cbn [deref mbind result_bind].
  destruct (IsWriting c); cbn [negb]; [done|]. eexists; split; [done|]. split; [done|]. split.
  - apply conn_inv_sock; [done|]. apply shutdown_interest.
  - apply shutdown_tx.
Qed.

(** The end of [HandleWrite], once the buffer is empty. *)
Definition drained (cur : thread_id) w : result cworld :=
  w ← change_channel this_loop cur DisableWrite w;
  let w := if write_complete_cb_ (the_conn w) then QueueInLoop cur FWriteComplete w else w in
  if bool_decide (status_ (the_conn w) = kDisconnecting) then ShutdownInLoop cur w else Ok w.

Lemma drained_spec w c r b :
  inv_but None (io w) -> registrable this_loop (tid_ w) (channel_ (the_conn w)) c (io w) ->
  index_ c = kAdded -> events_ c = mask r b ->
  wf (input_buffer_ (the_conn w)) -> wf (output_buffer_ (the_conn w)) -> output w = [] ->
  exists w' c', drained (tid_ w) w = Ok w' /\ conn_inv this_loop w' c' /\ fd_ c' = fd_ c /\
    user w' = user w /\ tid_ w' = tid_ w /\ sent w' (fd_ c) = sent w (fd_ c) /\
    pending_functors_ w' = pending_functors_ w ++
      (if write_complete_cb_ (the_conn w) then [FWriteComplete] else []) /\
    (if bool_decide (status_ (the_conn w) = kDisconnecting) then asked_shutdown w' (fd_ c)
     else wr_shut (kernel (io w')) = wr_shut (kernel (io w))).
Proof.
  intros Hi Hr Ha Hm Hin Hout Hempty. unfold drained.
  destruct (change_channel_spec this_loop w c DisableWrite Hi Hr) as (i & -> & Hii & Hci & Hoi & Htx & Hsh).
  cbn [mbind result_bind]. set (w1 := set_io i w). set (c1 := SetIndex kAdded _) in Hci.
  assert (conn_inv this_loop w1 c1) as Hi1.
  { destruct Hr as (Hc & Hl & Ho & _). split; try done; simpl.
    - by rewrite Hci, lookup_insert_eq.
    - by rewrite Hoi.
    - rewrite Hm. exists r, false. apply (change_events_mask DisableWrite).
    - intros _. rewrite (mask_writing r false); [|simpl; rewrite Hm; apply (change_events_mask DisableWrite)].
      unfold output, the_conn in *. simpl. rewrite Hempty. done. }
  change (the_conn w1) with (the_conn w).
  destruct (post_spec (tid_ w) (write_complete_cb_ (the_conn w)) FWriteComplete w1) as [Hq Hp].
  set (w2 := if write_complete_cb_ _ then _ else w1) in *.
  pose proof (conn_inv_quiet this_loop _ _ c1 Hq Hi1) as Hi2. destruct Hq as [Hu Ht _ _ _ Hx Hy].
  assert (the_conn w2 = the_conn w) as Hconn by (unfold the_conn; rewrite Hu; done).
  rewrite Hconn. destruct (bool_decide (status_ (the_conn w) = kDisconnecting)) eqn:Es.
  - pose proof (ShutdownInLoop_spec w2 c1 Hi2) as Hshut.
    assert (IsWriting c1 = false) as Ew.
    { apply (mask_writing r). simpl. rewrite Hm. apply (change_events_mask DisableWrite). }
    rewrite Ew in Hshut. destruct Hshut as (k & Hrun & Hk & Hi3 & Htk). change (fd_ c1) with (fd_ c) in Hk.
    rewrite Ht in Hrun. exists (set_sock k w2), c1. split_and!; try done.
    + unfold sent. simpl. rewrite Htk, Hx. simpl. by rewrite Htx.
    + exists (kernel (io w2)). simpl. by rewrite <- Hk, Htk.
  - exists w2, c1. split_and!; try done.
    + unfold sent. rewrite Hx. simpl. by rewrite Htx.
    + rewrite Hy. simpl. by rewrite Hsh.
Qed.

(** What [HandleWrite] does with a non-empty buffer: the kernel takes nothing, or a
    prefix, which leaves the buffer; then it ends as [drained] if that was all. *)
Lemma HandleWrite_writes c w :
  conn_inv this_loop w c -> IsWriting c = true -> output w <> [] ->
  exists k, conn_inv this_loop (set_sock k w) c /\ wr_shut k = wr_shut (kernel (io w)) /\
    ((HandleWrite this_loop (tid_ w) w = Ok (set_sock k w) /\ tx k (fd_ c) = tx (kernel (io w)) (fd_ c)) \/
     exists b', let w2 := set_conn (set_output b' (the_conn w)) (set_sock k w) in
       HandleWrite this_loop (tid_ w) w = (if bool_decide (output w2 = []) then drained (tid_ w2) w2 else Ok w2) /\
       wf b' /\ sent w2 (fd_ c) ++ output w2 = sent w (fd_ c) ++ output w).
Proof.
  intros Hi Ew Hne. unfold HandleWrite, in_loop, the_channel, channel_at. rewrite AssertInLoopThread_refl.
  cbn [mbind result_bind]. rewrite (ci_channel _ _ _ Hi). cbn [deref mbind result_bind]. rewrite Ew.
  pose proof (ci_out _ _ _ Hi) as Hwf. set (b := output_buffer_ (the_conn w)) in *.
  rewrite (Buffer_length_ok b Hwf : Buffer_size _ = _). cbn [mbind result_bind].
  rewrite read_data by (try done; pose proof (len_nonneg b); lia). cbn [mbind result_bind].
  replace (take (Z.to_nat (len b)) (content b)) with (output w)
    by (unfold len, output; rewrite Nat2Z.id; fold b; by rewrite firstn_all).
  pose proof (write_interest (fd_ c) (output w) (kernel (io w))) as Hint.
  pose proof (write_shut (fd_ c) (output w) (kernel (io w))) as Hsh.
  pose proof (write_fails (fd_ c) (output w) (kernel (io w))) as Hfail.
  pose proof (write_sends (fd_ c) (output w) (kernel (io w))) as Hsend.
  destruct (sock_write (fd_ c) (output w) (kernel (io w))) as [[n errno] k]. simpl in Hint, Hsh, Hfail, Hsend.
  exists k. split; [by apply conn_inv_sock|]. split; [done|].
  rewrite Z.gtb_ltb. destruct (Z.ltb_spec 0 n) as [Hn|Hn].
  2:{ left. split; [done|]. destruct (Z.le_gt_cases 0 n) as [H0'|H0'].
      - destruct (Hsend H0') as [_ ->]. assert (n = 0) as -> by lia. by rewrite app_nil_r.
      - by destruct (Hfail H0') as [_ ->]. }
  right. destruct (Hsend ltac:(lia)) as [Hle Htx].
  assert (len b < 2 ^ 62) as Hmax by (pose proof (len_capacity b Hwf); pose proof (wf_bound b Hwf); lia).
  change (Z.of_nat (length (output w))) with (len b) in Hle.
  rewrite u64_id by (unfold in_u64; lia). change (the_conn (set_sock k w)) with (the_conn w). fold b.
  destruct (Skip_spec n b Hwf ltac:(lia)) as (b' & -> & Hwf' & Hc' & _). cbn [mbind result_bind].
  rewrite (Buffer_length_ok b' Hwf' : Buffer_size _ = _). cbn [mbind result_bind]. rewrite len_zero.
  exists b'. split_and!; try done. unfold sent, output. simpl. rewrite Hc', Htx, <- app_assoc. f_equal. apply take_drop.
Qed.

(** [HandleWrite] passes buffered bytes on without losing, repeating or
    reordering any: what the kernel has taken followed by what is buffered is
    unchanged.  It announces write-complete and, if the connection is
    disconnecting, shuts the sending side down exactly when it empties the buffer;
    otherwise the sending side stays as it was. *)
Lemma HandleWrite_spec c w :
  conn_inv this_loop w c -> status_ (the_conn w) <> kDisconnected ->
  exists w' c', HandleWrite this_loop (tid_ w) w = Ok w' /\ conn_inv this_loop w' c' /\ fd_ c' = fd_ c /\
    only_output w w' (output_buffer_ (the_conn w')) /\
    sent w' (fd_ c) ++ output w' = sent w (fd_ c) ++ output w /\
    let done := bool_decide (output w <> []) && bool_decide (output w' = []) in
    pending_functors_ w' = pending_functors_ w ++
      (if done && write_complete_cb_ (the_conn w) then [FWriteComplete] else []) /\
    (if done && bool_decide (status_ (the_conn w) = kDisconnecting) then asked_shutdown w' (fd_ c)
     else wr_shut (kernel (io w')) = wr_shut (kernel (io w))).
Proof.
  intros Hi Hs. pose proof (ci_writing _ _ _ Hi Hs) as Hwr. destruct (IsWriting c) eqn:Ew.
  2:{ exists w, c. assert (output w = []) as Hnil.
      { destruct (output w); [done|]. destruct Hwr as [_ Hwr]. by discriminate Hwr. }
      split.
      { unfold HandleWrite, in_loop, the_channel, channel_at. rewrite AssertInLoopThread_refl.
        cbn [mbind result_bind]. rewrite (ci_channel _ _ _ Hi). cbn [deref mbind result_bind]. by rewrite Ew. }
      rewrite Hnil. simpl. split_and!; try done; [apply nothing_output|]. by rewrite app_nil_r. }
  assert (output w <> []) as Hne by by apply Hwr.
  destruct (HandleWrite_writes c w Hi Ew Hne) as (k & Hi1 & Hsh & [[-> Htx]|(b' & Hrun & Hwf & Hstream)]).
  { exists (set_sock k w), c. change (output (set_sock k w)) with (output w).
    rewrite (bool_decide_eq_false_2 (output w = [])), andb_false_r by done. simpl.
    split_and!; try done; [exact (same_output w (set_sock k w) eq_refl eq_refl)| |by rewrite app_nil_r]. f_equal. exact Htx. }
  cbv zeta in Hrun. set (w2 := set_conn (set_output b' (the_conn w)) (set_sock k w)) in *. rewrite Hrun.
  destruct (bool_decide (output w2 = [])) eqn:Eb.
  - apply bool_decide_eq_true in Eb. destruct (ci_mask _ _ _ Hi) as (r & wb & Hm).
    destruct (drained_spec w2 c r wb) as (w' & c' & Hrun' & Hi' & Hfd & Hu & Ht & Hs' & Hp & Hd);
      try done; try apply Hi1; [apply (conn_registrable this_loop (set_sock k w) c Hi1)|].
    exists w', c'. split; [exact Hrun'|].
    assert (output w' = output w2) as Ho' by (unfold output, the_conn; by rewrite Hu).
    rewrite Ho', Eb. cbv zeta. rewrite !bool_decide_eq_true_2 by done.
    assert (the_conn w' = the_conn w2) as Hcn by (unfold the_conn; by rewrite Hu).
    split_and!; try done; [by split; rewrite ?Hcn, ?Hu, ?Ht| |].
    + rewrite Hs'. rewrite Eb in Hstream. exact Hstream.
    + change (status_ (the_conn w2)) with (status_ (the_conn w)) in Hd. simpl.
      destruct (bool_decide (status_ (the_conn w) = kDisconnecting)); [exact Hd|]. rewrite Hd. exact Hsh.
  - apply bool_decide_eq_false in Eb. exists w2, c. cbv zeta.
    rewrite (bool_decide_eq_false_2 (output w2 = [])), andb_false_r by done. simpl.
    split_and!; try done; [|by rewrite app_nil_r].
    apply (conn_inv_output this_loop (set_sock k w) c b' Hi1 Hwf). intros _. rewrite Ew. by split.
Qed.
End Props.
