(* ===== verification/TcpConnLife.v ===== *)
(** * The life of a connection: its state machine, and what it receives *)

From S2P Require Import Prelude Bytes Slice Buffer BufferFacts BufferSpec BufferIO LoopThread Duration.
From S2P Require Import Timestamp Channel EPoller EPollerFacts EventFd ServerStatus LoopChannels.
From S2P Require Import EventLoop SocketKernel TcpConnection TcpConnFacts.
#[local] Open Scope Z_scope.

Section Life.
Context {G Cb A U K : Type} `{EpollLaws K, EventfdKernel K, SocketKernel K, !SocketLaws K}.
Abbreviation cworld := (lworld (functor G) Cb (cuser A U) K).
Implicit Types (w : cworld) (c : Channel Cb).
Context (junk : nat -> byte) (this_loop : ptr).

(** ** The state machine *)

Definition rank (s : ConnStatus) : Z :=
  match s with kConnecting => 0 | kConnected => 1 | kDisconnecting => 2 | kDisconnected => 3 end.

Definition conn_status w : ConnStatus := status_ (the_conn w).
Definition advances w w' : Prop := rank (conn_status w) <= rank (conn_status w').

Context (cur : thread_id) (conn_cb_ msg_cb_ close_cb_ : cworld -> result cworld).

(** The members, as other components call them. *)
Inductive conn_op :=
  | OpEstablished | OpDestroyed | OpRead | OpWrite | OpClose | OpError | OpShutdown | OpShutdownInLoop
  | OpSend (tmp : ptr) (message : bytes) (len : Z)
  | OpSendSlice (message : ptr)
  | OpSendBuffer (var message : ptr)
  | OpSendInLoop (message : bytes) (len : Z).

Definition run_op (o : conn_op) : cworld -> result cworld :=
  match o with
  | OpEstablished => OnConnectEstablished this_loop cur conn_cb_
  | OpDestroyed => OnConnectDestroyed this_loop cur conn_cb_
  | OpRead => HandleRead junk this_loop cur msg_cb_ close_cb_
  | OpWrite => HandleWrite this_loop cur
  | OpClose => HandleClose this_loop cur close_cb_
  | OpError => HandleError
  | OpShutdown => Shutdown cur
  | OpShutdownInLoop => ShutdownInLoop cur
  | OpSend tmp message len => Send junk this_loop cur tmp message len
  | OpSendSlice message => Send_slice junk this_loop cur message
  | OpSendBuffer var message => Send_buffer junk this_loop cur var message
  | OpSendInLoop message len => SendInLoop junk this_loop cur message len
  end.

Lemma status_queue f w : conn_status (QueueInLoop cur f w) = conn_status w.
Proof.
  destruct (post_spec (A := A) cur true f w) as [[Hu _ _ _ _ _ _] _]. unfold conn_status, the_conn.
  by rewrite Hu.
Qed.

Lemma status_on_io f w w' : on_io f w = Ok w' -> conn_status w' = conn_status w.
Proof. unfold on_io. intros Hr. by inv_ok. Qed.

Lemma status_change ch w w' : change_channel this_loop cur ch w = Ok w' -> conn_status w' = conn_status w.
Proof. apply status_on_io. Qed.

Lemma status_SendInLoop m n w w' :
  SendInLoop junk this_loop cur m n w = Ok w' -> conn_status w' = conn_status w.
Proof.
  unfold SendInLoop. intros Hr. apply bind_ok in Hr as (? & _ & Hr).
  destruct (bool_decide _); [by inv_ok|].
  apply bind_ok in Hr as (c & _ & Hr). apply bind_ok in Hr as (q & _ & Hr).
  apply bind_ok in Hr as ([[[nw rest] fault] w1] & Hf & Hr).
  assert (conn_status w1 = conn_status w) as Hs1.
  { destruct (negb (IsWriting c) && _); [|by injection Hf as <- <- <- <-].
    apply bind_ok in Hf as (d & _ & Hf). destruct (sock_write _ _ _) as [[r e] k].
    destruct (r >=? 0); injection Hf as <- <- <- <-; [|done].
    match goal with |- conn_status (if ?t then _ else _) = _ => destruct t end;
      [etransitivity; [apply status_queue|]|]; done. }
  apply bind_ok in Hr as (? & _ & Hr). destruct (negb fault && _); [|by inv_ok].
  apply bind_ok in Hr as (old & _ & Hr). apply bind_ok in Hr as (d & _ & Hr).
  apply bind_ok in Hr as (b & _ & Hr). apply bind_ok in Hr as (c' & _ & Hr).
  match type of Hr with (if _ then change_channel _ _ _ ?w2 else Ok ?w2) = _ =>
    assert (conn_status w' = conn_status w2) as -> by
      (destruct (negb (IsWriting c')); [by apply status_change in Hr|by injection Hr as <-]) end.
  rewrite <- Hs1. match goal with |- context [if ?t then QueueInLoop _ _ _ else _] => destruct t end; [|done].
  apply (status_queue _ w1).
Qed.

Lemma status_ShutdownInLoop w w' :
  ShutdownInLoop cur w = Ok w' -> conn_status w' = conn_status w.
Proof. unfold ShutdownInLoop. intros Hr. inv_ok. destruct (negb _); by inv_ok. Qed.

Lemma status_HandleWrite w w' : HandleWrite this_loop cur w = Ok w' -> conn_status w' = conn_status w.
Proof.
  unfold HandleWrite. intros Hr. apply bind_ok in Hr as (? & _ & Hr). apply bind_ok in Hr as (c & _ & Hr).
  destruct (IsWriting c); [|by inv_ok].
  apply bind_ok in Hr as (n & _ & Hr). apply bind_ok in Hr as (d & _ & Hr).
  destruct (sock_write _ _ _) as [[r e] k]. destruct (r >? 0); [|by inv_ok].
  apply bind_ok in Hr as (b & _ & Hr). apply bind_ok in Hr as (l & _ & Hr).
  destruct (l =? 0); [|by inv_ok]. apply bind_ok in Hr as (w1 & Hc & Hr).
  apply status_change in Hc.
  match type of Hr with (if _ then ShutdownInLoop _ ?w2 else Ok ?w2) = _ =>
    assert (conn_status w' = conn_status w2) as -> by
      (destruct (bool_decide _); [by apply status_ShutdownInLoop in Hr|by inv_ok]) end.
  destruct (write_complete_cb_ _); [rewrite status_queue|]; exact Hc.
Qed.

Lemma status_Send_slice p w w' :
  Send_slice junk this_loop cur p w = Ok w' -> conn_status w' = conn_status w.
Proof.
  unfold Send_slice. intros Hr. destruct (bool_decide _); [|by inv_ok].
  destruct (IsInLoopThread _ _); inv_ok; [by eapply status_SendInLoop|apply status_queue].
Qed.

Lemma status_HandleClose w w' :
  (forall w w', close_cb_ w = Ok w' -> advances w w') ->
  HandleClose this_loop cur close_cb_ w = Ok w' -> conn_status w' = kDisconnected.
Proof.
  unfold HandleClose. intros Hcb Hr. inv_ok. apply status_change in E1. simpl in E1.
  apply Hcb in Hr. unfold advances in Hr. rewrite E1 in Hr. simpl in Hr.
  by destruct (conn_status w'); simpl in Hr; try lia.
Qed.

Lemma status_same_advances w w' : conn_status w' = conn_status w -> advances w w'.
Proof. unfold advances. intros ->. lia. Qed.

Lemma status_Established w w' :
  (forall w w', conn_cb_ w = Ok w' -> advances w w') ->
  OnConnectEstablished this_loop cur conn_cb_ w = Ok w' ->
  conn_status w = kConnecting /\ rank kConnected <= rank (conn_status w').
Proof.
  intros Hconn Hr. unfold OnConnectEstablished in Hr. inv_ok. apply bool_decide_eq_true in E0.
  split; [done|]. apply status_change in E1. apply Hconn in Hr. unfold advances in Hr. by rewrite E1 in Hr.
Qed.

Lemma status_Destroyed w w' :
  (forall w w', conn_cb_ w = Ok w' -> advances w w') ->
  OnConnectDestroyed this_loop cur conn_cb_ w = Ok w' ->
  if decide (conn_status w = kConnected) then conn_status w' = kDisconnected
  else conn_status w' = conn_status w.
Proof.
  intros Hconn Hr. unfold OnConnectDestroyed in Hr. inv_ok. apply status_on_io in Hr.
  change (status_ (the_conn w)) with (conn_status w) in E0.
  destruct (decide (conn_status w = kConnected)) as [Ec|Ec].
  - rewrite bool_decide_eq_true_2 in E0 by done. inv_ok. apply status_change in E1.
    apply Hconn in E0. unfold advances in E0. rewrite E1 in E0. rewrite Hr.
    by destruct (conn_status x0); cbn in E0; try lia.
  - rewrite bool_decide_eq_false_2 in E0 by done. by inv_ok.
Qed.

Lemma status_HandleRead w w' :
  (forall w w', msg_cb_ w = Ok w' -> advances w w') ->
  (forall w w', close_cb_ w = Ok w' -> advances w w') ->
  HandleRead junk this_loop cur msg_cb_ close_cb_ w = Ok w' -> advances w w'.
Proof.
  intros Hmsg Hclose Hr. unfold HandleRead in Hr.
  apply bind_ok in Hr as (? & _ & Hr). apply bind_ok in Hr as (c & _ & Hr).
  apply bind_ok in Hr as ([[n e] b] & _ & Hr). apply bind_ok in Hr as (v & _ & Hr).
  match type of Hr with (if _ then msg_cb_ ?x else _) = _ =>
    set (w1 := x) in *; assert (conn_status w1 = conn_status w) as Hw1 by done end.
  unfold advances. rewrite <- Hw1. destruct (n >? 0); [by apply Hmsg in Hr|].
  destruct (n =? 0).
  - apply status_HandleClose in Hr; [|done]. rewrite Hr. by destruct (conn_status w1).
  - unfold HandleError in Hr. inv_ok. lia.
Qed.

Lemma status_Send_buffer v p w w' :
  Send_buffer junk this_loop cur v p w = Ok w' -> conn_status w' = conn_status w.
Proof.
  unfold Send_buffer. intros Hr. apply bind_ok in Hr as (w1 & Hb & Hr). inv_ok.
  change (conn_status w1 = conn_status w). destruct (bool_decide _); [|by inv_ok].
  destruct (IsInLoopThread _ _); inv_ok; [|by rewrite status_queue].
  apply status_SendInLoop in E1. exact E1.
Qed.

(** [C19] A connection only moves forward: connecting, connected, disconnecting,
    disconnected.  No member takes it back, whatever the callbacks do provided they
    do not take it back either.  [OnConnectEstablished] returns only from
    connecting, [HandleClose] only from connected or disconnecting and leaves it
    disconnected, as the destruction of a connected one does; destroying one in any
    other state leaves the status as it is. *)
Theorem conn_status_advances o w w' :
  (forall w w', conn_cb_ w = Ok w' -> advances w w') ->
  (forall w w', msg_cb_ w = Ok w' -> advances w w') ->
  (forall w w', close_cb_ w = Ok w' -> advances w w') ->
  run_op o w = Ok w' ->
  advances w w' /\
  (o = OpEstablished -> conn_status w = kConnecting /\ conn_status w' <> kConnecting) /\
  (o = OpClose -> (conn_status w = kConnected \/ conn_status w = kDisconnecting) /\
                  conn_status w' = kDisconnected) /\
  (o = OpDestroyed -> conn_status w = kConnected -> conn_status w' = kDisconnected) /\
  (o = OpDestroyed -> conn_status w <> kConnected -> conn_status w' = conn_status w).
Proof.
  intros Hconn Hmsg Hclose Hr.
  destruct o; simpl in Hr; (split; [|split_and!; try (intros Ho; discriminate Ho)]).
  - apply status_Established in Hr as [Hs Hr]; [|done]. unfold advances. rewrite Hs. simpl in *. lia.
  - intros _. apply status_Established in Hr as [Hs Hr]; [|done]. split; [done|].
    intros He. rewrite He in Hr. simpl in Hr. lia.
  - apply status_Destroyed in Hr; [|done]. destruct (decide _).
    + unfold advances. rewrite Hr. by destruct (conn_status w).
    + by apply status_same_advances.
  - intros _ Hc. apply status_Destroyed in Hr; [|done]. by rewrite decide_True in Hr.
  - intros _ Hc. apply status_Destroyed in Hr; [|done]. by rewrite decide_False in Hr.
  - by apply status_HandleRead in Hr.
  - by apply status_same_advances, status_HandleWrite.
  - apply status_HandleClose in Hr; [|done]. unfold advances. rewrite Hr. by destruct (conn_status w).
  - intros _. pose proof (status_HandleClose w w' Hclose Hr) as Hd. split; [|done].
    unfold HandleClose in Hr. inv_ok. apply orb_true_iff in E0 as [E0|E0]; apply bool_decide_eq_true in E0; auto.
  - unfold HandleError in Hr. inv_ok. by apply status_same_advances.
  - unfold Shutdown in Hr. destruct (bool_decide _) eqn:E; [|inv_ok; by apply status_same_advances].
    apply bool_decide_eq_true in E.
    assert (conn_status w' = kDisconnecting) as Hd.
    { destruct (IsInLoopThread _ _); [by apply status_ShutdownInLoop in Hr|].
      inv_ok. by rewrite status_queue. }
    unfold advances, conn_status in *. rewrite Hd, E. done.
  - by apply status_same_advances, status_ShutdownInLoop.
  - apply status_same_advances. unfold Send in Hr. inv_ok. apply status_Send_slice in E. exact E.
  - by eapply status_same_advances, status_Send_slice.
  - by eapply status_same_advances, status_Send_buffer.
  - by eapply status_same_advances, status_SendInLoop.
Qed.

(** ** Receiving *)

(** What [readv] answers for the input buffer. *)
Definition received w c : readv_answer :=
  (sock_readv (fd_ c) (read_vec (input_buffer_ (the_conn w))) (kernel (io w))).1.

(** The world when the callbacks run, with the new input buffer [b]. *)
Definition after_read w c (b : Buffer) : cworld :=
  set_conn (set_input b (the_conn w))
    (set_sock (sock_readv (fd_ c) (read_vec (input_buffer_ (the_conn w))) (kernel (io w))).2 w).

(** [HandleRead] appends exactly the bytes received to the input buffer,
    which keeps its invariant, and the rest of the connection is as it was; then it
    calls the message callback if there were bytes, closes the connection at the
    end of the stream, and does neither after an error. *)
Lemma HandleRead_spec w c :
  tid_ w = cur -> conn_inv this_loop w c ->
  3 * (capacity_ (input_buffer_ (the_conn w)) + 65536 + reserved_prepend_size_ (input_buffer_ (the_conn w)))
    < 2 ^ 62 ->
  let a := received w c in
  exists b, let w1 := after_read w c b in
    conn_inv this_loop w1 c /\ content b = input w ++ rv_data a /\
    Z.of_nat (length (content b)) <= capacity_ (input_buffer_ (the_conn w)) + 65536 /\
    HandleRead junk this_loop cur msg_cb_ close_cb_ w =
      (if rv_n a >? 0 then msg_cb_ w1
       else if rv_n a =? 0 then HandleClose this_loop cur close_cb_ w1 else Ok w1) /\
    (rv_n a <= 0 -> rv_data a = []).
Proof.
  intros Ht Hi Hcap a. set (b := input_buffer_ (the_conn w)) in *.
  pose proof (readv_result (fd_ c) (read_vec b) (kernel (io w))) as Hcontract.
  change ((sock_readv (fd_ c) (read_vec b) (kernel (io w))).1) with a in Hcontract.
  destruct (ReadFromFD_spec junk (fun v => (sock_readv (fd_ c) v (kernel (io w))).1) b (ci_in _ _ _ Hi) Hcontract Hcap)
    as (b' & Hread & Hwf & Hcb).
  fold a in Hread, Hcb.
  exists b'. unfold after_read. fold b. cbv zeta. split_and!.
  - pose proof (conn_inv_sock this_loop w c _ Hi (readv_interest (fd_ c) (read_vec b) (kernel (io w)))) as Hi1.
    destruct Hi1. by split.
  - exact Hcb.
  - rewrite Hcb, length_app, Nat2Z.inj_add. fold (len b).
    pose proof (ci_in _ _ _ Hi) as Hw. fold b in Hw. pose proof Hw as [? [? ?] ? ?].
    pose proof (read_vec_total b ltac:(lia)). pose proof (len_eq b Hw).
    change (sock_readv (fd_ c) (read_vec b) (kernel (io w))).1 with a.
    destruct Hcontract as [[_ Hd]|[Hn Hle]]; [rewrite Hd|]; simpl; lia.
  - unfold HandleRead, in_loop, the_channel, channel_at. rewrite Ht, AssertInLoopThread_refl.
    cbn [mbind result_bind]. rewrite (ci_channel _ _ _ Hi). cbn [deref mbind result_bind].
    fold b. rewrite Hread. cbn [mbind result_bind]. rewrite WritableBytes_ok by apply Hi.
    cbn [mbind result_bind]. fold (read_vec b).
    change (sock_readv (fd_ c) (read_vec b) (kernel (io w))).1 with a.
    destruct (rv_n a >? 0); [done|]. destruct (rv_n a =? 0); [done|].
    unfold HandleError, the_channel, channel_at.
    match goal with |- context [deref ?o] => change o with (channels (io w) !! channel_ (the_conn w)) end.
    by rewrite (ci_channel _ _ _ Hi).
  - intros Hn. destruct Hcontract as [[_ Hd]|[Hn' _]]; [done|].
    destruct (rv_data a); [done|]. simpl in Hn'. lia.
Qed.

(** ** Establishing *)

(** A new connection becomes an established one: [OnConnectEstablished] makes it
    connected and watched for reading, with empty buffers, and the invariant of
    established connections holds when the connection callback is called.  Whether
    the write-complete callback was set in between does not matter. *)
Theorem OnConnectEstablished_inv w bind name sockfd (local peer : A) p b t0 c0 :
  tid_ w = cur -> TcpConnection_new junk bind this_loop name sockfd local peer p = Ok (t0, c0) ->
  the_conn w = SetWriteCompleteCallback b t0 -> channels (io w) !! p = Some c0 ->
  inv_but None (io w) -> owner_tid (poller (io w)) = cur ->
  channel_map_ (poller (io w)) !! sockfd = None -> pollable (kernel (io w)) sockfd ->
  exists i c1, let w1 := set_io i (SetStatus kConnected w) in
    OnConnectEstablished this_loop cur conn_cb_ w = conn_cb_ w1 /\
    conn_inv this_loop w1 c1 /\ fd_ c1 = sockfd /\ input w1 = [] /\ output w1 = [] /\
    interest (kernel i) = <[sockfd := mkEvent kReadable p]> (interest (kernel (io w))) /\
    same_socket (io w) i /\
    capacity_ (input_buffer_ (the_conn w1)) = kCheapPrependSize + kInitialSize /\
    reserved_prepend_size_ (input_buffer_ (the_conn w1)) = kCheapPrependSize /\
    reserved_prepend_size_ (output_buffer_ (the_conn w1)) = kCheapPrependSize.
Proof.
  intros Ht Hnew Hconn Hc Hi Ho Hmap Hpoll. unfold TcpConnection_new in Hnew.
  destruct (Buffer_new_spec junk kInitialSize kCheapPrependSize) as (buf & Eb & Hwb & Hcb & Hcap & Hres & _);
    [unfold kInitialSize; lia|unfold kCheapPrependSize; lia|unfold kInitialSize, kCheapPrependSize; lia|].
  rewrite Eb in Hnew. simpl in Hnew. injection Hnew as <- <-.
  set (w0 := SetStatus kConnected w).
  match type of Hc with _ = Some ?c => set (c0 := c) in Hc end.
  destruct (Channel_change_spec this_loop cur EnableRead p c0 (io w) Hi) as (i & Hrun & Hii & Hci & Hki & _ & Hoi).
  { split_and!; [exact Hc|done|done|]. intros _. by split. }
  simpl in Hci, Hki. exists i, (SetIndex kAdded (set_added true (set_events 3 c0))).
  split_and!; try done.
  - unfold OnConnectEstablished, in_loop. rewrite Ht, AssertInLoopThread_refl. cbn [mbind result_bind].
    rewrite Hconn. cbn. fold w0. unfold change_channel, on_io. simpl. rewrite Hconn. simpl.
    rewrite Ht, Hrun. done.
  - split; try done; simpl; rewrite ?Hconn; try done.
    + by rewrite Hci, lookup_insert_eq.
    + by rewrite Hoi, Ht.
    + by exists true, false.
    + unfold output, the_conn. simpl. rewrite Hconn. simpl. rewrite Hcb. by intros _; split.
  - unfold input, the_conn. simpl. by rewrite Hconn.
  - unfold output, the_conn. simpl. by rewrite Hconn.
  - by eapply Channel_change_socket.
  - unfold the_conn. simpl. by rewrite Hconn.
  - unfold the_conn. simpl. by rewrite Hconn.
  - unfold the_conn. simpl. by rewrite Hconn.
Qed.

(** ** Sending from another thread *)

(** [C40] [Send(data, len)] from another thread does not send.  It queues a functor
    that refers to a temporary [Slice]; the temporary is gone when [Send] returns,
    so running the functor reads a dead object, unless a new one was built at its
    address. *)
Theorem Send_other_thread_dangles tmp message n w :
  cur <> tid_ w -> conn_status w = kConnected ->
  exists w1, Send junk this_loop cur tmp message n w = Ok w1 /\
    pending_functors_ w1 = pending_functors_ w ++ [FSendSlice tmp] /\
    sent w1 = sent w /\ output w1 = output w /\
    forall w2 wc hw eo, slices (user w2) !! tmp = slices (user w1) !! tmp ->
      exec_functor junk this_loop (tid_ w) wc hw eo (FSendSlice tmp) w2 = Err Undef.
Proof.
  intros Hcur Hs. unfold Send, Send_slice.
  match goal with |- context [the_conn ?x] => set (w0 := x) end.
  change (status_ (the_conn w0)) with (conn_status w). rewrite bool_decide_eq_true_2 by done.
  unfold IsInLoopThread. replace (tid_ w0 =? cur) with false by (symmetry; apply Z.eqb_neq; simpl; congruence).
  cbn [mbind result_bind].
  destruct (post_spec (A := A) cur true (FSendSlice tmp) w0) as [[Hu _ _ _ _ Hx _] Hp].
  eexists; split; [done|]. split; [done|]. split; [|split].
  - unfold sent. simpl. by rewrite Hx.
  - unfold output, the_conn. simpl. by rewrite Hu.
  - intros w2 wc hw eo. simpl. rewrite lookup_delete_eq. by intros ->.
Qed.

(** ** A hang-up after the close *)

(** [HandleClose] leaves the descriptor with the kernel, watched for nothing. *)
Lemma HandleClose_still_watched w c w1 :
  tid_ w = cur -> conn_inv this_loop w c -> (forall w w', close_cb_ w = Ok w' -> quiet w w') ->
  HandleClose this_loop cur close_cb_ w = Ok w1 ->
  conn_inv this_loop w1 (SetIndex kAdded (set_added true (set_events kNone c))) /\
  the_conn w1 = set_conn_status kDisconnected (the_conn w) /\ tid_ w1 = cur /\
  interest (kernel (io w1)) !! fd_ c = Some (mkEvent 0 (channel_ (the_conn w))).
Proof.
  intros Ht Hi Hcb Hr. unfold HandleClose in Hr. inv_ok. set (w0 := SetStatus kDisconnected w) in *.
  assert (conn_inv this_loop w0 c) as Hi0 by (destruct Hi; by split).
  destruct (change_channel_spec this_loop w0 c DisableAll) as (i & Hrun & Hii & Hch & Ho & _);
    [apply Hi0|by apply conn_registrable|].
  change (tid_ w0) with (tid_ w) in Hrun. rewrite Ht, E1 in Hrun. injection Hrun as ->.
  apply Hcb in Hr. cbn [change_events] in Hch. set (c1 := SetIndex kAdded _) in *.
  assert (conn_inv this_loop (set_io i w0) c1) as Hi1 by by apply (conn_inv_change this_loop w0 c DisableAll).
  pose proof (conn_inv_quiet this_loop _ _ c1 Hr Hi1) as Hi2. pose proof (q_user _ _ Hr) as Hu.
  assert (the_conn w1 = the_conn w0) as Hconn by (unfold the_conn; by rewrite Hu).
  split_and!; try done; [by rewrite (q_tid _ _ Hr)|].
  pose proof (ci_epoll _ _ _ Hi2) as Hinv. pose proof (ci_channel _ _ _ Hi2) as Hc2. rewrite Hconn in Hc2.
  destruct (inv_index _ _ Hinv _ _ Hc2) as [Hx|[_ Hm]]; [discriminate Hx|].
  destruct (inv_map _ _ Hinv _ _ Hm) as (c2 & ev & Hc2' & _ & _ & Hint & Hev).
  rewrite Hc2 in Hc2'. injection Hc2' as <-. rewrite Hev in Hint by done. exact Hint.
Qed.

(** [C32] A hang-up reported after the close ends the process.  When [HandleClose] has
    run, the descriptor is still in the kernel's interest list, watched for nothing,
    until [OnConnectDestroyed] removes it; epoll reports a hang-up all the same
    (epoll_ctl(2)), and delivering it calls [HandleClose] again, whose assertion
    fails.  If the connection's loop is not the server's, it may poll in between. *)
Theorem second_hangup_aborts w c w1 call cb :
  tid_ w = cur -> conn_inv this_loop w c -> close_fn_ c = Some cb ->
  (forall w, call cb w = call_channel junk this_loop cur msg_cb_ close_cb_ OnClose w) ->
  (forall w w', close_cb_ w = Ok w' -> quiet w w') ->
  HandleClose this_loop cur close_cb_ w = Ok w1 ->
  let p := channel_ (the_conn w) in
  interest (kernel (io w1)) !! fd_ c = Some (mkEvent 0 p) /\
  exists i, fill_one (mkEvent POLLHUP p) (io w1, []) = Ok (i, [p]) /\
    handle_channel call p (set_io i w1) = Err AssertFail.
Proof.
  intros Ht Hi Hfn Hcall Hcb Hr p. destruct (HandleClose_still_watched w c w1 Ht Hi Hcb Hr) as (Hi1 & Hconn & Ht1 & Hint).
  split; [exact Hint|]. set (c1 := SetIndex kAdded _) in *.
  pose proof (ci_channel _ _ _ Hi1) as Hc1. rewrite Hconn in Hc1. change (channel_ _) with p in Hc1.
  destruct (inv_index _ _ (ci_epoll _ _ _ Hi1) _ _ Hc1) as [Hx|[_ Hm]]; [discriminate Hx|].
  exists (EPoller.set_channel p (SetRevents (i32 POLLHUP) c1) (io w1)). split.
  - unfold fill_one, channel_at. simpl. rewrite Hc1. simpl. simpl in Hm. by rewrite Hm, !bool_decide_eq_true_2 by done.
  - unfold handle_channel, Channel.HandleEvent, get_channel, put_channel, channel_at. simpl.
    rewrite !lookup_insert_eq. cbn [deref mbind result_bind]. simpl. rewrite lookup_insert_eq.
    cbn [deref mbind result_bind]. change (has (revents_ _) POLLHUP && _) with true. simpl.
    rewrite Hfn. simpl. rewrite Hcall. simpl. unfold HandleClose, in_loop. simpl. rewrite Ht1, AssertInLoopThread_refl.
    cbn [mbind result_bind]. unfold the_conn in *. simpl. by rewrite Hconn.
Qed.
End Life.
