(* ===== verification/TcpStream.v ===== *)
(** * The stream of an established connection: every byte, every event

    The members of TcpConnection.v composed: an application that sends, consumes and
    shuts down from its callbacks and functors, driven by any sequence of events of
    the connection's loop.  The stream is followed from the messages the application
    offers to the bytes the kernel has accepted. *)

From S2P Require Import Prelude Bytes Slice Buffer BufferFacts BufferSpec BufferIO LoopThread Duration.
From S2P Require Import Timestamp Channel EPoller EPollerFacts EventFd ServerStatus LoopChannels.
From S2P Require Import EventLoop SocketKernel TcpConnection TcpConnFacts TcpSend TcpConnProps TcpConnLife.
#[local] Open Scope Z_scope.

(** What application code does with the connection in the loop's thread: [Send] a
    message (the [Slice] is built at [tmp]), skip [n] bytes of the input buffer, shut
    down. *)
Inductive user_op :=
  | USend (tmp : ptr) (message : bytes)
  | USkip (n : Z)
  | UShutdown.

(** When application code runs: in the connection callback, in the message callback, in
    the functors. *)
Inductive trigger (G : Type) :=
  | TConnection | TMessage | TWriteComplete | THighWaterMark (n : Z) | TOther (g : G).
Arguments TConnection {G}. Arguments TMessage {G}. Arguments TWriteComplete {G}. Arguments THighWaterMark {G} n.
Arguments TOther {G} g.

(** The events of a connection: its descriptor is readable, writable, hung up or in
    error; its loop calls the next pending functor; some thread calls [Shutdown] or
    queues a functor of the application. *)
Inductive event (G : Type) :=
  | EvRead | EvWrite | EvHangup | EvError | EvFunctor
  | EvShutdown (by_ : thread_id)
  | EvQueue (by_ : thread_id) (g : G).
Arguments EvRead {G}. Arguments EvWrite {G}. Arguments EvHangup {G}. Arguments EvError {G}.
Arguments EvFunctor {G}. Arguments EvShutdown {G} by_. Arguments EvQueue {G} by_ g.

Definition demand_of (o : user_op) : Z :=
  match o with USend _ m => Z.of_nat (length m) | _ => 0 end.
Fixpoint demand (ops : list user_op) : Z :=
  match ops with [] => 0 | o :: ops => demand_of o + demand ops end.
Definition op_ok (o : user_op) : Prop := match o with USkip n => in_u64 n | _ => True end.

Lemma user_demand_nonneg ops : 0 <= demand ops.
Proof. induction ops as [|[] ops IH]; simpl; lia. Qed.

Section Stream.
Context {G Cb A V K : Type} `{EpollLaws K, EventfdKernel K, SocketKernel K, !SocketLaws K}.

(** The application's state: the messages it offered while connected, in order, and
    the rest. *)
Abbreviation cworld := (lworld (functor G) Cb (cuser A (list bytes * V)) K).
Implicit Types (w : cworld) (c : Channel Cb).

Context (junk : nat -> byte) (this_loop : ptr).

Definition offered w : list bytes := (app (user w)).1.
Definition set_app (a : list bytes * V) w : cworld :=
  set_user (mkUser (conn (user w)) (slices (user w)) (buf_vars (user w)) (buffers (user w)) a) w.
Definition note (m : bytes) w : cworld := set_app (offered w ++ [m], (app (user w)).2) w.

Definition run_user (o : user_op) w : result cworld :=
  match o with
  | USend tmp m =>
      Send junk this_loop (tid_ w) tmp m (Z.of_nat (length m))
        (if IsConnected (the_conn w) then note m w else w)
  | USkip n =>
      b ← Skip n (input_buffer_ (the_conn w)); Ok (set_conn (set_input b (the_conn w)) w)
  | UShutdown => Shutdown (tid_ w) w
  end.

Context (react : trigger G -> cworld -> list user_op) (close_cb_ : cworld -> result cworld).

Definition application (t : trigger G) w : result cworld := foldM run_user (react t w) w.

(** Neither closed nor being established: what [HandleClose] asserts. *)
Definition is_open w : bool :=
  bool_decide (conn_status w = kConnected) || bool_decide (conn_status w = kDisconnecting).

(** A functor that the loop calls. *)
Definition run_functor (f : functor G) w : result cworld :=
  exec_functor junk this_loop (tid_ w) (application TWriteComplete)
    (fun n => application (THighWaterMark n)) (fun g => application (TOther g)) f w.

Definition next_functor w : result cworld :=
  match pending_functors_ w with [] => Ok w | f :: l => run_functor f (set_pending l w) end.

Definition run_event (e : event G) w : result cworld :=
  match e with
  | EvRead => HandleRead junk this_loop (tid_ w) (application TMessage) close_cb_ w
  | EvWrite => HandleWrite this_loop (tid_ w) w
  | EvHangup => HandleClose this_loop (tid_ w) close_cb_ w
  | EvError => HandleError w
  | EvFunctor => next_functor w
  | EvShutdown by_ => Shutdown by_ w
  | EvQueue by_ g => Ok (QueueInLoop by_ (FOther g) w)
  end.

Definition run_events (es : list (event G)) w : result cworld := foldM run_event es w.

(** What is left of a run that cannot go on: it begins with the report of a read or of
    a hang-up on a connection that has closed already, and [HandleClose] aborts on it. *)
Definition late_report (post : list (event G)) w : Prop :=
  conn_status w = kDisconnected /\
  exists e rest, post = e :: rest /\ (e = EvRead \/ e = EvHangup) /\ run_event e w = Err AssertFail.

(** ** The invariant *)

(** Functors of an established connection whose application sends in the loop's
    thread. *)
Definition benign (f : functor G) : Prop :=
  match f with FSendSlice _ | FSendBuffer _ => False | _ => True end.

Context (fd : Z) (t0 : bytes).

(** Documented failures that the data of the stream depends on. *)
Definition peer_stays : Prop := forall k : K, ~ peer_gone fd k.
Definition shutdown_works : Prop := forall k : K, 0 <= (sock_shutdown fd k).1.

(** [ahead]: the functors that the loop has taken from the queue and not called yet,
    or the one about to be called. *)
Definition awaiting (ahead : list (functor G)) w : list (functor G) := ahead ++ pending_functors_ w.

Record stream_at (ahead : list (functor G)) w c : Prop := {
  si_conn : conn_inv this_loop w c;
  si_fd : fd_ c = fd;
  si_status : conn_status w <> kConnecting;
  si_data : exists kept, kept `sublist_of` offered w /\ sent w fd ++ output w = t0 ++ mjoin kept /\
    (peer_stays -> kept = offered w);
  si_shut : conn_status w <> kDisconnected -> shut w fd = true ->
    conn_status w = kDisconnecting /\ output w = [];
  si_fin : shutdown_works -> conn_status w = kDisconnecting -> output w = [] ->
    shut w fd = true \/ FShutdownInLoop ∈ awaiting ahead w;
  si_closed : conn_status w = kDisconnected -> events_ c = kNone;
  si_pending : Forall benign (awaiting ahead w);
  si_asked : FShutdownInLoop ∈ awaiting ahead w -> conn_status w <> kConnected
}.

(** Room for the next event. *)
Context (D : Z).

Definition bounded w : Prop :=
  let i := input_buffer_ (the_conn w) in
  let o := output_buffer_ (the_conn w) in
  3 * (len o + capacity_ i + 65536 + D + reserved_prepend_size_ i + reserved_prepend_size_ o) < 2 ^ 62.

(** ** What leaves the invariant alone *)


Lemma conn_inv_same w w' c :
  io w' = io w -> the_conn w' = the_conn w -> tid_ w' = tid_ w -> conn_inv this_loop w c ->
  conn_inv this_loop w' c.
Proof. intros Hio Hc Ht []. split; unfold output in *; rewrite ?Hio, ?Hc, ?Ht; done. Qed.

(** Functors are queued, or taken from the queue. *)
Lemma stream_move ahead ahead' w w' c l :
  quiet w w' -> awaiting ahead' w' ≡ₚ awaiting ahead w ++ l -> Forall benign l ->
  (FShutdownInLoop ∈ l -> conn_status w <> kConnected) ->
  stream_at ahead w c -> stream_at ahead' w' c.
Proof.
  clear close_cb_. intros Hq Hp Hb Hl [Hc Hf Hs Hd Hsh Hfin Hcl Hpe Ha]. pose proof Hq as [Hu _ _ _ _ Hx Hy].
  assert (the_conn w' = the_conn w) as Hconn by (unfold the_conn; by rewrite Hu).
  split; unfold conn_status, output, shut, sent, offered in *; rewrite ?Hconn, ?Hu, ?Hx, ?Hy, ?Hp; try done.
  - by eapply conn_inv_quiet.
  - intros. rewrite elem_of_app. naive_solver.
  - by apply Forall_app.
  - rewrite elem_of_app. naive_solver.
Qed.

(** Taking the next functor off the queue. *)
Lemma stream_dequeue ahead f l w c :
  stream_at ahead w c -> pending_functors_ w = f :: l -> stream_at (ahead ++ [f]) (set_pending l w) c.
Proof.
  intros Hinv Hp. apply (stream_move ahead _ w _ c []); try done; [|set_solver].
  unfold awaiting. simpl. by rewrite Hp, app_nil_r, <- app_assoc.
Qed.

Section Ahead.
Context (ahead : list (functor G)).
Abbreviation stream_inv := (stream_at ahead).

Lemma stream_quiet w w' c l :
  quiet w w' -> pending_functors_ w' = pending_functors_ w ++ l -> Forall benign l ->
  (FShutdownInLoop ∈ l -> conn_status w <> kConnected) -> stream_inv w c -> stream_inv w' c.
Proof. intros Hq Hp. apply stream_move; [done|]. unfold awaiting. by rewrite Hp, app_assoc. Qed.

(** Only parts that the invariant does not mention change: of the channel, the events
    received and the flags of its dispatch; of the kernel, other sockets. *)
Lemma stream_io w w' c c' :
  the_conn w' = the_conn w -> offered w' = offered w -> tid_ w' = tid_ w ->
  pending_functors_ w' = pending_functors_ w ->
  inv_but None (io w') -> channels (io w') !! channel_ (the_conn w) = Some c' ->
  Channel.loop_ c' = Channel.loop_ c -> shape c' = shape c ->
  owner_tid (poller (io w')) = owner_tid (poller (io w)) ->
  sent w' fd = sent w fd -> shut w' fd = shut w fd -> stream_inv w c -> stream_inv w' c'.
Proof.
  intros Hc Ho Ht Hp Hi Hch Hlp [= E1 E2 E3] How Hse Hsh [[] Hf Hs Hd Hs' Hfin Hcl Hpe Ha].
  assert (IsWriting c' = IsWriting c) as Ew by (unfold IsWriting; by rewrite E3).
  split; unfold conn_status, output, awaiting in *; rewrite ?Hc, ?Ho, ?Hp, ?Hse, ?Hsh, ?E3; try done; [|by rewrite E1].
  split; unfold output; rewrite ?Hc, ?Ht, ?How, ?Ew; try done; by rewrite ?Hlp, ?E2, ?E3.
Qed.

Lemma stream_same w w' c :
  io w' = io w -> the_conn w' = the_conn w -> offered w' = offered w -> tid_ w' = tid_ w ->
  pending_functors_ w' = pending_functors_ w -> stream_inv w c -> stream_inv w' c.
Proof.
  intros Hio Hc Ho Ht Hp Hinv. pose proof (si_conn _ _ _ Hinv) as [].
  apply (stream_io w w' c); unfold sent, shut; by rewrite ?Hio.
Qed.

(** ** The application's operations *)

(** The output buffer grew by at most [n] bytes. *)
Definition output_grows (n : Z) w w' : Prop :=
  reserved_prepend_size_ (output_buffer_ (the_conn w')) =
    reserved_prepend_size_ (output_buffer_ (the_conn w)) /\
  len (output_buffer_ (the_conn w')) <= len (output_buffer_ (the_conn w)) + n.

Lemma same_grows n w w' :
  output_buffer_ (the_conn w') = output_buffer_ (the_conn w) -> 0 <= n -> output_grows n w w'.
Proof. unfold output_grows. intros ->. split; [done|lia]. Qed.

(** The invariant after a message was offered: taken ([m] joins the messages kept),
    or dropped because the peer is gone. *)
Lemma stream_sent m new l b w w' c c' :
  stream_inv w c -> conn_status w = kConnected -> conn_inv this_loop w' c' -> fd_ c' = fd_ c ->
  the_conn w' = set_output b (the_conn w) -> offered w' = offered w ++ [m] ->
  wr_shut (kernel (io w')) = wr_shut (kernel (io w)) ->
  pending_functors_ w' = pending_functors_ w ++ l -> Forall benign l -> FShutdownInLoop ∉ l ->
  sent w' fd ++ content b = (sent w fd ++ output w) ++ mjoin new ->
  new = [m] \/ (new = [] /\ ~ peer_stays) -> stream_inv w' c'.
Proof.
  clear close_cb_. intros [Hi Hf Hs (kept & Hk & Hdata & Hstay) Hsh Hfin Hcl Hpe Ha] Hcs Hi' Hf' Hc Ho Hshut Hp Hl Hnot Hd Hnew.
  split; unfold conn_status, output, shut, awaiting in *; rewrite ?Hc, ?Hf', ?Hp, ?app_assoc, ?Hshut, ?Ho; simpl in *; try done.
  - exists (kept ++ new). rewrite Hd, Hdata, join_app, <- app_assoc. split_and!; [|done|].
    + apply sublist_app; [done|]. destruct Hnew as [->|[-> _]]; [done|apply sublist_nil_l].
    + intros Hst. destruct Hnew as [->|[_ Hno]]; [by rewrite (Hstay Hst)|by apply Hno in Hst].
  - intros Hnd Hs1. by destruct (Hsh Hnd Hs1) as [? _]; congruence.
  - congruence.
  - congruence.
  - by apply Forall_app.
  - rewrite elem_of_app. naive_solver.
Qed.

Lemma benign_crossing hw hcb m n :
  Forall benign (crossing (G := G) hw hcb m n) /\ FShutdownInLoop ∉ crossing (G := G) hw hcb m n.
Proof. unfold crossing. case_if; split; repeat constructor; set_solver. Qed.

Lemma benign_complete (b : bool) :
  Forall benign (if b then [FWriteComplete (G := G)] else []) /\
  FShutdownInLoop ∉ (if b then [FWriteComplete (G := G)] else []).
Proof. destruct b; split; repeat constructor; set_solver. Qed.

(** [SendInLoop] with the message just noted. *)
Lemma stream_SendInLoop m w c :
  stream_inv w c -> conn_status w = kConnected -> room w (Z.of_nat (length m)) ->
  forall w1, io w1 = io w -> the_conn w1 = the_conn w -> offered w1 = offered w ++ [m] ->
  tid_ w1 = tid_ w -> pending_functors_ w1 = pending_functors_ w ->
  exists w' c', SendInLoop junk this_loop (tid_ w) m (Z.of_nat (length m)) w1 = Ok w' /\
    stream_inv w' c' /\ output_grows (Z.of_nat (length m)) w w' /\
    (exists b, the_conn w' = set_output b (the_conn w)) /\ offered w' = offered w ++ [m].
Proof.
  intros Hinv Hcs Hroom w1 Hio Hc1 Ho Ht Hp. pose proof (si_fd _ _ _ Hinv) as Hf.
  assert (conn_inv this_loop w1 c) as Hi1 by (eapply conn_inv_same; try done; apply Hinv).
  assert (status_ (the_conn w1) <> kDisconnected) as Hopen by (rewrite Hc1; unfold conn_status in Hcs; congruence).
  assert (forall fd, sent w1 fd = sent w fd) as Hsent by (intros; unfold sent; by rewrite Hio).
  assert (output w1 = output w) as Hout by (unfold output; by rewrite Hc1).
  rewrite <- Ht. destruct (decide (m = [])) as [->|Hm].
  - destruct (SendInLoop_empty junk this_loop [] c w1 Hi1 Hopen) as (w' & post & Hrun & Hi' & Hu & Ht' & Hse & Hshut & Hpend).
    assert (the_conn w' = the_conn w) as Hc' by (rewrite <- Hc1; unfold the_conn; by rewrite Hu).
    destruct (benign_complete post) as [Hb1 Hb2].
    exists w', c. split; [exact Hrun|]. unfold output_grows. rewrite Hc'. simpl.
    split_and!; try done; [|lia|by exists (output_buffer_ (the_conn w)); destruct (the_conn w)
                          |unfold offered in *; by rewrite Hu].
    eapply (stream_sent [] [[]] _ (output_buffer_ (the_conn w)) w w' c c Hinv Hcs Hi' eq_refl); try done.
    + rewrite Hc'. by destruct (the_conn w).
    + unfold offered in *. by rewrite Hu.
    + by rewrite Hshut, Hio.
    + by rewrite Hpend, Hp.
    + simpl. rewrite app_nil_r. rewrite <- Hf, Hse, Hsent. done.
    + by left.
  - destruct (SendInLoop_spec junk this_loop m (Z.of_nat (length m)) c w1 Hi1 Hopen)
      as (w' & c' & b & Hrun & Hi' & Hfd & [Hu Ht'] & Hb & Hres & Hlen & Hshut & Hcase).
    { destruct m; [done|simpl; lia]. } { unfold room in *. by rewrite Hc1. }
    assert (the_conn w' = set_output b (the_conn w)) as Hc' by (rewrite <- Hc1; unfold the_conn; by rewrite Hu).
    assert (offered w' = offered w ++ [m]) as Ho' by (rewrite <- Ho; unfold offered; by rewrite Hu).
    rewrite Hf in *. rewrite Hio in Hshut.
    exists w', c'. split; [exact Hrun|]. unfold output_grows. rewrite Hc'. simpl.
    destruct Hcase as [(Hdata & _ & Hpend)|(Hnil & Hnil' & Hse & Hpend & Hgone)].
    + rewrite Hf, Nat2Z.id, firstn_all, Hb, !Hsent, Hout in Hdata. split_and!; try done; [| | |by exists b].
      * eapply (stream_sent m [m] _ b w w' c c' Hinv Hcs Hi'); [by rewrite Hfd|done|done| | | | | |by left].
        -- by rewrite Hshut.
        -- by rewrite Hpend, Hp.
        -- apply Forall_app. split; [apply benign_complete|apply benign_crossing].
        -- rewrite not_elem_of_app. split; [apply benign_complete|apply benign_crossing].
        -- rewrite Hdata, <- !app_assoc. simpl. by rewrite app_nil_r.
      * by rewrite Hres, Hc1.
      * by rewrite <- Hc1.
    + split_and!; try done; [|by rewrite Hres, Hc1|by rewrite <- Hc1|by exists b].
      eapply (stream_sent m [] [] b w w' c c' Hinv Hcs Hi'); try done; [by rewrite Hfd| | | |].
      * by rewrite Hpend, Hp, app_nil_r.
      * set_solver.
      * rewrite <- Hb, Hnil', app_nil_r. simpl. rewrite Hsent in Hse. by rewrite Hse, <- Hout, Hnil, !app_nil_r.
      * right. split; [done|]. intros Hst. by apply (Hst (kernel (io w1))).
Qed.

Lemma conn_inv_status s w c :
  conn_inv this_loop w c -> (status_ (the_conn w) = kDisconnected -> s = kDisconnected) ->
  conn_inv this_loop (SetStatus s w) c.
Proof. clear close_cb_. intros [] Hs. split; try done. simpl. intros Hne. unfold output in *. simpl. naive_solver. Qed.

Lemma disconnecting_else (s : ConnStatus) :
  s <> kConnecting -> s <> kConnected -> s <> kDisconnected -> s = kDisconnecting.
Proof. by destruct s. Qed.

(** Writing is enabled exactly while something is buffered. *)
Lemma writing_buffered w c :
  conn_inv this_loop w c -> conn_status w <> kDisconnected -> IsWriting c = negb (bool_decide (output w = [])).
Proof.
  clear close_cb_. intros Hi Hs. pose proof (ci_writing _ _ _ Hi Hs) as Hw.
  destruct (IsWriting c); case_bool_decide; try done; naive_solver.
Qed.

(** A functor that is no longer waiting, unless it is the one that shuts down. *)
Lemma stream_called f w c :
  stream_at (f :: ahead) w c ->
  (f = FShutdownInLoop -> shutdown_works -> conn_status w = kDisconnecting -> output w = [] -> shut w fd = true) ->
  stream_inv w c.
Proof.
  intros [Hc Hf Hs Hd Hsh Hfin Hcl Hpe Ha] Hdone. split; try done.
  - intros Hw Hds Hn. destruct (Hfin Hw Hds Hn) as [?|[<-|?]%elem_of_cons]; [by left|left; by apply Hdone|by right].
  - by apply Forall_cons in Hpe as [_ ?].
  - intros Hin. apply Ha. by right.
Qed.

(** [ShutdownInLoop], when it is due. *)
Lemma stream_ShutdownInLoop w c :
  stream_at (FShutdownInLoop :: ahead) w c -> conn_status w <> kConnected ->
  exists w', ShutdownInLoop (tid_ w) w = Ok w' /\ stream_inv w' c /\ user w' = user w.
Proof.
  intros Hinv Hst. pose proof Hinv as [Hc Hf Hs Hd Hsh Hfin Hcl Hpe Ha].
  pose proof (ShutdownInLoop_spec this_loop w c Hc) as Hrun. pose proof (writing_buffered _ _ Hc) as Hwr.
  destruct (IsWriting c) eqn:Ew.
  - exists w. split; [done|]. split; [|done]. apply (stream_called _ w c Hinv).
    intros _ _ Hds Hnil. rewrite Hds, bool_decide_eq_true_2 in Hwr by done. by specialize (Hwr ltac:(done)).
  - destruct Hrun as (k & Hrun & Hk & Hi & Htx). exists (set_sock k w). split; [done|]. split; [|done].
    assert (shutdown_works -> shut (set_sock k w) fd = true) as Hdone.
    { intros Hworks. unfold shut. simpl. rewrite Hk, Hf. apply shutdown_shuts, Hworks. }
    apply (stream_called FShutdownInLoop); [|intros _ Hw _ _; by apply Hdone]. split; try done.
    + unfold sent. simpl. rewrite Htx. done.
    + intros Hnd _. split; [by apply disconnecting_else|]. specialize (Hwr Hnd).
      symmetry in Hwr. by apply negb_false_iff, bool_decide_eq_true in Hwr.
    + intros Hworks _ _. left. by apply Hdone.
Qed.

(** [Shutdown], called by any thread. *)
Lemma stream_Shutdown by_ w c :
  stream_inv w c ->
  exists w', Shutdown by_ w = Ok w' /\ stream_inv w' c /\ output_grows 0 w w'.
Proof.
  intros Hinv. unfold Shutdown. destruct (bool_decide (status_ (the_conn w) = kConnected)) eqn:E.
  2:{ exists w. split_and!; try done. by apply same_grows. }
  apply bool_decide_eq_true in E. set (w1 := SetStatus kDisconnecting w).
  assert (stream_at (FShutdownInLoop :: ahead) w1 c) as Hinv1.
  { destruct Hinv as [Hc Hf Hs Hd Hsh Hfin Hcl Hpe Ha]. unfold conn_status in *.
    split; try done; [by apply conn_inv_status; [|rewrite E]| |by intros; right; left|by constructor].
    intros _ Hsh'. destruct (Hsh ltac:(by rewrite E) Hsh'). congruence. }
  destruct (IsInLoopThread (tid_ w1) by_) eqn:Ein.
  - apply Z.eqb_eq in Ein as <-. destruct (stream_ShutdownInLoop w1 c Hinv1) as (w' & Hrun & Hinv' & Hu); [done|].
    exists w'. split_and!; try done. apply same_grows; [|done]. unfold the_conn. by rewrite Hu.
  - destruct (post_spec (A := A) by_ true FShutdownInLoop w1) as [Hq Hp]. simpl in Hp.
    exists (QueueInLoop by_ FShutdownInLoop w1). split; [done|]. split.
    + eapply (stream_move _ _ w1 _ c []); [exact Hq| |done|set_solver|exact Hinv1].
      unfold awaiting. rewrite Hp, app_nil_r. simpl. symmetry. rewrite app_assoc. apply Permutation_cons_append.
    + apply same_grows; [|done]. unfold the_conn. by rewrite (q_user _ _ Hq).
Qed.

Lemma conn_inv_input w c b :
  conn_inv this_loop w c -> wf b -> conn_inv this_loop (set_conn (set_input b (the_conn w)) w) c.
Proof. intros [] Hb. by split. Qed.

(** The temporary [Slice] of [Send]. *)
Definition with_slices (f : gmap ptr Slice -> gmap ptr Slice) w : cworld :=
  set_user (mkUser (conn (user w)) (f (slices (user w))) (buf_vars (user w)) (buffers (user w))
    (app (user w))) w.

Lemma Send_in_loop tmp m n w :
  Send junk this_loop (tid_ w) tmp m n w =
    w' ← (let w1 := with_slices <[tmp := Slice_ptr m (u64 n)]> w in
          if IsConnected (the_conn w) then SendInLoop junk this_loop (tid_ w) m (u64 n) w1 else Ok w1);
    Ok (with_slices (delete tmp) w').
Proof.
  unfold Send, Send_slice. fold (with_slices <[tmp := Slice_ptr m (u64 n)]> w).
  change (the_conn (with_slices _ w)) with (the_conn w). fold (IsConnected (the_conn w)).
  destruct (IsConnected (the_conn w)); [|done].
  unfold IsInLoopThread. rewrite Z.eqb_refl. unfold with_slices at 1. simpl. by rewrite lookup_insert_eq.
Qed.

Lemma stream_USend tmp m w c :
  stream_inv w c -> conn_status w = kConnected -> room w (Z.of_nat (length m)) ->
  exists w' c', run_user (USend tmp m) w = Ok w' /\ stream_inv w' c' /\
    output_grows (Z.of_nat (length m)) w w' /\
    (exists b, the_conn w' = set_output b (the_conn w)) /\ offered w' = offered w ++ [m].
Proof.
  intros Hinv Ec Hroom. simpl. unfold IsConnected. fold (conn_status w). rewrite bool_decide_eq_true_2 by done.
  change (tid_ w) with (tid_ (note m w)). rewrite Send_in_loop.
  change (IsConnected (the_conn (note m w))) with (bool_decide (conn_status w = kConnected)).
  rewrite bool_decide_eq_true_2 by done. cbv zeta.
  assert (Z.of_nat (length m) < 2 ^ 62) by
    (pose proof (len_nonneg (output_buffer_ (the_conn w)));
     pose proof (wf_reserve _ (ci_out _ _ _ (si_conn _ _ _ Hinv))); unfold room in Hroom; lia).
  rewrite u64_id by (unfold in_u64; lia).
  destruct (stream_SendInLoop m w c Hinv Ec Hroom
    (with_slices <[tmp := Slice_ptr m (Z.of_nat (length m))]> (note m w)))
    as (w' & c' & Hrun & Hinv' & Hg & Hb & Ho); try done.
  change (tid_ (note m w)) with (tid_ w). rewrite Hrun. simpl.
  eexists _, c'. split; [done|]. split_and!; try done. by apply (stream_same w').
Qed.

Lemma stream_user_op o w c :
  stream_inv w c -> op_ok o -> room w (demand_of o) ->
  exists w' c', run_user o w = Ok w' /\ stream_inv w' c' /\ output_grows (demand_of o) w w'.
Proof.
  intros Hinv Hok Hroom. destruct o as [tmp m|n|]; simpl in *.
  - destruct (IsConnected (the_conn w)) eqn:Ec.
    + destruct (stream_USend tmp m w c Hinv) as (w' & c' & Hrun & Hinv' & Hg & _); [by apply bool_decide_eq_true in Ec|done|].
      simpl in Hrun. rewrite Ec in Hrun. by exists w', c'.
    + rewrite Send_in_loop, Ec. simpl. eexists _, c. split; [done|]. split.
      * by apply (stream_same w).
      * apply same_grows; [done|lia].
  - destruct (Skip_spec n (input_buffer_ (the_conn w))) as (b & -> & Hb & _); [apply Hinv|apply Hok|].
    simpl. eexists _, c. split; [done|]. split; [|by apply same_grows].
    destruct Hinv. split; try done. by apply conn_inv_input.
  - destruct (stream_Shutdown (tid_ w) w c Hinv) as (w' & Hrun & Hinv' & Hg). by exists w', c.
Qed.

Lemma stream_user_ops ops w c :
  stream_inv w c -> Forall op_ok ops -> room w (demand ops) ->
  exists w' c', foldM run_user ops w = Ok w' /\ stream_inv w' c'.
Proof.
  intros Hinv Hok. revert w c Hinv. induction Hok as [|o ops Ho _ IH]; intros w c Hinv Hroom; simpl in *.
  { by exists w, c. }
  pose proof (user_demand_nonneg ops). pose proof (user_demand_nonneg [o]) as Hd. simpl in Hd.
  destruct (stream_user_op o w c Hinv Ho) as (w1 & c1 & -> & Hinv1 & Hres & Hlen); [unfold room in *; lia|].
  apply (IH w1 c1 Hinv1). unfold room in *. rewrite Hres. lia.
Qed.

(** ** The events *)

(** The application asks for no more than [D] bytes and what it has received. *)
Definition react_ok : Prop := 0 <= D /\ forall t w, Forall op_ok (react t w) /\
  demand (react t w) <= D + len (input_buffer_ (the_conn w)).

(** The close callback only queues functors of the application (TcpServer's
    [RemoveConnection]). *)
Definition only_queues : Prop := forall w, exists w' gs, close_cb_ w = Ok w' /\ quiet w w' /\
  pending_functors_ w' = pending_functors_ w ++ (FOther <$> gs).

Context (Hreact : react_ok) (Hclose : only_queues).

Lemma stream_application t w c :
  stream_inv w c -> room w (D + len (input_buffer_ (the_conn w))) ->
  exists w' c', application t w = Ok w' /\ stream_inv w' c'.
Proof.
  intros Hinv Hroom. destruct Hreact as [_ Hr]. destruct (Hr t w) as [Hok Hd]. apply (stream_user_ops _ w c); try done.
  unfold room in *. lia.
Qed.

Lemma bounded_room w c : stream_inv w c -> bounded w -> room w (D + len (input_buffer_ (the_conn w))).
Proof.
  intros Hinv Hb. unfold bounded, room in *. pose proof (ci_in _ _ _ (si_conn _ _ _ Hinv)) as Hin.
  pose proof (len_capacity _ Hin). pose proof (wf_reserve _ Hin). lia.
Qed.

Lemma stream_open w c : stream_inv w c -> conn_status w <> kDisconnected -> is_open w = true.
Proof. intros Hinv Hs. pose proof (si_status _ _ _ Hinv). unfold is_open. by destruct (conn_status w). Qed.

Lemma stream_HandleClose w c :
  stream_inv w c -> is_open w = true ->
  exists w' c', HandleClose this_loop (tid_ w) close_cb_ w = Ok w' /\ stream_inv w' c' /\
    user w' = user (SetStatus kDisconnected w).
Proof.
  intros Hinv Hopen. unfold HandleClose, in_loop. rewrite AssertInLoopThread_refl.
  cbn [mbind result_bind]. fold (conn_status w). fold (is_open w). rewrite Hopen. cbn [assert mbind result_bind].
  set (w1 := SetStatus kDisconnected w). destruct Hinv as [Hc Hf Hs Hd Hsh Hfin Hcl Hpe Ha].
  assert (conn_inv this_loop w1 c) as Hc1 by by apply conn_inv_status.
  destruct (change_channel_spec this_loop w1 c DisableAll) as (i & Hrun & Hi & Hch & How & Htx & Hshut);
    [apply Hc1|by apply conn_registrable|].
  change (tid_ w) with (tid_ w1). rewrite Hrun. cbn [mbind result_bind]. set (c1 := SetIndex kAdded _) in Hch.
  assert (stream_inv (set_io i w1) c1) as Hinv1.
  { split; try done.
    - apply (conn_inv_change this_loop w1 c DisableAll); try done.
    - unfold sent, output in *. simpl. rewrite Htx. exact Hd. }
  destruct (Hclose (set_io i w1)) as (w' & gs & Hrun' & Hq & Hp). exists w', c1. split; [exact Hrun'|]. split; [|by rewrite (q_user _ _ Hq)].
  apply (stream_quiet (set_io i w1) w' c1 (FOther <$> gs)); try done.
  apply Forall_fmap, Forall_true. done.
Qed.

Lemma stream_HandleWrite w c :
  stream_inv w c -> exists w' c', HandleWrite this_loop (tid_ w) w = Ok w' /\ stream_inv w' c' /\
    only_output w w' (output_buffer_ (the_conn w')).
Proof.
  clear Hclose close_cb_. intros Hinv. pose proof Hinv as [Hc Hf Hs Hd Hsh Hfin Hcl Hpe Ha]. destruct (IsWriting c) eqn:Ew.
  2:{ exists w, c. split; [|by split; [|apply nothing_output]]. unfold HandleWrite, in_loop, the_channel, channel_at.
      rewrite AssertInLoopThread_refl. cbn [mbind result_bind]. rewrite (ci_channel _ _ _ Hc).
      cbn [deref mbind result_bind]. by rewrite Ew. }
  assert (conn_status w <> kDisconnected) as Hds by (intros Hx%Hcl; unfold IsWriting in Ew; by rewrite Hx in Ew).
  pose proof (writing_buffered w c Hc Hds) as Hne. rewrite Ew in Hne.
  symmetry in Hne. apply negb_true_iff, bool_decide_eq_false in Hne.
  destruct (HandleWrite_spec this_loop c w Hc Hds)
    as (w' & c' & Hrun & Hc' & Hf' & [Hu Ht] & Hdata & Hp & Hshut). exists w', c'. split; [exact Hrun|]. split; [|done].
  cbv zeta in Hp, Hshut. rewrite Hf in *. rewrite bool_decide_eq_true_2 in Hp, Hshut by done. simpl in Hp, Hshut.
  assert (conn_status w' = conn_status w) as Hst by (unfold conn_status, the_conn; by rewrite Hu).
  assert (offered w' = offered w) as Ho by (unfold offered; by rewrite Hu).
  destruct (benign_complete (bool_decide (output w' = []) && write_complete_cb_ (the_conn w))) as [Hb1 Hb2].
  change (status_ (the_conn w)) with (conn_status w) in Hshut.
  split; unfold awaiting in *; rewrite ?Hst, ?Ho, ?Hp, ?app_assoc; try done.
  - by rewrite Hdata.
  - intros _ Hs'. unfold shut in *. destruct (bool_decide (output w' = [])) eqn:E1, (bool_decide (conn_status w = _)) eqn:E2;
      simpl in Hshut; bsimpl; [by apply bool_decide_eq_true in E1, E2|..]; rewrite Hshut in Hs';
      by destruct (Hsh Hds Hs').
  - intros Hworks Hdis Hnil. rewrite Hdis, Hnil in Hshut. destruct Hshut as (k & Hk & _).
    left. unfold shut. rewrite Hk. apply shutdown_shuts, Hworks.
  - by apply Forall_app.
  - rewrite elem_of_app. naive_solver.
Qed.

Lemma stream_after_read w c b :
  stream_inv w c -> conn_inv this_loop (after_read w c b) c -> stream_inv (after_read w c b) c.
Proof.
  intros [] Hc. split; unfold sent, shut in *; try done; simpl; rewrite ?readv_tx, ?readv_shut; done.
Qed.

(** [HandleClose] on a closed connection. *)
Lemma HandleClose_closed w :
  conn_status w = kDisconnected -> HandleClose this_loop (tid_ w) close_cb_ w = Err AssertFail.
Proof.
  intros Hs. unfold HandleClose, in_loop. rewrite AssertInLoopThread_refl. cbn [mbind result_bind].
  fold (conn_status w). by rewrite Hs.
Qed.

(** [HandleRead] whatever the state: it fails only at the end of the stream of a
    connection that has closed. *)
Lemma stream_read w c :
  stream_inv w c -> bounded w ->
  (exists w' c', HandleRead junk this_loop (tid_ w) (application TMessage) close_cb_ w = Ok w' /\
    stream_inv w' c') \/
  (conn_status w = kDisconnected /\
   HandleRead junk this_loop (tid_ w) (application TMessage) close_cb_ w = Err AssertFail).
Proof.
  intros Hinv Hb.
  pose proof (len_nonneg (output_buffer_ (the_conn w))). 
  pose proof (wf_reserve _ (ci_out _ _ _ (si_conn _ _ _ Hinv))).
  pose proof (wf_reserve _ (ci_in _ _ _ (si_conn _ _ _ Hinv))). pose proof Hreact as [HD _].
  destruct (HandleRead_spec junk this_loop (tid_ w) (application TMessage) close_cb_ w c eq_refl (si_conn _ _ _ Hinv))
    as (b & Hc1 & Hcb & Hlen & Hrun & _); [unfold bounded in Hb; lia|].
  cbv zeta in Hc1, Hrun. set (w1 := after_read w c b) in *. rewrite Hrun.
  pose proof (stream_after_read w c b Hinv Hc1) as Hinv1. fold w1 in Hinv1.
  destruct (_ >? 0).
  - left. apply (stream_application TMessage w1 c Hinv1). unfold bounded, room in *. simpl. unfold len at 2. lia.
  - destruct (_ =? 0); [|by left; exists w1, c].
    destruct (decide (conn_status w = kDisconnected)) as [Hs|Hs].
    + right. split; [done|]. exact (HandleClose_closed w1 Hs).
    + left. destruct (stream_HandleClose w1 c Hinv1) as (w' & c' & Hrun' & Hinv' & _); [|by exists w', c'].
      apply (stream_open w c Hinv Hs).
Qed.

Lemma stream_HandleRead w c :
  stream_inv w c -> bounded w -> is_open w = true ->
  exists w' c', HandleRead junk this_loop (tid_ w) (application TMessage) close_cb_ w = Ok w' /\
    stream_inv w' c'.
Proof.
  intros Hinv Hb Hopen. destruct (stream_read w c Hinv Hb) as [?|[Hs _]]; [done|].
  unfold is_open in Hopen. by rewrite Hs in Hopen.
Qed.

Lemma stream_functor f w c :
  stream_at (f :: ahead) w c -> bounded w -> exists w' c', run_functor f w = Ok w' /\ stream_inv w' c'.
Proof.
  intros Hinv Hb. unfold run_functor. pose proof (si_pending _ _ _ Hinv) as [Hf _]%Forall_cons.
  destruct f as [|n| | | |g]; try done; simpl.
  1,2,4: assert (stream_inv w c) as Hinv1 by (by eapply stream_called);
    apply (stream_application _ _ c Hinv1), (bounded_room w c Hinv1 Hb).
  destruct (stream_ShutdownInLoop w c Hinv) as (w' & Hrun & Hinv' & _); [|by exists w', c].
  apply (si_asked _ _ _ Hinv). by left.
Qed.
End Ahead.

Context (Hreact : react_ok) (Hclose : only_queues).

Abbreviation stream_inv := (stream_at []).

Lemma stream_next_functor w c :
  stream_inv w c -> bounded w -> exists w' c', next_functor w = Ok w' /\ stream_inv w' c'.
Proof.
  intros Hinv Hb. unfold next_functor. destruct (pending_functors_ w) as [|f l] eqn:Hp; [by exists w, c|].
  eapply (stream_functor []); [done|by apply (stream_dequeue [] f l w c)|done].
Qed.

Lemma stream_event e w c :
  stream_inv w c -> bounded w ->
  (exists w' c', run_event e w = Ok w' /\ stream_inv w' c') \/
  (conn_status w = kDisconnected /\ (e = EvRead \/ e = EvHangup) /\ run_event e w = Err AssertFail).
Proof.
  intros Hinv Hb. destruct e; simpl.
  - destruct (stream_read [] Hreact Hclose w c Hinv Hb) as [?|[Hs He]]; [by left|right; by eauto].
  - left. edestruct stream_HandleWrite as (w' & c' & Hrun & Hinv' & _); [done|]. by exists w', c'.
  - destruct (decide (conn_status w = kDisconnected)) as [Hs|Hs]; [right; split; [done|]|left].
    + split; [by right|]. by apply HandleClose_closed.
    + edestruct stream_HandleClose as (w' & c' & Hrun & Hinv' & _); [done..|by eapply stream_open|]. by exists w', c'.
  - left. exists w, c. split; [|done]. unfold HandleError, the_channel, channel_at.
    by rewrite (ci_channel _ _ _ (si_conn _ _ _ Hinv)).
  - left. by apply (stream_next_functor w c).
  - left. edestruct (stream_Shutdown []) as (w' & Hrun & Hinv' & _); [done|]. by exists w', c.
  - left. destruct (post_spec (A := A) by_ true (FOther g) w) as [Hq Hp]. eexists _, c. split; [done|].
    eapply stream_quiet; [exact Hq|exact Hp|by repeat constructor|set_solver|done].
Qed.

(** There is room before each event. *)
Definition roomy es w : Prop :=
  forall pre post w1, es = pre ++ post -> run_events pre w = Ok w1 -> bounded w1.

Lemma roomy_tail e es w w1 : roomy (e :: es) w -> run_event e w = Ok w1 -> roomy es w1.
Proof.
  clear Hreact Hclose. intros Hroom Hrun pre post w2 -> Hpre. apply (Hroom (e :: pre) post w2); [done|]. unfold run_events. simpl.
  by rewrite Hrun.
Qed.

(** While there is room, a run goes on to its end or to a late report. *)
Lemma stream_events es w c :
  stream_inv w c -> roomy es w ->
  exists pre post w' c', es = pre ++ post /\ run_events pre w = Ok w' /\ stream_inv w' c' /\
    (post = [] \/ late_report post w').
Proof.
  intros Hinv. revert w c Hinv. induction es as [|e es IH]; intros w c Hinv Hroom.
  { exists [], [], w, c. split_and!; try done. by left. }
  destruct (stream_event e w c Hinv) as [(w1 & c1 & Hrun & Hinv1)|(Hs & He & Herr)];
    [by apply (Hroom [] (e :: es))| |].
  - destruct (IH w1 c1 Hinv1) as (pre & post & w' & c' & -> & Hrun' & Hinv' & Hend); [by eapply roomy_tail|].
    exists (e :: pre), post, w', c'. split_and!; try done. unfold run_events. simpl. by rewrite Hrun.
  - exists [], (e :: es), w, c. split_and!; try done. right. split; [done|]. by exists e, es.
Qed.

Lemma late_report_fails pre post w w' :
  run_events pre w = Ok w' -> late_report post w' -> run_events (pre ++ post) w = Err AssertFail.
Proof.
  clear Hreact Hclose. intros Hrun (_ & e & rest & -> & _ & He). unfold run_events in *. rewrite foldM_app, Hrun.
  cbn [mbind result_bind foldM]. by rewrite He.
Qed.
End Stream.

(** ** The stream of an established connection *)

Section Theorems.
Context {G Cb A V K : Type} `{EpollLaws K, EventfdKernel K, SocketKernel K, !SocketLaws K}.
Abbreviation cworld := (lworld (functor G) Cb (cuser A (list bytes * V)) K).
Implicit Types (w : cworld) (c : Channel Cb).
Context (junk : nat -> byte) (this_loop : ptr) (react : trigger G -> cworld -> list user_op)
  (close_cb_ : cworld -> result cworld) (D : Z) (Hreact : react_ok react D) (Hclose : only_queues close_cb_).

(** As [OnConnectEstablished] leaves it. *)
Definition fresh w c : Prop :=
  conn_inv this_loop w c /\ conn_status w = kConnected /\ input w = [] /\ output w = [] /\
  offered w = [] /\ pending_functors_ w = [] /\ shut w (fd_ c) = false.

Lemma fresh_inv w c : fresh w c -> stream_at this_loop (fd_ c) (sent w (fd_ c)) [] w c.
Proof.
  intros (Hc & Hst & _ & Ho & Hof & Hp & Hs). split; unfold awaiting; rewrite ?Hst, ?Hp, ?Ho, ?Hof, ?Hs; try done.
  - by exists [].
  - by intros ?%elem_of_nil.
Qed.

(** [C6] Nothing is lost, repeated or reordered from the establishment of a connection
    on.  Let an application send, consume input and shut down from its callbacks and
    functors as it likes, and take any sequence of events.  It runs to its end, or
    until a read or a hang-up is reported on a connection that has closed already, on
    which [HandleClose] aborts: no member fails otherwise.  Where the run ends or
    stops, the bytes the kernel has accepted followed by those in the output buffer
    are the messages offered while the connection was connected, each whole and in
    order.  Only a message offered when the peer was gone may be missing; if the peer
    stays, none is. *)
Theorem conn_stream es w c :
  fresh w c -> roomy junk this_loop react close_cb_ D es w ->
  exists pre post w', es = pre ++ post /\ run_events junk this_loop react close_cb_ pre w = Ok w' /\
    (post = [] \/ late_report junk this_loop react close_cb_ post w') /\
    exists kept, kept `sublist_of` offered w' /\
      sent w' (fd_ c) ++ output w' = sent w (fd_ c) ++ mjoin kept /\
      (peer_stays (K := K) (fd_ c) -> kept = offered w').
Proof.
  intros Hf Hr. destruct (stream_events junk this_loop react close_cb_ (fd_ c) (sent w (fd_ c)) D
    Hreact Hclose es w c (fresh_inv w c Hf) Hr) as (pre & post & w' & c' & He & Hrun & Hinv & Hend).
  exists pre, post, w'. split_and!; try done. apply Hinv.
Qed.

(** [C12] Shutting down is graceful.  In any sequence of events, the sending side of a
    connection that is not yet closed is shut down only after [Shutdown] was called
    and the output buffer drained; so, if the peer stays, the kernel has then
    accepted every message offered.  And it is shut down: once the buffer has
    drained and the functor of [Shutdown] has run, if shutdown(2) does not fail. *)
Theorem graceful_shutdown es w c w' :
  fresh w c -> roomy junk this_loop react close_cb_ D es w ->
  run_events junk this_loop react close_cb_ es w = Ok w' -> conn_status w' <> kDisconnected ->
  (shut w' (fd_ c) = true -> conn_status w' = kDisconnecting /\ output w' = [] /\
     (peer_stays (K := K) (fd_ c) -> sent w' (fd_ c) = sent w (fd_ c) ++ mjoin (offered w'))) /\
  (shutdown_works (K := K) (fd_ c) -> conn_status w' = kDisconnecting -> output w' = [] ->
     FShutdownInLoop ∉ pending_functors_ w' -> shut w' (fd_ c) = true).
Proof.
  intros Hf Hr Hrun Hst. destruct (stream_events junk this_loop react close_cb_ (fd_ c) (sent w (fd_ c)) D
    Hreact Hclose es w c (fresh_inv w c Hf) Hr) as (pre & post & w1 & c' & -> & Hrun1 & Hinv & Hend).
  destruct Hend as [->|Hlate]; [rewrite app_nil_r in Hrun; rewrite Hrun in Hrun1; injection Hrun1 as <-
                               |by rewrite (late_report_fails _ _ _ _ _ _ _ _ Hrun1 Hlate) in Hrun].
  split.
  - intros Hs. destruct (si_shut _ _ _ _ _ _ Hinv Hst Hs) as [Hd Ho]. split_and!; try done.
    intros Hstay. destruct (si_data _ _ _ _ _ _ Hinv) as (kept & _ & Hdata & Hk).
    by rewrite Ho, app_nil_r, (Hk Hstay) in Hdata.
  - intros Hw Hd Ho Hp. by destruct (si_fin _ _ _ _ _ _ Hinv Hw Hd Ho) as [?|?].
Qed.
End Theorems.
