(* ===== verification/TcpEcho.v ===== *)
(** * An echo server's connection (src/test/test_thread_pool/echo.cc)

    The message callback of [EchoServer] run by the connection of TcpStream.v: what
    the kernel delivers while the connection is open is what it is given back. *)

From S2P Require Import Prelude Bytes Slice Buffer BufferFacts BufferSpec BufferIO LoopThread Duration.
From S2P Require Import Timestamp Channel EPoller EPollerFacts EventFd ServerStatus LoopChannels.
From S2P Require Import EventLoop SocketKernel TcpConnection TcpConnFacts TcpSend TcpConnProps TcpConnLife.
From S2P Require Import TcpStream.
#[local] Open Scope Z_scope.

Section Echo.
Context {G Cb A V K : Type} `{EpollLaws K, EventfdKernel K, SocketKernel K, !SocketLaws K}.
Abbreviation cworld := (lworld (functor G) Cb (cuser A (list bytes * V)) K).
Implicit Types (w : cworld) (c : Channel Cb).
Context (junk : nat -> byte) (this_loop : ptr) (close_cb_ : cworld -> result cworld).

(** [EchoServer::OnMessage]; [tmp]: the address of the [Slice] built from the
    string.  *)
Context (tmp : ptr).

Definition OnMessage w : result cworld :=
  '(msg, b) ← NextAllString (input_buffer_ (the_conn w));
  Send junk this_loop (tid_ w) tmp msg (Z.of_nat (length msg)) (set_conn (set_input b (the_conn w)) w).

Definition echo (t : trigger G) w : list user_op :=
  match t with
  | TMessage => [USkip (u64 (len (input_buffer_ (the_conn w)))); USend tmp (input w)]
  | _ => []
  end.

(** [OnMessage] is that application's reaction to a message; what is sent while
    connected is noted. *)
Definition noted w : cworld := if IsConnected (the_conn w) then note (input w) w else w.

Lemma OnMessage_echo w :
  wf (input_buffer_ (the_conn w)) ->
  application junk this_loop echo TMessage w = OnMessage (noted w).
Proof.
  intros Hw. unfold application, OnMessage, NextAllString, NextAll. simpl.
  assert (the_conn (noted w) = the_conn w) as -> by (unfold noted; by destruct (IsConnected (the_conn w))).
  unfold Skip. rewrite !Buffer_length_ok by done. cbn [mbind result_bind].
  pose proof (len_nonneg (input_buffer_ (the_conn w))). pose proof (len_capacity _ Hw). pose proof (wf_bound _ Hw).
  rewrite u64_id by (unfold in_u64; lia). rewrite Z.ltb_irrefl. cbn [mbind result_bind].
  unfold Slice.ToString. simpl. rewrite read_data by (done || lia). cbn [mbind result_bind].
  assert (take (Z.to_nat (len (input_buffer_ (the_conn w)))) (content (input_buffer_ (the_conn w))) = input w)
    as -> by (unfold len; rewrite Nat2Z.id; apply firstn_all).
  assert (tid_ (noted w) = tid_ w) as -> by (unfold noted; by destruct (IsConnected (the_conn w))).
  unfold noted, IsConnected. simpl. case_bool_decide; by destruct (Send _ _ _ _ _ _ _).
Qed.

Context (fd : Z) (t0 : bytes) (Hclose : only_queues close_cb_).

Abbreviation stream_inv := (stream_at this_loop fd t0 []).

Lemma echo_ok : react_ok (G := G) (K := K) (Cb := Cb) (A := A) (V := V) echo 0.
Proof.
  split; [done|]. intros t w. pose proof (len_nonneg (input_buffer_ (the_conn w))).
  destruct t; simpl; split; try lia; repeat constructor; try apply u64_range.
  unfold input, len. lia.
Qed.

(** The bytes that the kernel delivers in an event to the open connection. *)
Definition arrived (e : event G) w : bytes :=
  match e, the_channel w with
  | EvRead, Ok c => if is_open w then rv_data (received w c) else []
  | _, _ => []
  end.

(** What they are over a run. *)
Fixpoint arrivals (es : list (event G)) w : bytes :=
  match es with
  | [] => []
  | e :: es =>
      arrived e w ++
      match run_event junk this_loop echo close_cb_ e w with Ok w1 => arrivals es w1 | Err _ => [] end
  end.

(** Nobody calls [Shutdown]. *)
Definition no_shutdown (e : event G) : Prop := match e with EvShutdown _ => False | _ => True end.

(** Everything received was offered. *)
Record echoed (r : bytes) w c : Prop := {
  ec_stream : stream_inv w c;
  ec_input : input w = [];
  ec_status : conn_status w <> kDisconnecting;
  ec_offered : mjoin (offered w) = r
}.

(** The message callback: the input is consumed, and offered if connected. *)
Lemma echo_message w c :
  stream_inv w c -> room w (len (input_buffer_ (the_conn w))) -> conn_status w <> kDisconnecting ->
  exists w' c', application junk this_loop echo TMessage w = Ok w' /\ stream_inv w' c' /\
    input w' = [] /\ conn_status w' = conn_status w /\
    offered w' = offered w ++ (if is_open w then [input w] else []).
Proof.
  intros Hinv Hroom Hs. set (b := input_buffer_ (the_conn w)) in *. pose proof (len_nonneg b).
  assert (wf b) as Hb by apply (ci_in _ _ _ (si_conn _ _ _ _ _ _ Hinv)).
  pose proof (len_capacity _ Hb). pose proof (wf_bound _ Hb).
  unfold application. cbn [echo foldM run_user]. fold b. rewrite u64_id by (unfold in_u64; lia).
  destruct (Skip_spec (len b) b) as (b2 & -> & Hb2 & Hcb2 & _); [done..|]. cbn [mbind result_bind].
  assert (content b2 = []) as Hnil by (rewrite Hcb2; unfold len; rewrite Nat2Z.id; apply drop_all).
  set (w2 := set_conn (set_input b2 (the_conn w)) w).
  assert (stream_inv w2 c) as Hinv2 by (destruct Hinv; split; try done; by apply conn_inv_input).
  unfold is_open. destruct (decide (conn_status w = kConnected)) as [Hc|Hc].
  - destruct (stream_USend junk this_loop fd t0 [] tmp (input w) w2 c Hinv2 Hc)
      as (w' & c' & Hrun & Hinv' & _ & (o & Hco) & Hoff); [exact Hroom|].
    cbn [run_user] in Hrun. rewrite Hrun. exists w', c'.
    rewrite bool_decide_eq_true_2 by done. unfold input, conn_status. rewrite Hco. by split_and!.
  - assert (IsConnected (the_conn w2) = false) as Hi by (by apply bool_decide_eq_false_2).
    rewrite Hi, Send_in_loop, Hi, !bool_decide_eq_false_2 by done. simpl. rewrite app_nil_r. eexists _, c. split_and!; try done.
    by apply (stream_same _ _ _ _ w2).
Qed.

Lemma echo_read r w c :
  echoed r w c -> bounded 0 w ->
  (exists w' c', HandleRead junk this_loop (tid_ w) (application junk this_loop echo TMessage) close_cb_ w = Ok w' /\
    echoed (r ++ if is_open w then rv_data (received w c) else []) w' c') \/
  (conn_status w = kDisconnected /\
   HandleRead junk this_loop (tid_ w) (application junk this_loop echo TMessage) close_cb_ w = Err AssertFail).
Proof.
  intros [Hinv Hin Hst Hoff] Hb. pose proof (si_conn _ _ _ _ _ _ Hinv) as Hc.
  pose proof (wf_reserve _ (ci_in _ _ _ Hc)). pose proof (wf_reserve _ (ci_out _ _ _ Hc)).
  pose proof (len_nonneg (output_buffer_ (the_conn w))). unfold bounded in Hb.
  destruct (HandleRead_spec junk this_loop (tid_ w) (application junk this_loop echo TMessage) close_cb_
    w c eq_refl Hc) as (b & Hc1 & Hcb & Hlen & Hrun & Hnone); [lia|].
  cbv zeta in Hc1, Hrun. pose proof (stream_after_read _ _ _ _ w c b Hinv Hc1) as Hinv1.
  set (w1 := after_read w c b) in *. rewrite Hrun. rewrite Hin in Hcb. simpl in Hcb.
  destruct (Z.gtb_spec (rv_n (received w c)) 0) as [Hn|Hn].
  - left. destruct (echo_message w1 c Hinv1) as (w' & c' & Hrun' & Hinv' & Hi & Hs & Ho); [|done|].
    { unfold room. simpl. unfold len at 2. lia. }
    exists w', c'. split; [done|]. change (is_open w1) with (is_open w) in Ho.
    split; [done|done|by rewrite Hs|]. rewrite Ho, join_app. change (offered w1) with (offered w). rewrite Hoff.
    destruct (is_open w); simpl; rewrite ?app_nil_r; [|done]. by rewrite <- Hcb.
  - rewrite (Hnone ltac:(lia)) in *.
    replace (if is_open w then [] else []) with (@nil byte) by by destruct (is_open w).
    rewrite app_nil_r. destruct (_ =? 0); [|left; exists w1, c; by split].
    destruct (decide (conn_status w = kDisconnected)) as [Hs|Hs]; [right; split; [done|]|left].
    + exact (HandleClose_closed this_loop close_cb_ w1 Hs).
    + destruct (stream_HandleClose this_loop close_cb_ fd t0 [] Hclose w1 c Hinv1) as (w' & c' & Hrun' & Hinv' & Hu).
      { exact (stream_open _ _ _ _ w c Hinv Hs). }
      exists w', c'. split; [done|]. split; [done|..].
      * unfold input, the_conn. rewrite Hu. exact Hcb.
      * unfold conn_status, the_conn. by rewrite Hu.
      * unfold offered. rewrite Hu. exact Hoff.
Qed.

(** An event that delivers nothing and leaves the application's side alone, except
    perhaps for closing. *)
Lemma echo_same r w w' c c' :
  echoed r w c -> stream_inv w' c' -> input w' = input w -> offered w' = offered w ->
  conn_status w' = conn_status w \/ conn_status w' = kDisconnected -> echoed r w' c'.
Proof. intros [] Hi He Ho Hs. split; [done|congruence|naive_solver congruence|congruence]. Qed.

Lemma echo_user r w w' c c' :
  echoed r w c -> stream_inv w' c' -> user w' = user w -> echoed r w' c'.
Proof.
  intros He Hi Hu. eapply echo_same; [done..| | |left];
    unfold input, offered, conn_status, the_conn; by rewrite Hu.
Qed.

Lemma echo_functor r w c :
  echoed r w c -> exists w' c', next_functor junk this_loop echo w = Ok w' /\ echoed r w' c'.
Proof.
  intros He. pose proof (ec_stream _ _ _ He) as Hinv. unfold next_functor.
  destruct (pending_functors_ w) as [|f l] eqn:Hp; [by exists w, c|].
  pose proof (stream_dequeue this_loop fd t0 [] f l w c Hinv Hp) as Hinv1.
  pose proof (si_pending _ _ _ _ _ _ Hinv1) as [Hf _]%Forall_cons.
  destruct f; try done; unfold run_functor; simpl.
  1,2,4: exists (set_pending l w), c; split; [done|]; apply (echo_user r w _ c); [done| |done];
    by eapply stream_called.
  destruct (stream_ShutdownInLoop this_loop fd t0 [] (set_pending l w) c Hinv1) as (w' & Hrun & Hinv' & Hu).
  - apply (si_asked _ _ _ _ _ _ Hinv1). by left.
  - exists w', c. split; [done|]. by apply (echo_user r w _ c).
Qed.

Lemma echo_event e r w c :
  echoed r w c -> bounded 0 w -> no_shutdown e ->
  (exists w' c', run_event junk this_loop echo close_cb_ e w = Ok w' /\ echoed (r ++ arrived e w) w' c') \/
  (conn_status w = kDisconnected /\ (e = EvRead \/ e = EvHangup) /\
   run_event junk this_loop echo close_cb_ e w = Err AssertFail).
Proof.
  intros He Hb Hno. pose proof (ec_stream _ _ _ He) as Hinv.
  assert (the_channel w = Ok c) as Hc.
  { unfold the_channel, channel_at. by rewrite (ci_channel _ _ _ (si_conn _ _ _ _ _ _ Hinv)). }
  unfold arrived. rewrite Hc. destruct e; try done; simpl; rewrite ?app_nil_r.
  - destruct (echo_read r w c He Hb) as [?|[Hs Hr]]; [by left|right; by eauto].
  - left. destruct (stream_HandleWrite this_loop fd t0 [] w c Hinv) as (w' & c' & Hrun & Hinv' & Hu & _).
    exists w', c'. split; [done|]. eapply echo_same; [done..| | |left];
      unfold input, offered, conn_status, the_conn; by rewrite Hu.
  - destruct (decide (conn_status w = kDisconnected)) as [Hs|Hs].
    { right. split_and!; [done|by right|]. by apply HandleClose_closed. }
    left. destruct (stream_HandleClose this_loop close_cb_ fd t0 [] Hclose w c Hinv) as (w' & c' & Hrun & Hinv' & Hu).
    { exact (stream_open _ _ _ _ w c Hinv Hs). }
    exists w', c'. split; [done|]. eapply echo_same; [done..| | |right];
      unfold input, offered, conn_status, the_conn; by rewrite Hu.
  - left. exists w, c. split; [|done]. unfold HandleError. by rewrite Hc.
  - left. by apply (echo_functor r w c).
  - left. destruct (post_spec (A := A) by_ true (FOther g) w) as [Hq Hp]. eexists _, c. split; [done|].
    apply (echo_user r w _ c); [done| |apply Hq].
    apply (stream_quiet this_loop fd t0 [] w _ c [FOther g] Hq Hp); [by repeat constructor|set_solver|done].
Qed.

Lemma echo_events es r w c :
  echoed r w c -> roomy junk this_loop echo close_cb_ 0 es w -> Forall no_shutdown es ->
  exists pre post w' c', es = pre ++ post /\ run_events junk this_loop echo close_cb_ pre w = Ok w' /\
    echoed (r ++ arrivals pre w) w' c' /\ (post = [] \/ late_report junk this_loop echo close_cb_ post w').
Proof.
  intros He Hr Hno. revert r w c He Hr. induction Hno as [|e es Hn _ IH]; intros r w c He Hr.
  { exists [], [], w, c. simpl. rewrite app_nil_r. split_and!; try done. by left. }
  destruct (echo_event e r w c He) as [(w1 & c1 & Hrun & He1)|(Hs & Hk & Herr)]; [by apply (Hr [] (e :: es))|done| |].
  - destruct (IH _ w1 c1 He1) as (pre & post & w' & c' & -> & Hrun' & He' & Hend); [by eapply roomy_tail|].
    exists (e :: pre), post, w', c'. unfold run_events. simpl. rewrite Hrun, app_assoc. by split_and!.
  - exists [], (e :: es), w, c. simpl. rewrite app_nil_r. split_and!; try done. right. split; [done|]. by exists e, es.
Qed.
End Echo.

(** [C18] An echo server echoes.  Its message callback is [OnMessage], but for the
    note of what was offered that the model keeps.  Take an established connection
    that nobody shuts down and whose peer stays, and any sequence of events.  It runs
    to its end, or until a read or a hang-up is reported on the connection after it
    has closed, on which [HandleClose] aborts: no member fails otherwise.  Where it
    ends or stops, the bytes that the kernel has accepted from the connection,
    followed by those that wait in its output buffer, are exactly the bytes that the
    kernel delivered to it while it was open. *)
Theorem echo_stream {G Cb A V K} `{EpollLaws K, EventfdKernel K, SocketKernel K, !SocketLaws K}
    junk this_loop tmp (close_cb_ : lworld (functor G) Cb (cuser A (list bytes * V)) K -> _) es w c :
  only_queues close_cb_ -> fresh this_loop w c ->
  roomy junk this_loop (echo tmp) close_cb_ 0 es w -> Forall no_shutdown es ->
  peer_stays (K := K) (fd_ c) ->
  (forall x : lworld (functor G) Cb (cuser A (list bytes * V)) K,
     wf (input_buffer_ (the_conn x)) ->
     application junk this_loop (echo tmp) TMessage x = OnMessage junk this_loop tmp (noted x)) /\
  exists pre post w', es = pre ++ post /\
    run_events junk this_loop (echo tmp) close_cb_ pre w = Ok w' /\
    (post = [] \/ late_report junk this_loop (echo tmp) close_cb_ post w') /\
    sent w' (fd_ c) ++ output w' = sent w (fd_ c) ++ arrivals junk this_loop close_cb_ tmp pre w.
Proof.
  intros Hcl Hf Hr Hno Hstay. split; [intros x; apply OnMessage_echo|]. pose proof (fresh_inv this_loop w c Hf) as Hinv.
  destruct Hf as (_ & Hs & Hin & _ & Hof & _).
  destruct (echo_events junk this_loop close_cb_ tmp (fd_ c) (sent w (fd_ c)) Hcl es [] w c)
    as (pre & post & w' & c' & He & Hrun & [Hinv' _ _ Hoff] & Hend); try done.
  { split; try done; [by rewrite Hs|by rewrite Hof]. }
  exists pre, post, w'. split_and!; try done. destruct (si_data _ _ _ _ _ _ Hinv') as (kept & _ & Hdata & Hk).
  by rewrite Hdata, (Hk Hstay), Hoff.
Qed.
