(* ===== verification/TcpDemo.v ===== *)
(** * Runs of a connection on a concrete kernel

    A socket takes [s_take] bytes per write, or fails with [errno] [- s_take], and
    has [s_rx] to be read.  The witnesses of the connection's theorems evaluate on
    it. *)

From S2P Require Import Prelude Bytes Slice Buffer BufferFacts BufferSpec BufferIO LoopThread Duration.
From S2P Require Import Timestamp Channel EPoller EPollerFacts EventFd SimKernel ServerStatus.
From S2P Require Import LoopChannels EventLoop SocketKernel TcpConnection TcpConnFacts TcpSend.
From S2P Require Import TcpConnProps TcpConnLife.
#[local] Open Scope Z_scope.

Record ssim := mkSsim {
  s_base : sim;
  s_tx : gmap Z bytes;
  s_shut : gset Z;
  s_take : Z;
  s_rx : bytes
}.

Definition with_base (k : ssim) (b : sim) : ssim := mkSsim b (s_tx k) (s_shut k) (s_take k) (s_rx k).

#[export] Instance ssim_kernel : EpollKernel ssim := {|
  interest := fun k => interest (s_base k);
  epoll_ctl := fun op fd ev k =>
    ((epoll_ctl op fd ev (s_base k)).1, with_base k (epoll_ctl op fd ev (s_base k)).2);
  epoll_wait := fun n t k => ((epoll_wait n t (s_base k)).1, with_base k (epoll_wait n t (s_base k)).2);
  pollable := fun k fd => pollable (s_base k) fd
|}.

#[export] Instance ssim_laws : EpollLaws ssim.
Proof.
  split.
  - intros op fd ev k. exact (ctl_error op fd ev (s_base k)).
  - intros fd ev k. exact (ctl_add fd ev (s_base k)).
  - intros fd ev k. exact (ctl_mod fd ev (s_base k)).
  - intros fd ev k. exact (ctl_del fd ev (s_base k)).
  - intros op fd ev k. exact (ctl_set op fd ev (s_base k)).
  - intros fd ev k. exact (ctl_unset fd ev (s_base k)).
  - intros n t k. exact (wait_interest n t (s_base k)).
  - intros n t k evs. exact (wait_events n t (s_base k) evs).
Qed.

#[export] Instance ssim_eventfd : EventfdKernel ssim := {|
  efd_count := fun k => efd_count (s_base k);
  efd_write := fun n k => ((efd_write n (s_base k)).1, with_base k (efd_write n (s_base k)).2);
  efd_read := fun k => ((efd_read (s_base k)).1, with_base k (efd_read (s_base k)).2)
|}.

Definition ssim_tx (k : ssim) (fd : Z) : bytes := default [] (s_tx k !! fd).

Definition ssim_write (fd : Z) (d : bytes) (k : ssim) : Z * Z * ssim :=
  if s_take k <? 0 then ((-1, - s_take k), k)
  else
    let n := Z.min (s_take k) (Z.of_nat (length d)) in
    ((n, 0), mkSsim (s_base k) (<[fd := ssim_tx k fd ++ take (Z.to_nat n) d]> (s_tx k)) (s_shut k)
               (s_take k) (s_rx k)).

Definition ssim_readv (fd : Z) (v : list Z) (k : ssim) : readv_answer * ssim :=
  let d := take (Z.to_nat (foldr Z.add 0 v)) (s_rx k) in
  if foldr Z.add 0 v <? 0 then ({| rv_n := -1; rv_data := []; rv_errno := 22 |}, k)
  else ({| rv_n := Z.of_nat (length d); rv_data := d; rv_errno := 0 |},
   mkSsim (s_base k) (s_tx k) (s_shut k) (s_take k) (drop (Z.to_nat (foldr Z.add 0 v)) (s_rx k))).

#[export] Instance ssim_sockets : SocketKernel ssim := {|
  sock_write := ssim_write;
  sock_readv := ssim_readv;
  sock_shutdown := fun fd k => (0, mkSsim (s_base k) (s_tx k) ({[fd]} ∪ s_shut k) (s_take k) (s_rx k));
  sock_error := fun _ _ => 0;
  tx := ssim_tx;
  wr_shut := fun k fd => bool_decide (fd ∈ s_shut k)
|}.

#[export] Instance ssim_socket_laws : SocketLaws ssim.
Proof.
  assert (forall fd v k, s_tx (ssim_readv fd v k).2 = s_tx k /\ s_base (ssim_readv fd v k).2 = s_base k /\
    s_shut (ssim_readv fd v k).2 = s_shut k) as Hr.
  { intros. unfold ssim_readv. by destruct (foldr Z.add 0 v <? 0). }
  split; intros; simpl in *; unfold ssim_write, ssim_tx in *; try done.
  - destruct (Z.ltb_spec (s_take k) 0); simpl in *; [done|lia].
  - destruct (Z.ltb_spec (s_take k) 0); simpl in *; [lia|]. split; [lia|]. by rewrite lookup_insert_eq.
  - by destruct (s_take k <? 0).
  - by destruct (s_take k <? 0).
  - unfold ssim_readv, readv_contract. destruct (Z.ltb_spec (foldr Z.add 0 v) 0); simpl; [by left|right].
    split; [done|]. rewrite length_take. lia.
  - by destruct (Hr fd v k) as (-> & _).
  - by destruct (Hr fd v k) as (_ & -> & _).
  - by destruct (Hr fd v k) as (_ & _ & ->).
  - apply bool_decide_eq_true. set_solver.
  - unfold sim_efd_write. by destruct (_ <? _).
Qed.

(** ** A connection of loop 7 (thread 1) on descriptor 5, its channel at 100 *)

Definition no_junk (_ : nat) : byte := x00.

Definition demo_empty_buf : Buffer := mkBuffer (replicate 10 x00) 10 2 2 2.
Definition demo_full_buf : Buffer := mkBuffer ([x00; x00; x41; x42] ++ replicate 6 x00) 10 2 4 2.

Lemma demo_empty_wf : wf demo_empty_buf.
Proof. split; simpl; lia. Qed.
Lemma demo_full_wf : wf demo_full_buf.
Proof. split; simpl; lia. Qed.

Definition demo_conn (s : ConnStatus) (out : Buffer) : TcpConnection unit :=
  mkConn 7 "conn" kIncoming s 100 tt tt true true 3 demo_empty_buf out.

Definition demo_chan (writing : bool) : Channel conn_cb :=
  SetIndex kAdded (set_added true (set_events (mask true writing) (SetReadCallback OnRead
    (SetWriteCallback OnWrite (SetCloseCallback OnClose (SetErrorCallback OnError (Channel_new 7 5))))))).

Abbreviation demo_state := (lworld (functor Z) conn_cb (cuser unit (list Z)) ssim).

Definition demo_w (s : ConnStatus) (out : Buffer) (writing : bool) (take : Z) (rx : bytes) : demo_state :=
  mkLWorld 1 kRunning false [] 50 60 [] ∅
    (mkWorld (mkEPoller 1 16 {[5 := 100]}) {[100 := demo_chan writing]}
       (mkSsim (mkSim {[5 := mkEvent (mask true writing) 100]} [] 0) ∅ ∅ take rx))
    (mkUser (demo_conn s out) ∅ ∅ ∅ []).

Lemma demo_conn_inv s out writing take rx :
  wf out -> (writing = true <-> content out <> []) ->
  conn_inv 7 (demo_w s out writing take rx) (demo_chan writing).
Proof.
  intros Hw Hout. split; try done.
  - split; simpl.
    + intros fd p [<- <-]%lookup_singleton_Some. exists (demo_chan writing), (mask true writing).
      rewrite !lookup_singleton_eq. split_and!; try done. intros _. by destruct writing.
    + intros fd. simpl. intros [x [<- <-]%lookup_singleton_Some]. rewrite lookup_singleton_eq. eauto.
    + intros p c [<- <-]%lookup_singleton_Some. right. by rewrite lookup_singleton_eq.
    + done.
  - simpl. eauto.
  - intros _. rewrite (mask_writing true writing) by done. done.
Qed.

(** Three bytes sent, the kernel takes two: one is buffered, and writing enabled. *)
Lemma SendInLoop_stream_witness :
  let w := demo_w kConnected demo_empty_buf false 2 [] in
  exists w' c' b, SendInLoop no_junk 7 1 [x61; x62; x63] 3 w = Ok w' /\
    conn_inv 7 w' c' /\ fd_ c' = 5 /\ only_output w w' b /\ output w' = content b /\
    wr_shut (kernel (io w')) = wr_shut (kernel (io w)) /\
    ((sent w' 5 ++ output w' = sent w 5 ++ output w ++ take 3 [x61; x62; x63] /\
      (sent w' 5 = sent w 5 \/ output w = []) /\
      pending_functors_ w' = pending_functors_ w ++
        (if bool_decide (output w' = []) && true then [FWriteComplete] else []) ++
        crossing 3 true (len demo_empty_buf) (len b))
     \/ (output w = [] /\ output w' = [] /\ sent w' 5 = sent w 5 /\
         pending_functors_ w' = pending_functors_ w)).
Proof.
  apply (SendInLoop_stream no_junk 7 [x61; x62; x63] 3 (demo_chan false)
    (demo_w kConnected demo_empty_buf false 2 [])).
  - apply demo_conn_inv; [apply demo_empty_wf|]. split; [done|]. intros Hn. by destruct Hn.
  - discriminate.
  - simpl. lia.
  - unfold room. vm_compute. reflexivity.
Defined.

Lemma conn_status_advances_witness :
  exists w', run_op no_junk 7 1 Ok Ok Ok OpClose (demo_w kConnected demo_empty_buf false 2 []) = Ok w' /\
    advances (demo_w kConnected demo_empty_buf false 2 []) w' /\ conn_status w' = kDisconnected.
Proof.
  eexists. split; [vm_compute; reflexivity|].
  match goal with |- advances ?w ?w' /\ _ =>
    destruct (conn_status_advances no_junk 7 1 Ok Ok Ok OpClose w w') as (H1 & _ & H2 & _) end.
  - intros w w' [= <-]. unfold advances. lia.
  - intros w w' [= <-]. unfold advances. lia.
  - intros w w' [= <-]. unfold advances. lia.
  - vm_compute. reflexivity.
  - split; [exact H1|]. apply H2. reflexivity.
Defined.

(** A new connection in the loop's store. *)
Definition demo_new_conn : result (TcpConnection unit * Channel conn_cb) :=
  TcpConnection_new no_junk (fun cb => cb) 7 "conn" 5 tt tt 100.
Definition demo_new_w (t : TcpConnection unit) (c : Channel conn_cb) : demo_state :=
  mkLWorld 1 kRunning false [] 50 60 [] ∅
    (mkWorld (mkEPoller 1 16 ∅) {[100 := c]} (mkSsim (mkSim ∅ [] 0) ∅ ∅ 2 []))
    (mkUser t ∅ ∅ ∅ []).

Lemma OnConnectEstablished_inv_witness :
  exists t0 c0, demo_new_conn = Ok (t0, c0) /\
    exists w1 c1, OnConnectEstablished 7 1 Ok (demo_new_w t0 c0) = Ok w1 /\
      conn_inv 7 w1 c1 /\ fd_ c1 = 5 /\
      interest (kernel (io w1)) = <[5 := mkEvent kReadable 100]> (interest (kernel (io (demo_new_w t0 c0)))).
Proof.
  destruct demo_new_conn as [[t0 c0]|] eqn:E; [|discriminate E]. exists t0, c0. split; [reflexivity|].
  destruct (OnConnectEstablished_inv no_junk 7 1 Ok (demo_new_w t0 c0) (fun cb => cb) "conn" 5 tt tt 100 false t0 c0)
    as (i & c1 & Hr & Hi & Hf & _ & _ & Hk & _).
  - reflexivity.
  - exact E.
  - unfold demo_new_conn, TcpConnection_new in E. apply bind_ok in E as (b1 & _ & E).
    apply bind_ok in E as (b2 & _ & E). by injection E as <- _.
  - reflexivity.
  - split; simpl.
    + intros fd p Hp. by rewrite lookup_empty in Hp.
    + intros fd [x Hx]. by rewrite lookup_empty in Hx.
    + intros p c [<- <-]%lookup_singleton_Some. left. unfold demo_new_conn, TcpConnection_new in E.
      apply bind_ok in E as (b1 & _ & E). apply bind_ok in E as (b2 & _ & E). injection E as _ <-. done.
    + done.
  - reflexivity.
  - reflexivity.
  - simpl. lia.
  - exists (set_io i (SetStatus kConnected (demo_new_w t0 c0))), c1. by split_and!.
Defined.

Lemma Send_other_thread_dangles_witness :
  exists w1, Send no_junk 7 2 900 [x61] 1 (demo_w kConnected demo_empty_buf false 2 []) = Ok w1 /\
    exec_functor no_junk 7 1 Ok (fun _ => Ok) (fun _ => Ok) (FSendSlice 900) w1 = Err Undef.
Proof.
  destruct (Send_other_thread_dangles no_junk 7 2 900 [x61] 1 (demo_w kConnected demo_empty_buf false 2 []))
    as (w1 & Hrun & _ & _ & _ & Hd).
  - discriminate.
  - reflexivity.
  - exists w1. split; [exact Hrun|]. apply Hd. reflexivity.
Defined.

(** Loop 7 polls again before the server has had the channel removed. *)
Lemma second_hangup_aborts_witness :
  exists w1, HandleClose 7 1 Ok (demo_w kConnected demo_empty_buf false 2 []) = Ok w1 /\
    interest (kernel (io w1)) !! 5 = Some (mkEvent 0 100) /\
    exists i, fill_one (mkEvent POLLHUP 100) (io w1, []) = Ok (i, [100]) /\
      handle_channel (call_channel no_junk 7 1 Ok Ok) 100 (set_io i w1) = Err AssertFail.
Proof.
  destruct (HandleClose 7 1 Ok (demo_w kConnected demo_empty_buf false 2 [])) as [w1|f] eqn:E;
    [|vm_compute in E; discriminate E].
  exists w1. split; [reflexivity|].
  apply (second_hangup_aborts no_junk 7 1 Ok Ok (demo_w kConnected demo_empty_buf false 2 [])
    (demo_chan false) w1 (call_channel no_junk 7 1 Ok Ok) OnClose).
  - reflexivity.
  - apply demo_conn_inv; [apply demo_empty_wf|]. by split.
  - reflexivity.
  - reflexivity.
  - intros w w' [= <-]. apply quiet_refl.
  - exact E.
Defined.
