(* ===== verification/TcpStreamDemo.v ===== *)
(** * Whole runs of a connection on a concrete kernel

    The kernel of TcpDemo.v, with a peer that stays: writes take at most [s_take]
    bytes and never fail. *)

From S2P Require Import Prelude Bytes Slice Buffer BufferFacts BufferSpec BufferIO LoopThread Duration.
From S2P Require Import Timestamp Channel EPoller EPollerFacts EventFd SimKernel ServerStatus.
From S2P Require Import LoopChannels EventLoop SocketKernel TcpConnection TcpConnFacts TcpSend.
From S2P Require Import TcpConnProps TcpConnLife TcpStream TcpEcho TcpDemo.
#[local] Open Scope Z_scope.

Record stay := mkStay { st_k : ssim }.

Definition patient (k : ssim) : ssim := mkSsim (s_base k) (s_tx k) (s_shut k) (Z.max 0 (s_take k)) (s_rx k).

#[export] Instance stay_kernel : EpollKernel stay := {|
  interest := fun k => interest (st_k k);
  epoll_ctl := fun op fd ev k => ((epoll_ctl op fd ev (st_k k)).1, mkStay (epoll_ctl op fd ev (st_k k)).2);
  epoll_wait := fun n t k => ((epoll_wait n t (st_k k)).1, mkStay (epoll_wait n t (st_k k)).2);
  pollable := fun k fd => pollable (st_k k) fd
|}.

#[export] Instance stay_laws : EpollLaws stay.
Proof.
  split.
  - intros op fd ev k. exact (ctl_error op fd ev (st_k k)).
  - intros fd ev k. exact (ctl_add fd ev (st_k k)).
  - intros fd ev k. exact (ctl_mod fd ev (st_k k)).
  - intros fd ev k. exact (ctl_del fd ev (st_k k)).
  - intros op fd ev k. exact (ctl_set op fd ev (st_k k)).
  - intros fd ev k. exact (ctl_unset fd ev (st_k k)).
  - intros n t k. exact (wait_interest n t (st_k k)).
  - intros n t k evs. exact (wait_events n t (st_k k) evs).
Qed.

#[export] Instance stay_eventfd : EventfdKernel stay := {|
  efd_count := fun k => efd_count (st_k k);
  efd_write := fun n k => ((efd_write n (st_k k)).1, mkStay (efd_write n (st_k k)).2);
  efd_read := fun k => ((efd_read (st_k k)).1, mkStay (efd_read (st_k k)).2)
|}.

#[export] Instance stay_sockets : SocketKernel stay := {|
  sock_write := fun fd d k => ((sock_write fd d (patient (st_k k))).1, mkStay (sock_write fd d (patient (st_k k))).2);
  sock_readv := fun fd v k => ((sock_readv fd v (st_k k)).1, mkStay (sock_readv fd v (st_k k)).2);
  sock_shutdown := fun fd k => ((sock_shutdown fd (st_k k)).1, mkStay (sock_shutdown fd (st_k k)).2);
  sock_error := fun fd k => sock_error fd (st_k k);
  tx := fun k => tx (st_k k);
  wr_shut := fun k => wr_shut (st_k k)
|}.

#[export] Instance stay_socket_laws : SocketLaws stay.
Proof.
  split.
  - intros fd d k. exact (write_fails fd d (patient (st_k k))).
  - intros fd d k. exact (write_sends fd d (patient (st_k k))).
  - intros fd d k. exact (write_interest fd d (patient (st_k k))).
  - intros fd d k. exact (write_shut fd d (patient (st_k k))).
  - intros fd v k. exact (readv_result fd v (st_k k)).
  - intros fd v k. exact (readv_tx fd v (st_k k)).
  - intros fd v k. exact (readv_interest fd v (st_k k)).
  - intros fd v k. exact (readv_shut fd v (st_k k)).
  - intros fd k. exact (shutdown_shuts fd (st_k k)).
  - intros fd k. exact (shutdown_tx fd (st_k k)).
  - intros fd k. exact (shutdown_interest fd (st_k k)).
  - intros op fd ev k. exact (ctl_tx op fd ev (st_k k)).
  - intros op fd ev k. exact (ctl_shut op fd ev (st_k k)).
  - intros n k. exact (efd_tx n (st_k k)).
  - intros n k. exact (efd_shut n (st_k k)).
  - intros n k. exact (efd_interest n (st_k k)).
Qed.

Lemma stay_stays fd : peer_stays (K := stay) fd.
Proof.
  intros k [d Hd]. simpl in Hd. unfold ssim_write in Hd. simpl in Hd.
  destruct (Z.ltb_spec (Z.max 0 (s_take (st_k k))) 0); simpl in Hd; lia.
Qed.

Lemma stay_shuts fd : shutdown_works (K := stay) fd.
Proof. intros k. simpl. lia. Qed.

(** ** Checking that there is room *)

Section Roomy.
Context {G Cb A V K : Type} `{EpollKernel K, EventfdKernel K, SocketKernel K}.
Abbreviation cworld := (lworld (functor G) Cb (cuser A (list bytes * V)) K).
Context (junk : nat -> byte) (this_loop : ptr) (react : trigger G -> cworld -> list user_op)
  (close_cb_ : cworld -> result cworld) (D : Z).

Definition bounded_b (w : cworld) : bool :=
  let i := input_buffer_ (the_conn w) in
  let o := output_buffer_ (the_conn w) in
  3 * (len o + capacity_ i + 65536 + D + reserved_prepend_size_ i + reserved_prepend_size_ o) <? 2 ^ 62.

Fixpoint roomy_b (es : list (event G)) (w : cworld) : bool :=
  bounded_b w &&
  match es with
  | [] => true
  | e :: es =>
      match run_event junk this_loop react close_cb_ e w with Ok w1 => roomy_b es w1 | Err _ => true end
  end.

Lemma roomy_check es w : roomy_b es w = true -> roomy junk this_loop react close_cb_ D es w.
Proof.
  intros Hb pre. revert es w Hb. induction pre as [|e pre IH]; intros es w Hb post w1 -> Hrun.
  - injection Hrun as <-. destruct post; apply andb_true_iff in Hb as [Hb%Z.ltb_lt _]; exact Hb.
  - apply andb_true_iff in Hb as [_ Hb]. unfold run_events in Hrun. simpl in Hrun.
    destruct (run_event _ _ _ _ e w) as [w2|f]; [|done]. by apply (IH (pre ++ post) w2 Hb post w1).
Qed.
End Roomy.

(** ** Connection 5 of loop 7, newly established, with [rx] to be read *)

Abbreviation stay_world := (lworld (functor Z) conn_cb (cuser unit (list bytes * unit)) stay).

Definition fresh_w (take : Z) (rx : bytes) : stay_world :=
  mkLWorld 1 kRunning false [] 50 60 [] ∅
    (mkWorld (mkEPoller 1 16 {[5 := 100]}) {[100 := demo_chan false]}
       (mkStay (mkSsim (mkSim {[5 := mkEvent (mask true false) 100]} [] 0) ∅ ∅ take rx)))
    (mkUser (demo_conn kConnected demo_empty_buf) ∅ ∅ ∅ ([], tt)).

Lemma fresh_w_fresh take rx : fresh 7 (fresh_w take rx) (demo_chan false).
Proof.
  destruct (demo_conn_inv kConnected demo_empty_buf false take rx demo_empty_wf) as [Hi ? ? ? ? ? ? ? ?];
    [by split|].
  split_and!; try done. split; try done. destruct Hi as [Hm Hk Hx Hs]. split; done.
Qed.

(** Closing queues functor 1 of the application. *)
Definition close_queues (w : stay_world) : result stay_world := Ok (QueueInLoop (tid_ w) (FOther 1) w).

Lemma close_queues_ok : only_queues close_queues.
Proof.
  intros w. destruct (post_spec (A := unit) (tid_ w) true (FOther 1) w) as [Hq Hp].
  by exists (QueueInLoop (tid_ w) (FOther 1) w), [1].
Qed.

(** Answers a message with [abc] and shuts down. *)
Definition answer (t : trigger Z) (w : stay_world) : list user_op :=
  match t with TMessage => [USkip 2; USend 900 [x61; x62; x63]; UShutdown] | _ => [] end.

Lemma answer_ok : react_ok answer 3.
Proof.
  split; [lia|]. intros t w. pose proof (len_nonneg (input_buffer_ (the_conn w))).
  destruct t; simpl; (split; [repeat constructor; unfold in_u64; lia|lia]).
Qed.

Definition answer_run : list (event Z) := [EvRead; EvWrite; EvFunctor].

(** A run that is known to succeed does not stop early. *)
Lemma run_to_end react (es pre post : list (event Z)) (w w' w2 : stay_world) :
  run_events no_junk 7 react close_queues es w = Ok w2 -> es = pre ++ post ->
  run_events no_junk 7 react close_queues pre w = Ok w' ->
  post = [] \/ late_report no_junk 7 react close_queues post w' -> pre = es /\ w' = w2.
Proof.
  intros He -> Hrun [->|Hlate].
  - rewrite app_nil_r in *. split; congruence.
  - rewrite (late_report_fails _ _ _ _ _ _ _ _ Hrun Hlate) in He. discriminate He.
Qed.

(** The second of two hang-ups is a late report. *)
Example hangup_twice :
  run_events no_junk 7 answer close_queues [EvHangup; EvHangup] (fresh_w 2 []) = Err AssertFail.
Proof. vm_compute. reflexivity. Qed.

(** The kernel takes two bytes at once; the third waits, and the shutdown for it. *)
Lemma conn_stream_witness :
  exists w', run_events no_junk 7 answer close_queues answer_run (fresh_w 2 [x68; x69]) = Ok w' /\
    sent w' 5 ++ output w' = sent (fresh_w 2 [x68; x69]) 5 ++ mjoin (offered w') /\
    offered w' = [[x61; x62; x63]] /\ shut w' 5 = true.
Proof.
  destruct (conn_stream no_junk 7 answer close_queues 3 answer_ok close_queues_ok answer_run
    (fresh_w 2 [x68; x69]) (demo_chan false)) as (pre & post & w' & He & Hrun & Hend & kept & _ & Hdata & Hk).
  - apply fresh_w_fresh.
  - apply roomy_check. vm_compute. reflexivity.
  - destruct (run_events no_junk 7 answer close_queues answer_run (fresh_w 2 [x68; x69])) as [w2|] eqn:E;
      [|vm_compute in E; discriminate E].
    destruct (run_to_end _ _ _ _ _ _ _ E He Hrun Hend) as [_ ->]. exists w2. split; [reflexivity|].
    rewrite <- (Hk (stay_stays 5)). split; [exact Hdata|].
    rewrite (Hk (stay_stays 5)). vm_compute in E. injection E as <-. split; reflexivity.
Defined.

Lemma graceful_shutdown_witness :
  exists w', run_events no_junk 7 answer close_queues answer_run (fresh_w 2 [x68; x69]) = Ok w' /\
    shut w' 5 = true /\ output w' = [] /\ sent w' 5 = [] ++ mjoin (offered w').
Proof.
  destruct (run_events no_junk 7 answer close_queues answer_run (fresh_w 2 [x68; x69])) as [w'|f] eqn:E;
    [|vm_compute in E; discriminate E].
  exists w'. split; [reflexivity|].
  destruct (graceful_shutdown no_junk 7 answer close_queues 3 answer_ok close_queues_ok answer_run
    (fresh_w 2 [x68; x69]) (demo_chan false) w') as [H1 H2].
  - apply fresh_w_fresh.
  - apply roomy_check. vm_compute. reflexivity.
  - exact E.
  - vm_compute in E. injection E as <-. discriminate.
  - assert (shut w' 5 = true) as Hs.
    { apply H2; [apply stay_shuts|vm_compute in E; injection E as <-; vm_compute; reflexivity..|].
      vm_compute in E. injection E as <-. intros Hx. by apply elem_of_nil in Hx. }
    destruct (H1 Hs) as (_ & Ho & Hd). split; [exact Hs|]. split; [exact Ho|]. exact (Hd (stay_stays 5)).
Defined.

(** Five bytes arrive; the kernel takes them back two at a time. *)
Lemma echo_stream_witness :
  let rx := [x68; x65; x6c; x6c; x6f] in
  exists w', run_events no_junk 7 (echo 900) close_queues [EvRead; EvWrite] (fresh_w 2 rx) = Ok w' /\
    sent w' 5 ++ output w' = [] ++ rx /\ output w' = [x6f].
Proof.
  intros rx.
  destruct (echo_stream no_junk 7 900 close_queues [EvRead; EvWrite] (fresh_w 2 rx) (demo_chan false))
    as (_ & pre & post & w' & He & Hrun & Hend & Hdata).
  - apply close_queues_ok.
  - apply fresh_w_fresh.
  - apply roomy_check. vm_compute. reflexivity.
  - repeat constructor.
  - apply stay_stays.
  - destruct (run_events no_junk 7 (echo 900) close_queues [EvRead; EvWrite] (fresh_w 2 rx)) as [w2|] eqn:E;
      [|vm_compute in E; discriminate E].
    destruct (run_to_end _ _ _ _ _ _ _ E He Hrun Hend) as [-> ->]. exists w2. split; [reflexivity|]. split.
    + etransitivity; [exact Hdata|vm_compute; reflexivity].
    + vm_compute in E. injection E as <-. reflexivity.
Defined.
