(* ===== verification/TcpFrame.v ===== *)
(** * Connections of one loop do not disturb each other

    What a connection's members leave alone: the channels, the registered
    descriptors and the streams of every other connection of the loop. *)

From S2P Require Import Prelude Bytes Slice Buffer BufferFacts BufferSpec BufferIO LoopThread Duration.
From S2P Require Import Timestamp Channel EPoller EPollerFacts EventFd ServerStatus LoopChannels.
From S2P Require Import EventLoop SocketKernel TcpConnection TcpConnFacts TcpConnProps TcpConnLife.
From S2P Require Import SimKernel TcpDemo.
#[local] Open Scope Z_scope.

(** write(2) and shutdown(2) act on the socket they are given. *)
Class SocketFrame (K : Type) `{SocketKernel K} := {
  write_frame fd g d k : g <> fd -> tx (sock_write fd d k).2 g = tx k g;
  shutdown_frame fd g k : g <> fd -> wr_shut (sock_shutdown fd k).2 g = wr_shut k g
}.

Section Frame.
Context {G Cb A U K : Type} `{EpollLaws K, EventfdKernel K, SocketKernel K, !SocketLaws K, !SocketFrame K}.
Abbreviation cworld := (lworld (functor G) Cb (cuser A U) K).
Abbreviation eworld := (EPoller.world Cb K).
Implicit Types (w : cworld) (i : eworld).

(** The descriptor of the channel at [p]. *)
Definition fd_at (p : ptr) i : option Z := fd_ <$> channels i !! p.

(** A channel but for what its members change. *)
Definition core (c : Channel Cb) : Channel Cb := set_events 0 (SetIndex 0 (set_added false c)).
Definition core_at (p : ptr) i : option (Channel Cb) := core <$> channels i !! p.

Lemma core_fd p i i' : core_at p i' = core_at p i -> fd_at p i' = fd_at p i.
Proof.
  unfold core_at, fd_at. intros Hc.
  assert (forall x : option (Channel Cb), fd_ <$> x = fd_ <$> (core <$> x)) as Hf by (by intros [[]|]).
  by rewrite (Hf (channels i' !! p)), Hc, <- Hf.
Qed.

(** [i'] differs from [i] at most in the interest of the channel at [p], its
    descriptor and its socket, and in the poller's lists and the eventfd. *)
Record frame (p : ptr) i i' : Prop := {
  fr_core : core_at p i' = core_at p i;
  fr_channels q : q <> p -> channels i' !! q = channels i !! q;
  fr_owner : owner_tid (poller i') = owner_tid (poller i);
  fr_kernel g : fd_at p i <> Some g ->
    interest (kernel i') !! g = interest (kernel i) !! g /\
    tx (kernel i') g = tx (kernel i) g /\ wr_shut (kernel i') g = wr_shut (kernel i) g
}.

Lemma frame_refl p i : frame p i i.
Proof. by split. Qed.

Lemma frame_trans p i1 i2 i3 : frame p i1 i2 -> frame p i2 i3 -> frame p i1 i3.
Proof.
  intros [F1 C1 O1 K1] [F2 C2 O2 K2]. split; [congruence| |congruence|].
  - intros q Hq. by rewrite C2, C1.
  - intros g Hg. destruct (K1 g Hg) as (? & ? & ?). destruct (K2 g) as (? & ? & ?); [by rewrite (core_fd p i1)|].
    split_and!; congruence.
Qed.

(** *** Poller and channel *)

Lemma frame_channel p c c' i :
  channels i !! p = Some c -> core c' = core c -> frame p i (EPoller.set_channel p c' i).
Proof.
  intros Hc Hf. split; try done; unfold core_at; simpl.
  - rewrite lookup_insert_eq, Hc. simpl. by rewrite Hf.
  - intros q Hq. by rewrite lookup_insert_ne.
Qed.

(** Reading the channel first. *)
Lemma frame_set p c c' i i' :
  channel_at i p = Ok c -> core c' = core c -> frame p (EPoller.set_channel p c' i) i' -> frame p i i'.
Proof. intros Hc%deref_ok Hf. apply frame_trans. by eapply frame_channel. Qed.

Lemma Update_frame op p i i' : Update op p i = Ok i' -> frame p i i'.
Proof.
  unfold Update, channel_at. intros Hr. inv_ok.
  pose proof (ctl_tx op (fd_ x) (mkEvent (u32 (events_ x)) p) (kernel i)) as Htx.
  pose proof (ctl_shut op (fd_ x) (mkEvent (u32 (events_ x)) p) (kernel i)) as Hsh.
  pose proof (ctl_error op (fd_ x) (mkEvent (u32 (events_ x)) p) (kernel i)) as He.
  pose proof (ctl_set op (fd_ x) (mkEvent (u32 (events_ x)) p) (kernel i)) as Hs.
  pose proof (ctl_unset (fd_ x) (mkEvent (u32 (events_ x)) p) (kernel i)) as Hu.
  assert (forall g, fd_ x <> g -> interest (epoll_ctl op (fd_ x) (mkEvent (u32 (events_ x)) p) (kernel i)).2 !! g =
    interest (kernel i) !! g) as Hint.
  { intros g Hg. destruct (Z.ltb_spec (epoll_ctl op (fd_ x) (mkEvent (u32 (events_ x)) p) (kernel i)).1 0) as [Hn|Hn];
      [by rewrite He|]. destruct op; [rewrite Hs|rewrite Hs|rewrite Hu]; try done;
      by rewrite ?lookup_insert_ne, ?lookup_delete_ne by done. }
  clear He Hs Hu. destruct (epoll_ctl op (fd_ x) _ (kernel i)) as [ret k]. simpl in *.
  assert (i' = set_kernel k i) as -> by (destruct (ret <? 0); [destruct op|]; by inv_ok).
  split; try done. intros g Hg. simpl. rewrite Htx, Hsh. split; [|done]. apply Hint.
  intros <-. apply Hg. unfold fd_at. by rewrite E.
Qed.

Lemma UpdateChannel_frame cur p i i' : EPoller.UpdateChannel cur p i = Ok i' -> frame p i i'.
Proof.
  unfold EPoller.UpdateChannel. intros Hr. apply bind_ok in Hr as (u & _ & Hr).
  apply bind_ok in Hr as (c & Hc & Hr).
  destruct ((index_ c =? kNew) || _); [|by apply Update_frame in Hr].
  apply bind_ok in Hr as (i1 & Hm & Hr). apply Update_frame in Hr.
  assert (i1 = i \/ exists m, i1 = set_map m i) as Hi1
    by (destruct (index_ c =? kNew); inv_ok; [right; by eexists|by left]).
  destruct Hi1 as [->|[m ->]]; [by apply (frame_set p c (SetIndex kAdded c) i i' Hc eq_refl)|].
  apply (frame_set p c (SetIndex kAdded c) i i' Hc eq_refl). destruct Hr. by split.
Qed.

Lemma RemoveChannel_frame cur p i i' : EPoller.RemoveChannel cur p i = Ok i' -> frame p i i'.
Proof.
  unfold EPoller.RemoveChannel. intros Hr. apply bind_ok in Hr as (u & _ & Hr).
  apply bind_ok in Hr as (c & _ & Hr). do 4 (apply bind_ok in Hr as (? & _ & Hr)).
  apply bind_ok in Hr as (? & _ & Hr). apply bind_ok in Hr as (i1 & Hm & Hr).
  apply bind_ok in Hr as (c' & Hc' & Hr). injection Hr as <-.
  apply (frame_trans p i i1).
  - destruct (index_ c =? kAdded); [|injection Hm as <-; by split].
    apply Update_frame in Hm. destruct Hm. by split.
  - apply deref_ok in Hc'. by eapply frame_channel.
Qed.

Lemma Channel_change_frame this tid cur ch p i i' : Channel_change this tid cur ch p i = Ok i' -> frame p i i'.
Proof.
  unfold Channel_change, Channel_Update, Loop_UpdateChannel. intros Hr.
  apply bind_ok in Hr as (c & Hc & Hr). apply bind_ok in Hr as (c' & Hc' & Hr).
  do 3 (apply bind_ok in Hr as (? & _ & Hr)). apply UpdateChannel_frame in Hr.
  apply (frame_set p c (set_events (change_events ch (events_ c)) c) i i' Hc eq_refl).
  by apply (frame_set p c' (set_added true c') _ i' Hc' eq_refl).
Qed.

Lemma Channel_Remove_frame this tid cur p i i' : Channel_Remove this tid cur p i = Ok i' -> frame p i i'.
Proof.
  unfold Channel_Remove, Loop_RemoveChannel. intros Hr. apply bind_ok in Hr as (c & Hc & Hr).
  do 4 (apply bind_ok in Hr as (? & _ & Hr)). apply RemoveChannel_frame in Hr.
  by apply (frame_set p c (set_added false c) i i' Hc eq_refl).
Qed.

(** *** The members of a connection *)

(** Functors are only added, such as [Q] allows: a connection's own ones, and what
    its callbacks queue. *)
Definition own_functor (f : functor G) : Prop := match f with FOther _ => False | _ => True end.
Context (Q : functor G -> Prop) (HQ : forall f, own_functor f -> Q f).
Definition queues w w' : Prop := exists l, pending_functors_ w' = pending_functors_ w ++ l /\ Forall Q l.

Lemma queues_same w w' : pending_functors_ w' = pending_functors_ w -> queues w w'.
Proof. exists []. by rewrite app_nil_r. Qed.

(** What the constructor fixes: the loop, the name and the channel. *)
Definition ident (t : TcpConnection A) : ptr * string * ptr := (TcpConnection.loop_ t, name_ t, channel_ t).

Lemma ident_channel t t' : ident t' = ident t -> channel_ t' = channel_ t.
Proof. by intros [=]. Qed.

Definition local w w' : Prop :=
  (tid_ w' = tid_ w /\ EventLoop.status_ w' = EventLoop.status_ w) /\ ident (the_conn w') = ident (the_conn w) /\
  frame (channel_ (the_conn w)) (io w) (io w') /\ queues w w'.

Lemma local_refl w : local w w.
Proof. split; [done|]. split; [done|]. split; [apply frame_refl|by apply queues_same]. Qed.

Lemma local_trans w1 w2 w3 : local w1 w2 -> local w2 w3 -> local w1 w3.
Proof.
  intros ([Tm Sm] & Cm & Fm & l & Pm & Qm) ([T2 S2] & C2 & F2 & l' & P2 & Q2).
  split; [split; congruence|]. split; [congruence|].
  rewrite (ident_channel _ _ Cm) in F2. split; [by eapply frame_trans|]. exists (l ++ l'). rewrite P2, Pm, app_assoc.
  split; [done|by apply Forall_app].
Qed.

(** The object may change, but not its loop, name and channel. *)
Lemma local_user w u :
  ident (conn u) = ident (the_conn w) -> local w (set_user u w).
Proof. intros Hc. split; [done|]. split; [done|]. split; [apply frame_refl|by apply queues_same]. Qed.

Lemma local_quiet w w' : quiet w w' -> queues w w' -> local w w'.
Proof.
  intros [Hu Ht Hp Hc Hi Hx Hs Hst] Hl. split; [done|]. unfold the_conn. rewrite Hu. split; [done|].
  split; [|done]. split; unfold core_at; rewrite ?Hc, ?Hp; try done. intros g _. by rewrite Hi, Hx, Hs.
Qed.

Lemma local_post cur (b : bool) f w : own_functor f -> local w (if b then QueueInLoop cur f w else w).
Proof.
  intros Hf. destruct (post_spec (A := A) cur b f w) as [Hq Hp]. apply local_quiet; [done|].
  eexists. split; [exact Hp|]. destruct b; repeat constructor. by apply HQ.
Qed.

Lemma local_on_io f w w' :
  (forall i, f (io w) = Ok i -> frame (channel_ (the_conn w)) (io w) i) -> on_io f w = Ok w' -> local w w'.
Proof.
  unfold on_io. intros Hf Hr. inv_ok. split; [done|]. split; [done|]. split; [by apply Hf|by apply queues_same].
Qed.

Context (junk : nat -> byte) (this_loop : ptr) (cur : thread_id).

Lemma local_change ch w w' : change_channel this_loop cur ch w = Ok w' -> local w w'.
Proof. apply local_on_io. intros i. apply Channel_change_frame. Qed.

(** A system call on the connection's socket. *)
Lemma local_sock c k w :
  the_channel w = Ok c -> interest k = interest (kernel (io w)) ->
  (forall g, g <> fd_ c -> tx k g = tx (kernel (io w)) g /\ wr_shut k g = wr_shut (kernel (io w)) g) ->
  local w (set_sock k w).
Proof.
  intros Hc%deref_ok Hi Hg. split; [done|]. split; [done|]. split; [|by apply queues_same]. split; try done. intros g Hne. simpl. rewrite Hi.
  destruct (Hg g); [|done]. intros ->. apply Hne. unfold fd_at. by rewrite Hc.
Qed.

Lemma local_write c d w : the_channel w = Ok c -> local w (set_sock (sock_write (fd_ c) d (kernel (io w))).2 w).
Proof.
  intros Hc. apply (local_sock c); [done|apply write_interest|]. intros g Hg. split.
  - by apply write_frame.
  - by rewrite write_shut.
Qed.

Lemma local_ShutdownInLoop w w' : ShutdownInLoop cur w = Ok w' -> local w w'.
Proof.
  unfold ShutdownInLoop. intros Hr. apply bind_ok in Hr as (? & _ & Hr). apply bind_ok in Hr as (c & Hc & Hr).
  destruct (negb _); injection Hr as <-; [|apply local_refl].
  apply (local_sock c); [done|apply shutdown_interest|]. intros g Hg. split.
  - by rewrite shutdown_tx.
  - by apply shutdown_frame.
Qed.

Lemma local_SendInLoop m n w w' : SendInLoop junk this_loop cur m n w = Ok w' -> local w w'.
Proof.
  unfold SendInLoop. intros Hr. apply bind_ok in Hr as (? & _ & Hr).
  destruct (bool_decide _); [injection Hr as <-; apply local_refl|].
  apply bind_ok in Hr as (c & Hc & Hr). apply bind_ok in Hr as (q & _ & Hr).
  apply bind_ok in Hr as ([[[nw rest] fault] w1] & Hf & Hr).
  assert (local w w1) as Hlm.
  { destruct (negb (IsWriting c) && _); [|injection Hf as <- <- <- <-; apply local_refl].
    apply bind_ok in Hf as (d & _ & Hf). pose proof (local_write c d w Hc) as Hw.
    destruct (sock_write _ _ _) as [[r e] k]. simpl in Hw.
    destruct (r >=? 0); injection Hf as <- <- <- <-; [|done].
    eapply local_trans; [exact Hw|by apply local_post]. }
  apply (local_trans w w1 w' Hlm). clear Hlm Hf Hc.
  apply bind_ok in Hr as (? & _ & Hr). destruct (negb fault && _); [|injection Hr as <-; apply local_refl].
  apply bind_ok in Hr as (old & _ & Hr). apply bind_ok in Hr as (d & _ & Hr).
  apply bind_ok in Hr as (b & _ & Hr). apply bind_ok in Hr as (c' & _ & Hr).
  match type of Hr with context [set_conn _ (if ?t then QueueInLoop _ ?f _ else _)] =>
    pose proof (local_post cur t f w1 I) as Hq end.
  match type of Hr with (if _ then change_channel _ _ _ ?w2 else Ok ?w2) = _ =>
    apply (local_trans w1 w2); [eapply local_trans; [exact Hq|by apply local_user]|] end.
  destruct (negb (IsWriting c')); [by eapply local_change|injection Hr as <-; apply local_refl].
Qed.

Lemma local_Send_slice p w w' : Send_slice junk this_loop cur p w = Ok w' -> local w w'.
Proof.
  unfold Send_slice. intros Hr. destruct (bool_decide _); [|injection Hr as <-; apply local_refl].
  destruct (IsInLoopThread _ _); [|injection Hr as <-; by apply (local_post cur true)].
  apply bind_ok in Hr as (m & _ & Hr). by eapply local_SendInLoop.
Qed.

Lemma local_Send tmp m n w w' : Send junk this_loop cur tmp m n w = Ok w' -> local w w'.
Proof.
  unfold Send. intros Hr. apply bind_ok in Hr as (w1 & Hs & Hr). injection Hr as <-.
  apply local_Send_slice in Hs. eapply local_trans; [|by apply local_user].
  eapply local_trans; [|exact Hs]. by apply local_user.
Qed.

Lemma local_Send_buffer v p w w' : Send_buffer junk this_loop cur v p w = Ok w' -> local w w'.
Proof.
  unfold Send_buffer. intros Hr. apply bind_ok in Hr as (w1 & Hs & Hr). injection Hr as <-.
  eapply local_trans; [|by apply local_user].
  match type of Hs with (if _ then _ else Ok ?x) = _ => apply (local_trans w x); [by apply local_user|] end.
  destruct (bool_decide _); [|injection Hs as <-; apply local_refl].
  destruct (IsInLoopThread _ _); [|injection Hs as <-; by apply (local_post cur true)].
  apply bind_ok in Hs as (b & _ & Hs). apply bind_ok in Hs as (n & _ & Hs).
  apply bind_ok in Hs as (w2 & H2' & Hs). apply bind_ok in Hs as (b' & _ & Hs). injection Hs as <-.
  apply local_SendInLoop in H2'. eapply local_trans; [exact H2'|by apply local_user].
Qed.

Lemma local_status x w : local w (SetStatus x w).
Proof. by apply local_user. Qed.

Lemma local_Shutdown w w' : Shutdown cur w = Ok w' -> local w w'.
Proof.
  unfold Shutdown. intros Hr. destruct (bool_decide _); [|injection Hr as <-; apply local_refl].
  eapply local_trans; [apply local_status|].
  destruct (IsInLoopThread _ _); [by apply local_ShutdownInLoop in Hr|].
  injection Hr as <-. by apply (local_post cur true).
Qed.

Lemma local_HandleWrite w w' : HandleWrite this_loop cur w = Ok w' -> local w w'.
Proof.
  unfold HandleWrite. intros Hr. apply bind_ok in Hr as (? & _ & Hr). apply bind_ok in Hr as (c & Hc & Hr).
  destruct (IsWriting c); [|injection Hr as <-; apply local_refl].
  apply bind_ok in Hr as (n & _ & Hr). apply bind_ok in Hr as (d & _ & Hr).
  pose proof (local_write c d w Hc) as Hw. destruct (sock_write _ _ _) as [[r e] k]. simpl in Hw.
  apply (local_trans w _ w' Hw). destruct (r >? 0); [|injection Hr as <-; apply local_refl].
  apply bind_ok in Hr as (b & _ & Hr). apply bind_ok in Hr as (l & _ & Hr).
  match type of Hr with context [Ok (set_conn ?x ?y)] => apply (local_trans _ (set_conn x y)); [by apply local_user|] end.
  destruct (l =? 0); [|injection Hr as <-; apply local_refl].
  apply bind_ok in Hr as (w1 & Hch & Hr). apply local_change in Hch. eapply local_trans; [exact Hch|].
  eapply local_trans; [by apply (local_post cur (write_complete_cb_ (the_conn w1)) FWriteComplete)|].
  destruct (bool_decide _); [by apply local_ShutdownInLoop in Hr|injection Hr as <-; apply local_refl].
Qed.

Context (conn_cb_ msg_cb_ close_cb_ : cworld -> result cworld).
Context (Hconn : forall w w', conn_cb_ w = Ok w' -> local w w')
  (Hmsg : forall w w', msg_cb_ w = Ok w' -> local w w')
  (Hclose : forall w w', close_cb_ w = Ok w' -> local w w').

Lemma local_HandleClose w w' : HandleClose this_loop cur close_cb_ w = Ok w' -> local w w'.
Proof.
  unfold HandleClose. intros Hr. do 2 (apply bind_ok in Hr as (? & _ & Hr)).
  apply bind_ok in Hr as (w1 & Hch & Hr). apply local_change in Hch. apply Hclose in Hr.
  eapply local_trans; [apply local_status|]. by eapply local_trans.
Qed.

Lemma local_HandleRead w w' : HandleRead junk this_loop cur msg_cb_ close_cb_ w = Ok w' -> local w w'.
Proof.
  unfold HandleRead. intros Hr. apply bind_ok in Hr as (? & _ & Hr). apply bind_ok in Hr as (c & Hc & Hr).
  apply bind_ok in Hr as ([[n e] b] & _ & Hr). apply bind_ok in Hr as (v & _ & Hr).
  match type of Hr with (if _ then msg_cb_ (set_conn ?x ?y) else _) = _ =>
    apply (local_trans w y); [|apply (local_trans _ (set_conn x y)); [by apply local_user|]] end.
  - apply (local_sock c); [done|apply readv_interest|]. intros g _. by rewrite readv_tx, readv_shut.
  - destruct (n >? 0); [by apply Hmsg|]. destruct (n =? 0); [by apply local_HandleClose|].
    unfold HandleError in Hr. apply bind_ok in Hr as (? & _ & Hr). injection Hr as <-. apply local_refl.
Qed.

Lemma local_Established w w' : OnConnectEstablished this_loop cur conn_cb_ w = Ok w' -> local w w'.
Proof.
  unfold OnConnectEstablished. intros Hr. do 2 (apply bind_ok in Hr as (? & _ & Hr)).
  apply bind_ok in Hr as (w1 & Hch & Hr). apply local_change in Hch. apply Hconn in Hr.
  eapply local_trans; [apply local_status|]. by eapply local_trans.
Qed.

Lemma local_Destroyed w w' : OnConnectDestroyed this_loop cur conn_cb_ w = Ok w' -> local w w'.
Proof.
  unfold OnConnectDestroyed. intros Hr. apply bind_ok in Hr as (? & _ & Hr).
  apply bind_ok in Hr as (w1 & Hm & Hr). apply (local_trans w w1).
  - destruct (bool_decide _); [|injection Hm as <-; apply local_refl].
    apply bind_ok in Hm as (w2 & Hch & Hm). apply local_change in Hch. apply Hconn in Hm.
    eapply local_trans; [apply local_status|]. by eapply local_trans.
  - revert Hr. apply local_on_io. intros i. apply Channel_Remove_frame.
Qed.

Lemma local_op o w w' : run_op junk this_loop cur conn_cb_ msg_cb_ close_cb_ o w = Ok w' -> local w w'.
Proof.
  destruct o; simpl.
  - apply local_Established.
  - apply local_Destroyed.
  - apply local_HandleRead.
  - apply local_HandleWrite.
  - apply local_HandleClose.
  - unfold HandleError. intros Hr. apply bind_ok in Hr as (? & _ & Hr). injection Hr as <-. apply local_refl.
  - apply local_Shutdown.
  - apply local_ShutdownInLoop.
  - apply local_Send.
  - apply local_Send_slice.
  - apply local_Send_buffer.
  - apply local_SendInLoop.
Qed.
End Frame.

(** ** Two connections of a loop *)

Section Apart.
Context {G Cb A U K : Type} `{EpollLaws K, EventfdKernel K, SocketKernel K, !SocketLaws K, !SocketFrame K}.
Abbreviation cworld := (lworld (functor G) Cb (cuser A U) K).
Implicit Types (w : cworld).
Context (junk : nat -> byte) (this_loop : ptr) (cur : thread_id).
Context (conn_cb_ msg_cb_ close_cb_ : cworld -> result cworld).
Abbreviation local := (local (fun _ => True)).

(** Registered channels have descriptors of their own. *)
Lemma registered_fds (i : EPoller.world Cb K) p q c d :
  inv_but None i -> channels i !! p = Some c -> channels i !! q = Some d ->
  index_ c = kAdded -> index_ d = kAdded -> fd_ c = fd_ d -> p = q.
Proof.
  intros Hi Hc Hd Ac Ad He. destruct (inv_index _ _ Hi _ _ Hc) as [Hx|[_ Hmc]]; [by rewrite Ac in Hx|].
  destruct (inv_index _ _ Hi _ _ Hd) as [Hx|[_ Hmd]]; [by rewrite Ad in Hx|]. rewrite He in Hmc. congruence.
Qed.

(** What a step on the channel at [p] leaves of another connection. *)
Lemma conn_inv_frame p w w' c :
  frame p (io w) (io w') -> the_conn w' = the_conn w -> tid_ w' = tid_ w ->
  channel_ (the_conn w) <> p -> fd_at p (io w) <> Some (fd_ c) ->
  inv_but None (io w') -> conn_inv this_loop w c ->
  conn_inv this_loop w' c /\
  interest (kernel (io w')) !! fd_ c = interest (kernel (io w)) !! fd_ c /\
  sent w' (fd_ c) = sent w (fd_ c) /\ shut w' (fd_ c) = shut w (fd_ c).
Proof.
  intros [Hf Hch Ho Hk] Hc Ht Hne Hfd Hi' Hm.
  destruct (Hk _ Hfd) as (Hint & Htx & Hsh). split; [|by split].
  destruct Hm as [_ Hcc Hl How Ha Hma Hin Hout Hwr]. split; unfold output; rewrite ?Hc, ?Ht; try done.
  - rewrite <- Hcc. by apply Hch.
  - by rewrite Ho.
Qed.

(** Connections of one loop are independent.  [w] is the loop seen by one connection;
    another one, [t2] with channel [ch2], shares the loop.  Whatever member of the
    first runs, in whatever state, if the callbacks too act on the first only: the
    other's invariant holds as before, its descriptor is registered as before, and
    what was sent on it and whether it is shut down are unchanged. *)
Theorem connections_apart o w w' ch1 t2 ch2 :
  (forall w w', conn_cb_ w = Ok w' -> local w w') ->
  (forall w w', msg_cb_ w = Ok w' -> local w w') ->
  (forall w w', close_cb_ w = Ok w' -> local w w') ->
  run_op junk this_loop cur conn_cb_ msg_cb_ close_cb_ o w = Ok w' ->
  conn_inv this_loop w ch1 -> conn_inv this_loop (set_conn t2 w) ch2 ->
  channel_ t2 <> channel_ (the_conn w) -> inv_but None (io w') ->
  conn_inv this_loop (set_conn t2 w') ch2 /\
  interest (kernel (io w')) !! fd_ ch2 = interest (kernel (io w)) !! fd_ ch2 /\
  sent w' (fd_ ch2) = sent w (fd_ ch2) /\ shut w' (fd_ ch2) = shut w (fd_ ch2).
Proof.
  intros Hconn Hmsg Hclose Hr Hm1 Hm2 Hne Hi'.
  assert (local w w') as ([Ht _] & _ & Hf & _) by (revert Hr; by apply local_op).
  apply (conn_inv_frame (channel_ (the_conn w)) (set_conn t2 w) (set_conn t2 w')); try done.
  unfold fd_at. simpl. rewrite (ci_channel _ _ _ Hm1). intros [= He]. apply Hne. symmetry.
  eapply (registered_fds (io w)); [apply Hm1|apply Hm1|apply Hm2|apply Hm1|apply Hm2|exact He].
Qed.
End Apart.

(** ** Connections 5 and 6 of loop 7; 5 has two bytes to write *)

#[export] Instance ssim_frame : SocketFrame ssim.
Proof.
  split; intros; simpl in *.
  - unfold ssim_write, ssim_tx. destruct (s_take k <? 0); [done|]. simpl. by rewrite lookup_insert_ne.
  - apply bool_decide_ext. set_solver.
Qed.

Definition conn6 : TcpConnection unit :=
  mkConn 7 "conn6" kIncoming kConnected 200 tt tt true true 3 demo_empty_buf demo_empty_buf.
Definition chan6 : Channel conn_cb :=
  SetIndex kAdded (set_added true (set_events (mask true false) (SetReadCallback OnRead (Channel_new 7 6)))).

Definition both_w : demo_state :=
  mkLWorld 1 kRunning false [] 50 60 [] ∅
    (mkWorld (mkEPoller 1 16 (<[6 := 200]> {[5 := 100]})) (<[200 := chan6]> {[100 := demo_chan true]})
       (mkSsim (mkSim (<[6 := mkEvent (mask true false) 200]> {[5 := mkEvent (mask true true) 100]}) [] 0) ∅ ∅ 2 []))
    (mkUser (demo_conn kConnected demo_full_buf) ∅ ∅ ∅ []).

Lemma both_epoll : inv_but None (io both_w).
Proof.
  split; simpl.
  - intros fd p [[<- <-]|[Hn [<- <-]%lookup_singleton_Some]]%lookup_insert_Some.
    + exists chan6, (mask true false). by rewrite !lookup_insert_eq.
    + exists (demo_chan true), (mask true true).
      rewrite !lookup_insert_ne, !lookup_singleton_eq by done. by split_and!.
  - intros fd [x [[<- _]|[Hn [<- _]%lookup_singleton_Some]]%lookup_insert_Some].
    + rewrite lookup_insert_eq. eauto.
    + rewrite lookup_insert_ne, lookup_singleton_eq by done. eauto.
  - intros p c [[<- <-]|[Hn [<- <-]%lookup_singleton_Some]]%lookup_insert_Some; right.
    + by rewrite lookup_insert_eq.
    + by rewrite lookup_insert_ne, lookup_singleton_eq by done.
  - done.
Qed.

Lemma both_inv5 : conn_inv 7 both_w (demo_chan true).
Proof.
  split; try done; first [apply both_epoll|by eexists _, _|apply demo_empty_wf|apply demo_full_wf].
Qed.

Lemma both_inv6 : conn_inv 7 (set_conn conn6 both_w) chan6.
Proof.
  split; try done; first [apply both_epoll|by eexists _, _|apply demo_empty_wf].
Qed.

Lemma connections_apart_witness :
  exists w', HandleWrite 7 1 both_w = Ok w' /\ conn_inv 7 (set_conn conn6 w') chan6 /\
    sent w' 5 = [x41; x42] /\ sent w' 6 = [].
Proof.
  destruct (HandleWrite_spec 7 (demo_chan true) both_w both_inv5 ltac:(done)) as (w' & c' & Hr & Hi' & _).
  exists w'. split; [exact Hr|].
  destruct (connections_apart no_junk 7 1 Ok Ok Ok OpWrite both_w w' (demo_chan true) conn6 chan6) as (H6 & _ & Hs & _).
  - intros x y [= <-]. apply local_refl.
  - intros x y [= <-]. apply local_refl.
  - intros x y [= <-]. apply local_refl.
  - exact Hr.
  - apply both_inv5.
  - apply both_inv6.
  - discriminate.
  - apply Hi'.
  - split; [exact H6|]. split; [vm_compute in Hr; injection Hr as <-; reflexivity|].
    etransitivity; [exact Hs|reflexivity].
Defined.
