(* ===== verification/ConnPhases.v ===== *)
(** * The phases of a connection of a loop

    An established connection is live until [OnConnectDestroyed] takes its channel out
    of the loop; then it is gone, though functors may still refer to it.  The functor
    that destroys it is queued once, and only after it closed. *)

From S2P Require Import Prelude Bytes Slice Buffer BufferFacts BufferSpec BufferIO LoopThread Duration.
From S2P Require Import Timestamp Channel EPoller EPollerFacts EventFd ServerStatus LoopChannels.
From S2P Require Import EventLoop SocketKernel TcpConnection TcpConnFacts TcpSend TcpConnProps.
From S2P Require Import TcpConnLife TcpStream TcpFrame.
#[local] Open Scope Z_scope.

(** The other functors of a connection: [OnConnectDestroyed], which the server binds,
    and those of the application. *)
Inductive task (G : Type) := Destroy | App (g : G).
Arguments Destroy {G}. Arguments App {G} g.

(** ** What application code leaves alone *)

Section Leaves.
Context {G Cb A V K : Type} `{EpollLaws K, EventfdKernel K, SocketKernel K, !SocketLaws K, !SocketFrame K}.
Abbreviation cworld := (lworld (functor G) Cb (cuser A (list bytes * V)) K).
Implicit Types (v : cworld).
Context (junk : nat -> byte) (this_loop : ptr).

Section Local.
Context (Q : functor G -> Prop) (HQ : forall f, own_functor f -> Q f).

Lemma local_run_user o v v' : run_user junk this_loop o v = Ok v' -> local Q v v'.
Proof.
  destruct o as [tmp m|n|]; simpl.
  - intros Hr%(local_Send Q HQ). eapply local_trans; [|exact Hr].
    destruct (IsConnected (the_conn v)); [by apply local_user|apply local_refl].
  - intros Hr. inv_ok. by apply local_user.
  - by apply local_Shutdown.
Qed.

Lemma local_application (react : trigger G -> cworld -> list user_op) x v v' :
  application junk this_loop react x v = Ok v' -> local Q v v'.
Proof.
  apply (foldM_invariant (local Q v)); [|apply local_refl].
  intros o v1 v2 Hl Hr%local_run_user. by eapply local_trans.
Qed.

Lemma local_functor (react : trigger G -> cworld -> list user_op) f v v' :
  run_functor junk this_loop react f v = Ok v' -> local Q v v'.
Proof.
  unfold run_functor, exec_functor. destruct f as [|n|p|p| |g]; [by apply local_application|by apply local_application| | | |by apply local_application].
  - intros (s & _ & Hr)%bind_ok. exact (local_SendInLoop Q HQ _ _ _ _ _ _ _ Hr).
  - intros (q & _ & Hr)%bind_ok. apply bind_ok in Hr as (b & _ & Hr). apply bind_ok in Hr as ([s b'] & _ & Hr).
    apply (local_SendInLoop Q HQ) in Hr. eapply local_trans; [|exact Hr]. by apply local_user.
  - by apply local_ShutdownInLoop.
Qed.
End Local.

Abbreviation any := (fun _ : functor G => True).

Lemma local_close (close_cb_ : cworld -> result cworld) v v' :
  only_queues close_cb_ -> close_cb_ v = Ok v' -> local any v v'.
Proof.
  intros Hc Hr. destruct (Hc v) as (v1 & gs & Hr1 & Hq & Hp). rewrite Hr1 in Hr. injection Hr as <-.
  apply local_quiet; [done|]. eexists. split; [exact Hp|]. by apply Forall_true.
Qed.

Lemma local_channel (react : trigger G -> cworld -> list user_op) close_cb_ cur c v v' :
  only_queues close_cb_ ->
  call_channel junk this_loop cur (application junk this_loop react TMessage) close_cb_ c v = Ok v' ->
  local any v v'.
Proof.
  intros Hc. destruct c; simpl.
  - apply local_HandleRead; intros x x'; [by apply local_application|by apply local_close].
  - by apply local_HandleWrite.
  - apply local_HandleClose. intros x x'. by apply local_close.
  - unfold HandleError. intros (? & _ & [= <-])%bind_ok. apply local_refl.
Qed.

End Leaves.

(** ** Counting the functors that destroy *)

Section Count.
Context {G : Type}.
Implicit Types (f : functor (task G)) (l : list (functor (task G))).

Definition is_destroy f : bool := match f with FOther Destroy => true | _ => false end.
Definition calm f : Prop := is_destroy f = false.
Definition destroys l : nat := length (filter is_destroy l).

Lemma destroys_app l l' : destroys (l ++ l') = (destroys l + destroys l')%nat.
Proof. unfold destroys. by rewrite filter_app, length_app. Qed.

Lemma destroys_perm l l' : l ≡ₚ l' -> destroys l = destroys l'.
Proof. intros Hl. unfold destroys. by apply Permutation_length, filter_Permutation. Qed.

Lemma destroys_cons f l : destroys (f :: l) = ((if is_destroy f then 1 else 0) + destroys l)%nat.
Proof.
  unfold destroys. rewrite filter_cons. destruct (is_destroy f) eqn:E; case_decide as Hd; simpl in *; naive_solver.
Qed.

Lemma destroys_calm l : Forall calm l -> destroys l = 0%nat.
Proof. induction 1 as [|f l Hf _ IH]; [done|]. by rewrite destroys_cons, Hf, IH. Qed.

Lemma calm_own f : own_functor f -> calm f.
Proof. by destruct f. Qed.
End Count.

Section Phases.
Context {G Cb A V K : Type} `{EpollLaws K, EventfdKernel K, SocketKernel K, !SocketLaws K, !SocketFrame K}.
Abbreviation cworld := (lworld (functor (task G)) Cb (cuser A (list bytes * V)) K).
Implicit Types (v : cworld) (c : Channel Cb) (ahead : list (functor (task G))).

(** [prompt]: the close callback queues the functor itself, as the server does when
    it shares the connection's loop. *)
Context (junk : nat -> byte) (this_loop : ptr) (prompt : bool).

Definition closed v : bool := bool_decide (conn_status v = kDisconnected).

Definition count_ok (n : nat) (is_closed : bool) : Prop :=
  (n <= if is_closed then 1 else 0)%nat /\ (prompt = true -> is_closed = true -> n = 1%nat).

Context (fd : Z) (t0 : bytes).

Definition live ahead v c : Prop :=
  stream_at this_loop fd t0 ahead v c /\ count_ok (destroys (awaiting ahead v)) (closed v).

Record gone ahead v c : Prop := {
  go_epoll : inv_but None (io v);
  go_channel : channels (io v) !! channel_ (the_conn v) = Some c;
  go_loop : Channel.loop_ c = this_loop;
  go_owner : owner_tid (poller (io v)) = tid_ v;
  go_shape : shape c = (fd, kNew, kNone);
  go_status : conn_status v = kDisconnected;
  go_in : wf (input_buffer_ (the_conn v));
  go_data : exists kept, kept `sublist_of` offered v /\ sent v fd ++ output v = t0 ++ mjoin kept /\
    (peer_stays (K := K) fd -> kept = offered v);
  go_pending : Forall benign (awaiting ahead v);
  go_destroys : destroys (awaiting ahead v) = 0%nat;
  go_removed : added_to_loop_ c = false;
  go_unwatched : interest (kernel (io v)) !! fd = None
}.

Definition conn_at ahead v c : Prop := live ahead v c \/ gone ahead v c.

(** What both phases have. *)
Lemma conn_at_parts ahead v c :
  conn_at ahead v c ->
  inv_but None (io v) /\ channels (io v) !! channel_ (the_conn v) = Some c /\ fd_ c = fd /\
  owner_tid (poller (io v)) = tid_ v /\
  exists kept, kept `sublist_of` offered v /\ sent v fd ++ output v = t0 ++ mjoin kept /\
    (peer_stays (K := K) fd -> kept = offered v).
Proof.
  intros [[Hs _]|[? ? ? ? [= E1 _ _] ? ? ? ? ? ? ?]]; [|by split_and!].
  pose proof (si_conn _ _ _ _ _ _ Hs) as Hc. split_and!; try apply Hc; apply Hs.
Qed.

(** Only what the invariant does not mention changes. *)
Lemma conn_at_io ahead v v' c c' :
  the_conn v' = the_conn v -> offered v' = offered v -> tid_ v' = tid_ v ->
  pending_functors_ v' = pending_functors_ v ->
  inv_but None (io v') -> channels (io v') !! channel_ (the_conn v) = Some c' ->
  Channel.loop_ c' = Channel.loop_ c -> shape c' = shape c -> added_to_loop_ c' = added_to_loop_ c ->
  owner_tid (poller (io v')) = owner_tid (poller (io v)) ->
  sent v' fd = sent v fd -> shut v' fd = shut v fd ->
  interest (kernel (io v')) !! fd = interest (kernel (io v)) !! fd -> conn_at ahead v c -> conn_at ahead v' c'.
Proof.
  intros Hc Ho Ht Hp Hi Hch Hlp Hsh Had How Hse Hshut Hint [[Hs Hn]|Hg]; [left|right].
  - split; [by eapply stream_io|]. unfold closed, conn_status, awaiting in *. by rewrite Hc, Hp.
  - destruct Hg. split; unfold conn_status, output, awaiting in *; rewrite ?Hc, ?Ho, ?Hp, ?Hse; try done; congruence.
Qed.

(** Functors of the application are queued, or functors taken from the queue. *)
Lemma conn_at_move ahead ahead' v v' c l :
  quiet v v' -> awaiting ahead' v' ≡ₚ awaiting ahead v ++ l ->
  Forall (fun f => exists g, f = FOther (App g)) l -> conn_at ahead v c -> conn_at ahead' v' c.
Proof.
  intros Hq Hp Hl Hc. pose proof Hq as [Hu Ht Hpo Hch Hin Hx Hy].
  assert (Forall benign l /\ Forall calm l) as [Hbe Hca]
    by (split; eapply Forall_impl; try exact Hl; by intros f [g ->]).
  assert (destroys (awaiting ahead' v') = destroys (awaiting ahead v)) as Hd.
  { rewrite (destroys_perm _ _ Hp), destroys_app, (destroys_calm l Hca). lia. }
  destruct Hc as [[Hs Hn]|Hg]; [left|right].
  - split.
    + eapply stream_move; [exact Hq|exact Hp|done| |done]. intros Hf. rewrite Forall_forall in Hl.
      by destruct (Hl _ Hf).
    + rewrite Hd. unfold closed, conn_status, the_conn in *. by rewrite Hu.
  - pose proof (quiet_inv _ _ Hq (go_epoll _ _ _ Hg)). destruct Hg.
    split; unfold conn_status, output, sent, offered, the_conn in *; rewrite ?Hu, ?Hch, ?Hpo, ?Hx, ?Hd, ?Ht, ?Hp, ?Hin; try done.
    by apply Forall_app.
Qed.

(** ** Closed stays closed *)

Lemma closed_same v v' : conn_status v' = conn_status v -> closed v' = closed v.
Proof. unfold closed. by intros ->. Qed.

Lemma closed_Shutdown cur v v' : Shutdown cur v = Ok v' -> closed v' = closed v.
Proof.
  unfold Shutdown. destruct (bool_decide _) eqn:E; [|by intros [= <-]]. apply bool_decide_eq_true in E.
  intros Hr. assert (conn_status v' = kDisconnecting) as Hd.
  { destruct (IsInLoopThread _ _); [by apply status_ShutdownInLoop in Hr|]. injection Hr as <-.
    by rewrite status_queue. }
  unfold closed. rewrite Hd. unfold conn_status. by rewrite E.
Qed.

Lemma closed_run_user o v v' : run_user junk this_loop o v = Ok v' -> closed v' = closed v.
Proof.
  destruct o as [tmp m|n|]; simpl; [|intros Hr; by inv_ok|apply closed_Shutdown].
  unfold Send. intros Hr. apply bind_ok in Hr as (v1 & Hr & [= <-]).
  apply status_Send_slice in Hr. apply closed_same. etransitivity; [exact Hr|].
  by destruct (IsConnected (the_conn v)).
Qed.

Lemma closed_application (react : trigger (task G) -> cworld -> list user_op) x v v' :
  application junk this_loop react x v = Ok v' -> closed v' = closed v.
Proof.
  apply (foldM_invariant (fun v1 => closed v1 = closed v)); [|done].
  intros o v1 v2 Hc Hr%closed_run_user. congruence.
Qed.

Lemma closed_functor (react : trigger (task G) -> cworld -> list user_op) f v v' :
  run_functor junk this_loop react f v = Ok v' -> closed v' = closed v.
Proof.
  unfold run_functor, exec_functor. destruct f as [|n|p|p| |g];
    [by apply closed_application|by apply closed_application| | | |by apply closed_application].
  - intros (s & _ & Hr)%bind_ok. apply status_SendInLoop in Hr. by apply closed_same.
  - intros (q & _ & Hr)%bind_ok. apply bind_ok in Hr as (b & _ & Hr). apply bind_ok in Hr as ([s b'] & _ & Hr).
    apply status_SendInLoop in Hr. by apply closed_same.
  - intros Hr. apply status_ShutdownInLoop in Hr. by apply closed_same.
Qed.

(** A step that adds calm functors and does not close. *)
Lemma count_calm ahead v v' :
  closed v' = closed v -> queues calm v v' -> count_ok (destroys (awaiting ahead v)) (closed v) ->
  count_ok (destroys (awaiting ahead v')) (closed v').
Proof.
  intros -> (l & Hp & Hl) Hn. unfold awaiting in *. by rewrite Hp, app_assoc, destroys_app, (destroys_calm l), Nat.add_0_r.
Qed.

(** ** What closing queues *)

Definition closes (close_cb_ : cworld -> result cworld) : Prop := forall v, exists v' gs,
  close_cb_ v = Ok v' /\ quiet v v' /\ pending_functors_ v' = pending_functors_ v ++ (FOther <$> gs) /\
  count_ok (destroys (FOther <$> gs)) true.

Lemma closes_only_queues close_cb_ : closes close_cb_ -> only_queues close_cb_.
Proof. intros Hc v. destruct (Hc v) as (v' & gs & ? & ? & ? & _). by exists v', gs. Qed.

(** What a member that may close adds. *)
Definition adds v v' : Prop := exists l,
  pending_functors_ v' = pending_functors_ v ++ l /\ count_ok (destroys l) (closed v').

Lemma adds_calm v v' : closed v' = false -> queues calm v v' -> adds v v'.
Proof.
  intros Hc (l & Hp & Hl). exists l. rewrite Hc, destroys_calm by done. split; [done|]. by split; [|intros _ [=]].
Qed.

Lemma adds_same v v1 v' : pending_functors_ v1 = pending_functors_ v -> adds v1 v' -> adds v v'.
Proof. intros Hp (l & Hl & Hn). exists l. by rewrite <- Hp. Qed.

Lemma close_adds cur close_cb_ v v' :
  closes close_cb_ -> HandleClose this_loop cur close_cb_ v = Ok v' -> adds v v'.
Proof.
  intros Hcl Hr. unfold HandleClose in Hr. do 2 apply bind_ok in Hr as (? & _ & Hr).
  apply bind_ok in Hr as (v1 & Hch & Hr). pose proof (status_change _ _ _ _ _ Hch) as Hst.
  unfold change_channel, on_io in Hch. apply bind_ok in Hch as (i & _ & [= <-]).
  destruct (Hcl (set_io i (SetStatus kDisconnected v))) as (v2 & gs & Hr2 & Hq & Hp & Hn).
  rewrite Hr2 in Hr. injection Hr as <-. exists (FOther <$> gs). split; [exact Hp|].
  assert (closed v2 = true) as ->; [|done]. unfold closed, conn_status, the_conn. by rewrite (q_user _ _ Hq).
Qed.

Lemma read_adds (react : trigger (task G) -> cworld -> list user_op) cur close_cb_ v v' :
  closes close_cb_ -> closed v = false ->
  HandleRead junk this_loop cur (application junk this_loop react TMessage) close_cb_ v = Ok v' -> adds v v'.
Proof.
  intros Hcl Ho Hr. unfold HandleRead in Hr. apply bind_ok in Hr as (? & _ & Hr).
  apply bind_ok in Hr as (c & _ & Hr). apply bind_ok in Hr as ([[n e] b] & _ & Hr).
  apply bind_ok in Hr as (vec & _ & Hr).
  match type of Hr with (if _ then _ ?y else _) = _ => set (v1 := y) in Hr end.
  apply (adds_same v v1); [done|]. assert (closed v1 = false) as Ho1 by exact Ho.
  destruct (n >? 0).
  - apply adds_calm; [by rewrite (closed_application _ _ _ _ Hr)|].
    by apply (local_application junk this_loop calm calm_own) in Hr as (_ & _ & _ & ?).
  - destruct (n =? 0); [by eapply close_adds|]. unfold HandleError in Hr.
    apply bind_ok in Hr as (? & _ & [= <-]). apply adds_calm; [done|]. by apply queues_same.
Qed.

(** The server's loop queues the functor that destroys, for a connection that closed
    and is still in its loop. *)
Lemma conn_queue_destroy ahead v v' c :
  quiet v v' -> pending_functors_ v' = pending_functors_ v ++ [FOther Destroy] ->
  closed v = true -> index_ c = kAdded -> destroys (awaiting ahead v) = 0%nat ->
  conn_at ahead v c -> conn_at ahead v' c.
Proof.
  intros Hq Hp Hcl Hadd Hz [[Hs _]|Hg]; [left|by destruct Hg as [? ? ? ? [= ? Hn ?] ? ? ? ? ? ? ?]; rewrite Hadd in Hn].
  split.
  - eapply stream_quiet; [exact Hq|exact Hp|by repeat constructor|set_solver|done].
  - assert (closed v' = true) as -> by (unfold closed, conn_status, the_conn in *; by rewrite (q_user _ _ Hq)).
    unfold awaiting in *. rewrite Hp, app_assoc, destroys_app, Hz. split; [done|]. by intros.
Qed.

(** ** The members, in either phase *)

Context (react : trigger (task G) -> cworld -> list user_op) (conn_cb_ close_cb_ : cworld -> result cworld).
Context (D : Z) (Hreact : react_ok react D) (Hclose : closes close_cb_).

Abbreviation run := (run_functor junk this_loop react).

(** Application code on a connection that is gone changes at most its input. *)
Lemma gone_user_op o ahead v c :
  gone ahead v c -> op_ok o -> exists v', run_user junk this_loop o v = Ok v' /\ gone ahead v' c.
Proof.
  intros Hg Hok. pose proof (go_status _ _ _ Hg) as Hst. unfold conn_status in Hst.
  assert (IsConnected (the_conn v) = false) as Hn by (unfold IsConnected; by rewrite Hst).
  destruct o as [tmp m|n|]; simpl in *.
  - rewrite Hn, Send_in_loop, Hn. cbn [mbind result_bind]. eexists. split; [done|]. by destruct Hg.
  - destruct (Skip_spec n (input_buffer_ (the_conn v))) as (b & -> & Hb & _); [apply Hg|apply Hok|].
    cbn [mbind result_bind]. eexists. split; [done|]. by destruct Hg.
  - exists v. split; [|done]. unfold Shutdown. by rewrite Hst.
Qed.

Lemma gone_application x ahead v c :
  gone ahead v c -> exists v', application junk this_loop react x v = Ok v' /\ gone ahead v' c.
Proof.
  unfold application. destruct Hreact as [_ Hr]. destruct (Hr x v) as [Hok _]. clear Hr. revert Hok.
  generalize (react x v). intros ops Hok. revert v. induction Hok as [|o ops Ho _ IH]; intros v Hg; [by exists v|].
  destruct (gone_user_op o ahead v c Hg Ho) as (v1 & Hr & Hg1). cbn [foldM]. rewrite Hr. by apply IH.
Qed.

Lemma gone_called f ahead v c : gone (f :: ahead) v c -> gone ahead v c /\ benign f.
Proof.
  intros []. unfold awaiting in *. simpl in *. rewrite destroys_cons in *. apply Forall_cons in go_pending0 as [? ?].
  split; [|done]. split; try done. unfold awaiting. lia.
Qed.

Lemma gone_functor f ahead v c :
  gone (f :: ahead) v c -> exists v', run f v = Ok v' /\ gone ahead v' c.
Proof.
  intros Hg. apply gone_called in Hg as [Hg Hb]. unfold run_functor, exec_functor.
  destruct f as [|n|p|p| |g]; try done;
    [by apply gone_application|by apply gone_application| |by apply gone_application]. destruct Hg as [Hi Hch Hl Ho [= E1 E2 E3] Hs Hin Hd Hp Hn Hrm Hun].
  unfold ShutdownInLoop, in_loop. rewrite AssertInLoopThread_refl. cbn [mbind result_bind].
  unfold the_channel, channel_at. rewrite Hch. cbn [deref mbind result_bind].
  assert (IsWriting c = false) as -> by (unfold IsWriting; by rewrite E3). cbn [negb].
  eexists. split; [done|]. split; try done.
  - apply inv_set_kernel; [|done]. by rewrite shutdown_interest.
  - unfold shape. by rewrite E1, E2, E3.
  - unfold sent. simpl. by rewrite shutdown_tx.
  - simpl. by rewrite shutdown_interest.
Qed.

(** A functor, but for [OnConnectDestroyed]. *)
Lemma conn_functor f ahead v c :
  conn_at (f :: ahead) v c -> calm f -> bounded D v ->
  exists v' c', run f v = Ok v' /\ conn_at ahead v' c'.
Proof.
  intros [[Hs Hn]|Hg] Hf Hb.
  - destruct (stream_functor junk this_loop react fd t0 D ahead Hreact f v c Hs Hb) as (v' & c' & Hr & Hs').
    exists v', c'. split; [done|]. left. split; [done|].
    apply (count_calm ahead v v'); [by eapply closed_functor| |].
    + by apply (local_functor junk this_loop calm calm_own) in Hr as (_ & _ & _ & ?).
    + unfold awaiting in *. simpl in Hn. rewrite destroys_cons, Hf in Hn. exact Hn.
  - destruct (gone_functor f ahead v c Hg) as (v' & Hr & Hg'). exists v', c. split; [done|by right].
Qed.

(** One that is to be destroyed has closed, and is still in the loop. *)
Lemma destroy_pending ahead v c :
  conn_at (FOther Destroy :: ahead) v c -> closed v = true /\ live (FOther Destroy :: ahead) v c.
Proof.
  intros [[Hs Hn]|Hg].
  2:{ pose proof (go_destroys _ _ _ Hg) as Hn. unfold awaiting in Hn. simpl in Hn. by rewrite destroys_cons in Hn. }
  split; [|by split]. destruct Hn as [Hn _]. unfold awaiting in Hn. simpl in Hn. rewrite destroys_cons in Hn.
  simpl in Hn. destruct (closed v); [done|lia].
Qed.

(** A closed connection whose channel is removed, nothing being left that destroys it. *)
Lemma stream_removed ahead v c :
  stream_at this_loop fd t0 ahead v c -> closed v = true -> destroys (awaiting ahead v) = 0%nat ->
  channel_ (the_conn v) <> 0 ->
  exists i, Channel_Remove this_loop (tid_ v) (tid_ v) (channel_ (the_conn v)) (io v) = Ok i /\
    gone ahead (set_io i v) (SetIndex kNew (set_added false c)).
Proof.
  intros [Hc Hf _ Hd _ _ Hcl Hpe _] Hclo Hn Hp. pose proof (conn_registrable _ _ _ Hc) as Hreg.
  assert (conn_status v = kDisconnected) as Hst by by apply bool_decide_eq_true in Hclo.
  destruct (Channel_Remove_spec this_loop (tid_ v) _ c (io v) (ci_epoll _ _ _ Hc) Hreg Hp (ci_added _ _ _ Hc) (Hcl Hst))
    as (i & Hrun & Hii & Hch & Hint & _ & Ho).
  assert (same_socket (io v) i) as [Htx Hsh] by by eapply Channel_Remove_socket.
  exists i. split; [exact Hrun|]. split; try done.
  - simpl. by rewrite Hch, lookup_insert_eq.
  - apply Hc.
  - simpl. rewrite Ho. apply Hc.
  - unfold shape. simpl. by rewrite Hf, (Hcl Hst).
  - apply Hc.
  - unfold sent, output in *. simpl. by rewrite Htx.
  - simpl. by rewrite Hint, Hf, lookup_delete_eq.
Qed.

(** [OnConnectDestroyed]: the connection has closed, and it goes. *)
Lemma conn_destroyed ahead v c :
  conn_at (FOther Destroy :: ahead) v c -> channel_ (the_conn v) <> 0 ->
  exists v' c', OnConnectDestroyed this_loop (tid_ v) conn_cb_ v = Ok v' /\ conn_at ahead v' c'.
Proof.
  intros [Hclo [Hs [Hn _]]]%destroy_pending Hp. rewrite Hclo in Hn. unfold awaiting in Hn. simpl in Hn.
  rewrite destroys_cons in Hn. simpl in Hn.
  assert (stream_at this_loop fd t0 ahead v c) as Hs' by (eapply stream_called; [exact Hs|done]).
  destruct (stream_removed ahead v c Hs' Hclo) as (i & Hrun & Hg); [unfold awaiting; lia|done|].
  exists (set_io i v), (SetIndex kNew (set_added false c)). split; [|by right].
  apply bool_decide_eq_true in Hclo. unfold conn_status in Hclo.
  unfold OnConnectDestroyed, in_loop. rewrite AssertInLoopThread_refl, Hclo. cbn [mbind result_bind]. simpl.
  unfold on_io. by rewrite Hrun.
Qed.

(** Or it is connected, and is destroyed with its server: the application's connection
    callback is called last. *)
Lemma live_destroyed ahead v c :
  live ahead v c -> conn_status v = kConnected -> bounded D v -> channel_ (the_conn v) <> 0 ->
  exists v' c', OnConnectDestroyed this_loop (tid_ v) (application junk this_loop react TConnection) v = Ok v' /\
    gone ahead v' c'.
Proof.
  intros [Hs [Hn _]] Hst Hb Hp.
  assert (closed v = false) as Hcl by (unfold closed; by rewrite Hst). rewrite Hcl in Hn.
  assert (only_queues (G := task G) (Cb := Cb) (A := A) (V := V) (K := K) Ok) as Hok.
  { intros y. exists y, []. split; [done|]. split; [apply quiet_refl|]. by rewrite app_nil_r. }
  destruct (stream_HandleClose this_loop Ok fd t0 ahead Hok v c Hs) as (v1 & c1 & Hr1 & Hs1 & Hu1).
  { unfold is_open. by rewrite Hst. }
  pose proof Hr1 as Hl1. apply (local_HandleClose calm) in Hl1; [|by intros ? ? [= <-]; apply local_refl].
  destruct (stream_application junk this_loop react fd t0 D ahead Hreact TConnection v1 c1 Hs1) as (v2 & c2 & Hr2 & Hs2).
  { apply (bounded_room this_loop fd t0 D ahead v1 c1 Hs1). unfold bounded, the_conn in *. by rewrite Hu1. }
  pose proof Hr2 as Hl2. apply (local_application junk this_loop calm calm_own) in Hl2.
  pose proof (local_trans calm _ _ _ Hl1 Hl2) as ([Ht _] & Hid%ident_channel & _ & l & Hl & Hca).
  assert (closed v2 = true) as Hc2.
  { rewrite (closed_application _ _ _ _ Hr2). unfold closed, conn_status, the_conn. by rewrite Hu1. }
  destruct (stream_removed ahead v2 c2 Hs2 Hc2) as (i & Hrun & Hg).
  { unfold awaiting in *. rewrite Hl, app_assoc, destroys_app, (destroys_calm l Hca). lia. }
  { by rewrite Hid. }
  exists (set_io i v2), (SetIndex kNew (set_added false c2)). split; [|done].
  unfold HandleClose in Hr1. unfold OnConnectDestroyed. apply bind_ok in Hr1 as (? & -> & Hr1). cbn [mbind result_bind].
  apply bind_ok in Hr1 as (? & _ & Hr1). apply bind_ok in Hr1 as (v1' & Hch & [= ->]).
  unfold conn_status in Hst. rewrite Hst. rewrite bool_decide_eq_true_2 by done. rewrite Hch. cbn [mbind result_bind].
  rewrite Hr2. cbn [mbind result_bind]. unfold on_io. rewrite Ht in Hrun. by rewrite Ht, Hrun.
Qed.

(** What must hold for a callback of the channel to be called. *)
Definition allowed (k : conn_cb) v : Prop :=
  match k with OnRead => is_open v = true /\ bounded D v | OnClose => is_open v = true | _ => True end.

Lemma open_not_closed v : is_open v = true -> closed v = false.
Proof. unfold is_open, closed. by destruct (conn_status v). Qed.

Lemma open_live ahead v c : conn_at ahead v c -> is_open v = true -> live ahead v c.
Proof.
  intros [?|Hg] Ho; [done|]. apply open_not_closed in Ho. unfold closed in Ho.
  by rewrite (go_status _ _ _ Hg) in Ho.
Qed.

(** A step that may close, from an open connection. *)
Lemma live_adds ahead v v' c c' :
  live ahead v c -> is_open v = true -> stream_at this_loop fd t0 ahead v' c' -> adds v v' -> live ahead v' c'.
Proof.
  intros [_ [Hn _]] Ho Hs (l & Hp & Hc). split; [done|]. rewrite (open_not_closed v Ho) in Hn.
  unfold awaiting in *. rewrite Hp, app_assoc, destroys_app. by replace (destroys _) with 0%nat by lia.
Qed.

Lemma conn_member k ahead v c :
  conn_at ahead v c -> allowed k v ->
  exists v' c', call_channel junk this_loop (tid_ v) (application junk this_loop react TMessage) close_cb_ k v = Ok v' /\
    conn_at ahead v' c'.
Proof.
  intros Hc Ha. pose proof (closes_only_queues _ Hclose) as Hq. destruct k; simpl in *.
  - destruct Ha as [Ho Hb]. pose proof (open_live _ _ _ Hc Ho) as Hl.
    destruct (stream_HandleRead junk this_loop react close_cb_ fd t0 D ahead Hreact Hq v c (proj1 Hl) Hb Ho)
      as (v' & c' & Hr & Hs'). exists v', c'. split; [done|]. left.
    apply (live_adds ahead v v' c c' Hl Ho Hs'). eapply read_adds; [done|by apply open_not_closed|exact Hr].
  - destruct Hc as [[Hs Hn]|Hg].
    + destruct (stream_HandleWrite this_loop fd t0 ahead v c Hs) as (v' & c' & Hr & Hs' & _).
      exists v', c'. split; [done|]. left. split; [done|]. apply (count_calm ahead v v'); [| |done].
      * by eapply closed_same, status_HandleWrite.
      * by apply (local_HandleWrite calm calm_own) in Hr as (_ & _ & _ & ?).
    + exists v, c. split; [|by right]. destruct Hg as [? Hch ? ? [= E1 E2 E3] ? ? ? ? ? ? ?].
      unfold HandleWrite, in_loop, the_channel, channel_at. rewrite AssertInLoopThread_refl, Hch.
      cbn [mbind result_bind deref]. unfold IsWriting. by rewrite E3.
  - pose proof (open_live _ _ _ Hc Ha) as Hl.
    destruct (stream_HandleClose this_loop close_cb_ fd t0 ahead Hq v c (proj1 Hl) Ha) as (v' & c' & Hr & Hs' & _).
    exists v', c'. split; [done|]. left. apply (live_adds ahead v v' c c' Hl Ha Hs'). by eapply close_adds.
  - exists v, c. split; [|done]. unfold HandleError, the_channel, channel_at.
    destruct (conn_at_parts _ _ _ Hc) as (_ & Hch & _). by rewrite Hch.
Qed.

Lemma conn_Shutdown by_ ahead v c :
  conn_at ahead v c -> exists v', Shutdown by_ v = Ok v' /\ conn_at ahead v' c.
Proof.
  intros [[Hs Hn]|Hg].
  - destruct (stream_Shutdown this_loop fd t0 ahead by_ v c Hs) as (v' & Hr & Hs' & _). exists v'. split; [done|].
    left. split; [done|]. apply (count_calm ahead v v'); [by eapply closed_Shutdown| |done].
    by apply (local_Shutdown calm calm_own) in Hr as (_ & _ & _ & ?).
  - exists v. split; [|by right]. unfold Shutdown. pose proof (go_status _ _ _ Hg) as Hst. unfold conn_status in Hst.
    by rewrite Hst.
Qed.
End Phases.
