(* ===== verification/LoopConns.v ===== *)
(** * Many connections in one event loop (evk/event_loop.cc with evk/tcp_conn.cc)

    EventLoop.v and TcpConnection.v put together: the loop polls the channels of all
    its connections, dispatches what the kernel reports to the member bound to each
    callback, and calls the functors that the connections and other threads queued.
    Every connection runs application code of its own. *)

From S2P Require Import Prelude Bytes Slice Buffer BufferFacts BufferSpec BufferIO LoopThread Duration.
From S2P Require Import Timestamp Channel EPoller EPollerFacts EventFd ServerStatus LoopChannels.
From S2P Require Import EventLoop LoopTimers SocketKernel TcpConnection TcpConnFacts TcpSend TcpConnProps.
From S2P Require Import TcpConnLife TcpStream TcpFrame ConnPhases.
#[local] Open Scope Z_scope.

(** What another thread does to the loop, or the network to the kernel. *)
Inductive act (G K : Type) :=
  | AQueue (by_ : thread_id) (t : ptr) (g : task G)
  | AShutdown (by_ : thread_id) (t : ptr)
  | AKernel (f : K -> K).
Arguments AQueue {G K} by_ t g. Arguments AShutdown {G K} by_ t. Arguments AKernel {G K} f.

(** epoll_wait(2) and a read of the eventfd leave the sockets' streams alone. *)
Class LoopKernelLaws (K : Type) `{EpollKernel K, EventfdKernel K, SocketKernel K} := {
  wait_tx n t k : tx (epoll_wait n t k).2 = tx k;
  wait_shut n t k : wr_shut (epoll_wait n t k).2 = wr_shut k;
  eread_tx k : tx (efd_read k).2 = tx k;
  eread_shut k : wr_shut (efd_read k).2 = wr_shut k;
  eread_interest k : interest (efd_read k).2 = interest k
}.

Section LoopConns.
Context {G A V K : Type} `{EpollKernel K, EventfdKernel K, SocketKernel K}.

(** Connections are named by the address of the object, which the functors and the
    callbacks of their channels are bound to.  The application may hold on to the
    object, so it stays after [OnConnectDestroyed]. *)
Abbreviation cb := (loop_cb (ptr * conn_cb)).
Abbreviation conn_user := (cuser A (list bytes * V)).
Abbreviation cworld := (lworld (functor (task G)) cb conn_user K).
Abbreviation mworld := (lworld (ptr * functor (task G)) cb (gmap ptr conn_user) K).

(** The functors of one connection, in order. *)
Definition mine (t : ptr) (l : list (ptr * functor (task G))) : list (functor (task G)) := (filter (fun x => x.1 = t) l).*2.

(** The loop as the connection at [t] sees it, and back: its members only add
    functors, at the end. *)
Definition view (t : ptr) (u : conn_user) (w : mworld) : cworld :=
  mkLWorld (tid_ w) (EventLoop.status_ w) (is_calling_pending_functors_ w) (mine t (pending_functors_ w))
    (wakeup_channel_ w) (timer_channel_ w) (active_channels_ w) (threads w) (io w) u.
Definition back (t : ptr) (v : cworld) (w : mworld) : mworld :=
  mkLWorld (tid_ v) (EventLoop.status_ v) (is_calling_pending_functors_ v)
    (pending_functors_ w ++ (pair t <$> drop (length (mine t (pending_functors_ w))) (pending_functors_ v)))
    (wakeup_channel_ v) (timer_channel_ v) (active_channels_ v) (threads v) (io v)
    (<[t := user v]> (user w)).

Definition on_conn (t : ptr) (f : cworld -> result cworld) (w : mworld) : result mworld :=
  u ← deref (user w !! t); v ← f (view t u w); Ok (back t v w).

(** [react]: the application code of each connection; [conn_cb_]: its connection
    callback when it is destroyed; [timer]: the timer queue's [HandleRead]. *)
Context (junk : nat -> byte) (this_loop : ptr) (react : ptr -> trigger (task G) -> cworld -> list user_op)
  (conn_cb_ close_cb_ : ptr -> cworld -> result cworld) (timer : mworld -> result mworld).

(** The callback of a channel. *)
Definition dispatch (c : cb) (w : mworld) : result mworld :=
  match c with
  | OnWakeup => Ok (EventLoop.HandleRead w)
  | OnTimer => timer w
  | OnChannel (t, c) =>
      on_conn t (call_channel junk this_loop (tid_ w) (application junk this_loop (react t) TMessage)
        (close_cb_ t) c) w
  end.

(** A functor. *)
Definition call_functor (f : ptr * functor (task G)) (w : mworld) : result mworld :=
  let '(t, f) := f in
  match f with
  | FOther Destroy => on_conn t (OnConnectDestroyed this_loop (tid_ w) (conn_cb_ t)) w
  | _ => on_conn t (run_functor junk this_loop (react t) f) w
  end.

Definition run_act (a : act G K) (w : mworld) : result mworld :=
  match a with
  | AQueue by_ t g => Ok (QueueInLoop by_ (t, FOther g) w)
  | AShutdown by_ t => on_conn t (Shutdown by_) w
  | AKernel f => Ok (set_io (set_kernel (f (kernel (io w))) (io w)) w)
  end.

(** A turn of the loop, after what others do before the wait returns. *)
Definition loop_turn (x : list (act G K) * timeval) (w : mworld) : result mworld :=
  w ← foldM run_act x.1 w; EventLoop.turn call_functor dispatch id x.2 w.

Definition run_turns (sched : list (list (act G K) * timeval)) (w : mworld) : result mworld :=
  foldM loop_turn sched w.
End LoopConns.

(** ** The two views of the loop *)

Section Views.
Context {G A V K : Type} `{EpollLaws K, EventfdKernel K, SocketKernel K, !SocketLaws K, !SocketFrame K}.
Abbreviation cb := (loop_cb (ptr * conn_cb)).
Abbreviation conn_user := (cuser A (list bytes * V)).
Abbreviation cworld := (lworld (functor (task G)) cb conn_user K).
Abbreviation mworld := (lworld (ptr * functor (task G)) cb (gmap ptr conn_user) K).
Implicit Types (v : cworld) (w : mworld) (t : ptr) (u : conn_user).

Lemma mine_app t (l l' : list (ptr * functor (task G))) : mine t (l ++ l') = mine t l ++ mine t l'.
Proof. unfold mine. by rewrite filter_app, fmap_app. Qed.

Lemma mine_cons t (f : functor (task G)) l : mine t ((t, f) :: l) = f :: mine t l.
Proof. unfold mine. by rewrite filter_cons_True. Qed.

Lemma mine_cons_ne t t' (f : functor (task G)) l : t' <> t -> mine t ((t', f) :: l) = mine t l.
Proof. intros. unfold mine. by rewrite filter_cons_False. Qed.

Lemma mine_tag t (l : list (functor (task G))) : mine t (pair t <$> l) = l.
Proof. induction l as [|f l IH]; [done|]. rewrite fmap_cons, mine_cons. by rewrite IH. Qed.

Lemma mine_tag_ne t t' (l : list (functor (task G))) : t' <> t -> mine t (pair t' <$> l) = [].
Proof. intros Ht. induction l as [|f l IH]; [done|]. by rewrite fmap_cons, mine_cons_ne. Qed.

Lemma back_pending t u v w l :
  pending_functors_ v = pending_functors_ (view t u w) ++ l ->
  pending_functors_ (back t v w) = pending_functors_ w ++ (pair t <$> l).
Proof. simpl. intros ->. by rewrite drop_app_length. Qed.

Lemma view_back t u v w Q : queues Q (view t u w) v -> view t (user v) (back t v w) = v.
Proof.
  intros (l & Hl & _). pose proof (back_pending t u v w l Hl) as Hp. unfold view. rewrite Hp, mine_app, mine_tag.
  simpl in Hl. rewrite <- Hl. by destruct v.
Qed.

Lemma on_conn_ok t f w w' :
  on_conn t f w = Ok w' ->
  exists u v, user w !! t = Some u /\ f (view t u w) = Ok v /\ w' = back t v w.
Proof.
  unfold on_conn. intros (u & Hu%deref_ok & Hr)%bind_ok. apply bind_ok in Hr as (v & Hv & [= <-]). eauto.
Qed.

(** [QueueInLoop] is the same in both. *)
Lemma queue_on_conn by_ t f u w :
  user w !! t = Some u ->
  on_conn t (fun v => Ok (QueueInLoop by_ f v)) w = Ok (QueueInLoop by_ (t, f) w).
Proof.
  intros Hu. unfold on_conn. rewrite Hu. cbn [deref mbind result_bind]. f_equal.
  unfold QueueInLoop, must_wake, Wakeup, push_functor, back. simpl.
  destruct (negb _ || _); simpl; [destruct (efd_write 1 (kernel (io w))) as [n k]|];
    simpl; rewrite drop_app_length; rewrite insert_id by done; by destruct w.
Qed.

(** ** What a member leaves alone *)

Abbreviation any := (fun _ : functor (task G) => True).

(** Every channel keeps its descriptor, its callbacks and what it received. *)
Definition cores w w' : Prop := forall p, core_at p (io w') = core_at p (io w).

Lemma local_cores t u v w : local any (view t u w) v -> cores w (back t v w).
Proof.
  intros (_ & _ & [Hc Hch _ _] & _) p. change (io (back t v w)) with (io v). change (io w) with (io (view t u w)).
  destruct (decide (p = channel_ (the_conn (view t u w)))) as [->|Hne]; [done|]. unfold core_at. by rewrite Hch.
Qed.

Lemma on_conn_cores t f w w' :
  (forall v v', f v = Ok v' -> local any v v') -> on_conn t f w = Ok w' -> cores w w'.
Proof. intros Hf (u & v & _ & Hv & ->)%on_conn_ok. by eapply local_cores, Hf. Qed.
End Views.
