(* ===== verification/LoopServes.v ===== *)
(** * A loop serves its connections

    The invariant of a loop with many connections, each in its phase, and what turns
    of the loop do: every dispatch, every functor, and what other threads and the
    network do between. *)

From S2P Require Import Prelude Bytes Slice Buffer BufferFacts BufferSpec BufferIO LoopThread Duration.
From S2P Require Import Timestamp Channel EPoller EPollerFacts EventFd ServerStatus LoopChannels.
From S2P Require Import EventLoop EventLoopProps LoopTimers SocketKernel TcpConnection TcpConnFacts TcpSend TcpConnProps.
From S2P Require Import TcpConnLife TcpStream TcpFrame ConnPhases LoopConns.
#[local] Open Scope Z_scope.

(** Where a connection started: its channel, its descriptor and what had been sent. *)
Record base := mkBase { b_channel : ptr; b_fd : Z; b_sent : bytes }.

(** The read callbacks of a loop's own channels. *)
Definition loop_own {C} (k : loop_cb C) : Prop := k = OnWakeup \/ k = OnTimer.

Section Loop.
Context {G A V K : Type} `{EpollLaws K, EventfdKernel K, SocketKernel K, !SocketLaws K, !SocketFrame K, !LoopKernelLaws K}.
Abbreviation cb := (loop_cb (ptr * conn_cb)).
Abbreviation conn_user := (cuser A (list bytes * V)).
Abbreviation cworld := (lworld (functor (task G)) cb conn_user K).
Abbreviation mworld := (lworld (ptr * functor (task G)) cb (gmap ptr conn_user) K).
Implicit Types (v : cworld) (w : mworld) (t : ptr) (u : conn_user) (c : Channel cb).

(** The connections of the loop; their descriptors are open, hence distinct. *)
Context (junk : nat -> byte) (this_loop : ptr) (own : cb -> Prop) (S : gmap ptr base) (prompt : bool).
Record bases_ok : Prop := {
  bo_channel t b : S !! t = Some b -> b_channel b <> 0;
  bo_fd t t' b b' : S !! t = Some b -> S !! t' = Some b' -> b_fd b = b_fd b' -> t = t'
}.
Context (HS : bases_ok).

(** The callbacks of a connection's channel, and of the loop's other channels, such
    as [own] allows. *)
Definition bound_to t c : Prop :=
  read_fn_ c = Some (OnChannel (t, OnRead)) /\ write_fn_ c = Some (OnChannel (t, OnWrite)) /\
  close_fn_ c = Some (OnChannel (t, OnClose)) /\ error_fn_ c = Some (OnChannel (t, OnError)).
Definition own_channel c : Prop :=
  (exists k, read_fn_ c = Some k /\ own k) /\ write_fn_ c = None /\
  close_fn_ c = None /\ error_fn_ c = None.

Definition conn_ok (ahead : list (ptr * functor (task G))) w t (b : base) : Prop := exists u c,
  user w !! t = Some u /\ channel_ (conn u) = b_channel b /\
  conn_at this_loop prompt (b_fd b) (b_sent b) (mine t ahead) (view t u w) c /\ bound_to t c.

(** [ahead]: the functors taken from the queue and not called yet. *)
Record loop_inv (ahead : list (ptr * functor (task G))) w : Prop := {
  li_epoll : inv_but None (io w);
  li_conns t b : S !! t = Some b -> conn_ok ahead w t b;
  li_known p c : channels (io w) !! p = Some c ->
    own_channel c \/ exists t b, S !! t = Some b /\ b_channel b = p /\ bound_to t c;
  li_queue x : x ∈ ahead ++ pending_functors_ w -> is_Some (S !! x.1);
  li_objects t : is_Some (user w !! t) -> is_Some (S !! t)
}.

(** [w'] differs from [w] in functors of connections' applications, added at the end,
    and in what the kernel keeps for others. *)
Definition extra w (x : ptr * functor (task G)) : Prop :=
  is_Some (user w !! x.1) /\ exists g, x.2 = FOther (App g).
Definition aside w w' : Prop :=
  user w' = user w /\ (tid_ w' = tid_ w /\ EventLoop.status_ w' = EventLoop.status_ w) /\
  poller (io w') = poller (io w) /\ channels (io w') = channels (io w) /\ interest (kernel (io w')) = interest (kernel (io w)) /\
  tx (kernel (io w')) = tx (kernel (io w)) /\ wr_shut (kernel (io w')) = wr_shut (kernel (io w)) /\
  exists l, pending_functors_ w' = pending_functors_ w ++ l /\ Forall (extra w) l.

Lemma core_fns c c' :
  core c' = core c ->
  (forall t, bound_to t c -> bound_to t c') /\ (own_channel c -> own_channel c') /\ revents_ c' = revents_ c /\
  same_dispatch c c'.
Proof.
  unfold bound_to, own_channel, same_dispatch. destruct c, c'. intros [=]. simpl in *. subst. by split_and!.
Qed.

Lemma cores_lookup w w' p c' :
  cores w w' -> channels (io w') !! p = Some c' -> exists c, channels (io w) !! p = Some c /\ core c' = core c.
Proof.
  intros Hc Hp. specialize (Hc p). unfold core_at in Hc. rewrite Hp in Hc. simpl in Hc. symmetry in Hc.
  apply fmap_Some in Hc as (c & ? & ?). eauto.
Qed.

Lemma known_cores w w' :
  cores w w' ->
  (forall p c, channels (io w) !! p = Some c ->
    own_channel c \/ exists t b, S !! t = Some b /\ b_channel b = p /\ bound_to t c) ->
  forall p c, channels (io w') !! p = Some c ->
    own_channel c \/ exists t b, S !! t = Some b /\ b_channel b = p /\ bound_to t c.
Proof.
  intros Hc Hk p c' Hp. destruct (cores_lookup w w' p c' Hc Hp) as (c & Hpc & He).
  destruct (core_fns c c' He) as (Hb & Ho & _). destruct (Hk p c Hpc) as [?|(t & b & ? & ? & ?)]; [left; eauto|].
  right. exists t, b. eauto.
Qed.

Lemma bound_inj t t' c : bound_to t c -> bound_to t' c -> t = t'.
Proof. intros (E & _) (E' & _). congruence. Qed.

Abbreviation any := (fun _ : functor (task G) => True).

(** Connections have channels and descriptors of their own. *)
Lemma apart ahead w t t2 b b2 :
  loop_inv ahead w -> S !! t = Some b -> S !! t2 = Some b2 -> t2 <> t ->
  b_channel b2 <> b_channel b /\ fd_at (b_channel b) (io w) <> Some (b_fd b2).
Proof.
  intros Hi Hb Hb2 Hne. destruct (li_conns _ _ Hi t b Hb) as (u & c & _ & Hcu & Hs & Hbd).
  destruct (li_conns _ _ Hi t2 b2 Hb2) as (u2 & c2 & _ & Hcu2 & Hs2 & Hbd2).
  destruct (conn_at_parts _ _ _ _ _ _ _ Hs) as (_ & Hc & Hfd & _).
  destruct (conn_at_parts _ _ _ _ _ _ _ Hs2) as (_ & Hc2 & _). unfold the_conn in Hc, Hc2. simpl in Hc, Hc2.
  rewrite Hcu in Hc. rewrite Hcu2 in Hc2. split.
  - intros He. rewrite He, Hc in Hc2. injection Hc2 as <-. by apply Hne, (bound_inj _ _ c).
  - unfold fd_at. rewrite Hc. simpl. rewrite Hfd. intros [= He]. by apply Hne, (bo_fd HS t2 t b2 b).
Qed.

(** Others go on as before when a connection takes a step. *)
Lemma other_conn_ok ahead ahead' w t u v t2 b2 :
  conn_ok ahead w t2 b2 -> local any (view t u w) v -> inv_but None (io v) ->
  b_channel b2 <> channel_ (conn u) -> fd_at (channel_ (conn u)) (io w) <> Some (b_fd b2) ->
  mine t2 ahead' = mine t2 ahead -> t2 <> t -> conn_ok ahead' (back t v w) t2 b2.
Proof.
  intros (u2 & c2 & Hu2 & Hcu2 & Hs & Hbd2) ([Htid _] & _ & Hf & l & Hl & _) Hiv Hch Hfd Hmine Hne.
  exists u2, c2. change (user (back t v w)) with (<[t := user v]> (user w)).
  rewrite lookup_insert_ne by done. split; [done|]. split; [done|]. split; [|done]. rewrite Hmine.
  destruct (conn_at_parts _ _ _ _ _ _ _ Hs) as (_ & Hc2 & _).
  unfold the_conn in Hc2, Hf. simpl in Hc2, Hf. rewrite Hcu2 in Hc2.
  destruct Hf as [_ Hfc Hfo Hfk]. destruct (Hfk (b_fd b2) Hfd) as (Hint & Htx & Hsh).
  eapply conn_at_io with (v := view t2 u2 w) (c := c2); try done; unfold the_conn; simpl.
  - rewrite Hl, mine_app. simpl. rewrite drop_app_length, mine_tag_ne by done. by rewrite app_nil_r.
  - rewrite Hcu2, Hfc by done. exact Hc2.
Qed.

(** A step of a connection. *)
Lemma conn_step_inv ahead ahead' w t b f :
  loop_inv ahead w -> S !! t = Some b -> (forall v v', f v = Ok v' -> local any v v') ->
  (forall t2, t2 <> t -> mine t2 ahead' = mine t2 ahead) -> (forall x, x ∈ ahead' -> x ∈ ahead) ->
  (forall u c, user w !! t = Some u -> channel_ (conn u) = b_channel b ->
     conn_at this_loop prompt (b_fd b) (b_sent b) (mine t ahead) (view t u w) c ->
     exists v c', f (view t u w) = Ok v /\ conn_at this_loop prompt (b_fd b) (b_sent b) (mine t ahead') v c') ->
  exists w', on_conn t f w = Ok w' /\ loop_inv ahead' w'.
Proof.
  intros Hi Hb Hlocal Hmine Hsub Hrun. destruct (li_conns _ _ Hi t b Hb) as (u & c & Hu & Hcu & Hs & Hbd).
  destruct (conn_at_parts _ _ _ _ _ _ _ Hs) as (_ & Hch & Hfd & _).
  unfold the_conn in Hch. simpl in Hch. rewrite Hcu in Hch.
  destruct (Hrun u c Hu Hcu Hs) as (v & c' & Hv & Hs'). pose proof (Hlocal _ _ Hv) as Hl.
  destruct (conn_at_parts _ _ _ _ _ _ _ Hs') as (Hiv & Hch' & _).
  exists (back t v w). unfold on_conn. rewrite Hu. cbn [deref mbind result_bind]. rewrite Hv.
  split; [done|]. pose proof Hl as (_ & Hcv%ident_channel & _ & Hq). pose proof (view_back t u v w _ Hq) as Hvb.
  pose proof (local_cores t u v w Hl) as Hcores. split.
  - exact Hiv.
  - intros t2 b2 Hb2. destruct (decide (t2 = t)) as [->|Hne].
    + assert (b2 = b) as -> by congruence. exists (user v), c'.
      change (user (back t v w)) with (<[t := user v]> (user w)). rewrite lookup_insert_eq, Hvb. split; [done|].
      unfold the_conn in Hcv. simpl in Hcv. split; [by rewrite Hcv|]. split; [done|].
      unfold the_conn in Hch'. rewrite Hcv, Hcu in Hch'.
      destruct (cores_lookup w (back t v w) (b_channel b) c' Hcores Hch') as (c0 & Hc0 & He).
      rewrite Hch in Hc0. injection Hc0 as <-. by apply (core_fns c c').
    + destruct (apart ahead w t t2 b b2 Hi Hb Hb2 Hne) as [Hp Hf]. rewrite <- Hcu in Hp, Hf.
      eapply other_conn_ok; [by apply (li_conns _ _ Hi)|exact Hl|done..|by apply Hmine|done].
  - eapply known_cores; [exact Hcores|apply Hi].
  - destruct Hq as (l & Hp & _). rewrite (back_pending t u v w l Hp). intros x.
    rewrite app_assoc, elem_of_app. intros [Hx|(f0 & -> & _)%list_elem_of_fmap]; [|simpl; eauto].
    apply (li_queue _ _ Hi). rewrite elem_of_app in *. naive_solver.
  - intros t2. change (user (back t v w)) with (<[t := user v]> (user w)).
    intros [<-|[_ ?]]%lookup_insert_is_Some; [by eexists|by apply (li_objects _ _ Hi)].
Qed.

(** What others do. *)
Lemma extra_mine w t l : Forall (extra w) l -> Forall (fun f => exists g, f = FOther (App g)) (mine t l).
Proof.
  intros Hl. apply Forall_forall. intros f ([t' f'] & -> & [_ Hin]%list_elem_of_filter)%list_elem_of_fmap.
  rewrite Forall_forall in Hl. by destruct (Hl _ Hin) as [_ ?].
Qed.

Lemma aside_inv ahead w w' : aside w w' -> loop_inv ahead w -> loop_inv ahead w'.
Proof.
  intros (Hu & [Ht Hst] & Hp & Hc & Hint & Htx & Hsh & l & Hl & Hext) [Hi Hconns Hk Hq Hob].
  assert (inv_but None (io w')) as Hi'.
  { destruct Hi as [Hm Hke Hx Hs]. split; rewrite ?Hp, ?Hc; try done; rewrite Hint; done. }
  split; [done| |by rewrite Hc| |by rewrite Hu].
  - intros t b Hb. destruct (Hconns t b Hb) as (u & c & Hu' & Hcu & Hs & Hbd).
    exists u, c. rewrite Hu. split; [done|]. split; [done|]. split; [|done].
    eapply conn_at_move with (ahead := mine t ahead) (v := view t u w) (l := mine t l);
      [by split| |by eapply extra_mine|done].
    unfold awaiting. simpl. by rewrite Hl, mine_app, app_assoc.
  - intros x. rewrite Hl, app_assoc, elem_of_app. intros [?|Hx]; [by apply Hq|].
    rewrite Forall_forall in Hext. by apply Hob, Hext.
Qed.

(** A loop whose connections were just established. *)
Record loop_fresh w : Prop := {
  lf_epoll : inv_but None (io w);
  lf_conns t b : S !! t = Some b -> exists u c,
    user w !! t = Some u /\ channel_ (conn u) = b_channel b /\ fresh this_loop (view t u w) c /\
    fd_ c = b_fd b /\ sent (view t u w) (b_fd b) = b_sent b /\ bound_to t c;
  lf_known p c : channels (io w) !! p = Some c ->
    own_channel c \/ exists t b, S !! t = Some b /\ b_channel b = p /\ bound_to t c;
  lf_pending : pending_functors_ w = [];
  lf_objects t : is_Some (user w !! t) -> is_Some (S !! t)
}.

Lemma fresh_loop_inv w : loop_fresh w -> loop_inv [] w.
Proof.
  intros [He Hconns Hk Hp Ho]. split; [done| |done|rewrite Hp; by intros x ?%elem_of_nil|done].
  intros t b Hb. destruct (Hconns t b Hb) as (u & c & Hu & Hcu & Hf & Hfd & Hse & Hbd). exists u, c.
  split; [done|]. split; [done|]. split; [|done]. left. split.
  - apply fresh_inv in Hf. by rewrite Hfd, Hse in Hf.
  - destruct Hf as (_ & Hst & _ & _ & _ & Hpv & _). unfold awaiting, closed. rewrite Hpv, Hst. by split.
Qed.

(** ** Callbacks and functors *)

Context (react : ptr -> trigger (task G) -> cworld -> list user_op)
  (conn_cb_ close_cb_ : ptr -> cworld -> result cworld) (timer : mworld -> result mworld) (D : Z).

(** The applications as in TcpStream.v; closing queues at most the functor that
    destroys, and does if it is [prompt]; timers queue functors of applications. *)
Record apps_ok : Prop := {
  ao_react t : react_ok (react t) D;
  ao_conn t v v' : conn_cb_ t v = Ok v' -> local calm v v';
  ao_close t : closes prompt (close_cb_ t);
  ao_timer w : exists w', timer w = Ok w' /\ aside w w'
}.
Context (Hok : apps_ok).

Abbreviation call := (dispatch junk this_loop react close_cb_ timer).
Abbreviation exec := (call_functor junk this_loop react conn_cb_).

Definition all_bounded w : Prop := forall t b u, S !! t = Some b -> user w !! t = Some u -> bounded D (view t u w).

Lemma local_mono (Q : functor (task G) -> Prop) v v' : local Q v v' -> local any v v'.
Proof. intros (? & ? & ? & l & Hl & _). do 3 (split; [done|]). exists l. split; [done|by apply Forall_true]. Qed.

(** What a functor runs leaves others alone, and destroys nobody. *)
Definition functor_body (t : ptr) (f : functor (task G)) (cur : thread_id) : cworld -> result cworld :=
  if is_destroy f then OnConnectDestroyed this_loop cur (conn_cb_ t) else run_functor junk this_loop (react t) f.

Lemma exec_body t f w : exec (t, f) w = on_conn t (functor_body t f (tid_ w)) w.
Proof. by destruct f as [| | | | |[|]]. Qed.

Lemma local_body t f cur v v' : functor_body t f cur v = Ok v' -> local calm v v'.
Proof.
  unfold functor_body. destruct (is_destroy f).
  - apply (local_Destroyed calm). apply (ao_conn Hok).
  - apply local_functor, calm_own.
Qed.

(** The functor that comes next. *)
Lemma exec_inv x ahead w :
  loop_inv (x :: ahead) w -> all_bounded w -> exists w', exec x w = Ok w' /\ loop_inv ahead w'.
Proof.
  destruct x as [t f]. intros Hi Hbd. destruct (li_queue _ _ Hi (t, f)) as [b Hb]; [set_solver|].
  rewrite exec_body. eapply (conn_step_inv ((t, f) :: ahead)); [done|done| | |set_solver|].
  - intros v v' Hr. by eapply local_mono, local_body.
  - intros t2 Hne. by rewrite mine_cons_ne.
  - rewrite mine_cons. intros u c Hu Hcu Hs. unfold functor_body. change (tid_ w) with (tid_ (view t u w)).
    destruct (is_destroy f) eqn:Ef.
    + destruct f as [| | | | |[|]]; try done. eapply conn_destroyed; [exact Hs|].
      unfold the_conn. simpl. rewrite Hcu. by apply (bo_channel HS t).
    + eapply conn_functor; [apply (ao_react Hok)|exact Hs|done|by eapply Hbd].
Qed.

(** Functors queued in between destroy nobody. *)
Definition calm_queue w : Prop := Forall (fun x => calm x.2) (pending_functors_ w).

Lemma calm_step t f w w' :
  (forall v v', f v = Ok v' -> local calm v v') -> on_conn t f w = Ok w' -> calm_queue w -> calm_queue w'.
Proof.
  intros Hf (u & v & _ & Hv & ->)%on_conn_ok. destruct (Hf _ _ Hv) as (_ & _ & _ & l & Hl & Hc).
  unfold calm_queue. rewrite (back_pending t u v w l Hl). intros Hq. apply Forall_app. split; [done|].
  by apply Forall_fmap.
Qed.

Lemma exec_calm x w w' : exec x w = Ok w' -> calm_queue w -> calm_queue w'.
Proof. destruct x as [t f]. rewrite exec_body. apply calm_step. intros v v'. apply local_body. Qed.

(** A member bound to a channel of a connection. *)
Lemma member_inv k ahead t b w :
  loop_inv ahead w -> S !! t = Some b -> (forall u, user w !! t = Some u -> allowed D k (view t u w)) ->
  exists w', call (OnChannel (t, k)) w = Ok w' /\ loop_inv ahead w'.
Proof.
  intros Hi Hb Hal. simpl. apply (conn_step_inv ahead ahead _ _ b); [done|done| |done|done|].
  { intros v v'. apply local_channel, closes_only_queues with (prompt := prompt), (ao_close Hok). }
  intros u c Hu _ Hs. change (tid_ w) with (tid_ (view t u w)).
  eapply conn_member; [apply (ao_react Hok)|apply (ao_close Hok)|exact Hs|by apply Hal].
Qed.

Lemma aside_refl w : aside w w.
Proof. split_and!; try done. exists []. by rewrite app_nil_r. Qed.

Lemma own_inv k ahead w :
  loop_own k -> loop_inv ahead w -> exists w', call k w = Ok w' /\ loop_inv ahead w'.
Proof.
  intros [-> | ->] Hi; simpl.
  - eexists. split; [done|]. eapply aside_inv; [|exact Hi]. unfold EventLoop.HandleRead.
    pose proof (eread_tx (kernel (io w))) as E1. pose proof (eread_shut (kernel (io w))) as E2.
    pose proof (eread_interest (kernel (io w))) as E3.
    destruct (efd_read (kernel (io w))) as [n k]. simpl in *. split_and!; try done. exists []. by rewrite app_nil_r.
  - destruct (ao_timer Hok w) as (w' & Hr & Ha). exists w'. split; [done|]. by eapply aside_inv.
Qed.

Lemma call_cores k w w' : call k w = Ok w' -> cores w w'.
Proof.
  destruct k as [| |[t k]]; simpl.
  - intros [= <-] p. unfold EventLoop.HandleRead. by destruct (efd_read _).
  - intros Hr p. destruct (ao_timer Hok w) as (w1 & Hr1 & _ & _ & _ & Hc & _). rewrite Hr in Hr1.
    injection Hr1 as <-. unfold core_at. by rewrite Hc.
  - apply on_conn_cores. intros v v'. apply local_channel, closes_only_queues with (prompt := prompt), (ao_close Hok).
Qed.

(** ** Dispatch *)

Lemma marks_fields c c' :
  marks c' = marks c ->
  shape c' = shape c /\ Channel.loop_ c' = Channel.loop_ c /\ (forall t, bound_to t c -> bound_to t c') /\
  (own_channel c -> own_channel c') /\ added_to_loop_ c' = added_to_loop_ c.
Proof. unfold bound_to, own_channel, shape. destruct c, c'. intros [=]. simpl in *. by subst. Qed.

(** Events are received, the flag of a dispatch changes, or other sockets change. *)
Lemma redispatch_inv ahead w w' :
  user w' = user w -> tid_ w' = tid_ w -> pending_functors_ w' = pending_functors_ w ->
  owner_tid (poller (io w')) = owner_tid (poller (io w)) ->
  (forall t b, S !! t = Some b -> tx (kernel (io w')) (b_fd b) = tx (kernel (io w)) (b_fd b) /\
     wr_shut (kernel (io w')) (b_fd b) = wr_shut (kernel (io w)) (b_fd b)) ->
  interest (kernel (io w')) = interest (kernel (io w)) ->
  (forall q, marks <$> channels (io w') !! q = marks <$> channels (io w) !! q) ->
  inv_but None (io w') -> loop_inv ahead w -> loop_inv ahead w'.
Proof.
  intros Hu Ht Hp Ho Hsock Hint Hm Hi' [Hi Hconns Hk Hq Hob]. split; [done| | |by rewrite Hp|by rewrite Hu].
  - intros t b Hb. destruct (Hconns t b Hb) as (u & c & Hu' & Hcu & Hs & Hbd).
    destruct (conn_at_parts _ _ _ _ _ _ _ Hs) as (_ & Hc & _). unfold the_conn in Hc. simpl in Hc.
    pose proof (Hm (channel_ (conn u))) as He. rewrite Hc in He. apply fmap_Some in He as (c' & Hc' & He).
    symmetry in He. destruct (marks_fields c c' He) as (Hshape & Hlp & Hbt & _ & Had).
    exists u, c'. rewrite Hu. split; [done|]. split; [done|]. split; [|by apply Hbt].
    destruct (Hsock t b Hb) as [Htx Hsh].
    eapply conn_at_io with (v := view t u w) (c := c); unfold sent, shut; simpl; rewrite ?Hint; try done; congruence.
  - intros p c' Hc'. pose proof (Hm p) as He. rewrite Hc' in He. symmetry in He.
    apply fmap_Some in He as (c & Hc & He). destruct (marks_fields c c' He) as (_ & _ & Hbt & Hown & _).
    destruct (Hk p c Hc) as [?|(t & b & ? & ? & ?)]; [left; by apply Hown|]. right. exists t, b. eauto.
Qed.

Lemma put_inv ahead p c c' w :
  channels (io w) !! p = Some c -> marks c' = marks c -> loop_inv ahead w -> loop_inv ahead (put_channel p c' w).
Proof.
  intros Hc He Hi.
  assert (forall q, marks <$> channels (io (put_channel p c' w)) !! q = marks <$> channels (io w) !! q) as Hm.
  { intros q. simpl. destruct (decide (q = p)) as [->|]; [|by rewrite lookup_insert_ne].
    rewrite lookup_insert_eq, Hc. simpl. by rewrite He. }
  apply (redispatch_inv ahead w); try done. apply (inv_shape None (<[p := c']> (channels (io w)))); [|apply Hi].
  intros q. destruct (decide (q = p)) as [->|]; [|by rewrite lookup_insert_ne].
  rewrite lookup_insert_eq, Hc. simpl. f_equal. by apply marks_fields.
Qed.

Definition hang_up c : bool := has (revents_ c) POLLHUP && negb (has (revents_ c) POLLIN).
Definition to_read c : bool := has (revents_ c) (Z.lor (Z.lor POLLIN POLLPRI) POLLRDHUP).

(** The connection of a channel is open. *)
Definition opened (p : ptr) w : Prop := forall t b u,
  S !! t = Some b -> b_channel b = p -> user w !! t = Some u -> is_open (view t u w) = true.

(** What may be reported to a channel: not a hang-up and something to read at once;
    and, unless connections are destroyed promptly, neither to one that closed. *)
Definition event_ok (p : ptr) w : Prop := forall c, channels (io w) !! p = Some c ->
  hang_up c && to_read c = false /\ (hang_up c || to_read c = true -> prompt = false -> opened p w).

Lemma HandleError_same ahead t b w :
  loop_inv ahead w -> S !! t = Some b -> call (OnChannel (t, OnError)) w = Ok w.
Proof.
  intros Hi Hb. destruct (li_conns _ _ Hi t b Hb) as (u & c & Hu & _ & Hs & _). simpl. unfold on_conn.
  rewrite Hu. cbn [deref mbind result_bind call_channel].
  assert (HandleError (view t u w) = Ok (view t u w)) as He.
  { unfold HandleError, the_channel, channel_at. destruct (conn_at_parts _ _ _ _ _ _ _ Hs) as (_ & Hc & _).
    by rewrite Hc. }
  rewrite He. cbn [mbind result_bind]. f_equal. unfold back. simpl. rewrite drop_all, insert_id by done. simpl.
  rewrite app_nil_r. by destruct w.
Qed.

(** What is due to the channel of a connection: close, error, read, write. *)
Lemma due_steps {W} (run : cb -> W -> result W) (I : W -> Prop) (al : conn_cb -> W -> Prop) t c x :
  bound_to t c -> I x ->
  (forall k y, I y -> al k y -> exists y', run (OnChannel (t, k)) y = Ok y' /\ I y') ->
  (forall y, I y -> run (OnChannel (t, OnError)) y = Ok y) -> (forall y, I y -> al OnWrite y) ->
  (hang_up c = true -> al OnClose x) -> (to_read c = true -> al OnRead x) ->
  hang_up c && to_read c = false -> exists x', foldM run (due c) x = Ok x' /\ I x'.
Proof.
  intros (Fr & Fw & Fc & Fe) Hx Hrun Herr Hw Hcl Hrd Hboth.
  assert (forall (b : bool) k y, I y -> (b = true -> al k y) ->
    exists y', foldM run (if b then [OnChannel (t, k)] else []) y = Ok y' /\ I y' /\ (b = false -> y' = y)) as Hopt.
  { intros [] k y Hy Hal; cbn [foldM]; [|by exists y]. destruct (Hrun k y Hy (Hal eq_refl)) as (y' & -> & Hy').
    by exists y'. }
  unfold due. cbv zeta. fold (hang_up c) (to_read c).
  rewrite Fr, Fw, Fc, Fe. cbn [option_list option_rect]. rewrite foldM_app.
  destruct (Hopt (hang_up c) OnClose x Hx Hcl) as (x1 & -> & Hx1 & Hsame). cbn [mbind result_bind]. rewrite foldM_app.
  assert (foldM run (if has (revents_ c) (Z.lor POLLERR POLLNVAL) then [OnChannel (t, OnError)] else []) x1 = Ok x1) as ->.
  { destruct (has _ (Z.lor POLLERR POLLNVAL)); [|done]. cbn [foldM]. by rewrite Herr. }
  cbn [mbind result_bind]. rewrite foldM_app.
  destruct (Hopt (to_read c) OnRead x1 Hx1) as (x2 & -> & Hx2 & _).
  { intros Ht. rewrite Ht, andb_true_r in Hboth. rewrite (Hsame Hboth). by apply Hrd. }
  cbn [mbind result_bind]. destruct (Hopt (has (revents_ c) POLLOUT) OnWrite x2 Hx2) as (x3 & -> & Hx3 & _); [auto|].
  by exists x3.
Qed.

Lemma due_inv ahead t b c w :
  loop_inv ahead w -> S !! t = Some b -> bound_to t c -> all_bounded w ->
  (hang_up c || to_read c = true -> opened (b_channel b) w) ->
  hang_up c && to_read c = false -> exists w', foldM call (due c) w = Ok w' /\ loop_inv ahead w'.
Proof.
  intros Hi Hb Hbt Hbd Hopen Hboth.
  apply (due_steps call (loop_inv ahead) (fun k y => forall u, user y !! t = Some u -> allowed D k (view t u y)) t);
    try done.
  - intros k y Hy. by apply (member_inv k ahead t b).
  - intros y Hy. by apply (HandleError_same ahead t b).
  - intros Hh u Hu. rewrite Hh in Hopen. by apply (Hopen eq_refl t b).
  - intros Hrd u Hu. split; [|by eapply Hbd]. rewrite Hrd, orb_true_r in Hopen. by apply (Hopen eq_refl t b).
Qed.

(** The loop's other channels are those of [loop_own]. *)
Context (Hloop : forall k, own k -> loop_own k).

Lemma own_due_inv ahead c w :
  loop_inv ahead w -> own_channel c -> exists w', foldM call (due c) w = Ok w' /\ loop_inv ahead w'.
Proof.
  intros Hi (Fr & Fw & Fc & Fe). unfold due. cbv zeta. fold (hang_up c) (to_read c). rewrite Fw, Fc, Fe.
  assert (forall x : bool, (if x then @option_list cb None else []) = []) as Hnil by by intros [].
  destruct (read_fn_ c) as [k|]; [|by destruct Fr as (? & ? & _)]. cbn [option_list option_rect].
  rewrite !Hnil, app_nil_r. destruct (to_read c); [|by exists w].
  destruct Fr as (k' & [= <-] & Hk%Hloop). destruct (own_inv k ahead w Hk Hi) as (w' & Hr & Hi').
  exists w'. simpl. by rewrite Hr.
Qed.

(** Only the connection of the channel changes. *)
Definition not_for t (k : cb) : Prop := match k with OnChannel (t', _) => t' <> t | _ => True end.

Lemma calls_user t l w w' : foldM call l w = Ok w' -> Forall (not_for t) l -> user w' !! t = user w !! t.
Proof.
  intros Hr Hl. revert w Hr. induction Hl as [|k l Hk _ IH]; intros w Hr; cbn [foldM] in Hr; [by injection Hr as <-|].
  apply bind_ok in Hr as (w1 & Hr1 & Hr). rewrite (IH w1 Hr). destruct k as [| |[t' k]]; simpl in Hr1.
  - injection Hr1 as <-. unfold EventLoop.HandleRead. by destruct (efd_read _).
  - destruct (ao_timer Hok w) as (w2 & Hr2 & Hu & _). rewrite Hr1 in Hr2. injection Hr2 as <-. by rewrite Hu.
  - apply on_conn_ok in Hr1 as (u & v & _ & _ & ->). apply lookup_insert_ne. exact Hk.
Qed.

Context (Helse : forall t k, own (OnChannel (t, k)) -> S !! t = None).

Lemma due_others ahead p c w t b :
  loop_inv ahead w -> channels (io w) !! p = Some c -> S !! t = Some b -> b_channel b <> p ->
  Forall (not_for t) (due c).
Proof.
  intros Hi Hc Hb Hne. assert (forall (x : bool) k, (forall k', k = Some k' -> not_for t k') ->
    Forall (not_for t) (if x then option_list k else [])) as Hopt.
  { intros [] [k|] Hk; simpl; repeat constructor. by apply Hk. }
  unfold due. cbv zeta.
  destruct (li_known _ _ Hi p c Hc) as [((k & Fr & Hk) & Fw & Fc & Fe)|(t1 & b1 & Hb1 & Hp & Fr & Fw & Fc & Fe)];
    rewrite Fr, Fw, Fc, Fe; repeat apply Forall_app_2; apply Hopt; intros k' [= <-]; simpl; try congruence.
  destruct k as [| |[t' k]]; [done..|]. intros ->. apply Helse in Hk. congruence.
Qed.

Lemma handle_inv ahead p w :
  loop_inv ahead w -> is_Some (channels (io w) !! p) -> all_bounded w -> event_ok p w ->
  (prompt = true -> opened p w) ->
  exists w', handle_channel call p w = Ok w' /\ loop_inv ahead w' /\
    (forall q, is_Some (channels (io w) !! q) -> is_Some (channels (io w') !! q)) /\
    forall t b, S !! t = Some b -> b_channel b <> p -> user w' !! t = user w !! t.
Proof.
  intros Hi [c Hc] Hbd Hev Hop. set (w1 := put_channel p (set_handling true c) w).
  assert (loop_inv ahead w1) as Hi1 by by apply (put_inv ahead p c).
  assert (exists w2, foldM call (due c) w1 = Ok w2 /\ loop_inv ahead w2) as (w2 & Hr2 & Hi2).
  { destruct (li_known _ _ Hi p c Hc) as [Hown|(t & b & Hb & Hp & Hbt)]; [by apply own_due_inv|].
    destruct (Hev c Hc) as [Hboth Hopen]. apply (due_inv ahead t b); try done.
    intros Hx. rewrite Hp. destruct prompt; [by apply Hop|by apply Hopen]. }
  assert (cores w1 w2) as Hcores.
  { apply (foldM_invariant (cores w1) call (due c) w1); [|done|done].
    intros k x x' Hx Hr q. rewrite (call_cores k x x' Hr). apply Hx. }
  assert (channels (io w1) !! p = Some (set_handling true c)) as Hc1 by apply lookup_insert_eq.
  pose proof (Hcores p) as Hp2. unfold core_at in Hp2. rewrite Hc1 in Hp2.
  apply fmap_Some in Hp2 as (c2 & Hc2 & _). exists (put_channel p (set_handling false c2) w2). split_and!.
  - rewrite (handle_channel_spec call p c w Hc).
    + fold w1. rewrite Hr2. cbn [mbind result_bind]. unfold channel_at. by rewrite Hc2.
    + intros k x x' cx Hr Hx. pose proof (call_cores k x x' Hr p) as He. unfold core_at in He.
      rewrite Hx in He. apply fmap_Some in He as (c' & Hc' & He). exists c'. split; [done|]. by apply core_fns.
  - by apply (put_inv ahead p c2).
  - intros q Hq. simpl. destruct (decide (q = p)) as [->|Hne]; [rewrite lookup_insert_eq; by eexists|].
    rewrite lookup_insert_ne by done. pose proof (Hcores q) as He. unfold core_at in He. simpl in He.
    rewrite lookup_insert_ne in He by done. destruct Hq as [cq Hq]. rewrite Hq in He.
    apply fmap_Some in He as (c' & Hc' & _). by eexists.
  - intros t b Hb Hne. simpl. rewrite (calls_user t (due c) w1 w2 Hr2); [done|].
    by apply (due_others ahead p c w t b).
Qed.

Lemma handle_all_inv ahead l w :
  loop_inv ahead w -> Forall (fun p => is_Some (channels (io w) !! p)) l ->
  (prompt = true -> NoDup l /\ Forall (fun p => opened p w) l) ->
  throughout (fun p w => all_bounded w /\ event_ok p w) (handle_channel call) l w ->
  exists w', foldM (handle_channel call) l w = Ok w' /\ loop_inv ahead w'.
Proof.
  revert w. induction l as [|p l IH]; intros w Hi Hl Hpr Ht; cbn [foldM]; [by exists w|].
  apply Forall_cons in Hl as [Hp Hl]. apply throughout_cons in Ht as [[Hbd Hev] Ht].
  destruct (handle_inv ahead p w Hi Hp Hbd Hev) as (w1 & Hr & Hi1 & Hdom & Hus).
  { intros E. destruct (Hpr E) as [_ Ho]. by apply Forall_cons in Ho as [? _]. }
  rewrite Hr. cbn [mbind result_bind]. apply IH; [done| | |by apply Ht].
  - eapply Forall_impl; [exact Hl|]. intros q. apply Hdom.
  - intros E. destruct (Hpr E) as [[Hnin Hnd]%NoDup_cons [_ Ho]%Forall_cons]. split; [done|].
    apply Forall_forall. intros q Hq t b u Hb Hbq Hu. rewrite Forall_forall in Ho.
    rewrite (Hus t b Hb) in Hu by (intros He; apply Hnin; congruence). by apply (Ho q Hq t b u).
Qed.

Lemma exec_all_inv l w :
  loop_inv l w -> calm_queue w -> throughout (fun _ => all_bounded) exec l w ->
  exists w', foldM exec l w = Ok w' /\ loop_inv [] w' /\ calm_queue w'.
Proof.
  revert w. induction l as [|x l IH]; intros w Hi Hq Ht; cbn [foldM]; [by exists w|].
  apply throughout_cons in Ht as [Hbd Ht]. destruct (exec_inv x l w Hi Hbd) as (w1 & Hr & Hi1).
  pose proof (exec_calm x w w1 Hr Hq) as Hq1. rewrite Hr. cbn [mbind result_bind]. apply IH; [done..|by apply Ht].
Qed.

(** ** Turns *)

Lemma poll_inv tv w :
  loop_inv [] w -> event_list_size (poller (io w)) < 2 ^ 62 ->
  exists w', poll_active tv w = Ok w' /\ loop_inv [] w' /\
    Forall (fun p => exists c, channels (io w') !! p = Some c /\ index_ c = kAdded) (active_channels_ w') /\
    user w' = user w /\ pending_functors_ w' = pending_functors_ w.
Proof.
  intros Hi Hs. destruct (poll_active_spec tv w (li_epoll _ _ Hi) Hs) as (i & a & Hr & Hi' & Hk & Ho & Hm & Ha & _).
  eexists. split; [exact Hr|]. split_and!; try done.
  apply (redispatch_inv [] w); simpl; try done.
  - intros t b _. by rewrite Hk, wait_tx, wait_shut.
  - by rewrite Hk, wait_interest.
Qed.

Lemma flag_inv ahead (b : bool) w : loop_inv ahead w -> loop_inv ahead (set_calling b w).
Proof. apply aside_inv. split_and!; try done. exists []. by rewrite app_nil_r. Qed.

Lemma swap_inv w : loop_inv [] w -> loop_inv (pending_functors_ w) (set_pending [] w).
Proof.
  intros [Hi Hconns Hk Hq Hob]. split; [done| |done| |done].
  - intros t b Hb. destruct (Hconns t b Hb) as (u & c & Hu & Hcu & Hs & Hbd). exists u, c.
    split; [done|]. split; [done|]. split; [|done].
    by eapply conn_at_move with (ahead := []) (v := view t u w) (l := []).
  - intros x. simpl. rewrite app_nil_r. apply Hq.
Qed.

(** If connections are destroyed promptly and nothing is queued that destroys, those
    still in the loop are open. *)
Lemma prompt_opened p c w :
  prompt = true -> loop_inv [] w -> calm_queue w -> channels (io w) !! p = Some c -> index_ c = kAdded -> opened p w.
Proof.
  intros Hpr Hi Hq Hc Hadd t b u Hb Hp Hu. destruct (li_conns _ _ Hi t b Hb) as (u' & c' & Hu' & Hcu & Hs & _).
  rewrite Hu in Hu'. injection Hu' as <-. destruct (conn_at_parts _ _ _ _ _ _ _ Hs) as (_ & Hc' & _).
  unfold the_conn in Hc'. simpl in Hc'. rewrite Hcu, Hp, Hc in Hc'. injection Hc' as <-.
  destruct Hs as [[Hst [_ Hn]]|[? ? ? ? [= _ E _] ? ? ? ? ? ? ?]]; [|by rewrite Hadd in E].
  unfold awaiting in Hn. simpl in Hn. rewrite destroys_calm in Hn.
  2:{ apply Forall_forall. intros f ([t' f'] & -> & [_ Hin]%list_elem_of_filter)%list_elem_of_fmap.
      unfold calm_queue in Hq. rewrite Forall_forall in Hq. by apply (Hq _ Hin). }
  pose proof (si_status _ _ _ _ _ _ Hst) as Hne. unfold is_open, closed in *.
  destruct (conn_status (view t u w)); try done. by discriminate (Hn Hpr eq_refl).
Qed.

(** What others do names connections of the loop and leaves streams alone; the server
    destroys a connection that closed, once, unless that is done promptly. *)
Definition act_ok (a : act G K) w : Prop :=
  match a with
  | AQueue _ t (App _) | AShutdown _ t => is_Some (S !! t)
  | AQueue _ t Destroy => prompt = false /\ exists b u c, S !! t = Some b /\ user w !! t = Some u /\
      channels (io w) !! b_channel b = Some c /\ index_ c = kAdded /\
      closed (view t u w) = true /\ destroys (mine t (pending_functors_ w)) = 0%nat
  | AKernel f => forall k, interest (f k) = interest k /\ tx (f k) = tx k /\ wr_shut (f k) = wr_shut k
  end.

Lemma queue_aside by_ t g w : is_Some (user w !! t) -> aside w (QueueInLoop by_ (t, FOther (App g)) w).
Proof.
  intros Ht. unfold QueueInLoop, Wakeup. simpl.
  pose proof (efd_tx 1 (kernel (io w))) as E1. pose proof (efd_shut 1 (kernel (io w))) as E2.
  pose proof (efd_interest 1 (kernel (io w))) as E3.
  assert (Forall (extra w) [(t, FOther (App g))]) as Hx by (repeat constructor; simpl; eauto).
  destruct (must_wake _ _); [destruct (efd_write 1 (kernel (io w))) as [n k]|]; unfold aside; simpl in *;
    split_and!; eauto.
Qed.

Lemma aside_calm w w' : aside w w' -> calm_queue w -> calm_queue w'.
Proof.
  intros (_ & _ & _ & _ & _ & _ & _ & l & Hl & Hext) Hq. unfold calm_queue. rewrite Hl. apply Forall_app.
  split; [done|]. eapply Forall_impl; [exact Hext|]. by intros x [_ [g ->]].
Qed.

Lemma act_inv a w :
  loop_inv [] w -> (prompt = true -> calm_queue w) -> act_ok a w ->
  exists w', run_act a w = Ok w' /\ loop_inv [] w' /\ (prompt = true -> calm_queue w').
Proof.
  intros Hi Hq Ha. destruct a as [by_ t [|g]|by_ t|f]; simpl in *.
  - destruct Ha as (Hpr & b & u & c & Hb & Hu & Hc & Hadd & Hcl & Hz).
    assert (exists w', on_conn t (fun v => Ok (QueueInLoop by_ (FOther Destroy) v)) w = Ok w' /\ loop_inv [] w')
      as (w' & Hr & Hi').
    { apply (conn_step_inv [] [] _ _ b); [done|done| |done|done|].
      - intros v v' [= <-]. destruct (post_spec (A := A) by_ true (FOther Destroy) v) as [Hqu Hp].
        apply local_quiet; [done|]. eexists. split; [exact Hp|by repeat constructor].
      - intros u' c' Hu' Hcu Hs. rewrite Hu in Hu'. injection Hu' as <-.
        destruct (conn_at_parts _ _ _ _ _ _ _ Hs) as (_ & Hc' & _). unfold the_conn in Hc'. simpl in Hc'.
        rewrite Hcu, Hc in Hc'. injection Hc' as <-. eexists _, c. split; [done|].
        destruct (post_spec (A := A) by_ true (FOther Destroy) (view t u w)) as [Hqu Hp].
        eapply conn_queue_destroy; [exact Hqu|exact Hp|done..]. }
    rewrite (queue_on_conn by_ t (FOther Destroy) u w Hu) in Hr. injection Hr as <-.
    eexists. split; [done|]. split; [done|]. by rewrite Hpr.
  - assert (aside w (QueueInLoop by_ (t, FOther (App g)) w)) as Has.
    { apply queue_aside. destruct Ha as [b Hb]. destruct (li_conns _ _ Hi t b Hb) as (u & _ & Hu & _). by exists u. } eexists. split; [done|].
    split; [by eapply aside_inv|]. intros E. eapply aside_calm; [exact Has|auto].
  - destruct Ha as [b Hb].
    assert (exists w', on_conn t (Shutdown by_) w = Ok w' /\ loop_inv [] w') as (w' & Hr & Hi').
    { apply (conn_step_inv [] [] _ _ b); [done|done| |done|done|].
      - intros v v'. by apply local_Shutdown.
      - intros u c _ _ Hs. destruct (conn_Shutdown _ _ _ _ by_ _ _ c Hs) as (v & Hr & Hs'). by exists v, c. }
    exists w'. split; [done|]. split; [done|]. intros E. eapply calm_step; [|exact Hr|auto].
    intros v v'. apply local_Shutdown, calm_own.
  - destruct (Ha (kernel (io w))) as (E1 & E2 & E3).
    assert (aside w (set_io (set_kernel (f (kernel (io w))) (io w)) w)) as Has.
    { split_and!; try done. exists []. by rewrite app_nil_r. }
    eexists. split; [done|]. split; [by eapply aside_inv|]. intros E. eapply aside_calm; [exact Has|auto].
Qed.

(** What a turn relies on: others act as above; the poller's vector has not grown out
    of memory; epoll_wait(2) reports a channel once; and before each dispatch and each
    functor the buffers have room for what it may add, and what was reported may be. *)
Definition dispatch_ok w : Prop :=
  (prompt = true -> NoDup (active_channels_ w)) /\
  throughout (fun p w => all_bounded w /\ event_ok p w) (handle_channel call) (active_channels_ w) w.
Definition functors_ok w : Prop :=
  throughout (fun _ => all_bounded) exec (pending_functors_ w) (set_pending [] (set_calling true w)).
Definition turn_ok (x : list (act G K) * timeval) w : Prop :=
  throughout act_ok run_act x.1 w /\
  forall w1, foldM run_act x.1 w = Ok w1 ->
    event_list_size (poller (io w1)) < 2 ^ 62 /\
    forall w2, poll_active x.2 w1 = Ok w2 ->
      dispatch_ok w2 /\ forall w3, foldM (handle_channel call) (active_channels_ w2) w2 = Ok w3 -> functors_ok w3.

Abbreviation loop_turn := (loop_turn junk this_loop react conn_cb_ close_cb_ timer).
Abbreviation run_turns := (run_turns junk this_loop react conn_cb_ close_cb_ timer).

Fixpoint turns_ok (sched : list (list (act G K) * timeval)) w : Prop :=
  match sched with
  | [] => True
  | x :: sched => turn_ok x w /\ forall w', loop_turn x w = Ok w' -> turns_ok sched w'
  end.

(** Between turns no destruction is pending where it is done promptly. *)
Definition resting w : Prop := loop_inv [] w /\ (prompt = true -> calm_queue w).

Lemma acts_inv l w :
  resting w -> throughout act_ok run_act l w -> exists w', foldM run_act l w = Ok w' /\ resting w'.
Proof.
  revert w. induction l as [|a l IH]; intros w [Hi Hq] Ht; cbn [foldM]; [by exists w|].
  apply throughout_cons in Ht as [Ha Ht]. destruct (act_inv a w Hi Hq Ha) as (w1 & Hr & Hw1).
  rewrite Hr. cbn [mbind result_bind]. apply IH; [done|by apply Ht].
Qed.

Lemma dispatch_inv w :
  resting w -> Forall (fun p => exists c, channels (io w) !! p = Some c /\ index_ c = kAdded) (active_channels_ w) ->
  dispatch_ok w -> exists w', foldM (handle_channel call) (active_channels_ w) w = Ok w' /\ loop_inv [] w'.
Proof.
  intros [Hi Hq] Hl [Hnd Ht]. apply handle_all_inv; [done| | |done].
  - eapply Forall_impl; [exact Hl|]. intros p (c & Hc & _). by exists c.
  - intros E. split; [by apply Hnd|]. eapply Forall_impl; [exact Hl|]. intros p (c & Hc & Hadd).
    eapply prompt_opened; [done|done|by apply Hq|exact Hc|exact Hadd].
Qed.

Lemma functors_inv w :
  loop_inv [] w -> functors_ok w -> exists w', DoPendingFunctors exec w = Ok w' /\ resting w'.
Proof.
  intros Hi Ht. unfold DoPendingFunctors. simpl.
  destruct (exec_all_inv (pending_functors_ w) (set_pending [] (set_calling true w))) as (w1 & Hr & Hi1 & Hq).
  { apply (swap_inv (set_calling true w)). by apply flag_inv. }
  { by apply Forall_nil. }
  { done. }
  rewrite Hr. cbn [mbind result_bind]. eexists. split; [done|]. split; [by apply flag_inv|done].
Qed.

Lemma turn_inv x w : resting w -> turn_ok x w -> exists w', loop_turn x w = Ok w' /\ resting w'.
Proof.
  intros Hw [Hacts Ht]. destruct (acts_inv x.1 w Hw Hacts) as (w1 & Hr1 & Hi1 & Hq1).
  destruct (Ht w1 Hr1) as [Hs Ht2]. destruct (poll_inv x.2 w1 Hi1 Hs) as (w2 & Hr2 & Hi2 & Hl & _ & Hp2).
  destruct (Ht2 w2 Hr2) as [Hd Ht3].
  destruct (dispatch_inv w2) as (w3 & Hr3 & Hi3); [|done|done|].
  { split; [done|]. intros E. unfold calm_queue. rewrite Hp2. by apply Hq1. }
  destruct (functors_inv w3 Hi3 (Ht3 w3 Hr3)) as (w4 & Hr4 & Hw4). exists w4. split; [|done].
  unfold LoopConns.loop_turn, turn. rewrite Hr1. cbn [mbind result_bind]. simpl. rewrite Hr2.
  cbn [mbind result_bind]. by rewrite Hr3.
Qed.

Lemma turns_inv sched w :
  resting w -> turns_ok sched w -> exists w', run_turns sched w = Ok w' /\ resting w'.
Proof.
  revert w. induction sched as [|x sched IH]; intros w Hw Ht; [by exists w|]. destruct Ht as [Hx Ht].
  destruct (turn_inv x w Hw Hx) as (w1 & Hr & Hi1). unfold LoopConns.run_turns. cbn [foldM]. rewrite Hr.
  apply IH; [done|by apply Ht].
Qed.

(** What holds of a connection between turns. *)
Lemma resting_conn w t b :
  resting w -> S !! t = Some b -> exists u c,
    user w !! t = Some u /\ channels (io w) !! b_channel b = Some c /\
    conn_at this_loop prompt (b_fd b) (b_sent b) [] (view t u w) c /\
    (conn_status (view t u w) <> kDisconnected -> live this_loop prompt (b_fd b) (b_sent b) [] (view t u w) c) /\
    (prompt = true -> conn_status (view t u w) = kDisconnected -> index_ c = kNew).
Proof.
  intros [Hi Hq] Hb. destruct (li_conns _ _ Hi t b Hb) as (u & c & Hu & Hcu & Hs & _). exists u, c.
  destruct (conn_at_parts _ _ _ _ _ _ _ Hs) as (_ & Hc & _). unfold the_conn in Hc. simpl in Hc. rewrite Hcu in Hc.
  split; [done|]. split; [done|]. split; [done|]. split.
  - intros Hne. destruct Hs as [?|Hg]; [done|]. by destruct Hne; apply (go_status _ _ _ _ _ _ Hg).
  - intros E Hst. destruct (decide (index_ c = kAdded)) as [Hadd|Hn].
    + pose proof (prompt_opened (b_channel b) c w E Hi (Hq E) Hc Hadd t b u Hb eq_refl Hu) as Ho.
      unfold is_open in Ho. by rewrite Hst in Ho.
    + destruct Hs as [[Hst' _]|Hg]; [|by pose proof (go_shape _ _ _ _ _ _ Hg) as [= _ ? _]].
      by destruct Hn; apply (ci_added _ _ _ (si_conn _ _ _ _ _ _ Hst')).
Qed.
End Loop.

(** [C5] The loop serves all its connections.  Let the loop turn any number of times,
    other threads queueing functors and shutting connections down, every connection
    running application code of its own, and the kernel reporting events on any of its
    channels in any order, with two exceptions ([event_ok]): no report is a hang-up
    without [POLLIN] together with [POLLPRI] or [POLLRDHUP], on which the code reads
    after it has closed; and, where a connection that closed is not destroyed within
    the turn ([prompt] is false), neither a hang-up nor something to read is reported
    on one that has closed, which aborts ([second_hangup_aborts] of TcpConnLife.v).
    Let the buffers have room for what each step may add.  Then no member fails, and
    for each connection the bytes that the kernel has accepted on its socket, followed
    by those in its output buffer, are the messages that its application offered while
    it was connected, whole and in order, all of them if the peer stays.  While a
    connection is not disconnected its channel is registered, and its sending side is
    shut down only when its buffer has drained; where the close callback queues the
    destruction in the loop, one that disconnected has left the poller when the turn
    ends. *)
Theorem loop_serves {G A V K} `{EpollLaws K, EventfdKernel K, SocketKernel K, !SocketLaws K, !SocketFrame K, !LoopKernelLaws K}
    junk this_loop S prompt react conn_cb_ close_cb_ timer D sched
    (w : lworld (ptr * functor (task G)) (loop_cb (ptr * conn_cb)) (gmap ptr (cuser A (list bytes * V))) K) :
  bases_ok S -> apps_ok prompt react conn_cb_ close_cb_ timer D -> loop_fresh this_loop loop_own S w ->
  turns_ok junk this_loop S prompt react conn_cb_ close_cb_ timer D sched w ->
  exists w', run_turns junk this_loop react conn_cb_ close_cb_ timer sched w = Ok w' /\
    forall t b, S !! t = Some b -> exists u c kept,
      user w' !! t = Some u /\ channels (io w') !! b_channel b = Some c /\
      let v := view t u w' in
      kept `sublist_of` offered v /\ sent v (b_fd b) ++ output v = b_sent b ++ mjoin kept /\
      (peer_stays (K := K) (b_fd b) -> kept = offered v) /\
      (conn_status v <> kDisconnected -> index_ c = kAdded /\
         (shut v (b_fd b) = true -> conn_status v = kDisconnecting /\ output v = [])) /\
      (prompt = true -> conn_status v = kDisconnected -> index_ c = kNew).
Proof.
  intros HS Hok Hf Ht. pose proof (fresh_loop_inv this_loop loop_own S prompt w Hf) as Hi.
  destruct (turns_inv junk this_loop loop_own S prompt HS react conn_cb_ close_cb_ timer D Hok
    ltac:(done) ltac:(by intros t k [?|?]) sched w) as (w' & Hr & Hw).
  { split; [done|]. intros _. unfold calm_queue. rewrite (lf_pending _ _ _ _ Hf). by apply Forall_nil. }
  { done. }
  exists w'. split; [done|]. intros t b Hb.
  destruct (resting_conn this_loop loop_own S prompt w' t b Hw Hb) as (u & c & Hu & Hc & Hs & Hl & Hg).
  destruct (conn_at_parts _ _ _ _ _ _ _ Hs) as (_ & _ & _ & _ & kept & Hk & Hd & Hst). exists u, c, kept.
  do 2 (split; [done|]). cbv zeta. split_and!; try done. intros Hne. destruct (Hl Hne) as [Hst' _].
  split; [apply (ci_added _ _ _ (si_conn _ _ _ _ _ _ Hst'))|]. intros Hsh. by apply (si_shut _ _ _ _ _ _ Hst').
Qed.
