(* ===== verification/LoopServesDemo.v ===== *)
(** * A loop with two connections, on the kernel of TcpStreamDemo.v *)

From S2P Require Import Prelude Bytes Slice Buffer BufferFacts BufferSpec BufferIO LoopThread Duration.
From S2P Require Import Timestamp Channel EPoller EPollerFacts EventFd SimKernel ServerStatus.
From S2P Require Import LoopChannels EventLoop LoopTimers SocketKernel TcpConnection TcpConnFacts TcpSend.
From S2P Require Import TcpConnProps TcpConnLife TcpStream TcpEcho TcpDemo TcpStreamDemo TcpFrame.
From S2P Require Import ConnPhases LoopConns LoopServes.
#[local] Open Scope Z_scope.

#[export] Instance stay_frame : SocketFrame stay.
Proof.
  split.
  - intros fd g d k. exact (write_frame fd g d (patient (st_k k))).
  - intros fd g k. exact (shutdown_frame fd g (st_k k)).
Qed.

#[export] Instance stay_loop : LoopKernelLaws stay.
Proof. by split. Qed.

(** ** Checking what the turns rely on *)

Section Check.
Context {G A V K : Type} `{EpollKernel K, EventfdKernel K, SocketKernel K}.
Abbreviation cb := (loop_cb (ptr * conn_cb)).
Abbreviation cworld := (lworld (functor (task G)) cb (cuser A (list bytes * V)) K).
Abbreviation mworld := (lworld (ptr * functor (task G)) cb (gmap ptr (cuser A (list bytes * V))) K).
Context (junk : nat -> byte) (this_loop : ptr) (S : gmap ptr base)
  (react : ptr -> trigger (task G) -> cworld -> list user_op)
  (conn_cb_ close_cb_ : ptr -> cworld -> result cworld) (timer : mworld -> result mworld) (D : Z).

Abbreviation call := (dispatch junk this_loop react close_cb_ timer).
Abbreviation exec := (call_functor junk this_loop react conn_cb_).

Definition all_bounded_b (w : mworld) : bool :=
  forallb (fun x => match user w !! x.1 with Some u => bounded_b D (view x.1 u w) | None => true end) (map_to_list S).

Lemma all_bounded_check w : all_bounded_b w = true -> all_bounded S D w.
Proof.
  intros Hb t b u Ht Hu. unfold all_bounded_b in Hb. rewrite forallb_forall in Hb.
  specialize (Hb (t, b)). simpl in Hb. rewrite Hu in Hb. apply Z.ltb_lt, Hb.
  by apply list_elem_of_In, elem_of_map_to_list.
Qed.

Definition event_b (p : ptr) (w : mworld) : bool :=
  match channels (io w) !! p with Some c => negb (hang_up c && to_read c) | None => true end.

Lemma event_check p w : event_b p w = true -> event_ok S true p w.
Proof. unfold event_b. intros Hb c Hc. rewrite Hc in Hb. by apply negb_true_iff in Hb. Qed.

(** What others do, whatever the state. *)
Definition act_fine (a : act G K) : Prop :=
  match a with
  | AQueue _ t (App _) | AShutdown _ t => is_Some (S !! t)
  | AQueue _ _ Destroy => False
  | AKernel f => forall k, interest (f k) = interest k /\ tx (f k) = tx k /\ wr_shut (f k) = wr_shut k
  end.

Definition turn_b (x : list (act G K) * timeval) (w : mworld) : bool :=
  match foldM run_act x.1 w with
  | Err _ => true
  | Ok w1 =>
      (event_list_size (poller (io w1)) <? 2 ^ 62) &&
      match poll_active x.2 w1 with
      | Err _ => true
      | Ok w2 =>
          bool_decide (NoDup (active_channels_ w2)) &&
          throughout_b (fun p w => all_bounded_b w && event_b p w) (handle_channel call) (active_channels_ w2) w2 &&
          match foldM (handle_channel call) (active_channels_ w2) w2 with
          | Err _ => true
          | Ok w3 =>
              throughout_b (fun _ => all_bounded_b) exec (pending_functors_ w3) (set_pending [] (set_calling true w3))
          end
      end
  end.

Fixpoint turns_b (sched : list (list (act G K) * timeval)) (w : mworld) : bool :=
  match sched with
  | [] => true
  | x :: sched =>
      turn_b x w && match loop_turn junk this_loop react conn_cb_ close_cb_ timer x w with
                    | Ok w' => turns_b sched w' | Err _ => true end
  end.

Lemma turn_check x w :
  Forall act_fine x.1 -> turn_b x w = true ->
  turn_ok junk this_loop S true react conn_cb_ close_cb_ timer D x w.
Proof.
  intros Ha Hb. split.
  { intros l1 a l2 w1 Hl _. rewrite Hl in Ha. apply Forall_app in Ha as [_ [Ha _]%Forall_cons]. by destruct a as [? ? []| |]. }
  intros w1 Hr1. unfold turn_b in Hb. rewrite Hr1 in Hb. apply andb_true_iff in Hb as [Hs%Z.ltb_lt Hb].
  split; [done|]. intros w2 Hr2. rewrite Hr2 in Hb. apply andb_true_iff in Hb as [[Hn Ht]%andb_true_iff Hb].
  split.
  - split; [by apply bool_decide_eq_true in Hn|]. eapply throughout_check; [|exact Ht].
    intros p y [? ?]%andb_true_iff. split; [by apply all_bounded_check|by apply event_check].
  - intros w3 Hr3. rewrite Hr3 in Hb. eapply throughout_check; [|exact Hb]. intros x0 y. apply all_bounded_check.
Qed.

Lemma turns_check sched w :
  Forall (fun x => Forall act_fine x.1) sched -> turns_b sched w = true ->
  turns_ok junk this_loop S true react conn_cb_ close_cb_ timer D sched w.
Proof.
  intros Ha. revert w. induction Ha as [|x sched Hx _ IH]; intros w Hb; [done|].
  apply andb_true_iff in Hb as [Hx' Hb]. split; [by apply turn_check|]. intros w' Hr. rewrite Hr in Hb. by apply IH.
Qed.
End Check.

(** ** Connections 1000 and 2000 of loop 7, which has its wakeup channel at 50 *)

Abbreviation loop_cbs := (loop_cb (ptr * conn_cb)).
Abbreviation two_view := (lworld (functor (task Z)) loop_cbs (cuser unit (list bytes * unit)) stay).
Abbreviation two_world := (lworld (ptr * functor (task Z)) loop_cbs (gmap ptr (cuser unit (list bytes * unit))) stay).

Definition two_bases : gmap ptr base := {[1000 := mkBase 100 5 []; 2000 := mkBase 200 6 []]}.

Definition two_chan (t fd : Z) : Channel loop_cbs :=
  SetIndex kAdded (set_added true (set_events (mask true false)
    (SetReadCallback (OnChannel (t, OnRead)) (SetWriteCallback (OnChannel (t, OnWrite))
    (SetCloseCallback (OnChannel (t, OnClose)) (SetErrorCallback (OnChannel (t, OnError)) (Channel_new 7 fd))))))).
Definition two_wakeup : Channel loop_cbs :=
  SetIndex kAdded (set_added true (set_events (mask true false) (SetReadCallback OnWakeup (Channel_new 7 8)))).

Definition two_conn (p : ptr) : cuser unit (list bytes * unit) :=
  mkUser (mkConn 7 "conn" kIncoming kConnected p tt tt true true 3 demo_empty_buf demo_empty_buf) ∅ ∅ ∅ ([], tt).

Definition two_w (ready : list epoll_event) (rx : bytes) : two_world :=
  mkLWorld 1 kRunning false [] 50 60 [] ∅
    (mkWorld (mkEPoller 1 16 {[5 := 100; 6 := 200; 8 := 50]})
       {[100 := two_chan 1000 5; 200 := two_chan 2000 6; 50 := two_wakeup]}
       (mkStay (mkSsim (mkSim {[5 := mkEvent (mask true false) 100; 6 := mkEvent (mask true false) 200;
                                8 := mkEvent (mask true false) 50]} ready 0) ∅ ∅ 2 rx)))
    {[1000 := two_conn 100; 2000 := two_conn 200]}.

(** Both echo; connection 1000 also sends [!] when a functor of its application runs.
    Closing queues the destruction. *)
Definition two_react (t : ptr) (x : trigger (task Z)) (v : two_view) : list user_op :=
  match x with
  | TMessage => echo 900 x v
  | TOther (App _) => [USend 901 [x21]]
  | _ => []
  end.
Definition two_close (t : ptr) (v : two_view) : result two_view := Ok (QueueInLoop (tid_ v) (FOther Destroy) v).
Definition no_timer (w : two_world) : result two_world := Ok w.

(** The next wait reports [evs]. *)
Definition report (evs : list epoll_event) : act Z stay :=
  AKernel (fun k => mkStay (with_base (st_k k)
    (mkSim (sim_interest (s_base (st_k k))) evs (sim_count (s_base (st_k k)))))).

(** Five bytes arrive for 1000; thread 2 queues a functor for it, which wakes the
    loop, and 2000 hangs up; 1000 becomes writable, three times. *)
Definition two_sched : list (list (act Z stay) * timeval) :=
  [([report [mkEvent POLLIN 100]], mkTimeval 9 0);
   ([AQueue 2 1000 (App 3); report [mkEvent POLLIN 50; mkEvent POLLHUP 200]], mkTimeval 10 0);
   ([report [mkEvent POLLOUT 100]], mkTimeval 11 0);
   ([report [mkEvent POLLOUT 100]], mkTimeval 12 0);
   ([AShutdown 2 1000; report [mkEvent POLLOUT 100]], mkTimeval 13 0)].

Lemma lookup_two {X} (P : ptr -> X -> Prop) p1 p2 (x1 x2 : X) t x :
  P p1 x1 -> P p2 x2 -> ({[p1 := x1; p2 := x2]} : gmap ptr X) !! t = Some x -> P t x.
Proof. intros H1 H2 [[<- <-]|[_ [<- <-]%lookup_singleton_Some]]%lookup_insert_Some; done. Qed.

Lemma lookup_three {X} (P : ptr -> X -> Prop) p1 p2 p3 (x1 x2 x3 : X) t x :
  P p1 x1 -> P p2 x2 -> P p3 x3 -> ({[p1 := x1; p2 := x2; p3 := x3]} : gmap ptr X) !! t = Some x -> P t x.
Proof. intros H1 H2 H3 [[<- <-]|[_ Hx]]%lookup_insert_Some; [done|]. by apply (lookup_two P p2 p3 x2 x3). Qed.

Lemma two_base t b : two_bases !! t = Some b -> (t = 1000 /\ b = mkBase 100 5 []) \/ (t = 2000 /\ b = mkBase 200 6 []).
Proof. apply (lookup_two (fun t b => (t = 1000 /\ b = _) \/ (t = 2000 /\ b = _))); auto. Qed.

Lemma two_bases_ok : bases_ok two_bases.
Proof.
  split.
  - by intros t b [[-> ->]|[-> ->]]%two_base.
  - intros t t' b b' [[-> ->]|[-> ->]]%two_base [[-> ->]|[-> ->]]%two_base; done.
Qed.

Lemma two_epoll ready rx : inv_but None (io (two_w ready rx)).
Proof.
  split.
  - intros fd p. apply (lookup_three (fun fd p => exists c ev, channels (io (two_w ready rx)) !! p = Some c /\
      fd_ c = fd /\ index_ c = kAdded /\ interest (kernel (io (two_w ready rx))) !! fd = Some (mkEvent ev p) /\
      (None <> Some p -> ev = u32 (events_ c)))); eexists _, _; by split_and!.
  - intros fd [x Hx]. apply (lookup_three (fun fd _ => is_Some (channel_map_ (poller (io (two_w ready rx))) !! fd))
      5 6 8 _ _ _ fd x) in Hx; [exact Hx|by eexists..].
  - intros p c. apply (lookup_three (fun p c => index_ c = kNew \/
      (index_ c = kAdded /\ channel_map_ (poller (io (two_w ready rx))) !! fd_ c = Some p))); by right.
  - done.
Qed.

Lemma two_fresh ready rx : loop_fresh 7 loop_own two_bases (two_w ready rx).
Proof.
  split; [apply two_epoll| | |done|].
  - intros t b Hb. exists (two_conn (b_channel b)), (two_chan t (b_fd b)).
    assert (user (two_w ready rx) !! t = Some (two_conn (b_channel b)) /\
      channels (io (two_w ready rx)) !! b_channel b = Some (two_chan t (b_fd b)) /\ b_sent b = []) as (Hu & Hc & Hs).
    { by destruct (two_base t b Hb) as [[-> ->]|[-> ->]]. }
    rewrite Hs. do 2 (split; [done|]). split; [|by split_and!]. split_and!; try done.
    split; try done; [apply two_epoll|by exists true, false|apply demo_empty_wf..].
  - intros p c. apply (lookup_three (fun p c => own_channel loop_own c \/ exists t b, two_bases !! t = Some b /\
      b_channel b = p /\ bound_to t c)); [right; exists 1000|right; exists 2000|left; by split; [exists OnWakeup; by split; [|left]|]]; by eexists.
  - intros t [u Hu]. apply (lookup_two (fun t _ => is_Some (two_bases !! t)) 1000 2000 _ _ t u) in Hu; [exact Hu|by eexists..].
Qed.

Lemma two_apps : apps_ok true two_react (fun _ => Ok) two_close no_timer 1.
Proof.
  split.
  - intros t. split; [done|]. intros x v. pose proof (len_nonneg (input_buffer_ (the_conn v))) as Hn.
    destruct (echo_ok (G := task Z) (K := stay) (Cb := loop_cbs) (A := unit) (V := unit) 900) as [_ He].
    destruct x as [| | | |[|g]]; simpl; try (split; [by constructor|simpl; lia]).
    destruct (He TMessage v) as [H1 H2]. split; [exact H1|]. simpl in H2. lia.
  - intros t v v' [= <-]. apply local_refl.
  - intros t v. destruct (post_spec (A := unit) (tid_ v) true (FOther Destroy) v) as [Hq Hp].
    eexists _, [Destroy]. split; [done|]. split; [exact Hq|]. split; [exact Hp|]. by split.
  - intros w. exists w. split; [done|]. apply aside_refl.
Qed.


Lemma two_acts : Forall (fun x => Forall (act_fine two_bases) x.1) two_sched.
Proof. repeat constructor; by eexists. Qed.

(** All that 1000 was given is on the wire and its side is shut down; 2000 is gone. *)
Lemma loop_serves_witness :
  exists w', run_turns no_junk 7 two_react (fun _ => Ok) two_close no_timer two_sched
      (two_w [] [x68; x65; x6c; x6c; x6f]) = Ok w' /\
    tx (kernel (io w')) 5 = [x68; x65; x6c; x6c; x6f; x21] /\ wr_shut (kernel (io w')) 5 = true /\
    (exists u, user w' !! 1000 = Some u /\
      tx (kernel (io w')) 5 ++ output (view 1000 u w') = mjoin (offered (view 1000 u w'))) /\
    exists c, channels (io w') !! 200 = Some c /\ index_ c = kNew.
Proof.
  destruct (loop_serves no_junk 7 two_bases true two_react (fun _ => Ok) two_close no_timer 1 two_sched
    (two_w [] [x68; x65; x6c; x6c; x6f])) as (w' & Hrun & Hw).
  - apply two_bases_ok.
  - apply two_apps.
  - apply two_fresh.
  - apply turns_check; [apply two_acts|vm_compute; reflexivity].
  - exists w'. split; [exact Hrun|].
    destruct (Hw 1000 (mkBase 100 5 []) eq_refl) as (u & c & kept & Hu & _ & _ & Hd & Hk & _).
    rewrite (Hk (stay_stays 5)) in Hd.
    destruct (Hw 2000 (mkBase 200 6 []) eq_refl) as (u2 & c2 & kept2 & Hu2 & Hc2 & _ & _ & _ & _ & Hg).
    split; [|split; [|split]].
    + clear -Hrun. vm_compute in Hrun. injection Hrun as <-. reflexivity.
    + clear -Hrun. vm_compute in Hrun. injection Hrun as <-. reflexivity.
    + exists u. split; [exact Hu|exact Hd].
    + exists c2. split; [exact Hc2|]. apply Hg; [reflexivity|]. clear -Hrun Hu2.
      vm_compute in Hrun. injection Hrun as <-. injection Hu2 as <-. reflexivity.
Defined.
