(* ===== verification/TcpSocket.v ===== *)
(** * The socket of a connection (evk/socket.cc, evk/callbacks.h) and its end

    The [Socket] class beside the members in SocketOps.v, what a connection does
    with its socket, the default callbacks, and the end of a connection: its
    removal from the loop, the destruction of its members, the closing of its
    descriptor. *)

From S2P Require Import SocketOps.
From S2P Require Import Prelude Bytes Slice Buffer BufferFacts BufferSpec BufferIO Format LoopThread.
From S2P Require Import Duration Timestamp Channel EPoller EPollerFacts EventFd SimKernel ServerStatus.
From S2P Require Import LoopChannels EventLoop SocketKernel TcpConnection TcpConnFacts TcpConnLife TcpDemo.
#[local] Open Scope Z_scope.

(** ** Socket *)

Record Socket := mkSocket { sockfd_ : Z }.

(** The fields of [struct tcp_info] that are printed. *)
Record tcp_info := mkTcpInfo {
  tcpi_retransmits : Z; tcpi_rto : Z; tcpi_ato : Z; tcpi_snd_mss : Z; tcpi_rcv_mss : Z;
  tcpi_lost : Z; tcpi_retrans : Z; tcpi_rtt : Z; tcpi_rttvar : Z; tcpi_snd_ssthresh : Z;
  tcpi_snd_cwnd : Z; tcpi_total_retrans : Z
}.

Definition tcp_info_zero : tcp_info := mkTcpInfo 0 0 0 0 0 0 0 0 0 0 0 0.

(** The text of [GetTcpInfoString]'s format; every field is printed by [%u]. *)
Definition tcp_info_text (i : tcp_info) : string :=
  ("unrecovered=" ++ print_d (tcpi_retransmits i) ++
   " rto=" ++ print_d (tcpi_rto i) ++ " ato=" ++ print_d (tcpi_ato i) ++
   " snd_mss=" ++ print_d (tcpi_snd_mss i) ++ " rcv_mss=" ++ print_d (tcpi_rcv_mss i) ++
   " lost=" ++ print_d (tcpi_lost i) ++ " retrans=" ++ print_d (tcpi_retrans i) ++
   " rtt=" ++ print_d (tcpi_rtt i) ++ " rttvar=" ++ print_d (tcpi_rttvar i) ++
   " sshthresh=" ++ print_d (tcpi_snd_ssthresh i) ++ " cwnd=" ++ print_d (tcpi_snd_cwnd i) ++
   " total_retrans=" ++ print_d (tcpi_total_retrans i))%string.

Section Socket.
Context {K : Type} `{NetKernel K, SocketKernel K}.

(** getsockopt(2) for [TCP_INFO]: its value, and the structure if it wrote one. *)
Context (getsockopt_info : Z -> K -> Z * option tcp_info).

(** read(2): its value and what it stored. *)
Context (sys_read : Z -> Z -> K -> Z * bytes * K).

(** The remaining wrappers of socket_ops.cc; a failure of shutdown(2) is logged. *)
Definition ShutdownWrite (sockfd : Z) (k : K) : K := (sock_shutdown sockfd k).2.
Definition Read (sockfd count : Z) (k : K) : Z * bytes * K := sys_read sockfd count k.
Definition Readv (sockfd : Z) (iov : list Z) (k : K) : readv_answer * K := sock_readv sockfd iov k.
Definition Write (sockfd : Z) (buf : bytes) (k : K) : Z * Z * K := sock_write sockfd buf k.

Definition Socket_dtor (s : Socket) (k : K) : K := Close (sockfd_ s) k.

Definition ShutDownWrite (s : Socket) (k : K) : K := ShutdownWrite (sockfd_ s) k.

(** The structure is cleared first; the [int] is returned as a [bool]. *)
Definition GetTcpInfo (s : Socket) (k : K) : bool * tcp_info :=
  let '(ret, info) := getsockopt_info (sockfd_ s) k in
  (negb (ret =? 0), default tcp_info_zero info).

(** [buf]: the text in the caller's buffer, of [len] bytes. *)
Definition GetTcpInfoString (s : Socket) (buf : string) (len : Z) (k : K) : bool * string :=
  let '(isOK, info) := GetTcpInfo s k in
  (isOK, if isOK then snprintf (Z.to_nat (u64 len)) (tcp_info_text info) else buf).

(** [GetTcpInfo] reports the opposite of what it did: with getsockopt(2) as
    documented (0 and the structure, or -1 and nothing), success yields [false] and
    the caller's text stays, failure yields [true] and the text of a structure of
    zeros. *)
Lemma GetTcpInfoString_inverted s buf len k :
  (forall fd k, (exists i, getsockopt_info fd k = (0, Some i)) \/ getsockopt_info fd k = (-1, None)) ->
  GetTcpInfoString s buf len k =
    match (getsockopt_info (sockfd_ s) k).2 with
    | Some _ => (false, buf)
    | None => (true, snprintf (Z.to_nat (u64 len)) (tcp_info_text tcp_info_zero))
    end.
Proof.
  intros Hdoc. unfold GetTcpInfoString, GetTcpInfo.
  by destruct (Hdoc (sockfd_ s) k) as [[i ->]| ->].
Qed.
End Socket.

(** ** The connection and its socket *)

Section Conn.
Context {G Cb A U K : Type} `{EpollLaws K, EventfdKernel K, SocketKernel K, !SocketLaws K, NetKernel K}.
Abbreviation cworld := (lworld (functor G) Cb (cuser A U) K).
Implicit Types (w : cworld) (c : Channel Cb).

(** The socket holds the descriptor of the channel: the constructor gives it to both. *)
Definition socket_ w : result Socket := c ← the_channel w; Ok (mkSocket (fd_ c)).

Definition TcpConnection_SetTcpNoDelay (on : bool) w : result cworld :=
  s ← socket_ w; Ok (set_sock (SetTcpNoDelay on (sockfd_ s) (kernel (io w))) w).
Definition TcpConnection_SetKeepAlive (on : bool) w : result cworld :=
  s ← socket_ w; Ok (set_sock (SetKeepAlive on (sockfd_ s) (kernel (io w))) w).

(** *** callbacks.h *)

(** It only logs. *)
Definition DefaultConnectionCallback w : result cworld := Ok w.
Definition DefaultMessageCallback w : result cworld :=
  Ok (set_conn (set_input (Reset (input_buffer_ (the_conn w))) (the_conn w)) w).

(** *** The end of a connection *)

(** [delete] of the connection: the destructor's body, then the members in reverse
    order, of which the channel and then the socket have destructors that act. *)
Definition TcpConnection_delete w : result cworld :=
  _ ← TcpConnection_dtor (the_conn w);
  s ← socket_ w;
  w ← destroy_channel (channel_ (the_conn w)) w;
  Ok (set_sock (Socket_dtor s (kernel (io w))) w).

Context (this_loop : ptr) (cur : thread_id).

(** Callbacks that return, having at most queued functors. *)
Definition returns_quietly (f : cworld -> result cworld) : Prop :=
  forall w, exists w', f w = Ok w' /\ quiet w w'.

Context (conn_cb_ close_cb_ : cworld -> result cworld).

Definition idle_channel c : Channel Cb := SetIndex kAdded (set_added true (set_events kNone c)).

(** A closed connection that is still in its loop. *)
Record closed_in_loop w c : Prop := {
  cl_inv : conn_inv this_loop w c;
  cl_idle : events_ c = kNone;
  cl_status : conn_status w = kDisconnected;
  cl_tid : tid_ w = cur;
  cl_channel : channel_ (the_conn w) <> 0;
  cl_handling : event_handling_ c = false
}.

(** Closing: the status, [DisableAllEvent], and a callback. *)
Lemma closing_spec cb w c :
  conn_inv this_loop w c -> tid_ w = cur -> channel_ (the_conn w) <> 0 -> event_handling_ c = false ->
  returns_quietly cb ->
  exists w1 w2, change_channel this_loop cur DisableAll (SetStatus kDisconnected w) = Ok w1 /\
    cb w1 = Ok w2 /\ closed_in_loop w2 (idle_channel c) /\
    channel_ (the_conn w2) = channel_ (the_conn w).
Proof.
  intros Hi Ht Hp Hh Hcb. set (w0 := SetStatus kDisconnected w).
  assert (conn_inv this_loop w0 c) as Hi0 by (destruct Hi; by split).
  destruct (change_channel_spec this_loop w0 c DisableAll) as (i & Hrun & Hii & Hch & Ho & _);
    [apply Hi0|by apply conn_registrable|].
  change (tid_ w0) with (tid_ w) in Hrun. rewrite Ht in Hrun.
  destruct (Hcb (set_io i w0)) as (w2 & Hw2 & Hq). exists (set_io i w0), w2. split; [done|]. split; [done|].
  assert (conn_inv this_loop (set_io i w0) (idle_channel c)) as Hi1
    by by apply (conn_inv_change this_loop w0 c DisableAll).
  assert (the_conn w2 = the_conn w0) as Hc by (unfold the_conn; by rewrite (q_user _ _ Hq)).
  split; [|by rewrite Hc]. split; unfold conn_status; rewrite ?Hc; try done.
  - by eapply conn_inv_quiet.
  - by rewrite (q_tid _ _ Hq).
Qed.

(** [Remove], then [delete]. *)
Lemma removal_spec w c :
  closed_in_loop w c ->
  exists w2, on_io (Channel_Remove this_loop (tid_ w) cur (channel_ (the_conn w))) w = Ok w2 /\
    inv_but None (io w2) /\ interest (kernel (io w2)) !! fd_ c = None /\
    channel_map_ (poller (io w2)) !! fd_ c = None /\
    TcpConnection_delete w2 =
      Ok (set_io (mkWorld (poller (io w2)) (delete (channel_ (the_conn w)) (channels (io w2)))
                   (close (fd_ c) (kernel (io w2))).2) w2).
Proof.
  intros [Hi He Hs Ht Hp Hh]. rewrite Ht.
  pose proof (conn_registrable _ _ _ Hi) as Hreg. rewrite Ht in Hreg.
  destruct (Channel_Remove_spec this_loop cur (channel_ (the_conn w)) c (io w) (ci_epoll _ _ _ Hi) Hreg
    Hp (ci_added _ _ _ Hi) He) as (i & Hrun & Hii & Hch & Hk & Hm & _).
  exists (set_io i w). unfold on_io. rewrite Hrun. split_and!; try done; simpl.
  - by rewrite Hk, lookup_delete_eq.
  - by rewrite Hm, lookup_delete_eq.
  - unfold TcpConnection_delete, TcpConnection_dtor, socket_, the_channel, destroy_channel, get_channel, channel_at.
    change (the_conn (set_io i w)) with (the_conn w). change (io (set_io i w)) with i.
    change (status_ (the_conn w)) with (conn_status w). rewrite Hs, Hch, lookup_insert_eq. simpl.
    unfold Channel_dtor. simpl. rewrite Hh. done.
Qed.

(** [w] can be deleted: its descriptor is out of its loop, and [delete] closes it,
    once, and does nothing else but take the channel object away. *)
Definition released p fd w : Prop :=
  inv_but None (io w) /\ interest (kernel (io w)) !! fd = None /\
  channel_map_ (poller (io w)) !! fd = None /\
  TcpConnection_delete w =
    Ok (set_io (mkWorld (poller (io w)) (delete p (channels (io w))) (close fd (kernel (io w))).2) w).

(** [C21] The end of a connection.  An open connection that its peer closes, and that the
    server then lets its loop destroy, is taken out of the loop before its
    descriptor is closed, and no assertion fails on the way; so is a connected one
    that is destroyed without a close.  Destroying one that is being shut down (it
    still reads), and deleting one that is not disconnected, aborts. *)
Theorem conn_teardown w c :
  conn_inv this_loop w c -> tid_ w = cur -> channel_ (the_conn w) <> 0 -> event_handling_ c = false ->
  returns_quietly conn_cb_ -> returns_quietly close_cb_ ->
  (conn_status w = kConnected \/ conn_status w = kDisconnecting ->
   exists w1 w2, HandleClose this_loop cur close_cb_ w = Ok w1 /\
     OnConnectDestroyed this_loop cur conn_cb_ w1 = Ok w2 /\
     released (channel_ (the_conn w)) (fd_ c) w2) /\
  (conn_status w = kConnected ->
   exists w2, OnConnectDestroyed this_loop cur conn_cb_ w = Ok w2 /\
     released (channel_ (the_conn w)) (fd_ c) w2) /\
  (conn_status w = kDisconnecting -> IsReading c = true ->
   OnConnectDestroyed this_loop cur conn_cb_ w = Err AssertFail) /\
  (conn_status w <> kDisconnected -> TcpConnection_delete w = Err AssertFail).
Proof.
  intros Hi Ht Hp Hh Hconn Hclose.
  assert (in_loop cur w = Ok tt) as Hin by (unfold in_loop; rewrite Ht; apply AssertInLoopThread_refl).
  split_and!.
  - intros Hs. destruct (closing_spec close_cb_ w c Hi Ht Hp Hh Hclose) as (w0 & w1 & Hch & Hcb & Hcl & Hp1).
    destruct (removal_spec w1 _ Hcl) as (w2 & Hrem & Hii & Hint & Hmap & Hdel). rewrite Hp1 in Hdel.
    exists w1, w2. split_and!; [| |by split_and!].
    + unfold HandleClose. rewrite Hin. cbn [mbind result_bind].
      replace (_ || _) with true by (symmetry; apply orb_true_iff;
        destruct Hs; [left|right]; by apply bool_decide_eq_true).
      simpl. by rewrite Hch.
    + unfold OnConnectDestroyed, in_loop. rewrite (cl_tid _ _ Hcl), AssertInLoopThread_refl.
      pose proof (cl_status _ _ Hcl) as Hst. unfold conn_status in Hst. rewrite Hst. exact Hrem.
  - intros Hs. destruct (closing_spec conn_cb_ w c Hi Ht Hp Hh Hconn) as (w0 & w1 & Hch & Hcb & Hcl & Hp1).
    destruct (removal_spec w1 _ Hcl) as (w2 & Hrem & Hii & Hint & Hmap & Hdel). rewrite Hp1 in Hdel.
    exists w2. split; [|by split_and!]. unfold OnConnectDestroyed. rewrite Hin.
    unfold conn_status in Hs. rewrite Hs. cbn [mbind result_bind]. simpl. by rewrite Hch; simpl; rewrite Hcb.
  - intros Hs Hr. unfold OnConnectDestroyed. rewrite Hin. unfold conn_status in Hs. rewrite Hs. simpl.
    unfold on_io, Channel_Remove, channel_at. rewrite (ci_channel _ _ _ Hi). simpl.
    destruct (IsNoneEvent c) eqn:En; [|done]. apply Z.eqb_eq in En. unfold IsReading in Hr. by rewrite En in Hr.
  - intros Hs. unfold TcpConnection_delete, TcpConnection_dtor. unfold conn_status in Hs.
    by rewrite bool_decide_eq_false_2.
Qed.

(** With the default callbacks a server reads and discards: what arrived is gone
    from the input buffer, and the connection is otherwise as it was. *)
Lemma default_discards junk w c :
  tid_ w = cur -> conn_inv this_loop w c ->
  3 * (capacity_ (input_buffer_ (the_conn w)) + 65536 + reserved_prepend_size_ (input_buffer_ (the_conn w)))
    < 2 ^ 62 ->
  0 < rv_n (received w c) ->
  exists w', HandleRead junk this_loop cur DefaultMessageCallback close_cb_ w = Ok w' /\
    conn_inv this_loop w' c /\ input w' = [] /\ output w' = output w /\ conn_status w' = conn_status w.
Proof.
  intros Ht Hi Hcap Hn.
  destruct (HandleRead_spec junk this_loop cur DefaultMessageCallback close_cb_ w c Ht Hi Hcap)
    as (b & Hi1 & Hb & _ & Hrun & _).
  replace (rv_n (received w c) >? 0) with true in Hrun by blia. eexists. split; [exact Hrun|].
  destruct (Reset_spec (input_buffer_ (the_conn (after_read w c b))) (ci_in _ _ _ Hi1)) as (Hw & Hc & _).
  split_and!; [destruct Hi1; by split|exact Hc|done..].
Qed.
End Conn.

(** ** Connection 5 of TcpDemo.v *)

(** Sockets that are never used here but to be closed. *)
#[export] Instance ssim_net : NetKernel ssim := {|
  errno := fun _ => 0;
  set_errno := fun _ k => k;
  socket := fun _ _ k => (3, k);
  connect := fun _ _ _ k => (0, k);
  accept := fun _ k => (4, sockaddr_zero, k);
  bind := fun _ _ _ k => (0, k);
  SocketOps.listen := fun _ _ k => (0, k);
  close := fun _ k => (0, k);
  fcntl := fun _ _ _ k => (0, k);
  setsockopt := fun _ _ _ _ _ k => (0, k);
  getsockopt_error := fun _ _ => (0, 0);
  getsockname := fun _ _ => (0, sockaddr_zero);
  getpeername := fun _ _ => (0, sockaddr_zero);
  open_null := fun k => (8, k);
  option_value := fun _ _ _ _ => 0
|}.

(** The server's close callback: a functor for its loop. *)
Definition remove_later (w : demo_state) : result demo_state := Ok (QueueInLoop 1 (FOther 9) w).

Lemma remove_later_quiet : returns_quietly remove_later.
Proof.
  intros w. exists (QueueInLoop 1 (FOther 9) w). split; [done|].
  by destruct (post_spec (A := unit) 1 true (FOther 9) w) as [Hq _].
Qed.

(** A connection that is shutting down with two bytes unsent, closed by its peer. *)
Lemma conn_teardown_witness :
  let w := demo_w kDisconnecting demo_full_buf true 2 [] in
  exists w1 w2, HandleClose 7 1 remove_later w = Ok w1 /\ OnConnectDestroyed 7 1 Ok w1 = Ok w2 /\
    interest (kernel (io w2)) !! 5 = None /\ is_ok (TcpConnection_delete w2) = true /\
    OnConnectDestroyed 7 1 Ok w = Err AssertFail.
Proof.
  intros w. destruct (conn_teardown 7 1 Ok remove_later w (demo_chan true)) as (H1 & _ & H3 & _);
    try reflexivity.
  - apply demo_conn_inv; [apply demo_full_wf|by split].
  - discriminate.
  - intros x. exists x. split; [reflexivity|apply quiet_refl].
  - apply remove_later_quiet.
  - destruct H1 as (w1 & w2 & Hc & Hd & _ & Hi & _ & Hx); [right; reflexivity|].
    exists w1, w2. split; [exact Hc|]. split; [exact Hd|]. split; [exact Hi|].
    split; [by rewrite Hx|]. apply H3; reflexivity.
Defined.
