(* ===== verification/Acceptor.v ===== *)
(** * Acceptor (evk/acceptor.h, evk/acceptor.cc)

    The listening socket, its channel, and the spare descriptor; with it, what the
    socket wrappers do when a system call fails. *)

From S2P Require Import Prelude Bytes Slice Format LoopThread Duration Timestamp Channel EPoller.
From S2P Require Import EPollerFacts EventFd SimKernel LoopChannels SocketOps.
#[local] Open Scope Z_scope.

Section Acceptor.
Context {Cb K : Type} `{EpollKernel K, NetKernel K}.

Record Acceptor := mkAcceptor {
  accept_fd_ : Z;
  accept_channel_ : ptr;
  idlefd_ : Z;
  listenning_ : bool
}.

(** [server]: what the new-connection callback acts on beside. *)
Record aworld {S : Type} := mkAWorld {
  acceptor : Acceptor;
  aio : EPoller.world Cb K;
  server : S
}.
Arguments aworld : clear implicits.

Context {S : Type}.

Definition set_acceptor (a : Acceptor) (w : aworld S) : aworld S := mkAWorld S a (aio w) (server w).
Definition set_aio (i : EPoller.world Cb K) (w : aworld S) : aworld S :=
  mkAWorld S (acceptor w) i (server w).
Definition set_akernel (k : K) (w : aworld S) : aworld S := set_aio (set_kernel k (aio w)) w.

(** The owner loop and its thread, and the calling thread. *)
Context (this_loop : ptr) (tid cur : thread_id).

(** The constructor, on an address of family [Family listen_addr]; the channel is
    built at [p], its read callback is [on_read]. *)
Definition Acceptor_new (listen_addr : sockaddr) (reuse_port : bool) (p : ptr) (on_read : Cb)
    (i : EPoller.world Cb K) : result (Acceptor * EPoller.world Cb K) :=
  '(fd, k) ← CreateNonblockingSocket (Family listen_addr) (kernel i);
  let c := Channel_new this_loop fd in
  let '(idlefd, k) := open_null k in
  _ ← assert (idlefd >=? 0);
  let k := SetReuseAddr true fd k in
  let k := SetReusePort reuse_port fd k in
  k ← BindAddress listen_addr fd k;
  Ok (mkAcceptor fd p idlefd false,
      EPoller.set_channel p (SetReadCallback on_read c) (set_kernel k i)).

Definition Listen (w : aworld S) : result (aworld S) :=
  _ ← AssertInLoopThread tid cur;
  let a := acceptor w in
  let w := set_acceptor (mkAcceptor (accept_fd_ a) (accept_channel_ a) (idlefd_ a) true) w in
  k ← Socket_Listen (accept_fd_ a) (kernel (aio w));
  i ← Channel_change this_loop tid cur EnableRead (accept_channel_ a) (set_kernel k (aio w));
  Ok (set_aio i w).

Definition IsListenning (w : aworld S) : bool := listenning_ (acceptor w).

Definition set_idlefd (fd : Z) (w : aworld S) : aworld S :=
  set_acceptor (mkAcceptor (accept_fd_ (acceptor w)) (accept_channel_ (acceptor w)) fd
    (listenning_ (acceptor w))) w.

(** [new_connection_callback_]. *)
Context (new_connection_callback_ : option (Z -> sockaddr -> aworld S -> result (aworld S))).

Definition HandleRead (w : aworld S) : result (aworld S) :=
  _ ← AssertInLoopThread tid cur;
  '(connfd, peer, k) ← Socket_Accept (InetAddress_port sockaddr_zero 0 false false)
                          (accept_fd_ (acceptor w)) (kernel (aio w));
  let w := set_akernel k w in
  if connfd >=? 0 then
    match new_connection_callback_ with
    | Some cb => cb connfd peer w
    | None => Ok (set_akernel (Close connfd k) w)
    end
  else if errno k =? EMFILE then
    let k := (close (idlefd_ (acceptor w)) k).2 in
    let '(fd, _, k) := accept (accept_fd_ (acceptor w)) k in
    let k := (close fd k).2 in
    let '(fd, k) := open_null k in
    Ok (set_idlefd fd (set_akernel k w))
  else Ok w.

(** The body of the destructor. *)
Definition Acceptor_dtor (w : aworld S) : result (aworld S) :=
  i ← Channel_change this_loop tid cur DisableAll (accept_channel_ (acceptor w)) (aio w);
  i ← Channel_Remove this_loop tid cur (accept_channel_ (acceptor w)) i;
  Ok (set_akernel (close (idlefd_ (acceptor w)) (kernel i)).2 (set_aio i w)).
End Acceptor.
Arguments aworld : clear implicits.

(** ** Properties *)

Section Props.
Context {Cb K S : Type} `{EpollKernel K, NetLaws K}.

Lemma SetNonBlock_badfd fd (k : K) : fd < 0 -> errno (SetNonBlockAndCloseOnExec fd k) = EBADF.
Proof.
  intros Hfd. unfold SetNonBlockAndCloseOnExec.
  destruct (fcntl fd F_GETFL 0 k) as [f1 k1]. destruct (fcntl fd F_SETFL _ k1) as [f2 k2].
  destruct (fcntl fd F_GETFD 0 k2) as [f3 k3].
  pose proof (fcntl_badfd fd F_SETFD (Z.lor f3 FD_CLOEXEC) k3 Hfd) as [_ He].
  by destruct (fcntl fd F_SETFD _ k3).
Qed.

(** The two ways [accept] can answer. *)
Lemma accept_cases tid (cb : Z -> sockaddr -> aworld Cb K S -> result (aworld Cb K S))
    (w : aworld Cb K S) fd peer k :
  accept (accept_fd_ (acceptor w)) (kernel (aio w)) = (fd, peer, k) ->
  (fd < 0 -> HandleRead tid tid (Some cb) w = Err Fatal) /\
  (0 <= fd -> HandleRead tid tid (Some cb) w =
     cb fd peer (set_akernel (SetNonBlockAndCloseOnExec fd k) w)).
Proof.
  intros Ha. unfold HandleRead, Socket_Accept, Accept. rewrite AssertInLoopThread_refl.
  cbn [mbind result_bind]. rewrite Ha. split; intros Hfd.
  - replace (fd <? 0) with true by blia. by rewrite SetNonBlock_badfd by done.
  - replace (fd <? 0) with false by blia. cbn [mbind result_bind].
    by replace (fd >=? 0) with true by blia.
Qed.

(** A failed [accept] ends the process, whatever the reason.  The wrapper
    first makes the (negative) descriptor non-blocking, which sets [errno] to
    [EBADF], an error it treats as unexpected; so the errors it means to tolerate
    are fatal, and the acceptor's recovery from [EMFILE] is never reached.  A
    successful [accept] hands the descriptor to the callback, once. *)
Theorem accept_failure_is_fatal tid (cb : Z -> sockaddr -> aworld Cb K S -> result (aworld Cb K S))
    (w : aworld Cb K S) fd peer k :
  accept (accept_fd_ (acceptor w)) (kernel (aio w)) = (fd, peer, k) ->
  (fd < 0 -> HandleRead tid tid (Some cb) w = Err Fatal) /\
  (0 <= fd -> HandleRead tid tid (Some cb) w =
     cb fd peer (set_akernel (SetNonBlockAndCloseOnExec fd k) w)).
Proof. apply accept_cases. Qed.

(** No socket option is ever set: the option's value (0 or 1) is passed where
    the length of an [int] is due, and setsockopt(2) refuses the call. *)
Theorem socket_options_have_no_effect on fd (k : K) :
  option_value (SetTcpNoDelay on fd k) = option_value k /\
  option_value (SetReuseAddr on fd k) = option_value k /\
  option_value (SetReusePort on fd k) = option_value k /\
  option_value (SetKeepAlive on fd k) = option_value k.
Proof.
  assert (u32 (int_of_bool on) < 4) as Hlen by by destruct on.
  split_and!; by apply setsockopt_short.
Qed.

(** [IsSelfConnect] recognises an IPv4 socket connected to itself, and no IPv6
    one: the comparison of the addresses is given the length zero. *)
Theorem IsSelfConnect_behaviour fd (k : K) :
  let l := GetLocalAddr fd k in
  let p := GetPeerAddr fd k in
  (sin_family l = AF_INET ->
     IsSelfConnect fd k = Ok (bool_decide (sin_port l = sin_port p /\ sin_addr l = sin_addr p))) /\
  (sin_family l = AF_INET6 -> length (sin6_addr l) = 16%nat -> IsSelfConnect fd k = Ok false).
Proof.
  intros l p. unfold IsSelfConnect. fold l p. split.
  - intros ->. simpl. f_equal. destruct (Z.eqb_spec (sin_port l) (sin_port p)),
      (Z.eqb_spec (sin_addr l) (sin_addr p)); simpl; symmetry;
      first [apply bool_decide_eq_true; done | apply bool_decide_eq_false; naive_solver].
  - intros -> Hlen. simpl. rewrite Hlen. simpl. destruct (sin_port l =? sin_port p); [|done].
    unfold memcmp_n. by rewrite !mem_read_ok by lia.
Qed.
End Props.

(** ** A concrete network *)

(** [n_accept]: the answer of accept; [n_local], [n_peer]: the two ends of every
    socket. *)
Record nsim := mkNsim {
  n_base : sim;
  n_errno : Z;
  n_accept : Z;
  n_local : sockaddr;
  n_peer : sockaddr;
  n_options : gmap (Z * Z * Z) Z
}.

Definition n_set_errno (e : Z) (k : nsim) : nsim :=
  mkNsim (n_base k) e (n_accept k) (n_local k) (n_peer k) (n_options k).
Definition n_with_base (b : sim) (k : nsim) : nsim :=
  mkNsim b (n_errno k) (n_accept k) (n_local k) (n_peer k) (n_options k).

#[export] Instance nsim_epoll : EpollKernel nsim := {|
  interest := fun k => interest (n_base k);
  epoll_ctl := fun op fd ev k =>
    ((epoll_ctl op fd ev (n_base k)).1, n_with_base (epoll_ctl op fd ev (n_base k)).2 k);
  epoll_wait := fun n t k => ((epoll_wait n t (n_base k)).1, n_with_base (epoll_wait n t (n_base k)).2 k);
  pollable := fun k fd => pollable (n_base k) fd
|}.

#[export] Instance nsim_net : NetKernel nsim := {|
  errno := n_errno;
  set_errno := n_set_errno;
  socket := fun _ _ k => (3, k);
  connect := fun _ _ _ k => (0, k);
  accept := fun _ k => (n_accept k, n_peer k, if n_accept k <? 0 then n_set_errno EMFILE k else k);
  bind := fun _ _ _ k => (0, k);
  SocketOps.listen := fun _ _ k => (0, k);
  close := fun _ k => (0, k);
  fcntl := fun fd _ _ k => if fd <? 0 then (-1, n_set_errno EBADF k) else (0, k);
  setsockopt := fun fd level opt v len k =>
    if len <? 4 then (-1, n_set_errno 22 k)
    else (0, mkNsim (n_base k) (n_errno k) (n_accept k) (n_local k) (n_peer k)
                (<[(fd, level, opt) := v]> (n_options k)));
  getsockopt_error := fun _ _ => (0, 0);
  getsockname := fun _ k => (0, n_local k);
  getpeername := fun _ k => (0, n_peer k);
  open_null := fun k => (8, k);
  option_value := fun k fd level opt => default 0 (n_options k !! (fd, level, opt))
|}.

#[export] Instance nsim_laws : NetLaws nsim.
Proof.
  split; simpl; intros.
  - by rewrite (proj2 (Z.ltb_lt fd 0)) by done.
  - by rewrite (proj2 (Z.ltb_lt len 4)) by done.
Qed.

Definition demo_addr6 : sockaddr := mkSockaddr AF_INET6 (htons 80) 0 in6addr_loopback 0.
Definition demo_addr4 : sockaddr := mkSockaddr AF_INET (htons 80) (htonl INADDR_LOOPBACK) in6addr_any 0.
Definition demo_net (a : Z) (addr : sockaddr) : nsim := mkNsim (mkSim ∅ [] 0) 0 a addr addr ∅.
Definition demo_aworld (a : Z) : aworld Z nsim unit :=
  mkAWorld unit (mkAcceptor 3 100 8 true) (mkWorld (mkEPoller 1 16 ∅) ∅ (demo_net a demo_addr4)) tt.

(** Out of descriptors ([EMFILE]). *)
Lemma accept_failure_is_fatal_witness :
  HandleRead 1 1 (Some (fun _ _ w => Ok w)) (demo_aworld (-1)) = Err Fatal.
Proof.
  apply (accept_failure_is_fatal 1 (fun _ _ w => Ok w) (demo_aworld (-1)) (-1) demo_addr4
    (n_set_errno EMFILE (demo_net (-1) demo_addr4))); reflexivity.
Defined.

Lemma socket_options_have_no_effect_witness :
  option_value (SetKeepAlive true 5 (demo_net 4 demo_addr4)) 5 SOL_SOCKET SO_KEEPALIVE = 0.
Proof.
  destruct (socket_options_have_no_effect true 5 (demo_net 4 demo_addr4)) as (_ & _ & _ & H).
  rewrite H. reflexivity.
Defined.

Lemma IsSelfConnect_behaviour_witness :
  IsSelfConnect 5 (demo_net 4 demo_addr4) = Ok true /\ IsSelfConnect 5 (demo_net 4 demo_addr6) = Ok false.
Proof.
  split.
  - destruct (IsSelfConnect_behaviour 5 (demo_net 4 demo_addr4)) as [H4 _].
    rewrite H4 by reflexivity. vm_compute. reflexivity.
  - apply (IsSelfConnect_behaviour 5 (demo_net 4 demo_addr6)); reflexivity.
Defined.
