(* ===== verification/ThreadPool.v ===== *)
(** * EventLoopThreadPool (evk/event_loop_thread_pool.h/.cc)

    The loops of the pool's threads and the choice of the next one.  [StartLoop]
    (EventLoopThread.v) is an argument of [Start]: the loop it returns. *)

From S2P Require Import Prelude Format LoopThread Channel ServerStatus.
#[local] Open Scope Z_scope.

Record EventLoopThreadPool := mkPool {
  base_loop_ : ptr;
  base_tid : thread_id;
  name_ : string;
  num_thread_ : Z;
  next_ : Z;
  threads_ : list string;
  loops_ : list ptr;
  status_ : Status
}.

Definition EventLoopThreadPool_new (base_loop : ptr) (base_tid : thread_id) (name : string) :
    EventLoopThreadPool := mkPool base_loop base_tid name 0 0 [] [] kNull.

Definition SetThreadNum (n : Z) (p : EventLoopThreadPool) : EventLoopThreadPool :=
  mkPool (base_loop_ p) (base_tid p) (name_ p) n (next_ p) (threads_ p) (loops_ p) (status_ p).
Definition set_next (n : Z) (p : EventLoopThreadPool) : EventLoopThreadPool :=
  mkPool (base_loop_ p) (base_tid p) (name_ p) (num_thread_ p) n (threads_ p) (loops_ p) (status_ p).
Definition set_pool_status (s : Status) (p : EventLoopThreadPool) : EventLoopThreadPool :=
  mkPool (base_loop_ p) (base_tid p) (name_ p) (num_thread_ p) (next_ p) (threads_ p) (loops_ p) s.

(** The name of thread [i], printed into [name_.size() + 32] bytes. *)
Definition thread_name (name : string) (i : Z) : string :=
  snprintf (String.length name + 32) (name ++ "-" ++ print_d i).

Section Start.
Context (StartLoop : string -> ptr).

Definition start_one (i : nat) (p : EventLoopThreadPool) : EventLoopThreadPool :=
  let t := thread_name (name_ p) (Z.of_nat i) in
  mkPool (base_loop_ p) (base_tid p) (name_ p) (num_thread_ p) (next_ p) (threads_ p ++ [t])
    (loops_ p ++ [StartLoop t]) (status_ p).

(** The second component: whether the initial callback is called on the base loop. *)
Definition Start (cb : bool) (p : EventLoopThreadPool) : EventLoopThreadPool * bool :=
  let p := set_pool_status kStarting p in
  let p := foldl (fun p i => start_one i p) p (seq 0 (Z.to_nat (num_thread_ p))) in
  (set_pool_status kRunning p, (num_thread_ p =? 0) && cb).
End Start.

(** [Stop], [Join] and the destructor of each thread are arguments too. *)
Section Stop.
Context (thread_Stop thread_Join thread_dtor : string -> result unit).

Definition Stop (p : EventLoopThreadPool) : result EventLoopThreadPool :=
  let p := set_pool_status kStopping p in
  if num_thread_ p =? 0 then Ok (set_pool_status kStopped p)
  else
    _ ← foldM (fun t _ => thread_Stop t) (threads_ p) tt;
    Ok (set_pool_status kStopped p).

(** [threads_.clear()]: the vector holds the only references, so the threads are
    destroyed, from the first to the last. *)
Definition clear_threads (p : EventLoopThreadPool) : result EventLoopThreadPool :=
  _ ← foldM (fun t _ => thread_dtor t) (threads_ p) tt;
  Ok (mkPool (base_loop_ p) (base_tid p) (name_ p) (num_thread_ p) (next_ p) [] (loops_ p) (status_ p)).

Definition Join (p : EventLoopThreadPool) : result EventLoopThreadPool :=
  _ ← foldM (fun t _ => thread_Join t) (threads_ p) tt;
  clear_threads p.

Definition EventLoopThreadPool_dtor (p : EventLoopThreadPool) : result EventLoopThreadPool :=
  p ← Join p; clear_threads p.

(** A loop over the threads fails exactly when it does on one of them. *)
Lemma foldM_threads (f : string -> result unit) l :
  foldM (fun t _ => f t) l tt = Ok tt <-> Forall (fun t => f t = Ok tt) l.
Proof.
  induction l as [|t l IH]; simpl; [by split|]. rewrite Forall_cons, <- IH.
  destruct (f t) as [[]|]; simpl; naive_solver.
Qed.

(** The pool stops when its threads do; with none it stops at once. *)
Lemma Stop_spec p :
  (num_thread_ p = 0 \/ Forall (fun t => thread_Stop t = Ok tt) (threads_ p)) ->
  Stop p = Ok (set_pool_status kStopped p).
Proof.
  unfold Stop. simpl. intros [->|Ht%foldM_threads]; [done|].
  destruct (num_thread_ p =? 0); [done|]. by rewrite Ht.
Qed.

(** A pool can be destroyed exactly when each of its threads can be joined and, once
    all are joined, destroyed; a thread that was not stopped cannot. *)
Lemma EventLoopThreadPool_dtor_spec p :
  (exists p', EventLoopThreadPool_dtor p = Ok p' /\ threads_ p' = []) <->
  Forall (fun t => thread_Join t = Ok tt) (threads_ p) /\ Forall (fun t => thread_dtor t = Ok tt) (threads_ p).
Proof.
  rewrite <- !foldM_threads. unfold EventLoopThreadPool_dtor, Join, clear_threads.
  destruct (foldM (fun t _ => thread_Join t) _ tt) as [[]|]; simpl; [|naive_solver].
  destruct (foldM (fun t _ => thread_dtor t) _ tt) as [[]|]; naive_solver.
Qed.
End Stop.

(** [Join] and the destructor of a thread of the pool, as their caller sees them, by
    whether the thread comes to its end, having stored [kStopped]: [std::thread::join] waits for
    that.  A thread that [StartLoop] started never does, however it is stopped
    ([never_joined] of EventLoopThread.v). *)
Section Exited.
Context (exited : string -> bool).

Definition thread_Join (t : string) : result unit := if exited t then Ok tt else Err Blocks.
Definition thread_dtor (t : string) : result unit := _ ← assert (exited t); thread_Join t.

(** The pool's destructor waits for every thread. *)
Lemma pool_dtor_exited p :
  (forallb exited (threads_ p) = true ->
     exists p', EventLoopThreadPool_dtor thread_Join thread_dtor p = Ok p' /\ threads_ p' = []) /\
  (forallb exited (threads_ p) = false -> EventLoopThreadPool_dtor thread_Join thread_dtor p = Err Blocks).
Proof.
  split; intros Hall.
  - apply (EventLoopThreadPool_dtor_spec (fun _ => Ok tt)). unfold thread_dtor, thread_Join. rewrite !Forall_forall.
    rewrite forallb_forall in Hall. split; intros t Ht%list_elem_of_In%Hall; by rewrite Ht.
  - unfold EventLoopThreadPool_dtor, Join.
    assert (foldM (fun t _ => thread_Join t) (threads_ p) tt = Err Blocks) as ->; [|done].
    induction (threads_ p) as [|t l IH]; simpl in *; [done|].
    destruct (thread_Join t) as [[]|] eqn:E; unfold thread_Join in E; destruct (exited t); simplify_eq; simpl in *;
      [by apply IH|done].
Qed.
End Exited.

Section Loops.
Context (cur : thread_id).

Definition checked (p : EventLoopThreadPool) : result unit :=
  _ ← AssertInLoopThread (base_tid p) cur;
  assert (bool_decide (status_ p = kRunning)).

(** [next_.fetch_add(1)] wraps; the index is converted to [size_t]. *)
Definition GetNextLoop (p : EventLoopThreadPool) : result (ptr * EventLoopThreadPool) :=
  _ ← checked p;
  match loops_ p with
  | [] => Ok (base_loop_ p, p)
  | _ =>
      let idx := next_ p in
      let p := set_next (i32 (idx + 1)) p in
      loop ← deref (loops_ p !! Z.to_nat (u64 idx));
      Ok (loop, if u64 (next_ p) >=? Z.of_nat (length (loops_ p)) then set_next 0 p else p)
  end.

Definition GetNextLoopWithHash (hash_code : Z) (p : EventLoopThreadPool) : result ptr :=
  _ ← checked p;
  match loops_ p with
  | [] => Ok (base_loop_ p)
  | _ => deref (loops_ p !! Z.to_nat (hash_code mod Z.of_nat (length (loops_ p))))
  end.

Definition GetAllLoops (p : EventLoopThreadPool) : result (list ptr) :=
  _ ← checked p;
  Ok (match loops_ p with [] => [base_loop_ p] | l => l end).

(** [n] calls of [GetNextLoop]. *)
Fixpoint next_loops (n : nat) (p : EventLoopThreadPool) : result (list ptr * EventLoopThreadPool) :=
  match n with
  | O => Ok ([], p)
  | S n =>
      '(l, p) ← GetNextLoop p;
      '(ls, p) ← next_loops n p;
      Ok (l :: ls, p)
  end.

(** A running pool with at least one thread. *)
Record pool_ok (p : EventLoopThreadPool) : Prop := {
  po_tid : base_tid p = cur;
  po_running : status_ p = kRunning;
  po_len : 0 < Z.of_nat (length (loops_ p)) < 2 ^ 31;
  po_next : 0 <= next_ p < Z.of_nat (length (loops_ p))
}.

Lemma checked_ok p : base_tid p = cur -> status_ p = kRunning -> checked p = Ok tt.
Proof. intros Ht Hs. unfold checked. rewrite Ht, AssertInLoopThread_refl. simpl. by rewrite Hs. Qed.

Lemma GetNextLoop_spec p :
  pool_ok p ->
  exists l, loops_ p !! Z.to_nat (next_ p) = Some l /\
    GetNextLoop p = Ok (l, set_next ((next_ p + 1) mod Z.of_nat (length (loops_ p))) p) /\
    pool_ok (set_next ((next_ p + 1) mod Z.of_nat (length (loops_ p))) p).
Proof.
  intros [Ht Hs Hl Hn]. set (n := Z.of_nat (length (loops_ p))) in *.
  destruct (lookup_lt_is_Some_2 (loops_ p) (Z.to_nat (next_ p))) as [l Hlk]; [lia|].
  exists l. split; [done|].
  pose proof (Z.mod_pos_bound (next_ p + 1) n ltac:(lia)).
  split; [|split; simpl; try done; lia].
  unfold GetNextLoop. rewrite checked_ok by done. cbn [mbind result_bind].
  assert (forall A (a b : A), match loops_ p with [] => a | _ => b end = b) as Hm.
  { intros. destruct (loops_ p); [simpl in n; lia|done]. }
  rewrite Hm. simpl loops_. rewrite (u64_id (next_ p)) by (unfold in_u64; lia). rewrite Hlk. cbn [deref mbind result_bind].
  simpl next_. rewrite i32_id by (unfold in_i32; lia). rewrite u64_id by (unfold in_u64; lia).
  fold n. rewrite Z.geb_leb. destruct (Z.leb_spec n (next_ p + 1)).
  - replace (next_ p + 1) with n by lia. by rewrite Z.mod_same by lia.
  - by rewrite Z.mod_small by lia.
Qed.

(** [C36] Connections are dealt to the loops in turn: of any number of successive
    calls of [GetNextLoop], the [i]-th returns the loop at position [next_ + i]
    modulo the number of loops, so that every loop gets its share, and the index
    never leaves the vector, however many calls are made. *)
Theorem GetNextLoop_round_robin n p :
  pool_ok p ->
  exists ls p', next_loops n p = Ok (ls, p') /\ length ls = n /\ pool_ok p' /\ loops_ p' = loops_ p /\
    next_ p' = (next_ p + Z.of_nat n) mod Z.of_nat (length (loops_ p)) /\
    forall i, (i < n)%nat ->
      ls !! i = loops_ p !! Z.to_nat ((next_ p + Z.of_nat i) mod Z.of_nat (length (loops_ p))).
Proof.
  revert p. induction n as [|n IH]; intros p Hp.
  - exists [], p. pose proof Hp as [_ _ Hl Hn]. split_and!; try done; [|intros; lia].
    rewrite Z.mod_small; lia.
  - destruct (GetNextLoop_spec p Hp) as (l & Hl & Hrun & Hp1).
    destruct (IH _ Hp1) as (ls & p' & Hrun' & Hlen & Hp' & Hloops & Hnext & Hi). simpl in *.
    exists (l :: ls), p'. rewrite Hrun. cbn [mbind result_bind]. rewrite Hrun'. cbn [mbind result_bind].
    pose proof Hp as [_ _ Hlp Hnp].
    split_and!; try done; [simpl; lia| |].
    + rewrite Hnext, Zplus_mod_idemp_l. f_equal. lia.
    + intros [|i] Hlt; simpl.
      * by rewrite Z.add_0_r, Z.mod_small by lia.
      * rewrite Hi by lia. rewrite Zplus_mod_idemp_l. do 3 f_equal. lia.
Qed.

(** A hash always leads to the same loop of the pool. *)
Lemma GetNextLoopWithHash_spec h p :
  pool_ok p -> 0 <= h ->
  exists l, GetNextLoopWithHash h p = Ok l /\ l ∈ loops_ p /\
    loops_ p !! Z.to_nat (h mod Z.of_nat (length (loops_ p))) = Some l.
Proof.
  intros [Ht Hs Hl Hn] Hh. unfold GetNextLoopWithHash. rewrite checked_ok by done. cbn [mbind result_bind].
  pose proof (Z.mod_pos_bound h (Z.of_nat (length (loops_ p))) ltac:(lia)).
  destruct (lookup_lt_is_Some_2 (loops_ p) (Z.to_nat (h mod Z.of_nat (length (loops_ p))))) as [l Hlk]; [lia|].
  exists l. split_and!; [|by eapply list_elem_of_lookup_2|done].
  rewrite Hlk. destruct (loops_ p); [simpl in Hl; lia|done].
Qed.
End Loops.

(** What [Start] leaves: one loop per thread, in order, and the pool ready. *)
Lemma Start_spec StartLoop cb p cur :
  base_tid p = cur -> loops_ p = [] -> threads_ p = [] -> next_ p = 0 -> 0 < num_thread_ p < 2 ^ 31 ->
  let p' := (Start StartLoop cb p).1 in
  let names := (fun i => thread_name (name_ p) (Z.of_nat i)) <$> seq 0 (Z.to_nat (num_thread_ p)) in
  pool_ok cur p' /\ threads_ p' = names /\ loops_ p' = StartLoop <$> names.
Proof.
  intros Ht Hl Hth Hnx Hn p' names.
  assert (forall l q, let r := foldl (fun p i => start_one StartLoop i p) q l in
    base_tid r = base_tid q /\ next_ r = next_ q /\ name_ r = name_ q /\
    threads_ r = threads_ q ++ ((fun i => thread_name (name_ q) (Z.of_nat i)) <$> l) /\
    loops_ r = loops_ q ++ (StartLoop <$> ((fun i => thread_name (name_ q) (Z.of_nat i)) <$> l))) as Hfold.
  { induction l as [|i l IH]; intros q; simpl.
    - by rewrite !app_nil_r.
    - destruct (IH (start_one StartLoop i q)) as (-> & -> & -> & -> & ->). simpl. by rewrite <- !app_assoc. }
  specialize (Hfold (seq 0 (Z.to_nat (num_thread_ p))) (set_pool_status kStarting p)).
  simpl in Hfold. destruct Hfold as (Ht' & Hn' & _ & Hth' & Hl').
  rewrite Hth in Hth'. rewrite Hl in Hl'. split; [|done].
  assert (Z.of_nat (length (loops_ p')) = num_thread_ p) as Hlen.
  { unfold p', Start. simpl. rewrite Hl'. simpl. rewrite !length_fmap, length_seq. lia. }
  split.
  - unfold p', Start. simpl. by rewrite Ht'.
  - done.
  - rewrite Hlen. lia.
  - rewrite Hlen. unfold p', Start. simpl. rewrite Hn'. lia.
Qed.

Definition demo_pool : EventLoopThreadPool :=
  (Start (fun s => Z.of_nat (String.length s) * 100 + Z.of_N (dec_val (String.substring 5 1 s))) true
     (SetThreadNum 3 (EventLoopThreadPool_new 7 1 "evkd"))).1.

Lemma demo_pool_ok : pool_ok 1 demo_pool.
Proof. split; vm_compute; intuition congruence. Qed.

Lemma GetNextLoop_round_robin_witness :
  exists ls p', next_loops 1 5 demo_pool = Ok (ls, p') /\ length ls = 5%nat /\ pool_ok 1 p' /\
    loops_ p' = loops_ demo_pool /\
    next_ p' = (next_ demo_pool + 5) mod Z.of_nat (length (loops_ demo_pool)) /\
    forall i, (i < 5)%nat ->
      ls !! i = loops_ demo_pool !! Z.to_nat ((next_ demo_pool + Z.of_nat i) mod Z.of_nat (length (loops_ demo_pool))).
Proof. apply (GetNextLoop_round_robin 1 5 demo_pool). apply demo_pool_ok. Defined.
