(* ===== verification/EventLoopThread.v ===== *)
(** * EventLoopThread (evk/event_loop_thread.h, evk/event_loop_thread.cc)

    The thread that calls [StartLoop], [Stop] and [Join] (the owner) and the thread
    it creates (the worker), which builds an event loop, runs it and destroys it.
    They share the status, the mutex with its condition variable, and the loop; an
    interleaving is a path of [step].  The loop's members are EventLoop.v's. *)

From S2P Require Import Prelude LoopThread Duration Timestamp Channel EPoller ServerStatus LoopChannels.
From S2P Require Import TimerQueue EventFd SimKernel EventLoop EventLoopProps.
#[local] Open Scope Z_scope.

(** Where the worker is: in [EventLoopThread::Run] and in [EventLoop::Run]. *)
Inductive worker_pc (F : Type) :=
  | NoThread
  | WNew                            (* before [event_loop_.reset(new EventLoop)] *)
  | WName                           (* before naming the thread *)
  | WInit                           (* before [init_cb_] *)
  | WLock | WStore | WNotify | WUnlock   (* telling [StartLoop] *)
  | WRun | WStarted                 (* entering [EventLoop::Run] *)
  | WCheck | WPoll | WHandle (active : list ptr) | WSwap | WFunctors (fs : list F)
  | WStopped                        (* after [EventLoop::Run] *)
  | WReset                          (* before [event_loop_.reset()] *)
  | WDone.
Arguments NoThread {F}. Arguments WNew {F}. Arguments WName {F}. Arguments WInit {F}.
Arguments WLock {F}. Arguments WStore {F}. Arguments WNotify {F}. Arguments WUnlock {F}.
Arguments WRun {F}. Arguments WStarted {F}. Arguments WCheck {F}. Arguments WPoll {F}.
Arguments WHandle {F} active. Arguments WSwap {F}. Arguments WFunctors {F} fs.
Arguments WStopped {F}. Arguments WReset {F}. Arguments WDone {F}.

(** Where the owner is: in [StartLoop], between the calls, in [Stop] and [Join]. *)
Inductive owner_pc :=
  | OInit
  | OSpawn | OLock | OTest | OWait (notified : bool)
  | OReady
  | OStopping | OStopLoop | OWake | OStopped
  | OJoin | OJoining
  | ODone.

Inductive holder := Owner | Worker.

Section Thread.
Context {F Cb U K : Type} `{EpollKernel K, EventfdKernel K}.
Abbreviation lworld := (lworld F Cb U K).
Context (exec : F -> lworld -> result lworld) (call : Cb -> lworld -> result lworld).
(** The two threads and the printed form of the worker's identifier. *)
Context (owner worker : thread_id) (worker_name : string).
(** What [new EventLoop] gets: its address, three descriptors, two channels and
    their callbacks, the kernel and what the callbacks own. *)
Context (this : ptr) (evfd timerfd epollfd : Z) (wp tp : ptr) (on_wakeup on_timer : Cb) (k0 : K) (u0 : U).

Record EventLoopThread := mkThread {
  event_loop_ : option lworld;
  name_ : string;
  init_cb_ : option (lworld -> result lworld);
  thread_ : bool;
  status_ : Status;
  mutex_ : option holder;
  initialised : bool;           (* the initial callback has returned *)
  opc : owner_pc;
  wpc : worker_pc F
}.

Definition EventLoopThread_new (cb : option (lworld -> result lworld)) (name : string) : EventLoopThread :=
  mkThread None name cb false kNull None false OInit NoThread.

Definition set_loop w s := mkThread (Some w) (name_ s) (init_cb_ s) (thread_ s) (status_ s) (mutex_ s)
  (initialised s) (opc s) (wpc s).
Definition set_status x s := mkThread (event_loop_ s) (name_ s) (init_cb_ s) (thread_ s) x (mutex_ s)
  (initialised s) (opc s) (wpc s).
Definition set_mutex m s := mkThread (event_loop_ s) (name_ s) (init_cb_ s) (thread_ s) (status_ s) m
  (initialised s) (opc s) (wpc s).
Definition set_thread b s := mkThread (event_loop_ s) (name_ s) (init_cb_ s) b (status_ s) (mutex_ s)
  (initialised s) (opc s) (wpc s).
Definition at_owner o s := mkThread (event_loop_ s) (name_ s) (init_cb_ s) (thread_ s) (status_ s) (mutex_ s)
  (initialised s) o (wpc s).
Definition at_worker x s := mkThread (event_loop_ s) (name_ s) (init_cb_ s) (thread_ s) (status_ s) (mutex_ s)
  (initialised s) (opc s) x.

(** [EventLoopThread::IsRunning]: the status of the loop. *)
Definition IsRunning (s : EventLoopThread) : result bool :=
  w ← deref (event_loop_ s); Ok (ServerStatus.IsRunning (EventLoop.status_ w)).

(** The assertion of [Stop]. *)
Definition Stop_assert (s : EventLoopThread) : result unit :=
  _ ← assert (bool_decide (status_ s = kRunning));
  b ← IsRunning s;
  assert b.

(** The process runs or has died. *)
Inductive config := Live (s : EventLoopThread) | Dead (f : fault).

(** An action that may fault, by one of the two threads. *)
Definition outcome (r : result EventLoopThread) : config :=
  match r with Ok s => Live s | Err f => Dead f end.

(** An action on the loop, then the worker's next position. *)
Definition on_loop (s : EventLoopThread) (f : lworld -> result lworld) (next : lworld -> worker_pc F) :
    result EventLoopThread :=
  w ← deref (event_loop_ s); w ← f w; Ok (at_worker (next w) (set_loop w s)).

Definition new_loop : result lworld :=
  EventLoop_new this worker evfd timerfd epollfd wp tp on_wakeup on_timer ∅ k0 ∅ u0.

(** ** The worker *)

Definition worker_new (s : EventLoopThread) : result EventLoopThread :=
  w ← new_loop; Ok (at_worker WName (set_loop w s)).

Definition worker_name_thread (s : EventLoopThread) : EventLoopThread :=
  mkThread (event_loop_ s) (if decide (name_ s = "") then "thread-" ++ worker_name else name_ s)
    (init_cb_ s) (thread_ s) (status_ s) (mutex_ s) (initialised s) (opc s) WInit.

Definition worker_init (s : EventLoopThread) : result EventLoopThread :=
  w ← deref (event_loop_ s);
  w ← match init_cb_ s with Some cb => cb w | None => Ok w end;
  Ok (mkThread (Some w) (name_ s) (init_cb_ s) (thread_ s) (status_ s) (mutex_ s) true (opc s) WLock).

(** [cond_.notify_one()]. *)
Definition notify_one (s : EventLoopThread) : EventLoopThread :=
  match opc s with OWait _ => at_owner (OWait true) s | _ => s end.

(** [~EventLoop] and the null pointer. *)
Definition worker_reset (s : EventLoopThread) : result EventLoopThread :=
  w ← deref (event_loop_ s);
  _ ← EventLoop_dtor this worker w;
  Ok (mkThread None (name_ s) (init_cb_ s) (thread_ s) (status_ s) (mutex_ s) (initialised s) (opc s) WDone).

Definition enter_run (w : lworld) : result lworld :=
  _ ← assert (negb (ServerStatus.IsRunning (EventLoop.status_ w)));
  _ ← AssertInLoopThread (EventLoop.tid_ w) worker;
  Ok (EventLoop.set_status kStarting w).

Definition check_running (w : lworld) : lworld :=
  if ServerStatus.IsRunning (EventLoop.status_ w) then w else EventLoop.set_status kStopped w.
Definition after_check (w : lworld) : worker_pc F :=
  if ServerStatus.IsRunning (EventLoop.status_ w) then WPoll else WStopped.

Inductive worker_step (s : EventLoopThread) : config -> Prop :=
  | worker_news : wpc s = WNew -> worker_step s (outcome (worker_new s))
  | worker_names : wpc s = WName -> worker_step s (Live (worker_name_thread s))
  | worker_inits : wpc s = WInit -> worker_step s (outcome (worker_init s))
  | worker_locks : wpc s = WLock -> mutex_ s = None ->
      worker_step s (Live (at_worker WStore (set_mutex (Some Worker) s)))
  | worker_stores : wpc s = WStore ->
      worker_step s (Live (at_worker WNotify (set_status kRunning s)))
  | worker_notifies : wpc s = WNotify -> worker_step s (Live (at_worker WUnlock (notify_one s)))
  | worker_unlocks : wpc s = WUnlock -> worker_step s (Live (at_worker WRun (set_mutex None s)))
  | worker_enters : wpc s = WRun ->
      worker_step s (outcome (on_loop s enter_run (fun _ => WStarted)))
  | worker_starts : wpc s = WStarted ->
      worker_step s (outcome (on_loop s (fun w => Ok (EventLoop.set_status kRunning w)) (fun _ => WCheck)))
  | worker_checks w : wpc s = WCheck -> event_loop_ s = Some w ->
      worker_step s (Live (at_worker (after_check w) (set_loop (check_running w) s)))
  | worker_polls tv : wpc s = WPoll ->
      worker_step s (outcome (on_loop s (poll_active tv) (fun w => WHandle (active_channels_ w))))
  | worker_handles p ps : wpc s = WHandle (p :: ps) ->
      worker_step s (outcome (on_loop s (handle_channel call p) (fun _ => WHandle ps)))
  | worker_handled : wpc s = WHandle [] ->
      worker_step s (outcome (on_loop s (fun w => Ok (set_calling true w)) (fun _ => WSwap)))
  | worker_swaps w : wpc s = WSwap -> event_loop_ s = Some w ->
      worker_step s (Live (at_worker (WFunctors (swap_functors w).1) (set_loop (swap_functors w).2 s)))
  | worker_calls f fs : wpc s = WFunctors (f :: fs) ->
      worker_step s (outcome (on_loop s (exec f) (fun _ => WFunctors fs)))
  | worker_called : wpc s = WFunctors [] ->
      worker_step s (outcome (on_loop s (fun w => Ok (set_calling false w)) (fun _ => WCheck)))
  | worker_stopped w : wpc s = WStopped -> event_loop_ s = Some w ->
      worker_step s (outcome (_ ← assert (IsStopped (EventLoop.status_ w));
                              Ok (at_worker WReset (set_status kStopped s))))
  | worker_resets : wpc s = WReset -> worker_step s (outcome (worker_reset s)).

(** ** The owner *)

Inductive owner_step (s : EventLoopThread) : config -> Prop :=
  (* StartLoop *)
  | StartLoop_store : opc s = OInit -> owner_step s (Live (at_owner OSpawn (set_status kStarting s)))
  | StartLoop_spawn : opc s = OSpawn ->
      owner_step s (outcome (_ ← assert (negb (thread_ s));
                             Ok (at_worker WNew (at_owner OLock (set_thread true s)))))
  | StartLoop_lock : opc s = OLock -> mutex_ s = None ->
      owner_step s (Live (at_owner OTest (set_mutex (Some Owner) s)))
  | StartLoop_wait : opc s = OTest -> status_lt (status_ s) kRunning = true ->
      owner_step s (Live (at_owner (OWait false) (set_mutex None s)))
  | StartLoop_woken b : opc s = OWait b -> mutex_ s = None ->       (* or spuriously *)
      owner_step s (Live (at_owner OTest (set_mutex (Some Owner) s)))
  | StartLoop_return : opc s = OTest -> status_lt (status_ s) kRunning = false ->
      owner_step s (Live (at_owner OReady (set_mutex None s)))
  (* between the calls *)
  | owner_queues cb : opc s = OReady ->
      owner_step s (outcome (w ← deref (event_loop_ s); Ok (set_loop (QueueInLoop owner cb w) s)))
  | owner_destroys : opc s = OReady ->                              (* ~EventLoopThread *)
      owner_step s (outcome (_ ← assert (IsStopped (status_ s)); Ok (at_owner OJoin s)))
  (* Stop *)
  | Stop_begin : opc s = OReady ->
      owner_step s (outcome (_ ← Stop_assert s; Ok (at_owner OStopping s)))
  | Stop_store : opc s = OStopping -> owner_step s (Live (at_owner OStopLoop (set_status kStopping s)))
  | Stop_loop : opc s = OStopLoop ->                                (* event_loop_->Stop() *)
      owner_step s (outcome (w ← deref (event_loop_ s);
                             Ok (at_owner OWake (set_loop (EventLoop.set_status kStopping w) s))))
  | Stop_wake : opc s = OWake ->
      owner_step s (outcome (w ← deref (event_loop_ s);
                             Ok (at_owner OStopped (set_loop
                               (if negb (IsInLoopThread (EventLoop.tid_ w) owner) then Wakeup w else w) s))))
  | Stop_wait : opc s = OStopped -> owner_step s (Live s)           (* usleep(1) *)
  | Stop_seen : opc s = OStopped -> IsStopped (status_ s) = true -> owner_step s (Live (at_owner OJoin s))
  (* Join *)
  | Join_lock : opc s = OJoin -> mutex_ s = None ->
      owner_step s (Live (at_owner OJoining (set_mutex (Some Owner) s)))
  | Join_joined : opc s = OJoining -> thread_ s = false \/ wpc s = WDone ->
      owner_step s (Live (at_owner ODone (set_thread false (set_mutex None s)))).

Inductive step : config -> config -> Prop :=
  | step_worker s c : worker_step s c -> step (Live s) c
  | step_owner s c : owner_step s c -> step (Live s) c.

(** ** The invariant *)

(** How far each thread is. *)
Definition wphase (x : worker_pc F) : Z :=
  match x with
  | NoThread => 0 | WNew => 1 | WName => 2 | WInit => 3 | WLock => 4 | WStore => 5 | WNotify => 6
  | WUnlock => 7 | WRun => 8 | WStarted => 9
  | WCheck | WPoll | WHandle _ | WSwap | WFunctors _ => 10
  | WStopped => 11 | WReset => 12 | WDone => 13
  end.
Definition ophase (x : owner_pc) : Z :=
  match x with
  | OInit => 0 | OSpawn => 1 | OLock => 2 | OTest => 3 | OWait _ => 4 | OReady => 5
  | OStopping => 6 | OStopLoop => 7 | OWake => 8 | OStopped => 9 | OJoin => 10 | OJoining => 11 | ODone => 12
  end.

(** What a callback may do to the loop: it may stop it. *)
Definition keeps (w w' : lworld) : Prop :=
  EventLoop.tid_ w' = EventLoop.tid_ w /\ wakeup_channel_ w' = wakeup_channel_ w /\
  timer_channel_ w' = timer_channel_ w /\
  (EventLoop.status_ w' = EventLoop.status_ w \/ EventLoop.status_ w' = kStopping).

Record thread_inv (s : EventLoopThread) : Prop := {
  i_start : wphase (wpc s) = 0 <-> ophase (opc s) <= 1;
  i_status : wphase (wpc s) <= 5 <-> status_value (status_ s) < 4;
  i_init : 4 <= wphase (wpc s) -> initialised s = true;
  i_loop : 2 <= wphase (wpc s) -> exists w, event_loop_ s = Some w /\ EventLoop.tid_ w = worker /\
    timer_channel_ w <> wakeup_channel_ w /\
    (wphase (wpc s) <> 10 \/ 8 <= ophase (opc s) -> EventLoop.status_ w <> kRunning);
  i_stopped : status_ s = kStopped -> wphase (wpc s) = 12;
  i_stop : 6 <= ophase (opc s) -> 10 <= wphase (wpc s);
  i_mutexW : mutex_ s = Some Worker <-> 5 <= wphase (wpc s) <= 7;
  i_mutexO : mutex_ s = Some Owner <-> ophase (opc s) = 3 \/ ophase (opc s) = 11;
  i_wait : opc s = OWait false -> wphase (wpc s) <= 6;
  i_ready : 5 <= ophase (opc s) -> 8 <= wphase (wpc s);
  i_thread : thread_ s = true <-> 2 <= ophase (opc s);
  i_end : 0 <= wphase (wpc s) <= 12 /\ ophase (opc s) <= 11
}.

(** ** What the loop's members keep *)

Lemma keeps_refl w : keeps w w.
Proof. by repeat split; try left. Qed.

Lemma keeps_trans w1 w2 w3 : keeps w1 w2 -> keeps w2 w3 -> keeps w1 w3.
Proof.
  intros (E1 & E2 & E3 & Hs) (E1' & E2' & E3' & Hs').
  split_and!; try congruence. destruct Hs, Hs'; first [left; congruence | right; congruence].
Qed.

Lemma keeps_not_running w w' : keeps w w' -> EventLoop.status_ w <> kRunning -> EventLoop.status_ w' <> kRunning.
Proof. intros (_ & _ & _ & [-> | ->]); done. Qed.

Lemma poll_active_keeps tv w w' : poll_active tv w = Ok w' -> keeps w w'.
Proof.
  unfold poll_active. intros Hr. inv_ok. destruct x as [[i active] t]. inv_ok. by split_and!; try left.
Qed.

Lemma Wakeup_keeps w : keeps w (Wakeup w).
Proof. unfold Wakeup. destruct (efd_write 1 (kernel (io w))). by split_and!; try left. Qed.

Lemma QueueInLoop_keeps cur cb w : keeps w (QueueInLoop cur cb w).
Proof.
  unfold QueueInLoop. destruct (must_wake cur _); [|by split_and!; try left].
  apply (keeps_trans _ (push_functor cb w)); [by split_and!; try left|apply Wakeup_keeps].
Qed.

Lemma call_opt_keeps (b : bool) (cb : option Cb) w w' :
  (forall cb w w', call cb w = Ok w' -> keeps w w') ->
  (if b then call_opt call cb w else Ok w) = Ok w' -> keeps w w'.
Proof.
  intros Hc Hr. destruct b; [destruct cb|]; simpl in Hr; inv_ok; eauto using keeps_refl.
Qed.

Lemma handle_channel_keeps p w w' :
  (forall cb w w', call cb w = Ok w' -> keeps w w') -> handle_channel call p w = Ok w' -> keeps w w'.
Proof.
  intros Hc Hr. unfold handle_channel, HandleEvent, get_channel in Hr. inv_ok.
  match goal with Hx : (if _ then _ else Ok ?s) = Ok _ |- _ =>
    apply (keeps_trans _ s); [by split_and!; try left|] end.
  apply (keeps_trans _ x7); [|by split_and!; try left].
  repeat match goal with
  | Hx : (if _ then call_opt _ _ ?s else Ok ?s) = Ok ?s' |- keeps _ ?s' =>
      apply (keeps_trans _ s); [|by eapply call_opt_keeps, Hx]; clear Hx
  end.
  apply keeps_refl.
Qed.

Lemma new_loop_spec w :
  new_loop = Ok w -> EventLoop.tid_ w = worker /\ EventLoop.status_ w = kInitialized /\
    wakeup_channel_ w = wp /\ timer_channel_ w = tp.
Proof.
  unfold new_loop, EventLoop_new, create_eventfd, TimerQueue_new, createtimerfd. intros Hr.
  destruct (evfd <? 0); [done|]. destruct (timerfd <? 0); [by inv_ok|]. inv_ok. simpl in *.
  rewrite lookup_empty in Hr. by inv_ok.
Qed.

(** ** Every step keeps the invariant *)

Context (Hptr : wp <> tp).
Context (Hexec : forall f w w', exec f w = Ok w' -> keeps w w').
Context (Hcall : forall cb w w', call cb w = Ok w' -> keeps w w').

(** The initial callback of the thread is of the same kind. *)
Definition init_ok (s : EventLoopThread) : Prop :=
  forall cb w w', init_cb_ s = Some cb -> cb w = Ok w' -> keeps w w'.

Definition config_inv (c : config) : Prop :=
  match c with Live s => thread_inv s /\ init_ok s | Dead _ => True end.

Lemma worker_does s r s' : worker_step s (outcome r) -> r = Ok s' -> step (Live s) (Live s').
Proof. intros Hs ->. by apply step_worker. Qed.

Lemma outcome_inv r : (forall s, r = Ok s -> thread_inv s /\ init_ok s) -> config_inv (outcome r).
Proof. destruct r; simpl; auto. Qed.

(** A worker's step on the loop that does not tell the owner. *)
Lemma on_loop_inv m s f next :
  thread_inv s -> init_ok s -> 8 <= wphase (wpc s) <= m -> m <= 10 ->
  (forall w w', event_loop_ s = Some w -> f w = Ok w' -> wphase (next w') = m /\
    EventLoop.tid_ w' = EventLoop.tid_ w /\ timer_channel_ w' = timer_channel_ w /\
    wakeup_channel_ w' = wakeup_channel_ w /\
    ((wphase (wpc s) <> 10 \/ 8 <= ophase (opc s) -> EventLoop.status_ w <> kRunning) ->
     m <> 10 \/ 8 <= ophase (opc s) -> EventLoop.status_ w' <> kRunning)) ->
  config_inv (outcome (on_loop s f next)).
Proof.
  intros [] Hi Hw Hm Hf. apply outcome_inv. intros s' Hr. unfold on_loop in Hr. inv_ok.
  match goal with E : event_loop_ s = Some _ |- _ => rename E into Hl end.
  edestruct Hf as (Hp & E1 & E2 & E3 & Hst); [done..|].
  destruct i_loop0 as (w0 & Hw0 & Ht & Hc & Hs); [lia|]. rewrite Hl in Hw0. injection Hw0 as <-.
  split; [|done]. split; simpl; rewrite ?Hp; try done; try lia.
  - intros _. apply i_init0. lia.
  - intros _. eexists. split; [done|]. split_and!; try congruence. auto.
  - intros Hx. apply i_stopped0 in Hx. lia.
  - rewrite i_mutexW0. lia.
  - intros Hx. apply i_wait0 in Hx. lia.
Qed.

(** The fields of the invariant after a step from a known position: arithmetic on
    the phases, and what was known before. *)
Ltac mutex_phase :=
  match goal with
  | |- _ <-> _ => split; let Hx := fresh "Hx" in intros Hx;
      first [ discriminate Hx | done | lia
            | match goal with Hm : _ <-> _ |- _ => apply Hm in Hx; first [done | congruence | lia] end
            | match goal with Hm : _ <-> _ |- _ => apply Hm; first [done | lia] end ]
  end.
Ltac phases :=
  split; simpl in *; try match goal with E : opc _ = _ |- _ => rewrite E; simpl end;
  try done; try lia; try mutex_phase;
  try match goal with Hs : _ = kStopped -> _ |- _ = kStopped -> _ =>
    let Hx := fresh in intros Hx; first [discriminate Hx | apply Hs in Hx; lia] end;
  try match goal with Hs : _ -> initialised _ = true |- _ -> initialised _ = true => intros _; apply Hs; lia end;
  try match goal with Hl : _ -> ex _ |- _ -> ex _ =>
    let w := fresh "w" in let Hw := fresh "Hw" in let Ht := fresh "Ht" in
    let Hc := fresh "Hc" in let Hs := fresh "Hs" in
    intros; destruct Hl as (w & Hw & Ht & Hc & Hs); [lia|];
    exists w; split_and!; [done..|]; intros ?; apply Hs; lia end.

(** A turn's step on the loop. *)
Ltac keeps_step :=
  match goal with Hpc : wpc _ = _ |- _ =>
    apply (on_loop_inv 10); [done..|rewrite Hpc; simpl; lia|lia|];
    let w := fresh "w" in let w' := fresh "w'" in let Hr := fresh "Hr" in let Hk := fresh "Hk" in
    intros w w' _ Hr; rewrite Hpc; simpl;
    enough (keeps w w') as Hk by (split_and!; try (by apply Hk); [done|]; intros Hs Hx; 
      eapply keeps_not_running; [exact Hk|]; apply Hs; done)
  end.

(** Open the invariant at the worker's place. *)
Ltac open_at Hinv Hpc := destruct Hinv; rewrite Hpc in *; cbn [wphase] in *.

(** A step that only moves the worker on. *)
Ltac by_phase Hinv Hpc := open_at Hinv Hpc; (split; [|done]); phases.

Lemma worker_step_inv s c : thread_inv s -> init_ok s ->
  worker_step s c -> config_inv c.
Proof.
  intros Hinv Hi Hstep. destruct Hstep as [Hpc|Hpc|Hpc|Hpc Hm|Hpc|Hpc|Hpc|Hpc|Hpc|w Hpc Hl|tv Hpc|p ps Hpc|Hpc|w Hpc Hl|f fs Hpc|Hpc|w Hpc Hl|Hpc].
  - apply outcome_inv. intros s' Hr. unfold worker_new in Hr. inv_ok.
    apply new_loop_spec in E as (E1 & E2 & E3 & E4). by_phase Hinv Hpc.
    intros _. exists x. split_and!; try done; congruence.
  - by_phase Hinv Hpc.
  - open_at Hinv Hpc. apply outcome_inv. intros s' Hr. unfold worker_init in Hr. inv_ok.
    assert (keeps x x0) as (E1 & E2 & E3 & Hs).
    { destruct (init_cb_ s) as [cb|] eqn:Ei; [by eapply Hi|inv_ok; apply keeps_refl]. }
    destruct i_loop0 as (w & Hw & Ht & Hc & Hr); [lia|]. rewrite E in Hw. injection Hw as <-.
    split; [|done]. phases. intros _. exists x0. split_and!; try congruence.
    intros _. destruct Hs as [-> | ->]; [apply Hr; lia|done].
  - by_phase Hinv Hpc.
  - by_phase Hinv Hpc.
  - open_at Hinv Hpc. split; [|by destruct s as [???????[] ?]].
    unfold notify_one. destruct (opc s) eqn:Eo; cbn [ophase] in *; phases.
  - open_at Hinv Hpc. split; [|done].
    assert (mutex_ s = Some Worker) by (apply i_mutexW0; lia). phases.
  - apply (on_loop_inv 9); [done..|rewrite Hpc; simpl; lia|lia|]. intros w w' Hl Hr.
    unfold enter_run in Hr. inv_ok. by split_and!.
  - apply (on_loop_inv 10); [done..|rewrite Hpc; simpl; lia|lia|]. intros w w' Hl [= <-].
    split_and!; [done..|]. destruct Hinv. rewrite Hpc in *. simpl in *. lia.
  - open_at Hinv Hpc. split; [|done].
    destruct i_loop0 as (w0 & Hw0 & Ht & Hc & Hs); [lia|]. rewrite Hl in Hw0. injection Hw0 as <-.
    unfold after_check, check_running. destruct (ServerStatus.IsRunning (EventLoop.status_ w)) eqn:Er.
    + phases. by exists w.
    + phases. by exists (EventLoop.set_status kStopped w).
  - keeps_step. by eapply poll_active_keeps.
  - keeps_step. by eapply handle_channel_keeps.
  - keeps_step. injection Hr as <-. by split_and!; try left.
  - open_at Hinv Hpc. split; [|done].
    destruct i_loop0 as (w0 & Hw0 & Ht & Hc & Hs); [lia|]. rewrite Hl in Hw0. injection Hw0 as <-.
    phases. by exists (set_pending [] w).
  - keeps_step. by eapply Hexec.
  - keeps_step. injection Hr as <-. by split_and!; try left.
  - open_at Hinv Hpc. apply outcome_inv. intros s' Hr. inv_ok.
    split; [|done]. phases.
  - open_at Hinv Hpc. apply outcome_inv. intros s' Hr.
    unfold worker_reset in Hr. inv_ok. exfalso.
    destruct i_loop0 as (w0 & Hw0 & Ht & Hc & Hs); [lia|]. 
    pose proof (EventLoop_dtor_fails this worker w0 Hc) as Hd. rewrite E in Hw0. injection Hw0 as <-.
    by rewrite E0 in Hd.
Qed.

Lemma owner_step_inv s c : thread_inv s -> init_ok s -> owner_step s c -> config_inv c.
Proof.
  intros [] Hi Hstep. destruct Hstep as [Hpc|Hpc|Hpc Hm|Hpc Hs|b Hpc Hm|Hpc Hs|cb Hpc|Hpc|Hpc|Hpc|Hpc|Hpc|Hpc|Hpc Hs|Hpc Hm|Hpc Hj];
    rewrite Hpc in *; cbn [ophase] in *.
  - split; [|done]. phases.
  - apply outcome_inv. intros s' Hr. inv_ok. split; [|done]. phases.
  - split; [|done]. phases.
  - assert (mutex_ s = Some Owner) by (apply i_mutexO0; lia).
    apply Z.ltb_lt in Hs. simpl in Hs. split; [|done]. phases.
  - split; [|done]. phases.
  - assert (mutex_ s = Some Owner) by (apply i_mutexO0; lia).
    apply Z.ltb_ge in Hs. simpl in Hs. split; [|done].
    assert (~ 5 <= wphase (wpc s) <= 7) by (intros Hx; apply i_mutexW0 in Hx; congruence). phases.
  - apply outcome_inv. intros s' Hr. inv_ok. split; [|done].
    destruct i_loop0 as (w0 & Hw0 & Ht & Hc & Hs); [lia|]. 
    pose proof (QueueInLoop_keeps owner cb x) as Hk. phases. intros _. eexists. split; [done|].
    rewrite E in Hw0. injection Hw0 as <-. pose proof Hk as (E1 & E2 & E3 & _). split_and!; try congruence.
    intros Hx. eapply keeps_not_running; [done|]. by apply Hs.
  - apply outcome_inv. intros s' Hr. inv_ok. apply bool_decide_eq_true in E.
    specialize (i_stopped0 E). split; [|done]. phases.
  - apply outcome_inv. intros s' Hr. unfold Stop_assert, IsRunning in Hr. inv_ok. 
    destruct i_loop0 as (w0 & Hw0 & Ht & Hc & Hs); [lia|].
    rewrite E2 in Hw0. injection Hw0 as <-. apply bool_decide_eq_true in E1.
    assert (wphase (wpc s) = 10) by (destruct (Z.eq_dec (wphase (wpc s)) 10); [done|]; exfalso; apply Hs; [lia|done]).
    split; [|done]. phases. intros _. exists x2. split_and!; auto. 
  - split; [|done]. phases.
  - apply outcome_inv. intros s' Hr. inv_ok. destruct i_loop0 as (w0 & Hw0 & Ht & Hc & Hs); [lia|].
    rewrite E in Hw0. injection Hw0 as <-. split; [|done]. phases. intros _. by eexists.
  - apply outcome_inv. intros s' Hr. inv_ok. destruct i_loop0 as (w0 & Hw0 & Ht & Hc & Hs); [lia|].
    rewrite E in Hw0. injection Hw0 as <-. split; [|done]. phases. intros _. eexists. split; [done|].
    destruct (negb _); [|split_and!; auto with lia].
    pose proof (Wakeup_keeps x) as Hk. pose proof Hk as (E1 & E2 & E3 & _). split_and!; try congruence.
    intros _. eapply keeps_not_running; [done|]. apply Hs. lia.
  - split; [by split; rewrite ?Hpc|done].
  - apply bool_decide_eq_true in Hs. specialize (i_stopped0 Hs). split; [|done]. phases.
  - split; [|done]. phases.
  - exfalso. destruct Hj as [Hj|Hj]; [|rewrite Hj in *; simpl in *; lia].
    assert (thread_ s = true) by (apply i_thread0; lia). congruence.
Qed.

Lemma reachable_inv cb name c :
  (forall f w w', cb = Some f -> f w = Ok w' -> keeps w w') ->
  star step (Live (EventLoopThread_new cb name)) c -> config_inv c.
Proof.
  intros Hcb Hst. eapply (star_invariant step config_inv); [| |exact Hst].
  - intros x y Hx Hs. destruct Hs as [s c' Hs|s c' Hs]; destruct Hx as [Hv Hi];
      [by eapply worker_step_inv|by eapply owner_step_inv].
  - split; [|intros f w w' Hf; by apply Hcb]. split; simpl; try done; try lia; (split; [done|lia]).
Qed.

(** [C26] The handshake of [StartLoop].  Whatever the interleaving, when [StartLoop]
    has returned there is a loop, it belongs to the worker's thread and the initial
    callback has returned; and no notification is missed: while the owner waits on
    the condition variable without having been notified, the status is still below
    [kRunning] or the worker is about to notify. *)
Theorem StartLoop_handshake cb name s :
  (forall f w w', cb = Some f -> f w = Ok w' -> keeps w w') ->
  star step (Live (EventLoopThread_new cb name)) (Live s) ->
  (opc s = OReady ->
    exists w, event_loop_ s = Some w /\ EventLoop.tid_ w = worker /\ initialised s = true) /\
  (opc s = OWait false -> status_lt (status_ s) kRunning = true \/ wpc s = WNotify).
Proof.
  intros Hcb Hst. apply reachable_inv in Hst as [[] _]; [|done]. split; intros Ho; rewrite Ho in *; simpl in *.
  - specialize (i_ready0 ltac:(lia)). destruct i_loop0 as (w & Hw & Ht & _); [lia|].
    exists w. split_and!; [done..|]. apply i_init0. lia.
  - specialize (i_wait0 eq_refl). destruct (Z.eq_dec (wphase (wpc s)) 6) as [Hx|Hx].
    + right. by destruct (wpc s).
    + left. apply Z.ltb_lt. apply i_status0. lia.
Qed.

(** [StartLoop] returns too early.  It waits for [kRunning], which the worker
    stores before it calls the loop's [Run]; until the loop has stored its own
    [kRunning], a call of [Stop] fails the assertion that asks the loop. *)
Theorem Stop_too_early cb name s :
  (forall f w w', cb = Some f -> f w = Ok w' -> keeps w w') ->
  star step (Live (EventLoopThread_new cb name)) (Live s) ->
  opc s = OReady -> wphase (wpc s) < 10 -> owner_step s (Dead AssertFail).
Proof.
  intros Hcb Hst Ho Hw. apply reachable_inv in Hst as [[] _]; [|done].
  replace (Dead AssertFail) with (outcome (_ ← Stop_assert s; Ok (at_owner OStopping s))); [by apply Stop_begin|].
  rewrite Ho in *. specialize (i_ready0 ltac:(simpl; lia)). destruct i_loop0 as (w & Hl & _ & _ & Hs); [lia|].
  unfold Stop_assert, IsRunning. rewrite Hl. simpl.
  destruct (bool_decide (status_ s = kRunning)); [|done]. simpl.
  unfold ServerStatus.IsRunning. rewrite bool_decide_eq_false_2; [done|]. apply Hs. lia.
Qed.

(** [C25] The call of [Stop] is seen and never returns.  Once [Stop] has stopped the
    loop, the loop never runs again: [Run]'s own stores cannot overwrite it, since
    [Stop] asserts that they are done.  But then the worker destroys the loop, which
    ends the process by an assertion, so no interleaving reaches the end of [Stop]
    (nor of the destructor). *)
Theorem Stop_never_returns cb name s :
  (forall f w w', cb = Some f -> f w = Ok w' -> keeps w w') ->
  star step (Live (EventLoopThread_new cb name)) (Live s) ->
  opc s <> ODone /\ wpc s <> WDone /\
  (8 <= ophase (opc s) -> exists w, event_loop_ s = Some w /\ EventLoop.status_ w <> kRunning).
Proof.
  intros Hcb Hst. apply reachable_inv in Hst as [[] _]; [|done]. split_and!.
  - intros Ho. rewrite Ho in *. simpl in *. lia.
  - intros Hw. rewrite Hw in *. simpl in *. lia.
  - intros Ho. specialize (i_stop0 ltac:(lia)). destruct i_loop0 as (w & Hl & _ & _ & Hs); [lia|].
    exists w. split; [done|]. apply Hs. by right.
Qed.

(** Once [StartLoop] has started the thread, nobody can join it: it never ends. *)
Lemma never_joined cb name s :
  (forall f w w', cb = Some f -> f w = Ok w' -> keeps w w') ->
  star step (Live (EventLoopThread_new cb name)) (Live s) ->
  5 <= ophase (opc s) -> thread_ s = true /\ wpc s <> WDone.
Proof.
  intros Hcb Hst Ho. apply reachable_inv in Hst as [[] _]; [|done]. split; [apply i_thread0; lia|].
  intros Hw. rewrite Hw in *. simpl in *. lia.
Qed.
End Thread.

(** ** A run: [StartLoop] returns while the loop is not yet running *)

Abbreviation demo_thread := (EventLoopThread (F := Z) (Cb := Z) (U := unit) (K := sim)).
Abbreviation demo_step :=
  (step (F := Z) (Cb := Z) (U := unit) (K := sim) (fun _ => Ok) (fun _ => Ok) 1 2 "140001" 7 4 5 6 50 60 1 2 (mkSim ∅ [] 0) tt).
Definition demo_start : demo_thread := EventLoopThread_new None "".

Definition demo_worker_loop : option (lworld Z Z unit sim) :=
  match new_loop 2 7 4 5 6 50 60 1 2 (mkSim ∅ [] 0) tt with Ok w => Some w | Err _ => None end.

Definition demo_at (l : option (lworld Z Z unit sim)) (nm : string) (st : Status) (m : option holder)
    (i : bool) (o : owner_pc) (w : worker_pc Z) : demo_thread := mkThread l nm None true st m i o w.
Definition demo_ready : demo_thread :=
  demo_at demo_worker_loop "thread-140001" kRunning None true OReady WRun.

Lemma demo_reaches_ready : star demo_step (Live demo_start) (Live demo_ready).
Proof.
  eapply star_step; [apply step_owner; by apply StartLoop_store|].
  eapply star_step; [apply step_owner; by apply StartLoop_spawn|].
  eapply star_step; [apply step_owner; by apply StartLoop_lock|].
  eapply star_step; [apply step_owner; by apply StartLoop_wait|].
  eapply (star_step _ _ (Live (demo_at demo_worker_loop "" kStarting None false (OWait false) WName)));
    [eapply worker_does; [by apply worker_news|reflexivity]|].
  eapply star_step; [apply step_worker; by apply worker_names|].
  eapply (star_step _ _ (Live (demo_at demo_worker_loop "thread-140001" kStarting None true (OWait false) WLock)));
    [eapply worker_does; [by apply worker_inits|reflexivity]|].
  eapply star_step; [apply step_worker; by apply worker_locks|].
  eapply star_step; [apply step_worker; by apply worker_stores|].
  eapply star_step; [apply step_worker; by apply worker_notifies|].
  eapply star_step; [apply step_worker; by apply worker_unlocks|].
  eapply star_step; [apply step_owner; by eapply (StartLoop_woken _ _ true)|].
  eapply star_step; [apply step_owner; by apply StartLoop_return|].
  apply star_refl.
Qed.

Lemma StartLoop_handshake_witness :
  (exists w, event_loop_ demo_ready = Some w /\ EventLoop.tid_ w = 2 /\ initialised demo_ready = true) /\
  (opc demo_ready = OWait false -> status_lt (status_ demo_ready) kRunning = true \/ wpc demo_ready = WNotify).
Proof.
  destruct (StartLoop_handshake (F := Z) (Cb := Z) (U := unit) (K := sim) (fun _ => Ok) (fun _ => Ok) 1 2 "140001"
    7 4 5 6 50 60 1 2 (mkSim ∅ [] 0) tt ltac:(lia)) with (cb := @None (lworld Z Z unit sim -> result (lworld Z Z unit sim)))
    (name := "") (s := demo_ready) as [Hr Hw].
  - intros f w w' [= <-]. apply keeps_refl.
  - intros f w w' [= <-]. apply keeps_refl.
  - discriminate.
  - apply demo_reaches_ready.
  - split; [by apply Hr|exact Hw].
Defined.

Lemma Stop_too_early_witness :
  owner_step (F := Z) (Cb := Z) (U := unit) (K := sim) 1 demo_ready (Dead AssertFail).
Proof.
  apply (Stop_too_early (F := Z) (Cb := Z) (U := unit) (K := sim) (fun _ => Ok) (fun _ => Ok) 1 2 "140001"
    7 4 5 6 50 60 1 2 (mkSim ∅ [] 0) tt) with (cb := @None (lworld Z Z unit sim -> result (lworld Z Z unit sim)))
    (name := "").
  - lia.
  - intros f w w' [= <-]. apply keeps_refl.
  - intros f w w' [= <-]. apply keeps_refl.
  - discriminate.
  - apply demo_reaches_ready.
  - reflexivity.
  - reflexivity.
Defined.

Lemma Stop_never_returns_witness :
  opc demo_ready <> ODone /\ wpc demo_ready <> WDone /\
  (8 <= ophase (opc demo_ready) -> exists w, event_loop_ demo_ready = Some w /\ EventLoop.status_ w <> kRunning).
Proof.
  apply (Stop_never_returns (F := Z) (Cb := Z) (U := unit) (K := sim) (fun _ => Ok) (fun _ => Ok) 1 2 "140001"
    7 4 5 6 50 60 1 2 (mkSim ∅ [] 0) tt) with (cb := @None (lworld Z Z unit sim -> result (lworld Z Z unit sim)))
    (name := "").
  - lia.
  - intros f w w' [= <-]. apply keeps_refl.
  - intros f w w' [= <-]. apply keeps_refl.
  - discriminate.
  - apply demo_reaches_ready.
Defined.
