(* ===== verification/TcpServer.v ===== *)
(** * TcpServer (evk/tcp_server.h, evk/tcp_server.cc)

    The server over several event loops: the map of connections, their names, and
    the functors that the server's loop and the connections' loops send each other.
    The loops are queues of functors (EventLoop.v and LoopRace.v: first in, first
    out, each in its loop's thread); of a connection the server sees its name, its
    loop, its status and whether its channel is in the loop, which the members of
    TcpConnection.v change as [Established], [Closed] and [Destroyed] say. *)

From stdpp Require Import sorting.
From S2P Require Import Prelude Format LoopThread Channel ServerStatus SocketOps TcpConnection.
From S2P Require Import ThreadPool.
#[local] Open Scope Z_scope.

Record conn_obj := mkConnObj {
  c_loop : ptr;
  c_name : string;
  c_sockfd : Z;
  c_local : sockaddr;
  c_peer : sockaddr;
  c_status : ConnStatus;
  c_channel : bool
}.

(** The functors: what [std::bind] captured. *)
Inductive task :=
  | TListen                       (* Acceptor::Listen *)
  | TEstablished (p : ptr)        (* TcpConnection::OnConnectEstablished *)
  | TRemove (p : ptr)             (* TcpServer::RemoveConnectionInLoop *)
  | TDestroyed (p : ptr).         (* TcpConnection::OnConnectDestroyed *)

#[export] Instance task_eq_dec : EqDecision task.
Proof. solve_decision. Defined.

Record TcpServer := mkServer {
  loop_ : ptr;
  ip_port_ : string;
  name_ : string;
  listenning_ : bool;             (* of acceptor_ *)
  thread_pool_ : EventLoopThreadPool;
  next_conn_id_ : Z;
  connections_ : gmap string ptr;
  status_ : Status
}.

(** [tids]: the thread of each loop; [queues]: their pending functors. *)
Record sworld := mkSWorld {
  server : TcpServer;
  conns : gmap ptr conn_obj;
  queues : gmap ptr (list task);
  tids : gmap ptr thread_id
}.

Definition queue (w : sworld) (l : ptr) : list task := default [] (queues w !! l).

Definition set_server s w := mkSWorld s (conns w) (queues w) (tids w).
Definition set_connobj p c w := mkSWorld (server w) (<[p := c]> (conns w)) (queues w) (tids w).
Definition set_queue l q w := mkSWorld (server w) (conns w) (<[l := q]> (queues w)) (tids w).

Definition set_listenning b s := mkServer (loop_ s) (ip_port_ s) (name_ s) b (thread_pool_ s)
  (next_conn_id_ s) (connections_ s) (status_ s).
Definition set_pool p s := mkServer (loop_ s) (ip_port_ s) (name_ s) (listenning_ s) p
  (next_conn_id_ s) (connections_ s) (status_ s).
Definition set_next_id n s := mkServer (loop_ s) (ip_port_ s) (name_ s) (listenning_ s) (thread_pool_ s)
  n (connections_ s) (status_ s).
Definition set_connections m s := mkServer (loop_ s) (ip_port_ s) (name_ s) (listenning_ s) (thread_pool_ s)
  (next_conn_id_ s) m (status_ s).
Definition set_server_status x s := mkServer (loop_ s) (ip_port_ s) (name_ s) (listenning_ s) (thread_pool_ s)
  (next_conn_id_ s) (connections_ s) x.

(** The constructor: the address's text, the loop and its thread. *)
Definition TcpServer_new (loop : ptr) (tid : thread_id) (ip_port name : string) (num_thread : Z) : TcpServer :=
  let pool := EventLoopThreadPool_new loop tid name in
  let num_thread := if num_thread <? 0 then 0 else num_thread in
  set_server_status kInitialized
    (mkServer loop ip_port name false (SetThreadNum num_thread pool) 1 ∅ kInitializing).

(** ** What the members of a connection do to its status and channel *)

Definition set_conn_state (s : ConnStatus) (b : bool) (c : conn_obj) : conn_obj :=
  mkConnObj (c_loop c) (c_name c) (c_sockfd c) (c_local c) (c_peer c) s b.

Definition Established (c : conn_obj) : result conn_obj :=
  _ ← assert (bool_decide (c_status c = kConnecting)); Ok (set_conn_state kConnected true c).

Definition Closed (c : conn_obj) : result conn_obj :=
  _ ← assert (bool_decide (c_status c = kConnected) || bool_decide (c_status c = kDisconnecting));
  Ok (set_conn_state kDisconnected true c).

(** The channel's [Remove] asserts that the channel has no events left (a connection
    being shut down still reads) and that it is in the loop. *)
Definition Destroyed (c : conn_obj) : result conn_obj :=
  let s := if bool_decide (c_status c = kConnected) then kDisconnected else c_status c in
  _ ← assert (bool_decide (s = kDisconnected) && c_channel c);
  Ok (set_conn_state s false c).

(** ** The members of the server, called by thread [cur] *)

Definition QueueInLoop (l : ptr) (t : task) (w : sworld) : sworld := set_queue l (queue w l ++ [t]) w.

(** A member of connection [p], in its loop's thread. *)
Definition on_conn (cur : thread_id) (f : conn_obj -> result conn_obj) (p : ptr) (w : sworld) :
    result sworld :=
  c ← deref (conns w !! p);
  tid ← deref (tids w !! c_loop c);
  _ ← AssertInLoopThread tid cur;
  c ← f c;
  Ok (set_connobj p c w).

Definition AssertInServerThread (cur : thread_id) (w : sworld) : result unit :=
  tid ← deref (tids w !! loop_ (server w)); AssertInLoopThread tid cur.

Definition RemoveConnectionInLoop (cur : thread_id) (p : ptr) (w : sworld) : result sworld :=
  _ ← AssertInServerThread cur w;
  c ← deref (conns w !! p);
  let s := server w in
  let n := if connections_ s !! c_name c then 1 else 0 in
  let w := set_server (set_connections (delete (c_name c) (connections_ s)) s) w in
  _ ← assert (n =? 1);
  Ok (QueueInLoop (c_loop c) (TDestroyed p) w).

Definition Listen (cur : thread_id) (w : sworld) : result sworld :=
  _ ← AssertInServerThread cur w;
  Ok (set_server (set_listenning true (server w)) w).

Definition exec_task (cur : thread_id) (t : task) (w : sworld) : result sworld :=
  match t with
  | TListen => Listen cur w
  | TEstablished p => on_conn cur Established p w
  | TRemove p => RemoveConnectionInLoop cur p w
  | TDestroyed p => on_conn cur Destroyed p w
  end.

Definition RunInLoop (cur : thread_id) (l : ptr) (t : task) (w : sworld) : result sworld :=
  tid ← deref (tids w !! l);
  if IsInLoopThread tid cur then exec_task cur t w else Ok (QueueInLoop l t w).

Definition RemoveConnection (cur : thread_id) (p : ptr) (w : sworld) : result sworld :=
  RunInLoop cur (loop_ (server w)) (TRemove p) w.

(** [buf], and the connection's name. *)
Definition conn_buf (ip_port : string) (id : Z) : string :=
  snprintf 64 ("-" ++ ip_port ++ "#" ++ print_d id).
Definition connName (name ip_port : string) (id : Z) : string := (name ++ conn_buf ip_port id)%string.

(** [local]: the answer of [GetLocalAddr]; [p]: the new connection's address. *)
Definition HandleNewConnection (cur : thread_id) (sockfd : Z) (local peer : sockaddr) (p : ptr)
    (w : sworld) : result sworld :=
  _ ← AssertInServerThread cur w;
  let s := server w in
  '(ioLoop, pool) ← GetNextLoop cur (thread_pool_ s);
  let name := connName (name_ s) (ip_port_ s) (next_conn_id_ s) in
  next ← ck32 (next_conn_id_ s + 1);
  let w := set_connobj p (mkConnObj ioLoop name sockfd local peer kConnecting false) w in
  let w := set_server (set_connections (<[name := p]> (connections_ s))
                         (set_next_id next (set_pool pool s))) w in
  RunInLoop cur ioLoop (TEstablished p) w.

(** [StartLoop]: of EventLoopThread.v. *)
Definition Start (StartLoop : string -> ptr) (cur : thread_id) (w : sworld) : result sworld :=
  let s := server w in
  if bool_decide (status_ s = kInitialized) then
    let s := set_server_status kStarting s in
    let s := set_pool (ThreadPool.Start StartLoop false (thread_pool_ s)).1 s in
    _ ← assert (negb (listenning_ s));
    w ← RunInLoop cur (loop_ s) TListen (set_server s w);
    Ok (set_server (set_server_status kRunning (server w)) w)
  else Ok w.

(** [std::map] iterates in the order of its keys. *)
Definition in_key_order (m : gmap string ptr) : list (string * ptr) :=
  merge_sort (fun x y => String.leb x.1 y.1) (map_to_list m).

Definition end_conn (cur : thread_id) (item : string * ptr) (w : sworld) : result sworld :=
  c ← deref (conns w !! item.2); RunInLoop cur (c_loop c) (TDestroyed item.2) w.

(** [~TcpServer]: its body, then its members go, the thread pool and the acceptor
    among them. *)
Definition dtor_body (cur : thread_id) (w : sworld) : result sworld :=
  _ ← AssertInServerThread cur w;
  foldM (end_conn cur) (in_key_order (connections_ (server w))) w.

Definition TcpServer_dtor (thread_Join thread_dtor : string -> result unit) (cur : thread_id) (w : sworld) :
    result sworld :=
  w ← dtor_body cur w;
  pool ← EventLoopThreadPool_dtor thread_Join thread_dtor (thread_pool_ (server w));
  Ok (set_server (set_listenning false (set_pool pool (server w))) w).

(** ** Events *)

Inductive event :=
  | EvAccept (sockfd : Z) (local peer : sockaddr) (p : ptr)   (* Acceptor's callback *)
  | EvRun (l : ptr)                                           (* loop [l] calls its next functor *)
  | EvClose (p : ptr)                                         (* the peer closed: HandleClose *)
  | EvShutdown (p : ptr).                                     (* the application's Shutdown *)

Definition run_task (l : ptr) (w : sworld) : result sworld :=
  tid ← deref (tids w !! l);
  match queue w l with
  | [] => Ok w
  | t :: q => exec_task tid t (set_queue l q w)
  end.

(** [HandleClose]: the connection's part, then the close callback. *)
Definition HandleClose (cur : thread_id) (p : ptr) (w : sworld) : result sworld :=
  w ← on_conn cur Closed p w; RemoveConnection cur p w.

Definition Shutdown (p : ptr) (w : sworld) : result sworld :=
  c ← deref (conns w !! p);
  Ok (if bool_decide (c_status c = kConnected)
      then set_connobj p (set_conn_state kDisconnecting (c_channel c) c) w else w).

Definition server_event (e : event) (w : sworld) : result sworld :=
  match e with
  | EvAccept sockfd local peer p =>
      tid ← deref (tids w !! loop_ (server w)); HandleNewConnection tid sockfd local peer p w
  | EvRun l => run_task l w
  | EvClose p =>
      c ← deref (conns w !! p); tid ← deref (tids w !! c_loop c); HandleClose tid p w
  | EvShutdown p => Shutdown p w
  end.

(** When an event can occur: a new object is at a new address and identifiers are not
    used up; a connection sees its peer close while its channel is in its loop,
    closed or not. *)
Definition possible (w : sworld) (e : event) : Prop :=
  match e with
  | EvAccept _ _ _ p => conns w !! p = None /\ next_conn_id_ (server w) + 1 < 2 ^ 31
  | EvRun l => is_Some (tids w !! l)
  | EvClose p => exists c, conns w !! p = Some c /\ c_channel c = true
  | EvShutdown p => is_Some (conns w !! p)
  end.

(** The one event that fails: the peer of a connection that has closed, and that is
    still in its loop, is seen to close once more, and [HandleClose] aborts. *)
Definition closed_again (w : sworld) (e : event) : Prop :=
  exists p c, e = EvClose p /\ conns w !! p = Some c /\ c_channel c = true /\ c_status c = kDisconnected /\
    server_event e w = Err AssertFail.

Lemma in_key_order_perm (x : gmap string ptr) : in_key_order x ≡ₚ map_to_list x.
Proof. apply merge_sort_Permutation. Qed.
