(* ===== verification/TcpServerProps.v ===== *)
(** * The server's connections: names, and the invariant over several loops *)

From S2P Require Import Prelude Bytes Format LoopThread Channel ServerStatus SocketOps TcpConnection.
From S2P Require Import ThreadPool TcpServer.
#[local] Open Scope Z_scope.

(** ** Names *)

Lemma string_app_cancel (s t u : string) : (s ++ t = s ++ u)%string -> t = u.
Proof. induction s as [|c s IH]; [done|]. intros [= E]. by apply IH. Qed.

Lemma conn_buf_full ip_port id :
  (String.length ip_port <= 51)%nat -> 1 <= id < 2 ^ 31 ->
  conn_buf ip_port id = ("-" ++ ip_port ++ "#" ++ print_d id)%string.
Proof.
  intros Hip Hid. apply snprintf_fits. rewrite !length_string_app.
  pose proof (length_pretty_Z id 10 ltac:(lia) ltac:(lia)) as Hl. unfold print_d.
  replace (id <? 0) with false in Hl by blia.
  change (String.length "-") with 1%nat. change (String.length "#") with 1%nat. lia.
Qed.

Lemma connName_inj name ip_port i j :
  (String.length ip_port <= 51)%nat -> 1 <= i < 2 ^ 31 -> 1 <= j < 2 ^ 31 ->
  connName name ip_port i = connName name ip_port j -> i = j.
Proof.
  intros Hip Hi Hj. unfold connName. rewrite !conn_buf_full by done.
  do 4 (intros E%string_app_cancel; revert E). intros E.
  apply (f_equal dec_val) in E. unfold print_d in E.
  rewrite !pretty_Z_nonneg, !dec_val_pretty in E by lia. lia.
Qed.

(** [C37] The text of a connection's name is never cut off: whatever the address
    [ToIpPort] printed and the identifier, it fits the 64 bytes, so that the name is
    the server's name, the address and the identifier, and two connections of a
    server never share a name. *)
Theorem connection_names_unique (ntop4 : Z -> string) (ntop6 : bytes -> string) a ip_port name i j :
  (forall x, (String.length (ntop4 x) < 16)%nat) -> (forall x, (String.length (ntop6 x) < 46)%nat) ->
  InetAddress_ToIpPort ntop4 ntop6 a = Ok ip_port ->
  1 <= i < 2 ^ 31 -> 1 <= j < 2 ^ 31 ->
  connName name ip_port i = (name ++ "-" ++ ip_port ++ "#" ++ print_d i)%string /\
  (connName name ip_port i = connName name ip_port j <-> i = j).
Proof.
  intros H4 H6 Ha Hi Hj. destruct (ToIpPort_fits ntop4 ntop6 a ip_port H4 H6 Ha) as (ip & _ & _ & Hlen).
  split; [|split; [by apply connName_inj|by intros ->]].
  unfold connName. by rewrite conn_buf_full.
Qed.

(** ** The invariant *)

Definition task_conn (t : task) : option ptr :=
  match t with TListen => None | TEstablished p | TRemove p | TDestroyed p => Some p end.

(** What the server's state promises about a pending functor. *)
Definition task_ok (w : sworld) (l : ptr) (t : task) : Prop :=
  match t with
  | TListen => l = loop_ (server w)
  | TEstablished p => exists c, conns w !! p = Some c /\ l = c_loop c /\ c_status c = kConnecting
  | TRemove p => exists c, conns w !! p = Some c /\ l = loop_ (server w) /\ c_status c = kDisconnected /\
      connections_ (server w) !! c_name c = Some p
  | TDestroyed p => exists c, conns w !! p = Some c /\ l = c_loop c /\ c_status c = kDisconnected /\
      c_channel c = true /\ connections_ (server w) !! c_name c = None
  end.

(** Where a connection is in its life. *)
Definition conn_state (w : sworld) (p : ptr) (c : conn_obj) : Prop :=
  let listed := connections_ (server w) !! c_name c = Some p in
  let gone := connections_ (server w) !! c_name c = None in
  match c_status c with
  | kConnecting => listed /\ c_channel c = false /\ TEstablished p ∈ queue w (c_loop c)
  | kConnected | kDisconnecting => listed /\ c_channel c = true
  | kDisconnected =>
      (listed /\ c_channel c = true /\ TRemove p ∈ queue w (loop_ (server w))) \/
      (gone /\ c_channel c = true /\ TDestroyed p ∈ queue w (c_loop c)) \/
      (gone /\ c_channel c = false)
  end.

Definition server_name (s : TcpServer) (id : Z) : string := connName (name_ s) (ip_port_ s) id.

(** The server after [Start], in the thread of its loop. *)
Record server_ready (w : sworld) : Prop := {
  rd_tid : tids w !! loop_ (server w) = Some (base_tid (thread_pool_ (server w)));
  rd_base : base_loop_ (thread_pool_ (server w)) = loop_ (server w);
  rd_running : ThreadPool.status_ (thread_pool_ (server w)) = kRunning;
  rd_pool : loops_ (thread_pool_ (server w)) = [] \/
            pool_ok (base_tid (thread_pool_ (server w))) (thread_pool_ (server w));
  rd_loops : forall l, l ∈ loops_ (thread_pool_ (server w)) -> is_Some (tids w !! l);
  rd_id : 1 <= next_conn_id_ (server w) < 2 ^ 31;
  rd_ip : (String.length (ip_port_ (server w)) <= 51)%nat
}.

Record server_inv (w : sworld) : Prop := {
  s_ready : server_ready w;
  s_conn p c : conns w !! p = Some c -> is_Some (tids w !! c_loop c) /\
    exists id, 1 <= id < next_conn_id_ (server w) /\ c_name c = server_name (server w) id;
  s_names p q c d : conns w !! p = Some c -> conns w !! q = Some d -> c_name c = c_name d -> p = q;
  s_tasks l t : t ∈ queue w l -> task_ok w l t;
  s_nodup l : NoDup (queue w l);
  s_state p c : conns w !! p = Some c -> conn_state w p c
}.

Lemma queue_set_queue l l' q w : queue (set_queue l q w) l' = if decide (l' = l) then q else queue w l'.
Proof.
  unfold queue. simpl. destruct (decide (l' = l)) as [->|].
  - by rewrite lookup_insert_eq.
  - by rewrite lookup_insert_ne.
Qed.

Lemma queue_set_connobj l p c w : queue (set_connobj p c w) l = queue w l.
Proof. done. Qed.

Lemma elem_QueueInLoop l l' t t' w : 
  t' ∈ queue (QueueInLoop l t w) l' <-> t' ∈ queue w l' \/ (l' = l /\ t' = t).
Proof.
  unfold QueueInLoop. rewrite queue_set_queue. case_decide; [subst; rewrite elem_of_app, list_elem_of_singleton|]; naive_solver.
Qed.

(** One connection changes. *)
Lemma inv_update p c w w' :
  server_inv w -> server_ready w' ->
  loop_ (server w') = loop_ (server w) -> tids w' = tids w ->
  name_ (server w') = name_ (server w) -> ip_port_ (server w') = ip_port_ (server w) ->
  next_conn_id_ (server w) <= next_conn_id_ (server w') ->
  conns w' = <[p := c]> (conns w) ->
  is_Some (tids w !! c_loop c) ->
  (exists id, 1 <= id < next_conn_id_ (server w') /\ c_name c = server_name (server w') id) ->
  (forall q d, q <> p -> conns w !! q = Some d -> c_name d <> c_name c) ->
  (forall n, n <> c_name c -> connections_ (server w') !! n = connections_ (server w) !! n) ->
  (forall l t, task_conn t <> Some p -> t ∈ queue w' l <-> t ∈ queue w l) ->
  (forall l, NoDup (queue w' l)) ->
  (forall l t, t ∈ queue w' l -> task_conn t = Some p -> task_ok w' l t) ->
  conn_state w' p c ->
  server_inv w'.
Proof.
  intros [Hr Hc Hn Ht Hd Hs] Hr' El Etids En Eip Hid Ec Hloop Hname Huniq Hmap Hq Hnd Htp Hst.
  assert (forall id, server_name (server w') id = server_name (server w) id) as Esn
    by (intros; unfold server_name; by rewrite En, Eip).
  split; [done|..].
  - intros q d. rewrite Ec, Etids. destruct (decide (q = p)) as [->|Hne].
    + rewrite lookup_insert_eq. intros [= <-]. done.
    + rewrite lookup_insert_ne by done. intros Hd'. destruct (Hc q d Hd') as (Hl & id & Hi & Hnm).
      split; [done|]. exists id. rewrite Esn. split; [lia|done].
  - intros q r d e. rewrite Ec. destruct (decide (q = p)) as [->|Hq1], (decide (r = p)) as [->|Hr1]; [done|..].
    + rewrite lookup_insert_eq, lookup_insert_ne by done. intros [= <-] He Heq. by destruct (Huniq r e).
    + rewrite lookup_insert_eq, lookup_insert_ne by done. intros Hd' [= <-] Heq. by destruct (Huniq q d).
    + rewrite !lookup_insert_ne by done. apply Hn.
  - intros l t Hin. destruct (decide (task_conn t = Some p)) as [Hp|Hp]; [by apply Htp|].
    pose proof (proj1 (Hq l t Hp) Hin) as Hin'. apply Ht in Hin'.
    destruct t as [|q|q|q]; simpl in *; [congruence|..];
      destruct Hin' as (d & Hd' & Hrest); exists d; rewrite Ec, lookup_insert_ne by congruence;
      rewrite ?El, ?Hmap by (eapply Huniq; [|done]; congruence); done.
  - done.
  - intros q d. rewrite Ec. destruct (decide (q = p)) as [->|Hne].
    + rewrite lookup_insert_eq. by intros [= <-].
    + rewrite lookup_insert_ne by done. intros Hd'. pose proof (Hs q d Hd') as Hsq.
      assert (forall l t, task_conn t = Some q -> t ∈ queue w l -> t ∈ queue w' l) as Hq'
        by (intros l t Et; apply Hq; congruence).
      unfold conn_state in *. rewrite Hmap by by eapply Huniq.
      rewrite El. destruct (c_status d); naive_solver.
Qed.

Lemma ready_same w w' :
  server_ready w -> tids w' = tids w -> loop_ (server w') = loop_ (server w) ->
  thread_pool_ (server w') = thread_pool_ (server w) ->
  next_conn_id_ (server w') = next_conn_id_ (server w) -> ip_port_ (server w') = ip_port_ (server w) ->
  server_ready w'.
Proof. intros [] E1 E2 E3 E4 E5. split; by rewrite ?E1, ?E2, ?E3, ?E4, ?E5. Qed.

(** ** Taking the first functor of a queue *)

Section Pop.
Context (w : sworld) (l : ptr) (t : task) (q : list task).
Context (Hinv : server_inv w) (Hq : queue w l = t :: q).

Lemma pop_elem l' t' : t' ∈ queue (set_queue l q w) l' -> t' ∈ queue w l' /\ ~ (t' = t /\ l' = l).
Proof.
  rewrite queue_set_queue. pose proof (s_nodup _ Hinv l) as Hn. rewrite Hq in Hn.
  apply NoDup_cons in Hn as [Hn _]. case_decide; subst; [rewrite Hq|naive_solver].
  intros Hin. split; [by right|]. by intros [-> _].
Qed.

Lemma pop_other l' t' : t' <> t -> t' ∈ queue (set_queue l q w) l' <-> t' ∈ queue w l'.
Proof.
  intros Hne. split; [intros Hin; by apply pop_elem|]. rewrite queue_set_queue. case_decide; [subst|done].
  rewrite Hq. by intros [->|Hin]%elem_of_cons.
Qed.

Lemma pop_nodup l' : NoDup (queue (set_queue l q w) l').
Proof.
  rewrite queue_set_queue. case_decide; [|apply (s_nodup _ Hinv)].
  pose proof (s_nodup _ Hinv l) as Hn. rewrite Hq in Hn. by apply NoDup_cons in Hn as [_ Hn].
Qed.

Lemma head_ok : task_ok w l t.
Proof. apply (s_tasks _ Hinv). rewrite Hq. by left. Qed.

(** A connection has at most one pending functor. *)
Lemma pop_only p l' t' :
  task_conn t = Some p -> task_conn t' = Some p -> t' ∈ queue (set_queue l q w) l' -> False.
Proof.
  intros Ep Ep' Hin. apply pop_elem in Hin as [Hin Hne]. pose proof head_ok as Hok.
  pose proof (s_tasks _ Hinv l' t' Hin) as Hok'. apply Hne.
  destruct t, t'; simplify_eq; simpl in Ep, Ep'; simplify_eq; simpl in *;
    destruct Hok as (c & Hc & ?); destruct Hok' as (c' & Hc' & ?);
    rewrite Hc in Hc'; injection Hc' as <-; destruct_and?; split; congruence.
Qed.

Lemma pop_listen : t = TListen ->
  server_inv (set_server (set_listenning true (server w)) (set_queue l q w)).
Proof.
  intros Et. pose proof Hinv as [Hr Hc Hn Ht Hd Hs]. split; try done.
  - by eapply ready_same.
  - intros l' t' Hin. apply pop_elem in Hin as [Hin _]. by apply Ht in Hin.
  - intros l'. apply pop_nodup.
  - intros p c Hp. apply Hs in Hp. unfold conn_state in *.
    assert (forall l' t', t' <> TListen -> t' ∈ queue w l' ->
      t' ∈ queue (set_server (set_listenning true (server w)) (set_queue l q w)) l') as Hq'
      by (intros l' t' Hne Hin; change (t' ∈ queue (set_queue l q w) l'); by apply pop_other; [congruence|]).
    destruct (c_status c); simpl in *; naive_solver.
Qed.

Lemma pop_established p : t = TEstablished p -> tids w !! l <> None ->
  exists w', exec_task (default 0 (tids w !! l)) t (set_queue l q w) = Ok w' /\ server_inv w'.
Proof.
  intros Et Htid. pose proof head_ok as Hok. rewrite Et in Hok. simpl in Hok.
  destruct Hok as (c & Hc & El & Hs). rewrite Et. cbn [exec_task]. unfold on_conn.
  change (conns (set_queue l q w)) with (conns w).
  change (tids (set_queue l q w)) with (tids w).
  rewrite Hc. cbn [deref mbind result_bind]. rewrite <- El.
  destruct (tids w !! l) as [tid|] eqn:Etid; [|done]. cbn [deref mbind result_bind default].
  simpl default. rewrite AssertInLoopThread_refl. cbn [mbind result_bind].
  unfold Established. rewrite bool_decide_eq_true_2 by done. cbn [mbind result_bind assert].
  destruct (s_conn w Hinv p c Hc) as [Hsome Hname]. eexists. split; [done|]. pose proof (s_state _ Hinv p c Hc) as Hst. unfold conn_state in Hst.
  rewrite Hs in Hst. destruct Hst as (Hl & Hch & Hin).
  apply (inv_update p (set_conn_state kConnected true c) w _ Hinv); try done.
  - by apply (ready_same w); [apply Hinv|..].
  - intros r d Hne Hd Heq. apply Hne. by eapply (s_names w Hinv).
  - intros l' t' Hne. apply pop_other. rewrite Et. naive_solver.
  - apply pop_nodup.
  - intros l' t' Hin' Hp. exfalso. eapply (pop_only p); [by rewrite Et|exact Hp|exact Hin'].
Qed.

Lemma pop_destroyed p : t = TDestroyed p -> tids w !! l <> None ->
  exists w', exec_task (default 0 (tids w !! l)) t (set_queue l q w) = Ok w' /\ server_inv w'.
Proof.
  intros Et Htid. pose proof head_ok as Hok. rewrite Et in Hok. simpl in Hok.
  destruct Hok as (c & Hc & El & Hs & Hch & Hl). rewrite Et. cbn [exec_task]. unfold on_conn.
  change (conns (set_queue l q w)) with (conns w).
  change (tids (set_queue l q w)) with (tids w).
  rewrite Hc. cbn [deref mbind result_bind]. rewrite <- El.
  destruct (tids w !! l) as [tid|] eqn:Etid; [|done]. cbn [deref mbind result_bind default].
  simpl default. rewrite AssertInLoopThread_refl. cbn [mbind result_bind].
  unfold Destroyed. rewrite Hs, Hch. cbn [mbind result_bind assert].
  destruct (s_conn w Hinv p c Hc) as [Hsome Hname]. eexists. split; [done|].
  apply (inv_update p (set_conn_state kDisconnected false c) w _ Hinv); try done.
  - by apply (ready_same w); [apply Hinv|..].
  - intros r d Hne Hd Heq. apply Hne. by eapply (s_names w Hinv).
  - intros l' t' Hne. apply pop_other. rewrite Et. naive_solver.
  - apply pop_nodup.
  - intros l' t' Hin' Hp. exfalso. eapply (pop_only p); [by rewrite Et|exact Hp|exact Hin'].
  - unfold conn_state. simpl. auto.
Qed.

Lemma pop_remove p : t = TRemove p -> tids w !! l <> None ->
  exists w', exec_task (default 0 (tids w !! l)) t (set_queue l q w) = Ok w' /\ server_inv w'.
Proof.
  intros Et Htid. pose proof head_ok as Hok. rewrite Et in Hok. simpl in Hok.
  destruct Hok as (c & Hc & El & Hs & Hl). rewrite Et. cbn [exec_task].
  unfold RemoveConnectionInLoop, AssertInServerThread.
  change (conns (set_queue l q w)) with (conns w).
  change (tids (set_queue l q w)) with (tids w).
  change (server (set_queue l q w)) with (server w). rewrite <- El.
  destruct (tids w !! l) as [tid|] eqn:Etid; [|done]. cbn [deref mbind result_bind default].
  simpl default. rewrite AssertInLoopThread_refl, Hc. cbn [mbind result_bind deref].
  rewrite Hl. cbn [mbind result_bind assert Z.eqb Pos.eqb].
  destruct (s_conn w Hinv p c Hc) as [Hsome Hname]. eexists. split; [done|].
  assert (TDestroyed p ∉ queue w (c_loop c)) as Hnot.
  { intros Hin. apply (s_tasks _ Hinv) in Hin. simpl in Hin. destruct Hin as (d & Hd & Hx). naive_solver. }
  apply (inv_update p c w _ Hinv); try done.
  - by apply (ready_same w); [apply Hinv|..].
  - simpl. by rewrite insert_id.
  - intros r d Hne Hd Heq. apply Hne. by eapply (s_names w Hinv).
  - intros n Hn. simpl. by rewrite lookup_delete_ne.
  - intros l' t' Hne. rewrite elem_QueueInLoop. etrans; [|apply pop_other; rewrite Et; naive_solver].
    naive_solver.
  - intros l'. unfold QueueInLoop. rewrite queue_set_queue. case_decide as Hd; [|apply pop_nodup].
    apply NoDup_app. split_and!; [apply pop_nodup| |apply NoDup_singleton].
    intros t' Hin ->%list_elem_of_singleton. apply pop_elem in Hin as [Hin _]. done.
  - intros l' t' [Hin|[-> ->]]%elem_QueueInLoop Hp.
    + exfalso. eapply (pop_only p); [by rewrite Et|exact Hp|exact Hin].
    + simpl. exists c. rewrite lookup_delete_eq. split_and!; try done.
      pose proof (s_state w Hinv p c Hc) as Hst. unfold conn_state in Hst. rewrite Hs, Hl in Hst. naive_solver.
  - unfold conn_state. rewrite Hs. right; left. simpl. rewrite lookup_delete_eq.
    pose proof (s_state w Hinv p c Hc) as Hst. unfold conn_state in Hst. rewrite Hs, Hl in Hst.
    split_and!; [done|naive_solver|]. apply elem_QueueInLoop. by right.
Qed.

Lemma pop_ok : tids w !! l <> None ->
  exists w', exec_task (default 0 (tids w !! l)) t (set_queue l q w) = Ok w' /\ server_inv w'.
Proof.
  intros Htid.
  assert (t = TListen \/ exists p, t = TEstablished p \/ t = TRemove p \/ t = TDestroyed p)
    as [Et|(p & [Et|[Et|Et]])] by (clear; destruct t; eauto 6).
  - eexists. split; [|by apply pop_listen]. rewrite Et. unfold exec_task, Listen, AssertInServerThread.
    pose proof head_ok as Hok. rewrite Et in Hok. simpl in Hok.
    change (tids (set_queue l q w)) with (tids w). change (server (set_queue l q w)) with (server w).
    rewrite <- Hok. destruct (tids w !! l); [|done]. simpl. by rewrite AssertInLoopThread_refl.
  - by apply (pop_established p).
  - by apply (pop_remove p).
  - by apply (pop_destroyed p).
Qed.
End Pop.

(** ** A new connection *)

(** The next loop of a ready server. *)
Lemma next_loop w :
  server_ready w ->
  exists l pool, GetNextLoop (base_tid (thread_pool_ (server w))) (thread_pool_ (server w)) = Ok (l, pool) /\
    is_Some (tids w !! l) /\ base_tid pool = base_tid (thread_pool_ (server w)) /\
    base_loop_ pool = loop_ (server w) /\ ThreadPool.status_ pool = kRunning /\
    loops_ pool = loops_ (thread_pool_ (server w)) /\
    (loops_ pool = [] \/ pool_ok (base_tid pool) pool).
Proof.
  intros [Htid Hbase Hrun Hpool Hloops _ _]. set (p := thread_pool_ (server w)) in *.
  destruct Hpool as [Hnil|Hok].
  - exists (base_loop_ p), p. unfold GetNextLoop. rewrite checked_ok by done. cbn [mbind result_bind].
    rewrite Hnil, Hbase. split_and!; eauto.
  - destruct (GetNextLoop_spec _ p Hok) as (l & Hl & Hr & Hok').
    eexists l, _. split; [exact Hr|]. split_and!; try done.
    + apply Hloops. by eapply list_elem_of_lookup_2.
    + by right.
Qed.

Section Accept.
Context (w : sworld) (sockfd : Z) (local peer : sockaddr) (p : ptr).
Context (Hinv : server_inv w) (Hnew : conns w !! p = None)
  (Hid : next_conn_id_ (server w) + 1 < 2 ^ 31).

Let name := server_name (server w) (next_conn_id_ (server w)).

(** The server after registering connection [p] of loop [l]. *)
Definition registered (l : ptr) (pool : EventLoopThreadPool) : sworld :=
  set_server (set_connections (<[name := p]> (connections_ (server w)))
               (set_next_id (next_conn_id_ (server w) + 1) (set_pool pool (server w))))
    (set_connobj p (mkConnObj l name sockfd local peer kConnecting false) w).

Lemma new_name_fresh q d : conns w !! q = Some d -> c_name d <> name.
Proof.
  intros Hd Heq. destruct (s_conn w Hinv q d Hd) as (_ & i & Hi & Hn). rewrite Hn in Heq.
  apply connName_inj in Heq; [lia|apply Hinv|..]; pose proof (rd_id _ (s_ready _ Hinv)); lia.
Qed.

Lemma no_task_yet l t : t ∈ queue w l -> task_conn t <> Some p.
Proof.
  intros Hin Hp. apply (s_tasks w Hinv) in Hin.
  destruct t; simpl in *; simplify_eq; destruct Hin as (c & Hc & _); congruence.
Qed.

(** Whether the connection is established at once or by a functor. *)
Lemma accepted l pool (now : bool) :
  is_Some (tids w !! l) -> base_tid pool = base_tid (thread_pool_ (server w)) ->
  base_loop_ pool = loop_ (server w) -> ThreadPool.status_ pool = kRunning ->
  loops_ pool = loops_ (thread_pool_ (server w)) -> (loops_ pool = [] \/ pool_ok (base_tid pool) pool) ->
  let w1 := registered l pool in
  let w' := if now then set_connobj p (mkConnObj l name sockfd local peer kConnected true) w1
            else QueueInLoop l (TEstablished p) w1 in
  server_inv w'.
Proof.
  intros Hl Ht Hb Hs Hls Hpo w1 w'.
  assert (server w' = server w1 /\ tids w' = tids w /\
    conns w' = <[p := mkConnObj l name sockfd local peer (if now then kConnected else kConnecting) now]> (conns w))
    as (Es & Et & Ec).
  { unfold w'. destruct now; split_and!; try done. simpl. by rewrite insert_insert_eq. }
  assert (forall l' t, t ∈ queue w' l' <-> t ∈ queue w l' \/ (now = false /\ l' = l /\ t = TEstablished p)) as Eq.
  { intros l' t. unfold w'. destruct now; [naive_solver|]. rewrite elem_QueueInLoop. naive_solver. }
  eapply (inv_update p _ w w' Hinv); try exact Ec; rewrite ?Es, ?Et; try done.
  - pose proof (s_ready _ Hinv) as []. split; rewrite ?Es, ?Et; simpl; rewrite ?Ht, ?Hls; try done; [by rewrite <- Hls, <- Ht|lia].
  - simpl. lia.
  - simpl. exists (next_conn_id_ (server w)). pose proof (rd_id _ (s_ready _ Hinv)). split; [lia|done].
  - intros q d _ Hd. by eapply new_name_fresh.
  - intros n Hn. simpl in *. by rewrite lookup_insert_ne.
  - intros l' t Hne. rewrite Eq. naive_solver.
  - intros l'. unfold w'. destruct now; [apply (s_nodup _ Hinv)|].
    unfold QueueInLoop. rewrite queue_set_queue. case_decide; [|apply (s_nodup _ Hinv)].
    apply NoDup_app. split_and!; [apply (s_nodup _ Hinv)| |apply NoDup_singleton].
    intros t Hin ->%list_elem_of_singleton. by eapply no_task_yet.
  - intros l' t [Hin|(-> & -> & ->)]%Eq Hp; [by apply no_task_yet in Hin|].
    simpl. rewrite lookup_insert_eq. eexists; split; [done|]. done.
  - unfold conn_state. rewrite Es. simpl. rewrite lookup_insert_eq. destruct now; [done|].
    split_and!; try done. apply Eq. by right.
Qed.

Lemma accept_ok tid : tids w !! loop_ (server w) = Some tid ->
  exists w', HandleNewConnection tid sockfd local peer p w = Ok w' /\ server_inv w'.
Proof.
  intros Htid. pose proof (s_ready _ Hinv) as Hr.
  destruct (next_loop w Hr) as (l & pool & Hnext & Hl & H1 & H2 & H3 & H4 & H5).
  pose proof (rd_tid _ Hr) as Htid'. rewrite Htid in Htid'. injection Htid' as ->.
  pose proof (rd_id _ Hr).
  unfold HandleNewConnection, AssertInServerThread. rewrite Htid. cbn [deref mbind result_bind].
  rewrite AssertInLoopThread_refl. cbn [mbind result_bind]. rewrite Hnext. cbn [mbind result_bind].
  rewrite ck32_ok by (unfold in_i32; lia). cbn [mbind result_bind].
  fold (server_name (server w) (next_conn_id_ (server w))). fold name.
  change (set_server _ _) with (registered l pool).
  unfold RunInLoop. change (tids (registered l pool)) with (tids w). destruct Hl as [tl Hl].
  rewrite Hl. cbn [deref mbind result_bind]. unfold IsInLoopThread.
  destruct (Z.eqb_spec tl (base_tid (thread_pool_ (server w)))) as [->|Hne].
  - eexists. split; [|apply (accepted l pool true); eauto].
    cbn [exec_task]. unfold on_conn. change (tids (registered l pool)) with (tids w). simpl.
    rewrite lookup_insert_eq. simpl. rewrite Hl. simpl. rewrite AssertInLoopThread_refl. done.
  - eexists. split; [done|]. apply (accepted l pool false); eauto.
Qed.
End Accept.

(** ** A connection closes *)

Section Close.
Context (w : sworld) (p : ptr) (c : conn_obj).
Context (Hinv : server_inv w) (Hc : conns w !! p = Some c)
  (Hopen : c_status c <> kConnecting /\ c_status c <> kDisconnected).

Let c' := set_conn_state kDisconnected true c.

Lemma open_listed : connections_ (server w) !! c_name c = Some p /\ c_channel c = true.
Proof.
  pose proof (s_state w Hinv p c Hc) as Hst. unfold conn_state in Hst.
  destruct Hopen. by destruct (c_status c).
Qed.

Lemma open_no_task l t : t ∈ queue w l -> task_conn t <> Some p.
Proof.
  intros Hin Hp. apply (s_tasks w Hinv) in Hin. destruct Hopen.
  destruct t; simpl in *; simplify_eq; destruct Hin as (d & Hd & Hx); simplify_eq; naive_solver.
Qed.

Lemma append_nodup l t : task_conn t = Some p -> NoDup (queue w l ++ [t]).
Proof.
  intros Ht. apply NoDup_app. split_and!; [apply (s_nodup _ Hinv)| |apply NoDup_singleton].
  intros t' Hin ->%list_elem_of_singleton. by apply open_no_task in Hin.
Qed.

(** The connection is closed: [RemoveConnectionInLoop] is queued, or it has run. *)
Lemma closed (now : bool) :
  let w1 := set_connobj p c' w in
  server_inv
    (if now then
       QueueInLoop (c_loop c) (TDestroyed p)
         (set_server (set_connections (delete (c_name c) (connections_ (server w))) (server w)) w1)
     else QueueInLoop (loop_ (server w)) (TRemove p) w1).
Proof.
  destruct open_listed as [Hl Hch]. destruct (s_conn w Hinv p c Hc) as [Hsome Hname].
  set (l := if now then c_loop c else loop_ (server w)).
  set (t := if now then TDestroyed p else TRemove p).
  intros w1. match goal with |- server_inv ?w' => set (w2 := w') end.
  assert (forall l' t', t' ∈ queue w2 l' <-> t' ∈ queue w l' \/ (l' = l /\ t' = t)) as Eq.
  { intros l' t'. unfold w2, l, t. destruct now; rewrite elem_QueueInLoop; done. }
  assert (task_conn t = Some p) as Htp by (unfold t; by destruct now).
  apply (inv_update p c' w w2 Hinv); unfold w2; try (by destruct now).
  - destruct now; (apply (ready_same w); [apply Hinv|done..]).
  - intros q d Hne Hd Heq. apply Hne. by eapply (s_names w Hinv).
  - intros n Hn. destruct now; simpl; [|done]. by rewrite lookup_delete_ne.
  - intros l' t' Hne. fold w2. rewrite Eq. naive_solver.
  - intros l'. destruct now; unfold QueueInLoop; rewrite queue_set_queue; case_decide;
      first [by apply append_nodup | apply (s_nodup _ Hinv)].
  - intros l' t' [Hin|[-> ->]]%Eq Hp; [by apply open_no_task in Hin|]. fold w2.
    unfold w2, t, l. destruct now; simpl; exists c'; rewrite lookup_insert_eq; simpl; [|done].
    rewrite lookup_delete_eq. done.
  - fold w2. unfold conn_state. simpl c_status. cbn iota. destruct now.
    + right; left. unfold w2 at 1. simpl. rewrite lookup_delete_eq. split_and!; try done. apply Eq. by right.
    + left. split_and!; try done. apply Eq. by right.
Qed.

Lemma close_ok tid : tids w !! c_loop c = Some tid ->
  exists w', HandleClose tid p w = Ok w' /\ server_inv w'.
Proof.
  intros Htid. destruct open_listed as [Hl Hch].
  assert (on_conn tid Closed p w = Ok (set_connobj p c' w)) as Hclosed.
  { unfold on_conn. rewrite Hc. cbn [deref mbind result_bind]. rewrite Htid. cbn [deref mbind result_bind].
    rewrite AssertInLoopThread_refl. unfold Closed. destruct Hopen. by destruct (c_status c). }
  unfold HandleClose. rewrite Hclosed. cbn [mbind result_bind]. unfold RemoveConnection, RunInLoop.
  change (tids (set_connobj p c' w)) with (tids w).
  change (server (set_connobj p c' w)) with (server w).
  pose proof (rd_tid _ (s_ready _ Hinv)) as Hbase. rewrite Hbase. cbn [deref mbind result_bind].
  unfold IsInLoopThread. destruct (Z.eqb_spec (base_tid (thread_pool_ (server w))) tid) as [<-|Hne].
  - eexists. split; [|apply (closed true)].
    cbn [exec_task]. unfold RemoveConnectionInLoop, AssertInServerThread.
    change (tids (set_connobj p c' w)) with (tids w).
    change (server (set_connobj p c' w)) with (server w). rewrite Hbase. cbn [deref mbind result_bind].
    rewrite AssertInLoopThread_refl. simpl. rewrite lookup_insert_eq. simpl. by rewrite Hl.
  - eexists. split; [done|]. apply (closed false).
Qed.

Lemma shutdown_ok : exists w', Shutdown p w = Ok w' /\ server_inv w'.
Proof.
  unfold Shutdown. rewrite Hc. cbn [deref mbind result_bind].
  case_bool_decide as Hs; [|by exists w]. eexists. split; [done|].
  destruct open_listed as [Hl Hch]. destruct (s_conn w Hinv p c Hc) as [Hsome Hname].
  apply (inv_update p (set_conn_state kDisconnecting (c_channel c) c) w _ Hinv); try done.
  - by apply (ready_same w); [apply Hinv|..].
  - intros q d Hne Hd Heq. apply Hne. by eapply (s_names w Hinv).
  - apply (s_nodup _ Hinv).
  - intros l t Hin Hp. by apply open_no_task in Hin.
Qed.
End Close.

(** ** The theorems *)

Lemma run_task_ok w l : server_inv w -> is_Some (tids w !! l) ->
  exists w', run_task l w = Ok w' /\ server_inv w'.
Proof.
  intros Hinv [tid Htid]. unfold run_task. rewrite Htid. cbn [deref mbind result_bind].
  destruct (queue w l) as [|t q] eqn:Hq; [by exists w|].
  destruct (pop_ok w l t q Hinv Hq) as (w' & Hr & Hw'); [by rewrite Htid|].
  exists w'. rewrite Htid in Hr. done.
Qed.

Lemma HandleClose_closed_conn tid p c w :
  conns w !! p = Some c -> tids w !! c_loop c = Some tid -> c_status c = kDisconnected ->
  HandleClose tid p w = Err AssertFail.
Proof.
  intros Hc Ht Hs. unfold HandleClose, on_conn. rewrite Hc. cbn [deref mbind result_bind]. rewrite Ht.
  cbn [deref mbind result_bind]. rewrite AssertInLoopThread_refl. unfold Closed. by rewrite Hs.
Qed.

Lemma event_ok w e :
  server_inv w -> possible w e ->
  (exists w', server_event e w = Ok w' /\ server_inv w') \/ closed_again w e.
Proof.
  intros Hinv Hpos. destruct e as [sockfd local peer p|l|p|p]; simpl in *.
  - left. destruct Hpos as [Hnew Hid]. pose proof (rd_tid _ (s_ready _ Hinv)) as Htid. rewrite Htid. simpl.
    by apply accept_ok.
  - left. by apply run_task_ok.
  - destruct Hpos as (c & Hc & Hch). destruct (s_conn w Hinv p c Hc) as [[tid Htid] _].
    assert (server_event (EvClose p) w = HandleClose tid p w) as Hev by (simpl; rewrite Hc; simpl; by rewrite Htid).
    simpl in Hev. destruct (decide (c_status c = kDisconnected)) as [Hs|Hs].
    + right. exists p, c. split_and!; try done. simpl. rewrite Hev. by eapply HandleClose_closed_conn.
    + left. rewrite Hev. eapply close_ok; [done..| |done]. split; [|done]. intros Hs'.
      pose proof (s_state w Hinv p c Hc) as Hst. unfold conn_state in Hst. rewrite Hs' in Hst. naive_solver congruence.
  - left. destruct Hpos as [c Hc]. destruct (decide (c_status c = kConnected)) as [Hs|Hs].
    + eapply shutdown_ok; [done..|]. by rewrite Hs.
    + exists w. unfold Shutdown. rewrite Hc. simpl. by rewrite bool_decide_eq_false_2.
Qed.

(** *** From the constructor on *)

Section Started.
Context (StartLoop : string -> ptr) (loop : ptr) (tid : thread_id) (ip_port name : string) (n : Z)
  (tids : gmap ptr thread_id).

Definition fresh_world : sworld := mkSWorld (TcpServer_new loop tid ip_port name n) ∅ ∅ tids.

(** The loop runs in its thread, each loop of the pool in one, and the address is
    one [ToIpPort] prints. *)
Record can_start : Prop := {
  cs_tid : tids !! loop = Some tid;
  cs_threads t : is_Some (tids !! StartLoop t);
  cs_num : n < 2 ^ 31;
  cs_ip : (String.length ip_port <= 51)%nat
}.

Lemma started_pool :
  can_start ->
  let p := (ThreadPool.Start StartLoop false (thread_pool_ (server fresh_world))).1 in
  base_tid p = tid /\ base_loop_ p = loop /\ ThreadPool.status_ p = kRunning /\
  (loops_ p = [] \/ pool_ok tid p) /\ (forall l, l ∈ loops_ p -> exists t, l = StartLoop t).
Proof.
  intros [_ _ Hn _] p. set (p0 := thread_pool_ (server fresh_world)) in *.
  assert (base_tid p = tid /\ base_loop_ p = loop) as [Ht Hb].
  { unfold p, ThreadPool.Start. simpl.
    generalize (seq 0 (Z.to_nat (if n <? 0 then 0 else n))). intros l.
    assert (forall q, base_tid (foldl (fun p i => start_one StartLoop i p) q l) = base_tid q /\
                      base_loop_ (foldl (fun p i => start_one StartLoop i p) q l) = base_loop_ q) as Hf.
    { induction l as [|i l IH]; intros q; simpl; [done|]. by destruct (IH (start_one StartLoop i q)) as [-> ->]. }
    split; apply Hf. }
  split_and!; [done..| |].
  - destruct (Z.ltb_spec 0 n) as [Hpos|Hneg].
    + right. apply (Start_spec StartLoop false p0 tid); try done. simpl.
      replace (n <? 0) with false by blia. lia.
    + left. unfold p, ThreadPool.Start. simpl.
      replace (Z.to_nat (if n <? 0 then 0 else n)) with 0%nat by (destruct (n <? 0); lia). done.
  - destruct (Z.ltb_spec 0 n) as [Hpos|Hneg].
    + destruct (Start_spec StartLoop false p0 tid) as (_ & _ & Hl); try done.
      { simpl. replace (n <? 0) with false by blia. lia. }
      fold p in Hl. rewrite Hl. intros l (t & -> & _)%list_elem_of_fmap. by exists t.
    + unfold p, ThreadPool.Start. simpl.
      replace (Z.to_nat (if n <? 0 then 0 else n)) with 0%nat by (destruct (n <? 0); lia).
      by intros l ?%not_elem_of_nil.
Qed.

(** Called in any thread. *)
Lemma started cur :
  can_start -> exists w, Start StartLoop cur fresh_world = Ok w /\ server_inv w /\ conns w = ∅.
Proof.
  intros Hcs. destruct (started_pool Hcs) as (Ht & Hb & Hs & Hp & Hl). destruct Hcs as [Htid Hth Hn Hip].
  remember (ThreadPool.Start StartLoop false (thread_pool_ (server fresh_world))).1 as pool eqn:Ep.
  set (s := set_server_status kRunning (set_pool pool (set_server_status kStarting (server fresh_world)))).
  assert (forall b l, (forall x, l !! x = None \/ (x = loop /\ l !! x = Some [TListen])) ->
    server_inv (mkSWorld (set_listenning b s) ∅ l tids)) as Hinv.
  { intros b l Hql. assert (forall x t, t ∈ queue (mkSWorld (set_listenning b s) ∅ l tids) x -> x = loop /\ t = TListen) as Hq.
    { intros x t. unfold queue. simpl. destruct (Hql x) as [->|[-> ->]]; simpl; [by intros ?%not_elem_of_nil|].
      by intros ->%list_elem_of_singleton. }
    split; simpl; try (intros; simplify_map_eq; done).
    - split; simpl; rewrite ?Ht; try done; try lia. intros l' (t & ->)%Hl. apply Hth.
    - intros x t Hin. by apply Hq in Hin as [-> ->].
    - intros x. unfold queue. simpl. destruct (Hql x) as [->|[-> ->]]; simpl; [constructor|apply NoDup_singleton]. }
  assert (Start StartLoop cur fresh_world =
    (w ← RunInLoop cur loop TListen
           (mkSWorld (set_pool pool (set_server_status kStarting (server fresh_world))) ∅ ∅ tids);
     Ok (set_server (set_server_status kRunning (server w)) w))) as -> by (rewrite Ep; reflexivity).
  unfold RunInLoop. cbn [TcpServer.tids]. rewrite Htid. cbn [deref mbind result_bind].
  unfold IsInLoopThread. destruct (Z.eqb_spec tid cur) as [<-|Hne].
  - unfold exec_task, Listen, AssertInServerThread. simpl. rewrite Htid. simpl. rewrite AssertInLoopThread_refl.
    simpl. eexists. split; [done|]. split; [|done]. apply (Hinv true ∅). intros x. left. apply lookup_empty.
  - cbn [mbind result_bind]. eexists. split; [done|]. split; [|done].
    apply (Hinv false (<[loop := [TListen]]> ∅)). intros x. destruct (decide (x = loop)) as [->|Hx].
    + right. by rewrite lookup_insert_eq.
    + left. by rewrite lookup_insert_ne.
Qed.
End Started.

Definition server_step (w w' : sworld) : Prop := exists e, possible w e /\ server_event e w = Ok w'.

Lemma reachable_server_inv w w' : server_inv w -> star server_step w w' -> server_inv w'.
Proof.
  intros Hw Hst. eapply (star_invariant server_step server_inv); [|exact Hw|exact Hst].
  intros x y Hx (e & He & Hr). destruct (event_ok x e Hx He) as [(z & Hz & Hinv)|(p & c & _ & _ & _ & _ & Hz)]; congruence.
Qed.

(** [C8] The server and its loops agree.  After [Start], take any order in which
    connections are accepted, peers are seen to close, the application shuts
    connections down and the loops call their pending functors.  An event that can
    occur fails in one case only, which aborts: the peer of a connection that has
    closed already is seen to close once more before the connection has left its loop.
    No other assertion fails, and no two connections have the same name.  (So each
    connection is established, removed from the map and destroyed in that order, each
    once, and each in its own loop's thread: these are the assertions.) *)
Theorem server_safe StartLoop loop tid ip_port name n tids cur w0 w :
  can_start StartLoop loop tid ip_port n tids ->
  Start StartLoop cur (fresh_world loop tid ip_port name n tids) = Ok w0 -> star server_step w0 w ->
  (forall e, possible w e -> (exists w', server_event e w = Ok w') \/ closed_again w e) /\
  (forall p q c d, conns w !! p = Some c -> conns w !! q = Some d -> c_name c = c_name d -> p = q).
Proof.
  intros Hcs Hs Hst. destruct (started StartLoop loop tid ip_port name n tids cur Hcs) as (w1 & Hs1 & Hinv & _).
  rewrite Hs in Hs1. injection Hs1 as <-. apply reachable_server_inv in Hst; [|done].
  split; [|by apply (s_names w Hst)]. intros e He. destruct (event_ok w e Hst He) as [(w' & Hw' & _)|?]; eauto.
Qed.

(** [C16] Nothing leaks.  In every such state in which no functor is pending in any
    loop, the map holds exactly the connections that are connected or being shut
    down, under their names, and every other connection has been destroyed: its
    channel is out of its loop. *)
Theorem quiescent_server StartLoop loop tid ip_port name n tids cur w0 w :
  can_start StartLoop loop tid ip_port n tids ->
  Start StartLoop cur (fresh_world loop tid ip_port name n tids) = Ok w0 -> star server_step w0 w ->
  (forall l, queue w l = []) ->
  forall p c, conns w !! p = Some c ->
    (connections_ (server w) !! c_name c = Some p <-> c_status c = kConnected \/ c_status c = kDisconnecting) /\
    (connections_ (server w) !! c_name c <> Some p -> c_status c = kDisconnected /\ c_channel c = false).
Proof.
  intros Hcs Hs Hst Hq p c Hc.
  destruct (started StartLoop loop tid ip_port name n tids cur Hcs) as (w1 & Hs1 & Hinv & _).
  rewrite Hs in Hs1. injection Hs1 as <-. apply reachable_server_inv in Hst; [|done].
  pose proof (s_state w Hst p c Hc) as Hstate.
  assert (forall l t, t ∈ queue w l -> False) as Hno by (intros l t; rewrite Hq; by intros ?%not_elem_of_nil).
  unfold conn_state in Hstate. destruct (c_status c).
  - destruct Hstate as [(_ & _ & Hin)|[(_ & _ & Hin)|[Hg Hch]]]; [by destruct (Hno _ _ Hin)..|].
    rewrite Hg. split; [split; [done|by intros [|]]|done].
  - destruct Hstate as (_ & _ & Hin). by destruct (Hno _ _ Hin).
  - destruct Hstate as [Hl _]. split; [split; auto|done].
  - destruct Hstate as [Hl _]. split; [split; auto|done].
Qed.

(** ** Witnesses *)

Definition possible_b (w : sworld) (e : event) : bool :=
  match e with
  | EvAccept _ _ _ p => bool_decide (conns w !! p = None) && (next_conn_id_ (server w) + 1 <? 2 ^ 31)
  | EvRun l => bool_decide (is_Some (tids w !! l))
  | EvClose p =>
      match conns w !! p with
      | Some c => c_channel c
      | None => false
      end
  | EvShutdown p => bool_decide (is_Some (conns w !! p))
  end.

Lemma possible_b_ok w e : possible_b w e = true -> possible w e.
Proof.
  destruct e as [sockfd local peer p|l|p|p]; simpl.
  - intros [H1%bool_decide_eq_true H2%Z.ltb_lt]%andb_true_iff. done.
  - by intros ?%bool_decide_eq_true.
  - destruct (conns w !! p) as [c|]; [|done].
    intros Hc. by exists c.
  - by intros ?%bool_decide_eq_true.
Qed.

(** The state after a list of events, when each could occur. *)
Fixpoint run_events (evs : list event) (w : sworld) : option sworld :=
  match evs with
  | [] => Some w
  | e :: evs =>
      if possible_b w e then
        match server_event e w with Ok w => run_events evs w | Err _ => None end
      else None
  end.

Lemma run_events_star evs w w' : run_events evs w = Some w' -> star server_step w w'.
Proof.
  revert w. induction evs as [|e evs IH]; intros w; simpl.
  - intros [= <-]. apply star_refl.
  - destruct (possible_b w e) eqn:Ep; [|done]. destruct (server_event e w) as [w1|] eqn:Er; [|done].
    intros Hr. eapply star_step; [|by apply IH]. exists e. split; [by apply possible_b_ok|done].
Qed.

(** Two threads; the first connection goes to loop 8 and closes, the second to 9. *)
Definition demo_StartLoop (t : string) : ptr := if decide (t = "s-0") then 8 else 9.
Definition demo_tids : gmap ptr thread_id := {[7 := 1; 8 := 2; 9 := 3]}.
Definition demo_fresh : sworld := fresh_world 7 1 "10.0.0.1:80" "s" 2 demo_tids.
Definition demo_started : sworld :=
  match Start demo_StartLoop 1 demo_fresh with Ok w => w | Err _ => demo_fresh end.
Definition demo_events : list event :=
  [EvAccept 20 sockaddr_zero sockaddr_zero 100; EvAccept 21 sockaddr_zero sockaddr_zero 101;
   EvRun 8; EvRun 9; EvClose 100; EvShutdown 101; EvRun 7; EvRun 8].
Definition demo_end : sworld := default demo_started (run_events demo_events demo_started).

Lemma demo_can_start : can_start demo_StartLoop 7 1 "10.0.0.1:80" 2 demo_tids.
Proof. split; [done| |done|simpl; lia]. intros t. unfold demo_StartLoop. case_decide; by eexists. Qed.

Lemma demo_reaches_end : star server_step demo_started demo_end.
Proof. apply (run_events_star demo_events). vm_compute. reflexivity. Qed.

(** Closed a second time before the server's loop has removed it, connection 100
    aborts. *)
Example closed_again_aborts :
  (w ← match run_events (firstn 5 demo_events) demo_started with Some w => Ok w | None => Err Undef end;
   server_event (EvClose 100) w) = Err AssertFail.
Proof. vm_compute. reflexivity. Qed.

Lemma server_safe_witness :
  (exists w', server_event (EvAccept 22 sockaddr_zero sockaddr_zero 102) demo_end = Ok w') /\
  (forall p q c d, conns demo_end !! p = Some c -> conns demo_end !! q = Some d -> c_name c = c_name d -> p = q).
Proof.
  destruct (server_safe demo_StartLoop 7 1 "10.0.0.1:80" "s" 2 demo_tids 1 demo_started demo_end) as [Hev Hn].
  - apply demo_can_start.
  - vm_compute. reflexivity.
  - apply demo_reaches_end.
  - split; [|exact Hn].
    destruct (Hev (EvAccept 22 sockaddr_zero sockaddr_zero 102)) as [Hok|(p & c & [=] & _)]; [|exact Hok].
    apply possible_b_ok. vm_compute. reflexivity.
Defined.

Lemma quiescent_server_witness :
  (exists c, conns demo_end !! 100 = Some c /\ c_status c = kDisconnected /\ c_channel c = false) /\
  (exists c, conns demo_end !! 101 = Some c /\ connections_ (server demo_end) !! c_name c = Some 101).
Proof.
  pose proof (quiescent_server demo_StartLoop 7 1 "10.0.0.1:80" "s" 2 demo_tids 1 demo_started demo_end
    demo_can_start ltac:(vm_compute; reflexivity) demo_reaches_end) as Hq.
  assert (forall l, queue demo_end l = []) as Hidle.
  { intros l. unfold queue. assert (queues demo_end = <[8 := []]> (<[7 := []]> (<[9 := []]> ∅))) as ->
      by (vm_compute; reflexivity).
    destruct (decide (l = 8)) as [->|]; [done|]. rewrite lookup_insert_ne by done.
    destruct (decide (l = 7)) as [->|]; [done|]. rewrite lookup_insert_ne by done.
    destruct (decide (l = 9)) as [->|]; [done|]. by rewrite lookup_insert_ne by done. }
  specialize (Hq Hidle). split.
  - eexists. split; [vm_compute; reflexivity|]. eapply (Hq 100); [vm_compute; reflexivity|].
    vm_compute. discriminate.
  - eexists. split; [vm_compute; reflexivity|]. eapply (Hq 101); [vm_compute; reflexivity|].
    right. reflexivity.
Defined.

Lemma connection_names_unique_witness :
  connName "s" "10.0.0.1:80" 3 = "s-10.0.0.1:80#3" /\
  (connName "s" "10.0.0.1:80" 3 = connName "s" "10.0.0.1:80" 12 <-> 3 = 12).
Proof.
  destruct (connection_names_unique (fun _ => "10.0.0.1") (fun _ => "::1")
    (mkSockaddr AF_INET (htons 80) 0 [] 0) "10.0.0.1:80" "s" 3 12) as [Hn Hu].
  - intros _. simpl. lia.
  - intros _. simpl. lia.
  - vm_compute. reflexivity.
  - lia.
  - lia.
  - split; [exact Hn|exact Hu].
Defined.
