(* ===== verification/TcpServerEnd.v ===== *)
(** * The destructor of the server (evk/tcp_server.cc) and what its loops do after it

    Its body, the wait for the threads of the pool, and the functors that the loops go
    on calling.  Peers that close meanwhile are left out. *)

From S2P Require Import Prelude Format LoopThread Channel ServerStatus SocketOps TcpConnection.
From S2P Require Import ThreadPool TcpServer TcpServerProps.
#[local] Open Scope Z_scope.

(** ** The map lists connections under their names *)

Definition listed_inv (w : sworld) : Prop :=
  forall n p, connections_ (server w) !! n = Some p -> exists c, conns w !! p = Some c /\ c_name c = n.

(** An operation that keeps a connection's name. *)
Definition keeps_name (f : conn_obj -> result conn_obj) : Prop :=
  forall c c', f c = Ok c' -> c_name c' = c_name c.

Lemma Established_name : keeps_name Established.
Proof. unfold Established. intros c c' Hr. by inv_ok. Qed.
Lemma Closed_name : keeps_name Closed.
Proof. unfold Closed. intros c c' Hr. by inv_ok. Qed.
Lemma Destroyed_name : keeps_name Destroyed.
Proof. unfold Destroyed. intros c c' Hr. by inv_ok. Qed.

Lemma on_conn_inv cur f p w w' :
  on_conn cur f p w = Ok w' -> exists c c', conns w !! p = Some c /\ f c = Ok c' /\ w' = set_connobj p c' w.
Proof. unfold on_conn. intros Hr. inv_ok. by exists x, x2. Qed.

Lemma listed_set p c c' w :
  conns w !! p = Some c -> c_name c' = c_name c -> listed_inv w -> listed_inv (set_connobj p c' w).
Proof.
  intros Hc Hn Hl n q Hq. destruct (Hl n q Hq) as (d & Hd & Hnd). simpl.
  destruct (decide (q = p)) as [->|Hne].
  - rewrite lookup_insert_eq. exists c'. split; [done|]. congruence.
  - rewrite lookup_insert_ne by done. by exists d.
Qed.

Lemma listed_on_conn cur f p w w' :
  keeps_name f -> on_conn cur f p w = Ok w' -> listed_inv w -> listed_inv w'.
Proof. intros Hf (c & c' & Hc & Hr & ->)%on_conn_inv. eapply listed_set; [done|]. by apply Hf. Qed.

Lemma listed_same w w' :
  connections_ (server w') = connections_ (server w) -> conns w' = conns w -> listed_inv w -> listed_inv w'.
Proof. unfold listed_inv. by intros -> ->. Qed.

Lemma listed_task cur t w w' : exec_task cur t w = Ok w' -> listed_inv w -> listed_inv w'.
Proof.
  destruct t as [|p|p|p]; simpl.
  - unfold Listen. intros Hr. inv_ok. by apply listed_same.
  - apply listed_on_conn, Established_name.
  - unfold RemoveConnectionInLoop. intros Hr. inv_ok. intros Hl n q. simpl.
    intros [_ Hq]%lookup_delete_Some. by apply Hl.
  - apply listed_on_conn, Destroyed_name.
Qed.

Lemma listed_RunInLoop cur l t w w' : RunInLoop cur l t w = Ok w' -> listed_inv w -> listed_inv w'.
Proof.
  unfold RunInLoop. intros Hr. inv_ok. destruct (IsInLoopThread x cur).
  - by eapply listed_task.
  - inv_ok. by apply listed_same.
Qed.

Lemma listed_step w w' : server_step w w' -> listed_inv w -> listed_inv w'.
Proof.
  intros (e & Hp & Hr) Hl. destruct e as [sockfd local peer p|l|p|p]; simpl in *.
  - unfold HandleNewConnection in Hr. inv_ok. destruct x1 as [l pool]. inv_ok.
    apply listed_RunInLoop in Hr; [done|]. intros n q. simpl. destruct Hp as [Hnew _].
    destruct (decide (n = connName (name_ (server w)) (ip_port_ (server w)) (next_conn_id_ (server w)))) as [->|Hn].
    + rewrite lookup_insert_eq. intros [= <-]. rewrite lookup_insert_eq. by eexists.
    + rewrite lookup_insert_ne by done. intros Hq. destruct (Hl n q Hq) as (d & Hd & Hnd).
      rewrite lookup_insert_ne by congruence. by exists d.
  - unfold run_task in Hr. inv_ok. destruct (queue w l) as [|t q]; [by inv_ok|].
    apply listed_task in Hr; [done|]. by apply (listed_same w).
  - inv_ok. unfold HandleClose in Hr. inv_ok. apply listed_RunInLoop in Hr; [done|].
    apply listed_on_conn in E1; [done|apply Closed_name|done].
  - unfold Shutdown in Hr. inv_ok. case_bool_decide; [|done].
    by apply (listed_set _ x).
Qed.

Lemma Start_connections StartLoop cur w w' :
  Start StartLoop cur w = Ok w' ->
  connections_ (server w') = connections_ (server w) /\ conns w' = conns w.
Proof.
  unfold Start, RunInLoop. intros Hr. destruct (bool_decide _); [|by inv_ok]. inv_ok.
  destruct (IsInLoopThread x1 cur); [unfold exec_task, Listen in *|]; by inv_ok.
Qed.

(** ** Where connections are established *)

Definition base w : thread_id := base_tid (thread_pool_ (server w)).

(** A connection whose establishment is pending is not of the server's thread. *)
Definition elsewhere (w : sworld) : Prop :=
  forall l p, TEstablished p ∈ queue w l -> tids w !! l <> Some (base w).

Lemma elsewhere_sub w w' :
  base w' = base w -> tids w' = tids w ->
  (forall l p, TEstablished p ∈ queue w' l -> TEstablished p ∈ queue w l) -> elsewhere w -> elsewhere w'.
Proof. intros Hb Ht Hq He l p Hin. rewrite Hb, Ht. by apply (He l p), Hq. Qed.

(** What a task or a functor queued beside leaves alone. *)
Definition no_new (w w' : sworld) : Prop :=
  thread_pool_ (server w') = thread_pool_ (server w) /\ tids w' = tids w /\ forall l p, TEstablished p ∈ queue w' l -> TEstablished p ∈ queue w l.

Lemma queued_no_new l t w : (forall p, t <> TEstablished p) -> no_new w (QueueInLoop l t w).
Proof. intros Ht. split_and!; try done. intros k p [?|[_ E]]%elem_QueueInLoop; [done|]. by destruct (Ht p). Qed.

Lemma exec_no_new cur t w w' : exec_task cur t w = Ok w' -> no_new w w'.
Proof.
  destruct t as [|p|p|p]; simpl.
  - unfold Listen. intros Hr. by inv_ok.
  - by intros (c & c' & _ & _ & ->)%on_conn_inv.
  - unfold RemoveConnectionInLoop. intros Hr. inv_ok.
    match goal with |- no_new w (QueueInLoop ?l ?t ?w1) => destruct (queued_no_new l t w1) as (? & ? & ?); [done|] end.
    by split_and!.
  - by intros (c & c' & _ & _ & ->)%on_conn_inv.
Qed.

Lemma elsewhere_no_new w w' : no_new w w' -> elsewhere w -> elsewhere w'.
Proof. intros (Hp & Ht & Hq). apply elsewhere_sub; [unfold base; by rewrite Hp|done..]. Qed.

Lemma RunInLoop_no_new cur l t w w' :
  (forall p, t <> TEstablished p) -> RunInLoop cur l t w = Ok w' -> no_new w w'.
Proof.
  unfold RunInLoop. intros Ht Hr. inv_ok. destruct (IsInLoopThread x cur); [by eapply exec_no_new|].
  inv_ok. by apply queued_no_new.
Qed.

Lemma step_elsewhere w w' : server_step w w' -> server_inv w -> elsewhere w -> elsewhere w'.
Proof.
  intros (e & Hp & Hr) Hi He. destruct e as [sockfd local peer p|l|p|p]; simpl in *.
  - unfold HandleNewConnection, AssertInServerThread in Hr.
    rewrite (rd_tid _ (s_ready _ Hi)) in Hr. cbn [deref mbind result_bind] in Hr. rewrite AssertInLoopThread_refl in Hr.
    cbn [mbind result_bind] in Hr. destruct (next_loop w (s_ready _ Hi)) as (l & pool & Hg & _ & Hb & _).
    rewrite Hg in Hr. cbn [mbind result_bind] in Hr. apply bind_ok in Hr as (n & _ & Hr).
    unfold RunInLoop in Hr. apply bind_ok in Hr as (tid & Htid%deref_ok & Hr). simpl in Htid.
    unfold IsInLoopThread in Hr. fold (base w) in Hr. destruct (Z.eqb_spec tid (base w)) as [->|Hne].
    + apply exec_no_new in Hr as (Hb' & Ht' & Hq'). by apply (elsewhere_sub w); [unfold base; rewrite Hb'|..].
    + injection Hr as <-. intros k q [Hin|[-> [= <-]]]%elem_QueueInLoop.
      * unfold base. simpl. rewrite Hb. by apply (He k q).
      * unfold base. simpl. rewrite Hb, Htid. intros [= E]. by apply Hne.
  - unfold run_task in Hr. inv_ok. destruct (queue w l) as [|t q] eqn:Eq; [by inv_ok|].
    apply exec_no_new in Hr as (Hb & Ht & Hq). apply (elsewhere_sub w); [unfold base; by rewrite Hb|done| |done].
    intros k r Hin%Hq. rewrite queue_set_queue in Hin. case_decide; [|done]. subst. rewrite Eq. by right.
  - inv_ok. unfold HandleClose in Hr. inv_ok. apply on_conn_inv in E1 as (c & c' & _ & _ & ->).
    apply RunInLoop_no_new in Hr; [|done]. by eapply elsewhere_no_new.
  - unfold Shutdown in Hr. inv_ok. by case_bool_decide.
Qed.

(** ** While the destructor works and after it *)

(** The functors of one connection, in order. *)
Definition tasks_of (p : ptr) (q : list task) : list task := filter (fun t => task_conn t = Some p) q.

(** [todo]: whether the destructor has yet to come to the connection. *)
Definition fate (todo : Prop) (p : ptr) (c : conn_obj) (q : list task) : Prop :=
  match c_status c, c_channel c with
  | kConnecting, false => (todo /\ q = [TEstablished p]) \/ (~ todo /\ q = [TEstablished p; TDestroyed p])
  | kConnected, true => (todo /\ q = []) \/ (~ todo /\ q = [TDestroyed p])
  | kDisconnected, true => ~ todo /\ q = [TDestroyed p]
  | kDisconnected, false => ~ todo /\ q = []
  | _, _ => False
  end.

Record ending (todo : list ptr) (w : sworld) : Prop := {
  en_loop p c : conns w !! p = Some c -> is_Some (tids w !! c_loop c);
  en_todo p : p ∈ todo -> is_Some (conns w !! p);
  en_tasks l t : t ∈ queue w l -> exists p c, task_conn t = Some p /\ t <> TRemove p /\
    conns w !! p = Some c /\ l = c_loop c;
  en_fate p c : conns w !! p = Some c -> fate (p ∈ todo) p c (tasks_of p (queue w (c_loop c)));
  en_elsewhere : elsewhere w
}.

Lemma fate_iff (P Q : Prop) p c q : (P <-> Q) -> fate P p c q -> fate Q p c q.
Proof. intros HPQ. unfold fate. destruct (c_status c), (c_channel c); tauto. Qed.

Lemma tasks_of_app p q q' : tasks_of p (q ++ q') = tasks_of p q ++ tasks_of p q'.
Proof. apply filter_app. Qed.

Lemma tasks_of_cons p t q : tasks_of p (t :: q) = if decide (task_conn t = Some p) then t :: tasks_of p q else tasks_of p q.
Proof. unfold tasks_of. rewrite filter_cons. done. Qed.

(** Connection [p] takes its last step on the spot. *)
Lemma ending_now p todo w c :
  ending (p :: todo) w -> p ∉ todo -> conns w !! p = Some c -> c_status c = kConnected -> c_channel c = true ->
  ending todo (set_connobj p (set_conn_state kDisconnected false c) w).
Proof.
  intros [Hl Ht Hk Hf He] Hp Hc Hs Hch. split; simpl; try done.
  - intros q d. destruct (decide (q = p)) as [->|Hne].
    + rewrite lookup_insert_eq. intros [= <-]. by apply Hl in Hc.
    + rewrite lookup_insert_ne by done. apply Hl.
  - intros q Hq. rewrite lookup_insert_ne by naive_solver. apply Ht. by right.
  - intros l t Hin. destruct (Hk l t Hin) as (q & d & Hq & Hr & Hd & ->). destruct (decide (q = p)) as [->|Hne].
    + simplify_eq. exists p, (set_conn_state kDisconnected false c). by rewrite lookup_insert_eq.
    + exists q, d. by rewrite lookup_insert_ne.
  - intros q d. destruct (decide (q = p)) as [->|Hne].
    + rewrite lookup_insert_eq. intros [= <-]. specialize (Hf p c Hc). unfold fate in *. simpl in *.
      rewrite Hs, Hch in Hf. set_solver.
    + rewrite lookup_insert_ne by done. intros Hd. eapply fate_iff; [|by apply Hf]. set_solver.
Qed.

(** It is left to its loop. *)
Lemma ending_later p todo w c :
  ending (p :: todo) w -> p ∉ todo -> conns w !! p = Some c ->
  ending todo (QueueInLoop (c_loop c) (TDestroyed p) w).
Proof.
  intros [Hl Ht Hk Hf He] Hp Hc. split; simpl; try done.
  - intros q Hq. apply Ht. by right.
  - intros l t [Hin|[-> ->]]%elem_QueueInLoop; [by apply Hk|]. by exists p, c.
  - intros q d Hd. unfold QueueInLoop. rewrite queue_set_queue. specialize (Hf q d Hd).
    destruct (decide (q = p)) as [->|Hne].
    + simplify_eq. apply (fate_iff _ True) in Hf; [|set_solver].
      rewrite decide_True, tasks_of_app, tasks_of_cons, decide_True by done. unfold fate in *.
      destruct (c_status c), (c_channel c); try done; try (by destruct Hf as [[] _]);
        (destruct Hf as [[_ ->]|[[] _]]; [|done]); right; by split.
    + assert (tasks_of q (if decide (c_loop d = c_loop c) then queue w (c_loop c) ++ [TDestroyed p] else queue w (c_loop d)) =
        tasks_of q (queue w (c_loop d))) as ->.
      { case_decide as E; [|done]. rewrite tasks_of_app, E. unfold tasks_of at 2. rewrite filter_cons_False by (simpl; congruence).
        by rewrite filter_nil, app_nil_r. }
      eapply fate_iff; [|exact Hf]. set_solver.
  - eapply elsewhere_no_new; [by apply queued_no_new|done].
Qed.

(** The pool is the one that [Start] filled. *)
Definition thread_names (name : string) (n : Z) : list string :=
  (fun i => thread_name name (Z.of_nat i)) <$> seq 0 (Z.to_nat n).

Lemma GetNextLoop_threads cur p l p' : GetNextLoop cur p = Ok (l, p') -> threads_ p' = threads_ p.
Proof.
  unfold GetNextLoop. intros Hr. apply bind_ok in Hr as (? & _ & Hr). destruct (loops_ p); [by injection Hr as _ <-|].
  apply bind_ok in Hr as (loop & _ & Hr). injection Hr as _ <-. by destruct (_ >=? _).
Qed.

Lemma step_threads w w' :
  server_step w w' -> threads_ (thread_pool_ (server w')) = threads_ (thread_pool_ (server w)).
Proof.
  intros (e & _ & Hr). destruct e as [sockfd local peer p|l|p|p]; simpl in *.
  - unfold HandleNewConnection in Hr. inv_ok. destruct x1 as [l pool]. inv_ok.
    match goal with H : GetNextLoop _ _ = Ok _ |- _ => apply GetNextLoop_threads in H; rewrite <- H end.
    unfold RunInLoop in Hr. inv_ok. destruct (IsInLoopThread _ _); [|by inv_ok].
    by apply exec_no_new in Hr as (-> & _).
  - unfold run_task in Hr. inv_ok. destruct (queue w l) as [|t q]; [by inv_ok|]. by apply exec_no_new in Hr as (-> & _).
  - inv_ok. unfold HandleClose in Hr. inv_ok. apply on_conn_inv in E1 as (c & c' & _ & _ & ->).
    by apply RunInLoop_no_new in Hr as (-> & _).
  - unfold Shutdown in Hr. inv_ok. by case_bool_decide.
Qed.

Lemma Start_threads StartLoop loop tid ip_port name n tids cur w :
  can_start StartLoop loop tid ip_port n tids ->
  Start StartLoop cur (fresh_world loop tid ip_port name n tids) = Ok w ->
  threads_ (thread_pool_ (server w)) = thread_names name n.
Proof.
  intros [_ _ Hn _] Hr. unfold Start in Hr. change (bool_decide _) with true in Hr. cbv iota zeta in Hr.
  set (p0 := thread_pool_ (server (fresh_world loop tid ip_port name n tids))) in Hr.
  assert (threads_ (ThreadPool.Start StartLoop false p0).1 = thread_names name n) as Hp.
  { unfold thread_names. destruct (Z.ltb_spec 0 n) as [Hpos|Hneg].
    - destruct (Start_spec StartLoop false p0 tid) as (_ & Ht & _); try done; simpl in *.
      { replace (n <? 0) with false by blia. lia. }
      rewrite Ht. by replace (n <? 0) with false by blia.
    - unfold ThreadPool.Start. simpl.
      replace (Z.to_nat (if n <? 0 then 0 else n)) with 0%nat by (destruct (n <? 0); lia).
      by replace (Z.to_nat n) with 0%nat by lia. }
  rewrite <- Hp. apply bind_ok in Hr as (? & _ & Hr). apply bind_ok in Hr as (w1 & Hr & [= <-]).
  unfold RunInLoop in Hr. apply bind_ok in Hr as (? & _ & Hr). destruct (IsInLoopThread _ _).
  - apply exec_no_new in Hr as (Hr & _). change (threads_ (thread_pool_ (server w1)) = threads_ (ThreadPool.Start StartLoop false p0).1). by rewrite Hr.
  - by injection Hr as <-.
Qed.

Lemma fate_todo p c q : fate True p c q ->
  (c_status c = kConnected /\ c_channel c = true) \/ (c_status c = kConnecting /\ q = [TEstablished p]).
Proof. unfold fate. destruct (c_status c), (c_channel c); tauto. Qed.

Lemma ending_item n p todo w :
  ending (p :: todo) w -> p ∉ todo ->
  exists w', end_conn (base w) (n, p) w = Ok w' /\ ending todo w'.
Proof.
  intros He Hp. destruct (en_todo _ _ He p) as [c Hc]; [by left|].
  destruct (en_loop _ _ He p c Hc) as [tid Htid].
  unfold end_conn, RunInLoop. simpl. rewrite Hc. cbn [deref mbind result_bind].
  rewrite Htid. cbn [deref mbind result_bind]. unfold IsInLoopThread.
  destruct (Z.eqb_spec tid (base w)) as [->|Hne].
  - destruct (fate_todo p c (tasks_of p (queue w (c_loop c)))) as [[Hs Hch]|[_ Hq]].
    { eapply fate_iff; [|by apply (en_fate _ _ He)]. set_solver. }
    + unfold exec_task, on_conn. rewrite Hc. cbn [deref mbind result_bind]. rewrite Htid.
      cbn [deref mbind result_bind]. rewrite AssertInLoopThread_refl.
      assert (Destroyed c = Ok (set_conn_state kDisconnected false c)) as -> by (unfold Destroyed; by rewrite Hs, Hch).
      eexists. split; [done|]. by apply ending_now.
    + destruct (en_elsewhere _ _ He (c_loop c) p); [|done].
      assert (TEstablished p ∈ tasks_of p (queue w (c_loop c))) as Hin by (rewrite Hq; left).
      by apply list_elem_of_filter in Hin as [_ ?].
  - eexists. split; [done|]. by apply ending_later.
Qed.

Lemma ending_items items w :
  NoDup items.*2 -> ending items.*2 w ->
  exists w', foldM (end_conn (base w)) items w = Ok w' /\ ending [] w' /\
    thread_pool_ (server w') = thread_pool_ (server w).
Proof.
  revert w. induction items as [|[n p] items IH]; intros w Hnd He; simpl in *; [by exists w|].
  apply NoDup_cons in Hnd as [Hp Hnd].
  destruct (ending_item n p items.*2 w He Hp) as (w1 & Hr & He1). rewrite Hr.
  apply bind_ok in Hr as (c & _ & (Hb & _ & _)%RunInLoop_no_new); [|done].
  destruct (IH w1 Hnd He1) as (w2 & Hr2 & He2 & Hb2). exists w2. cbn [mbind result_bind].
  unfold base in Hr2. rewrite Hb in Hr2. split; [done|]. split; [done|congruence].
Qed.

(** The server is gone: a functor bound to it has a dangling [this]. *)
Definition exec_after (cur : thread_id) (t : task) (w : sworld) : result sworld :=
  match t with TListen | TRemove _ => Err Undef | _ => exec_task cur t w end.

Definition run_after (l : ptr) (w : sworld) : result sworld :=
  tid ← deref (tids w !! l);
  match queue w l with
  | [] => Ok w
  | t :: q => exec_after tid t (set_queue l q w)
  end.

(** A loop calls its next functor. *)
Lemma ending_run l w :
  ending [] w -> is_Some (tids w !! l) -> exists w', run_after l w = Ok w' /\ ending [] w'.
Proof.
  intros He [tid Htid]. unfold run_after. rewrite Htid. cbn [deref mbind result_bind].
  destruct (queue w l) as [|t q] eqn:Eq; [by exists w|].
  destruct (en_tasks _ _ He l t) as (p & c & Htp & Hnr & Hc & ->); [rewrite Eq; by left|].
  pose proof (en_fate _ _ He p c Hc) as Hf. rewrite Eq, tasks_of_cons, decide_True in Hf by done.
  set (w1 := set_queue (c_loop c) q w).
  assert (exists c', exec_after tid t w1 = Ok (set_connobj p c' w1) /\ c_loop c' = c_loop c /\
    fate (p ∈ []) p c' (tasks_of p q)) as (c' & Hrun & Hlp & Hf').
  { assert (forall f c', f c = Ok c' -> on_conn tid f p w1 = Ok (set_connobj p c' w1)) as Hon.
    { intros f c' Hfc. unfold on_conn. change (conns w1) with (conns w). rewrite Hc. cbn [deref mbind result_bind].
      change (tids w1) with (tids w). rewrite Htid. cbn [deref mbind result_bind].
      rewrite AssertInLoopThread_refl. cbn [mbind result_bind]. by rewrite Hfc. }
    pose proof (not_elem_of_nil p) as Hnil. unfold fate in Hf.
    destruct t as [|p'|p'|p']; try done; injection Htp as ->; simpl;
      destruct (c_status c) eqn:Es, (c_channel c) eqn:Ech; try done; try (by destruct Hf as [_ [=]]);
      try (by destruct Hf as [[_ [=]]|[_ [=]]]).
    - exists (set_conn_state kConnected true c). split; [apply Hon; unfold Established; by rewrite Es|].
      split; [done|]. destruct Hf as [[Hx _]|[_ [= ->]]]; [by destruct Hnil|]. right. by split.
    - exists (set_conn_state kDisconnected false c). split; [apply Hon; unfold Destroyed; by rewrite Es, Ech|].
      split; [done|]. destruct Hf as [_ [= ->]]. by split.
    - exists (set_conn_state kDisconnected false c). split; [apply Hon; unfold Destroyed; by rewrite Es, Ech|].
      split; [done|]. destruct Hf as [[_ [=]]|[_ [= ->]]]. by split. }
  eexists. split; [exact Hrun|]. destruct He as [Hl Ht Hk Hfa Hel]. split; unfold w1; simpl; try done.
  - intros q' d. destruct (decide (q' = p)) as [->|Hne].
    + rewrite lookup_insert_eq. intros [= <-]. rewrite Hlp. by apply Hl in Hc.
    + rewrite lookup_insert_ne by done. apply Hl.
  - by intros q' ?%not_elem_of_nil.
  - intros l t'. rewrite queue_set_connobj, queue_set_queue. intros Hin.
    assert (t' ∈ queue w l) as Hin' by (case_decide; [subst; rewrite Eq; by right|done]).
    destruct (Hk l t' Hin') as (r & d & Hr1 & Hr2 & Hd & ->). destruct (decide (r = p)) as [->|Hne].
    + exists p, c'. rewrite lookup_insert_eq. simplify_eq. by rewrite Hlp.
    + exists r, d. by rewrite lookup_insert_ne.
  - intros r d. rewrite queue_set_connobj, queue_set_queue. destruct (decide (r = p)) as [->|Hne].
    + rewrite lookup_insert_eq. intros [= <-]. by rewrite Hlp, decide_True.
    + rewrite lookup_insert_ne by done. intros Hd. specialize (Hfa r d Hd). case_decide as E; [|done].
      rewrite E, Eq, tasks_of_cons, decide_False in Hfa by congruence. done.
  - apply (elsewhere_sub w); try done. intros l r. rewrite queue_set_connobj, queue_set_queue.
    case_decide; [subst; rewrite Eq; by right|done].
Qed.

(** ** The map of the server *)

Lemma listed_values w :
  listed_inv w -> NoDup (in_key_order (connections_ (server w))).*2.
Proof.
  intros Hl. rewrite in_key_order_perm. apply NoDup_fmap_2_strong; [|apply NoDup_map_to_list].
  intros [n p] [m q] Hn%elem_of_map_to_list Hm%elem_of_map_to_list. simpl. intros <-.
  destruct (Hl n p Hn) as (c & Hc & <-), (Hl m p Hm) as (d & Hd & <-). by simplify_eq.
Qed.

Lemma elem_listed w p :
  p ∈ (in_key_order (connections_ (server w))).*2 <-> exists n, connections_ (server w) !! n = Some p.
Proof.
  rewrite in_key_order_perm, list_elem_of_fmap. split.
  - intros ([n q] & -> & Hn%elem_of_map_to_list). by exists n.
  - intros [n Hn]. exists (n, p). split; [done|]. by apply elem_of_map_to_list.
Qed.

Lemma only_element {X} (a : X) l : NoDup l -> (forall x, x ∈ l -> x = a) -> a ∈ l -> l = [a].
Proof.
  intros Hnd Ha Hin. destruct l as [|x l]; [by apply not_elem_of_nil in Hin|].
  rewrite (Ha x) in * by (by left). f_equal. destruct l as [|y l]; [done|].
  rewrite (Ha y) in Hnd by (right; by left). apply NoDup_cons in Hnd as [Hn _]. destruct Hn. by left.
Qed.

(** Only establishments and destructions are pending. *)
Definition settled (w : sworld) : Prop := forall l t, t ∈ queue w l -> t <> TListen /\ forall p, t <> TRemove p.

Lemma settled_ending w :
  server_inv w -> listed_inv w -> elsewhere w -> settled w ->
  (forall p c, conns w !! p = Some c -> c_status c <> kDisconnecting) ->
  ending (in_key_order (connections_ (server w))).*2 w.
Proof.
  intros Hi Hl Hel Hset Hno.
  assert (forall p c, conns w !! p = Some c ->
    (p ∈ (in_key_order (connections_ (server w))).*2 <-> connections_ (server w) !! c_name c = Some p)) as Hin.
  { intros p c Hc. rewrite elem_listed. split; [|by eexists]. intros [n Hn].
    destruct (Hl n p Hn) as (d & Hd & <-). by simplify_eq. }
  split; [intros p c Hc; apply (s_conn w Hi p c Hc)| | | |done].
  - intros p [n Hn]%elem_listed. destruct (Hl n p Hn) as (c & Hc & _). by exists c.
  - intros l t Ht. destruct (Hset l t Ht) as [Hnl Hnr]. pose proof (s_tasks w Hi l t Ht) as Hok.
    destruct t as [|p|p|p]; [done| |by destruct (Hnr p)|]; destruct Hok as (c & Hc & -> & _); by exists p, c.
  - intros p c Hc. pose proof (s_state w Hi p c Hc) as Hs. pose proof (Hno p c Hc) as Hnd.
    assert (NoDup (tasks_of p (queue w (c_loop c)))) as Hdup by apply NoDup_filter, Hi.
    assert (forall t, t ∈ tasks_of p (queue w (c_loop c)) ->
      (t = TEstablished p /\ c_status c = kConnecting) \/
      (t = TDestroyed p /\ c_status c = kDisconnected /\ c_channel c = true)) as Helem.
    { intros t [Htp Ht]%list_elem_of_filter. destruct (Hset _ t Ht) as [_ Hnr]. pose proof (s_tasks w Hi _ t Ht) as Hok.
      destruct t as [|q|q|q]; try done; injection Htp as ->; [| by destruct (Hnr p)|];
        destruct Hok as (d & Hd & _ & Hst); simplify_eq; naive_solver. }
    assert (forall t, task_conn t = Some p -> t ∈ queue w (c_loop c) -> (forall t', t' ∈ tasks_of p (queue w (c_loop c)) -> t' = t) ->
      tasks_of p (queue w (c_loop c)) = [t]) as Hone.
    { intros t Htp Ht Hall. apply only_element; [done..|]. by apply list_elem_of_filter. }
    assert ((forall t, t ∈ tasks_of p (queue w (c_loop c)) -> False) -> tasks_of p (queue w (c_loop c)) = []) as Hnone.
    { intros Hf. destruct (tasks_of p _) as [|t l]; [done|]. destruct (Hf t). by left. }
    specialize (Hin p c Hc). unfold conn_state in Hs. unfold fate.
    destruct (c_status c) eqn:Es, (c_channel c) eqn:Ech; try done; try (by destruct Hs as (_ & [=] & _)); try (by destruct Hs as (_ & [=])).
    + destruct Hs as [(_ & _ & Hr)|[(Hg & _ & Ht)|(_ & [=])]]; [by destruct (proj2 (Hset _ _ Hr) p)|].
      split; [rewrite Hin, Hg; done|]. apply (Hone (TDestroyed p)); [done..|].
      intros t' Ht'. by destruct (Helem t' Ht') as [[_ [=]]|[? _]].
    + destruct Hs as [(_ & [=] & _)|[(_ & [=] & _)|(Hg & _)]]. split; [rewrite Hin, Hg; done|].
      apply Hnone. intros t Ht. by destruct (Helem t Ht) as [[_ [=]]|(_ & _ & [=])].
    + left. destruct Hs as (Hl' & _ & Ht). split; [by apply Hin|]. apply (Hone (TEstablished p)); [done..|].
      intros t' Ht'. by destruct (Helem t' Ht') as [[? _]|(_ & [=] & _)].
    + left. destruct Hs as (Hl' & _). split; [by apply Hin|]. apply Hnone. intros t Ht.
      by destruct (Helem t Ht) as [[_ [=]]|(_ & [=] & _)].
Qed.

Lemma end_conn_other cur item w w' p :
  end_conn cur item w = Ok w' -> p <> item.2 -> conns w' !! p = conns w !! p /\ tids w' = tids w.
Proof.
  unfold end_conn, RunInLoop. intros Hr Hp. inv_ok. destruct (IsInLoopThread x0 cur); [|by inv_ok].
  apply on_conn_inv in Hr as (c & c' & _ & _ & ->). simpl. by rewrite lookup_insert_ne.
Qed.

(** A connection of the calling thread's loop that is being shut down. *)
Lemma end_conn_disconnecting cur items w p c :
  NoDup items.*2 -> p ∈ items.*2 -> conns w !! p = Some c -> c_status c = kDisconnecting ->
  tids w !! c_loop c = Some cur -> is_ok (foldM (end_conn cur) items w) = false.
Proof.
  intros Hnd Hp Hc Hs Ht. revert w Hc Ht. induction items as [|[n q] items IH]; intros w Hc Ht; simpl in *;
    [by apply not_elem_of_nil in Hp|].
  apply NoDup_cons in Hnd as [Hq Hnd]. apply elem_of_cons in Hp as [<-|Hp].
  - unfold end_conn, RunInLoop. simpl. rewrite Hc. cbn [deref mbind result_bind]. rewrite Ht.
    cbn [deref mbind result_bind]. unfold IsInLoopThread. rewrite Z.eqb_refl. unfold exec_task, on_conn.
    rewrite Hc. cbn [deref mbind result_bind]. rewrite Ht. cbn [deref mbind result_bind].
    rewrite AssertInLoopThread_refl. unfold Destroyed. by rewrite Hs.
  - destruct (end_conn cur (n, q) w) as [w1|f] eqn:E; [|done]. cbn [mbind result_bind].
    apply (end_conn_other _ _ _ _ p) in E as [Ec Et]; [|simpl; congruence].
    apply (IH Hnd Hp); congruence.
Qed.

(** ** The theorem *)

Definition loop_step (w w' : sworld) : Prop := exists l, is_Some (tids w !! l) /\ run_after l w = Ok w'.

Lemma ending_star w w' : ending [] w -> star loop_step w w' -> ending [] w'.
Proof.
  intros He Hst. eapply (star_invariant loop_step (ending [])); [|exact He|exact Hst].
  intros x y Hx (l & Htl & Hrun). destruct (ending_run l x Hx Htl) as (z & Hz & He'). congruence.
Qed.

Lemma bind_not_ok {A B} (r : result A) (f : A -> result B) : is_ok r = false -> is_ok (r ≫= f) = false.
Proof. by destruct r. Qed.

Lemma reachable_listed StartLoop loop tid ip_port name n tids cur w0 w :
  can_start StartLoop loop tid ip_port n tids ->
  Start StartLoop cur (fresh_world loop tid ip_port name n tids) = Ok w0 -> star server_step w0 w ->
  server_inv w /\ listed_inv w /\ elsewhere w /\ threads_ (thread_pool_ (server w)) = thread_names name n.
Proof.
  intros Hcs Hs Hst. destruct (started StartLoop loop tid ip_port name n tids cur Hcs) as (w1 & Hs1 & Hinv & _).
  rewrite Hs in Hs1. injection Hs1 as <-.
  assert (server_inv w /\ elsewhere w) as [Hi He].
  { apply (star_invariant server_step (fun w => server_inv w /\ elsewhere w) w0 w); [| |done].
    - intros x y [Hx Hex] Hxy. split; [|by eapply step_elsewhere].
      eapply reachable_server_inv; [exact Hx|]. by eapply star_step; [|apply star_refl].
    - split; [done|]. intros l p Hin. destruct (s_tasks w0 Hinv l _ Hin) as (c & Hc & _).
      apply Start_connections in Hs as [_ Hs]. rewrite Hs in Hc. simpl in Hc. by apply lookup_empty_Some in Hc. }
  split_and!; [done| |done|].
  2:{ apply (star_invariant server_step (fun w => threads_ (thread_pool_ (server w)) = thread_names name n) w0 w);
        [intros x y Hx Hxy; by rewrite (step_threads x y Hxy)|by eapply Start_threads|done]. }
  apply (star_invariant server_step listed_inv w0 w); [by intros ?? ??; eapply listed_step| |done].
  apply Start_connections in Hs as [Hs _]. intros m p. rewrite Hs. simpl. by intros ?%lookup_empty_Some.
Qed.

(** [C22] The end of a server, in any state that a started server can reach.  If only
    establishments and destructions are pending and no connection is being shut
    down, the destructor's body comes to its end, and from then on, in whatever order
    the loops call their functors, none fails and a loop that has called all of them
    has destroyed all its connections.  The destructor itself returns, with the
    acceptor gone, if the threads of the pool come to their end, so if there are none;
    but it waits for each of them and never returns if one does not ([exited]; a
    thread that was started never does, [never_joined] of EventLoopThread.v), while
    the loops go on.  If a connection of the server's own loop is being shut down,
    the destructor aborts. *)
Theorem server_destruction StartLoop loop tid ip_port name n tids0 cur w0 w :
  can_start StartLoop loop tid ip_port n tids0 ->
  Start StartLoop cur (fresh_world loop tid ip_port name n tids0) = Ok w0 -> star server_step w0 w ->
  (settled w -> (forall p c, conns w !! p = Some c -> c_status c <> kDisconnecting) ->
   exists w1, dtor_body (base w) w = Ok w1 /\
     (forall w2, star loop_step w1 w2 -> forall l, is_Some (tids w2 !! l) ->
       (exists w3, run_after l w2 = Ok w3) /\
       (queue w2 l = [] -> forall p c, conns w2 !! p = Some c -> c_loop c = l ->
          c_status c = kDisconnected /\ c_channel c = false)) /\
     forall exited,
       (forallb exited (thread_names name n) = true ->
          exists w2, TcpServer_dtor (thread_Join exited) (thread_dtor exited) (base w) w = Ok w2 /\
            conns w2 = conns w1 /\ queues w2 = queues w1 /\ listenning_ (server w2) = false) /\
       (forallb exited (thread_names name n) = false ->
          TcpServer_dtor (thread_Join exited) (thread_dtor exited) (base w) w = Err Blocks)) /\
  ((exists p c, conns w !! p = Some c /\ c_status c = kDisconnecting /\ tids w !! c_loop c = Some (base w)) ->
   forall join dtor, is_ok (TcpServer_dtor join dtor (base w) w) = false).
Proof.
  intros Hcs Hs Hst.
  destruct (reachable_listed StartLoop loop tid ip_port name n tids0 cur w0 w Hcs Hs Hst) as (Hi & Hl & Hel & Hth).
  pose proof (listed_values w Hl) as Hnd. pose proof (rd_tid _ (s_ready _ Hi)) as Hbase. fold (base w) in Hbase.
  assert (dtor_body (base w) w = foldM (end_conn (base w)) (in_key_order (connections_ (server w))) w) as Hbody.
  { unfold dtor_body, AssertInServerThread. rewrite Hbase. cbn [deref mbind result_bind].
    by rewrite AssertInLoopThread_refl. }
  unfold TcpServer_dtor. rewrite Hbody. split.
  - intros Hset Hno. destruct (ending_items _ w Hnd (settled_ending w Hi Hl Hel Hset Hno)) as (w1 & Hr & He & Hp).
    exists w1. split; [done|]. split.
    + intros w2 Hst2 l Htl. assert (ending [] w2) as He2 by (eapply ending_star; eauto).
      split; [by destruct (ending_run l w2 He2 Htl) as (w3 & Hw3 & _); exists w3|].
      intros Hq2 p c Hc Hlc. pose proof (en_fate _ _ He2 p c Hc) as Hf. rewrite Hlc, Hq2 in Hf.
      pose proof (not_elem_of_nil p). unfold fate in Hf. destruct (c_status c), (c_channel c); naive_solver.
    + intros exited. rewrite Hr. cbn [mbind result_bind].
      destruct (pool_dtor_exited exited (thread_pool_ (server w1))) as [Hyes Hnot].
      rewrite Hp, Hth in Hyes, Hnot. rewrite Hp. split; intros Hall.
      * destruct (Hyes Hall) as (pool & -> & _). cbn [mbind result_bind]. by eexists.
      * by rewrite (Hnot Hall).
  - intros (p & c & Hc & Hdc & Ht) join dtor. apply bind_not_ok. eapply end_conn_disconnecting; try done.
    apply elem_listed. exists (c_name c). pose proof (s_state w Hi p c Hc) as Hx. unfold conn_state in Hx.
    rewrite Hdc in Hx. apply Hx.
Qed.

(** ** Two connections, in loops 8 and 9, when the server of TcpServerProps.v ends; the
    second has not been established yet *)

Definition open_events : list event :=
  [EvAccept 20 sockaddr_zero sockaddr_zero 100; EvAccept 21 sockaddr_zero sockaddr_zero 101; EvRun 8].
Definition demo_open : sworld := default demo_started (run_events open_events demo_started).
Definition demo_ended : sworld := match dtor_body 1 demo_open with Ok w => w | Err _ => demo_open end.
Definition demo_run (l : ptr) (w : sworld) : sworld := match run_after l w with Ok w => w | Err _ => w end.
Definition demo_gone : sworld := demo_run 9 (demo_run 8 (demo_run 9 demo_ended)).

Lemma demo_queue w a b l :
  queues w = <[8 := a]> (<[9 := b]> ∅) -> queue w l = if decide (l = 8) then a else if decide (l = 9) then b else [].
Proof.
  intros Hw. unfold queue. rewrite Hw. destruct (decide (l = 8)) as [->|]; [done|].
  rewrite lookup_insert_ne by done. destruct (decide (l = 9)) as [->|]; [done|]. by rewrite lookup_insert_ne by done.
Qed.

Lemma demo_run_step l w : is_Some (tids w !! l) -> is_ok (run_after l w) = true -> loop_step w (demo_run l w).
Proof. unfold demo_run. intros Ht Hr. exists l. split; [done|]. by destruct (run_after l w). Qed.

(** The destructor waits for the two threads, which go on: in the end both connections
    are destroyed. *)
Lemma server_destruction_witness :
  dtor_body 1 demo_open = Ok demo_ended /\ queue demo_ended 8 = [TDestroyed 100] /\
  queue demo_ended 9 = [TEstablished 101; TDestroyed 101] /\
  (exists c, conns demo_gone !! 101 = Some c /\ c_status c = kDisconnected /\ c_channel c = false) /\
  TcpServer_dtor (thread_Join (fun _ => false)) (thread_dtor (fun _ => false)) 1 demo_open = Err Blocks.
Proof.
  destruct (server_destruction demo_StartLoop 7 1 "10.0.0.1:80" "s" 2 demo_tids 1 demo_started demo_open)
    as [Hall _].
  - apply demo_can_start.
  - vm_compute. reflexivity.
  - apply (run_events_star open_events). vm_compute. reflexivity.
  - destruct Hall as (w1 & Hr & Hend & Hret).
    + intros l t. rewrite (demo_queue demo_open [] [TEstablished 101]) by (vm_compute; reflexivity).
      case_decide; [by intros ?%elem_of_nil|]. case_decide; [|by intros ?%elem_of_nil].
      intros ->%list_elem_of_singleton. by split.
    + intros p c Hc Hs. assert (conns demo_open = <[100 := default (mkConnObj 0 "" 0 sockaddr_zero sockaddr_zero kConnected true)
        (conns demo_open !! 100)]> (<[101 := default (mkConnObj 0 "" 0 sockaddr_zero sockaddr_zero kConnected true)
        (conns demo_open !! 101)]> ∅)) as Ec by (vm_compute; reflexivity).
      rewrite Ec in Hc. apply lookup_insert_Some in Hc as [[_ <-]|[_ Hc]]; [vm_compute in Hs; discriminate|].
      apply lookup_insert_Some in Hc as [[_ <-]|[_ Hc]]; [vm_compute in Hs; discriminate|].
      by apply lookup_empty_Some in Hc.
    + assert (w1 = demo_ended) as -> by (vm_compute in Hr; injection Hr as <-; vm_compute; reflexivity).
      do 3 (split; [vm_compute; reflexivity|]). split; [|by apply Hret].
      assert (star loop_step demo_ended demo_gone) as Hrun.
      { eapply star_step; [apply (demo_run_step 9 demo_ended); vm_compute; eauto|].
        eapply star_step; [apply (demo_run_step 8 (demo_run 9 demo_ended)); vm_compute; eauto|].
        eapply star_step; [apply (demo_run_step 9 (demo_run 8 (demo_run 9 demo_ended))); vm_compute; eauto|].
        apply star_refl. }
      destruct (Hend demo_gone Hrun 9) as [_ Hgone]; [vm_compute; eauto|].
      destruct (conns demo_gone !! 101) as [c|] eqn:Ec; [|vm_compute in Ec; discriminate Ec].
      exists c. split; [reflexivity|].
      apply (Hgone ltac:(vm_compute; reflexivity) 101 c Ec). vm_compute in Ec. injection Ec as <-. reflexivity.
Defined.
