(* ===== verification/AcceptServer.v ===== *)
(** * Accepting for a server: Acceptor.v with TcpServer.v

    [TcpServer]'s constructor binds [HandleNewConnection] as the acceptor's
    new-connection callback, and [Start] runs the acceptor's [Listen] in the server's
    loop.  Here the two models are put together: the acceptor in the server's loop,
    and the server over all its loops. *)

From S2P Require Import Prelude Bytes Slice Format LoopThread Duration Timestamp Channel EPoller.
From S2P Require Import EPollerFacts EventFd SimKernel LoopChannels ServerStatus SocketOps Acceptor.
From S2P Require Import TcpConnection ThreadPool TcpServer TcpServerProps TcpServerEnd.
#[local] Open Scope Z_scope.

Section AcceptServer.
Context {Cb K : Type} `{EpollKernel K, NetKernel K}.

(** The acceptor's world, whose [server] is the server. *)
Abbreviation asworld := (aworld Cb K sworld).

(** An address for a new connection object: [new TcpConnection]. *)
Context (new_conn : sworld -> ptr).

Definition set_aserver (s : sworld) (w : asworld) : asworld := mkAWorld sworld (acceptor w) (aio w) s.

(** The callback bound by [TcpServer]'s constructor, run by thread [cur]. *)
Definition on_new_connection (cur : thread_id) (sockfd : Z) (peer : sockaddr) (w : asworld) : result asworld :=
  s ← TcpServer.HandleNewConnection cur sockfd (GetLocalAddr sockfd (kernel (aio w))) peer
        (new_conn (Acceptor.server w)) (Acceptor.server w);
  Ok (set_aserver s w).

(** The read callback of the listening socket's channel. *)
Definition on_acceptable (cur : thread_id) : asworld -> result asworld :=
  Acceptor.HandleRead cur cur (Some (on_new_connection cur)).
End AcceptServer.

Section Accepting.
Context {Cb K : Type} `{EpollKernel K, NetLaws K}.
Abbreviation asworld := (aworld Cb K sworld).
Context (new_conn : sworld -> ptr).

(** The object that [HandleNewConnection] makes. *)
Lemma new_conn_object tid fd local peer p s s' :
  HandleNewConnection tid fd local peer p s = Ok s' ->
  exists c, conns s' !! p = Some c /\ connections_ (TcpServer.server s') !! c_name c = Some p /\
    c_sockfd c = fd /\ c_local c = local /\ c_peer c = peer /\
    c_name c = server_name (TcpServer.server s) (next_conn_id_ (TcpServer.server s)) /\
    (c_status c = kConnecting \/ c_status c = kConnected).
Proof.
  unfold HandleNewConnection, RunInLoop. intros Hr. inv_ok. destruct x0 as [l pool]. inv_ok.
  destruct (IsInLoopThread _ _).
  - apply on_conn_inv in Hr as (c & c' & Hc & He & ->). simpl in Hc. rewrite lookup_insert_eq in Hc.
    injection Hc as <-. unfold Established in He. simpl in He. injection He as <-.
    eexists. simpl. rewrite lookup_insert_eq. split; [done|]. simpl. rewrite lookup_insert_eq. auto 9.
  - inv_ok. eexists. simpl. rewrite lookup_insert_eq. split; [done|]. simpl. rewrite lookup_insert_eq. auto 9.
Qed.

(** [C23] Accepting.  When the listening socket is readable in the server's thread and
    accept(2) yields a connection, the acceptor hands it to the server, which is
    exactly the event of the server's model: its invariant holds again, and the map
    lists, under the next name, one new connection that owns the descriptor, which
    has been made non-blocking.  When accept(2) fails the process ends. *)
Theorem accept_serves tid (w : asworld) fd peer k :
  let s := Acceptor.server w in
  server_inv s -> tids s !! TcpServer.loop_ (TcpServer.server s) = Some tid ->
  conns s !! new_conn s = None -> next_conn_id_ (TcpServer.server s) + 1 < 2 ^ 31 ->
  accept (accept_fd_ (acceptor w)) (kernel (aio w)) = (fd, peer, k) ->
  (0 <= fd -> exists w', on_acceptable new_conn tid w = Ok w' /\
     let k' := SetNonBlockAndCloseOnExec fd k in
     aio w' = set_kernel k' (aio w) /\ acceptor w' = acceptor w /\
     server_event (EvAccept fd (GetLocalAddr fd k') peer (new_conn s)) s = Ok (Acceptor.server w') /\
     server_inv (Acceptor.server w') /\
     exists c, conns (Acceptor.server w') !! new_conn s = Some c /\
       connections_ (TcpServer.server (Acceptor.server w')) !! c_name c = Some (new_conn s) /\
       c_sockfd c = fd /\ c_peer c = peer /\
       c_name c = server_name (TcpServer.server s) (next_conn_id_ (TcpServer.server s))) /\
  (fd < 0 -> on_acceptable new_conn tid w = Err Fatal).
Proof.
  intros s Hinv Htid Hnew Hid Ha. unfold on_acceptable.
  destruct (accept_cases tid (on_new_connection new_conn tid) w fd peer k Ha) as [Hbad Hgood].
  split; [|exact Hbad]. intros Hfd. rewrite (Hgood Hfd). set (k' := SetNonBlockAndCloseOnExec fd k).
  destruct (accept_ok s fd (GetLocalAddr fd k') peer (new_conn s) Hinv Hnew Hid tid Htid) as (s' & Hr & Hinv').
  pose proof (new_conn_object tid fd _ peer _ s s' Hr) as (c & Hc & Hl & Hf & _ & Hp & Hn & _).
  exists (set_aserver s' (set_akernel k' w)). split_and!; try done.
  - unfold on_new_connection. simpl. fold s. by rewrite Hr.
  - cbn [server_event]. by rewrite Htid.
  - exists c. split; [exact Hc|]. split; [exact Hl|]. split; [exact Hf|]. split; [exact Hp|exact Hn].
Qed.
End Accepting.

(** ** The server of TcpServerProps.v, descriptor 22 accepted *)

Definition demo_as (answer : Z) : aworld Z nsim sworld :=
  mkAWorld sworld (mkAcceptor 3 100 8 true)
    (mkWorld (mkEPoller 1 16 ∅) ∅ (demo_net answer demo_addr4)) demo_end.

Lemma accept_serves_witness :
  (exists w', on_acceptable (fun _ => 102) 1 (demo_as 22) = Ok w' /\ exists c, 
     conns (Acceptor.server w') !! 102 = Some c /\ c_sockfd c = 22) /\
  on_acceptable (fun _ => 102) 1 (demo_as (-1)) = Err Fatal.
Proof.
  assert (server_inv demo_end) as Hinv.
  { destruct (started demo_StartLoop 7 1 "10.0.0.1:80" "s" 2 demo_tids 1 demo_can_start) as (w1 & Hs1 & Hi & _).
    assert (w1 = demo_started) as -> by (unfold demo_started, demo_fresh; by rewrite Hs1).
    eapply reachable_server_inv; [exact Hi|apply demo_reaches_end]. }
  split.
  - destruct (accept_serves (fun _ => 102) 1 (demo_as 22) 22 demo_addr4 (demo_net 22 demo_addr4)) as [Hok _];
      [exact Hinv|vm_compute; reflexivity..|].
    destruct (Hok ltac:(lia)) as (w' & Hr & _ & _ & _ & _ & c & Hc & _ & Hf & _).
    exists w'. split; [exact Hr|]. exists c. split; [exact Hc|exact Hf].
  - destruct (accept_serves (fun _ => 102) 1 (demo_as (-1)) (-1) demo_addr4
      (n_set_errno EMFILE (demo_net (-1) demo_addr4))) as [_ Hbad];
      [exact Hinv|vm_compute; reflexivity..|]. apply Hbad. lia.
Defined.
