(* ===== verification/TcpConnView.v ===== *)
(** * What the server sees of a connection (TcpServer.v) is what it does (TcpConnection.v) *)

From S2P Require Import SocketOps TcpServer.
From S2P Require Import Prelude Bytes Slice Buffer BufferFacts BufferSpec BufferIO LoopThread Duration.
From S2P Require Import Timestamp Channel EPoller EPollerFacts EventFd SimKernel ServerStatus.
From S2P Require Import LoopChannels EventLoop EventLoopProps SocketKernel TcpConnection TcpConnFacts.
From S2P Require Import TcpSend TcpConnProps TcpConnLife TcpDemo.
#[local] Open Scope Z_scope.

Section View.
Context {G Cb A U K : Type} `{EpollLaws K, EventfdKernel K, SocketKernel K, !SocketLaws K}.
Abbreviation cworld := (lworld (functor G) Cb (cuser A U) K).
Implicit Types (w : cworld).
Context (this_loop : ptr) (cur : thread_id) (conn_cb_ close_cb_ : cworld -> result cworld).

(** The status, and whether the channel is in its loop. *)
Definition view w : ConnStatus * option bool := (conn_status w, added_at (channel_ (the_conn w)) (io w)).

(** The server's object agrees with the connection. *)
Definition sees (c : TcpServer.conn_obj) w : Prop :=
  view w = (TcpServer.c_status c, Some (TcpServer.c_channel c)).

Lemma view_change ch w w' :
  change_channel this_loop cur ch w = Ok w' -> view w' = (conn_status w, Some true).
Proof.
  unfold change_channel, on_io. intros Hr. inv_ok. unfold view, conn_status, the_conn. simpl.
  rewrite (Channel_change_added _ _ _ _ _ _ _ _ E). by rewrite decide_True.
Qed.

Lemma Channel_Remove_self tid p (i i' : EPoller.world Cb K) :
  Channel_Remove this_loop tid cur p i = Ok i' -> added_at p i' = Some false.
Proof.
  unfold Channel_Remove, Loop_RemoveChannel. intros Hr. inv_ok.
  rewrite (RemoveChannel_added _ _ p _ _ Hr), !added_set_channel. by rewrite decide_True.
Qed.

(** [C30] The server's view of a connection is right.  Let the user's callbacks leave
    the connection's status and channel alone.  Whenever [OnConnectEstablished],
    [HandleClose] (up to the close callback) or [OnConnectDestroyed] returns and the
    corresponding operation of the server's view is defined, the view still agrees
    with the connection; and the first two return only where theirs is defined. *)
Theorem server_sees_connection c w w' :
  (forall w w', conn_cb_ w = Ok w' -> view w' = view w) ->
  (forall w w', close_cb_ w = Ok w' -> view w' = view w) ->
  sees c w ->
  (OnConnectEstablished this_loop cur conn_cb_ w = Ok w' ->
    exists c', TcpServer.Established c = Ok c' /\ sees c' w') /\
  (HandleClose this_loop cur close_cb_ w = Ok w' ->
    exists c', TcpServer.Closed c = Ok c' /\ sees c' w') /\
  (forall c', OnConnectDestroyed this_loop cur conn_cb_ w = Ok w' ->
    TcpServer.Destroyed c = Ok c' -> sees c' w').
Proof.
  intros Hconn Hclose Hsees. unfold sees in *. injection Hsees as Hs Hch. split_and!.
  - unfold OnConnectEstablished. intros Hr. inv_ok. apply bool_decide_eq_true in E0.
    apply view_change in E1. apply Hconn in Hr. unfold TcpServer.Established.
    change (status_ (the_conn w)) with (conn_status w) in E0. rewrite <- Hs, E0. simpl.
    eexists. split; [done|]. by rewrite Hr, E1.
  - unfold HandleClose. intros Hr. inv_ok. apply view_change in E1. apply Hclose in Hr.
    change (status_ (the_conn w)) with (conn_status w) in E0. unfold TcpServer.Closed.
    rewrite <- Hs, E0. simpl. eexists. split; [done|]. by rewrite Hr, E1.
  - unfold OnConnectDestroyed, on_io. intros c' Hr Hd.
    apply bind_ok in Hr as (u & _ & Hr). apply bind_ok in Hr as (w1 & Hw1 & Hr).
    apply bind_ok in Hr as (i & Hrem & Hr). injection Hr as <-. apply Channel_Remove_self in Hrem.
    assert (view (set_io i w1) = (conn_status w1, Some false)) as -> by (unfold view; f_equal; exact Hrem).
    unfold TcpServer.Destroyed in Hd. rewrite <- Hs in Hd. apply bind_ok in Hd as (u' & _ & Hd).
    injection Hd as <-. simpl. f_equal.
    change (status_ (the_conn w)) with (conn_status w) in Hw1.
    destruct (bool_decide (conn_status w = kConnected)); [|by inv_ok].
    apply bind_ok in Hw1 as (w2 & Hw2 & Hw1). apply view_change in Hw2. apply Hconn in Hw1.
    rewrite Hw2 in Hw1. by injection Hw1.
Qed.
End View.

Lemma server_sees_connection_witness :
  let w := demo_w kConnected demo_empty_buf false 2 [] in
  let c := TcpServer.mkConnObj 7 "conn" 5 SocketOps.sockaddr_zero SocketOps.sockaddr_zero kConnected true in
  sees c w /\
  exists w' c', HandleClose 7 1 Ok w = Ok w' /\ TcpServer.Closed c = Ok c' /\ sees c' w'.
Proof.
  intros w c. split; [vm_compute; reflexivity|].
  destruct (HandleClose 7 1 Ok w) as [w'|f] eqn:E; [|vm_compute in E; discriminate E].
  exists w'. destruct (server_sees_connection 7 1 Ok Ok c w w') as (_ & Hcl & _).
  - by intros x x' [= <-].
  - by intros x x' [= <-].
  - vm_compute. reflexivity.
  - destruct (Hcl E) as (c' & Hc' & Hs). by exists c'.
Defined.
