(* ===== verification/ServerLoop.v ===== *)
(** * A server in one event loop (evk/tcp_server.cc, evk/acceptor.cc, evk/tcp_conn.cc)

    A [TcpServer] without threads of its own, the default: its acceptor and all its
    connections share the loop it was given.  EventLoop.v, Acceptor.v, TcpServer.v,
    TcpConnection.v and LoopConns.v put together: connections come, talk and go while
    the loop turns. *)

From S2P Require Import SocketOps Acceptor ThreadPool TcpServer TcpSocket.
From S2P Require Import Prelude Bytes Slice Buffer BufferFacts BufferSpec BufferIO LoopThread Duration.
From S2P Require Import Timestamp Channel EPoller EPollerFacts EventFd ServerStatus LoopChannels.
From S2P Require Import EventLoop LoopTimers SocketKernel TcpConnection TcpConnFacts TcpSend TcpConnProps.
From S2P Require Import TcpConnLife TcpStream TcpFrame ConnPhases LoopConns.
#[local] Open Scope Z_scope.

Section ServerLoop.
Context {G V K : Type} `{EpollKernel K, EventfdKernel K, SocketKernel K, NetKernel K}.

Abbreviation cb := (loop_cb (ptr * conn_cb)).
Abbreviation conn_user := (cuser sockaddr (list bytes * V)).
Abbreviation cworld := (lworld (functor (task G)) cb conn_user K).
Abbreviation mworld := (lworld (ptr * functor (task G)) cb (gmap ptr conn_user) K).

(** The connection objects alive, by address, and the server with its acceptor. *)
Record suser := mkSUser {
  objects : gmap ptr conn_user;
  the_server : TcpServer;
  the_acceptor : Acceptor
}.
Abbreviation sworld := (lworld (ptr * functor (task G)) cb suser K).

Definition set_objects (m : gmap ptr conn_user) (w : sworld) : sworld :=
  set_user (mkSUser m (the_server (user w)) (the_acceptor (user w))) w.
Definition set_the_server (s : TcpServer) (w : sworld) : sworld :=
  set_user (mkSUser (objects (user w)) s (the_acceptor (user w))) w.
Definition set_the_acceptor (a : Acceptor) (w : sworld) : sworld :=
  set_user (mkSUser (objects (user w)) (the_server (user w)) a) w.

(** The loop of LoopConns.v, with the connections only, and back. *)
Definition loop_of (w : sworld) : mworld :=
  mkLWorld (tid_ w) (EventLoop.status_ w) (is_calling_pending_functors_ w) (pending_functors_ w)
    (wakeup_channel_ w) (timer_channel_ w) (active_channels_ w) (threads w) (io w) (objects (user w)).
Definition put_loop (m : mworld) (w : sworld) : sworld :=
  mkLWorld (tid_ m) (EventLoop.status_ m) (is_calling_pending_functors_ m) (pending_functors_ m)
    (wakeup_channel_ m) (timer_channel_ m) (active_channels_ m) (threads m) (io m)
    (mkSUser (user m) (the_server (user w)) (the_acceptor (user w))).
Definition in_loop_of (f : mworld -> result mworld) (w : sworld) : result sworld :=
  m ← f (loop_of w); Ok (put_loop m w).

(** The acceptor of Acceptor.v, the rest beside it, and back. *)
Definition as_acceptor (w : sworld) : aworld cb K sworld := mkAWorld sworld (the_acceptor (user w)) (io w) w.
Definition of_acceptor (a : aworld cb K sworld) : sworld :=
  set_io (aio a) (set_the_acceptor (Acceptor.acceptor a) (Acceptor.server a)).

(** [this_loop], [acc]: the addresses of the loop and of the acceptor, which their
    callbacks are bound to; [react]: the application code of each connection, which
    runs in its callbacks and functors; [write_complete]: whether that callback is
    set; [v0]: the application's first state; [timer]: the timer queue's [HandleRead]. *)
Context (junk : nat -> byte) (this_loop acc : ptr) (react : ptr -> trigger (task G) -> cworld -> list user_op)
  (write_complete : bool) (v0 : V) (timer : mworld -> result mworld).

(** [new TcpConnection] with its channel: their addresses. *)
Context (new_conn : sworld -> ptr * ptr).

Definition conn_cb_ (t : ptr) : cworld -> result cworld := application junk this_loop (react t) TConnection.

(** ** TcpServer *)

Section Members.
Context (cur : thread_id).

(** [TcpServer::HandleNewConnection].  [RunInLoop] calls at once in the loop's
    thread; of another loop nothing is modelled here. *)
Definition HandleNewConnection (sockfd : Z) (peer : sockaddr) (w : sworld) : result sworld :=
  _ ← AssertInLoopThread (tid_ w) cur;
  let s := the_server (user w) in
  '(ioLoop, pool) ← GetNextLoop cur (thread_pool_ s);
  let name := connName (TcpServer.name_ s) (ip_port_ s) (next_conn_id_ s) in
  next ← ck32 (next_conn_id_ s + 1);
  let '(t, p) := new_conn w in
  '(c, chan) ← TcpConnection_new junk (fun k => OnChannel (t, k)) ioLoop name sockfd
                 (GetLocalAddr sockfd (kernel (io w))) peer p;
  let w := set_io (EPoller.set_channel p chan (io w)) w in
  let u := mkUser (SetWriteCompleteCallback write_complete c) ∅ ∅ ∅ ([], v0) in
  let w := set_objects (<[t := u]> (objects (user w))) w in
  let w := set_the_server (set_connections (<[name := t]> (connections_ s)) (set_next_id next (set_pool pool s))) w in
  if bool_decide (ioLoop = this_loop) then
    in_loop_of (on_conn t (OnConnectEstablished this_loop cur (conn_cb_ t))) w
  else Ok w.

(** [TcpServer::RemoveConnectionInLoop], which [RemoveConnection] calls at once in
    the loop's thread. *)
Definition RemoveConnectionInLoop (t : ptr) (w : sworld) : result sworld :=
  _ ← AssertInLoopThread (tid_ w) cur;
  u ← deref (objects (user w) !! t);
  let s := the_server (user w) in
  let n := if connections_ s !! TcpConnection.name_ (conn u) then 1 else 0 in
  let w := set_the_server (set_connections (delete (TcpConnection.name_ (conn u)) (connections_ s)) s) w in
  _ ← assert (n =? 1);
  Ok (if bool_decide (TcpConnection.loop_ (conn u) = this_loop)
      then QueueInLoop cur (t, FOther Destroy) w else w).

(** The acceptor's new-connection callback. *)
Definition on_new_connection (sockfd : Z) (peer : sockaddr) (a : aworld cb K sworld) :
    result (aworld cb K sworld) :=
  w ← HandleNewConnection sockfd peer (of_acceptor a); Ok (as_acceptor w).

(** [Acceptor::HandleRead], the read callback of the listening socket's channel. *)
Definition on_acceptable (w : sworld) : result sworld :=
  a ← Acceptor.HandleRead (tid_ w) cur (Some on_new_connection) (as_acceptor w); Ok (of_acceptor a).

Definition is_closed (t : ptr) (w : sworld) : bool :=
  match objects (user w) !! t with Some u => IsDisconnected (conn u) | None => false end.

(** A member bound to the channel of the connection at [t].  The close callback,
    which is [RemoveConnection], is the last that [HandleClose] does
    ([call_channel_close] of ServerLoopInv.v). *)
Definition run_member (t : ptr) (k : conn_cb) (w : sworld) : result sworld :=
  w' ← in_loop_of (on_conn t (call_channel junk this_loop cur
         (application junk this_loop (react t) TMessage) Ok k)) w;
  if negb (is_closed t w) && is_closed t w' then RemoveConnectionInLoop t w' else Ok w'.

(** The constructor, in a loop that has no connections: the channel of the acceptor
    is at [p]; [ip_port] is the address's text. *)
Definition TcpServer_ctor (listen_addr : sockaddr) (ip_port name : string) (num_thread : Z) (reuse_port : bool)
    (p : ptr) (w : lworld (ptr * functor (task G)) cb unit K) : result sworld :=
  '(a, i) ← Acceptor_new this_loop listen_addr reuse_port p (OnChannel (acc, OnRead)) (io w);
  Ok (mkLWorld (tid_ w) (EventLoop.status_ w) (is_calling_pending_functors_ w) (pending_functors_ w)
        (wakeup_channel_ w) (timer_channel_ w) (active_channels_ w) (threads w) i
        (mkSUser ∅ (TcpServer_new this_loop (tid_ w) ip_port name num_thread) a)).

(** [TcpServer::Start], in the loop's thread, so that [Listen] runs at once. *)
Definition Start (StartLoop : string -> ptr) (w : sworld) : result sworld :=
  let s := the_server (user w) in
  if bool_decide (TcpServer.status_ s = kInitialized) then
    let s := set_server_status kStarting s in
    let s := set_pool (ThreadPool.Start StartLoop false (thread_pool_ s)).1 s in
    _ ← assert (negb (IsListenning (as_acceptor w)));
    a ← Acceptor.Listen this_loop (tid_ w) cur (as_acceptor w);
    Ok (set_the_server (set_server_status kRunning (set_listenning true s)) (of_acceptor a))
  else Ok w.
End Members.

(** ** The loop *)

(** The callback of a channel: of the loop's own, of the acceptor's, of a
    connection's. *)
Definition serve (c : cb) (w : sworld) : result sworld :=
  match c with
  | OnWakeup => Ok (EventLoop.HandleRead w)
  | OnTimer => in_loop_of timer w
  | OnChannel (t, k) => if bool_decide (t = acc) then on_acceptable (tid_ w) w else run_member (tid_ w) t k w
  end.

Definition serve_functor (f : ptr * functor (task G)) (w : sworld) : result sworld :=
  in_loop_of (call_functor junk this_loop react conn_cb_ f) w.

(** The last reference to a connection goes: [delete], and its descriptor is closed
    and can be used again. *)
Definition release (t : ptr) (w : sworld) : result sworld :=
  w ← in_loop_of (on_conn t TcpConnection_delete) w;
  Ok (set_objects (delete t (objects (user w))) w).

(** What happens beside the loop's own work. *)
Inductive sact := SAct (a : act G K) | SRelease (t : ptr) | SStop (by_ : thread_id).

Definition run_sact (a : sact) (w : sworld) : result sworld :=
  match a with
  | SAct a => in_loop_of (run_act a) w
  | SRelease t => release t w
  | SStop by_ => Ok (EventLoop.Stop by_ w)
  end.

Definition server_turn (x : list sact * timeval) (w : sworld) : result sworld :=
  w ← foldM run_sact x.1 w; EventLoop.turn serve_functor serve id x.2 w.

Definition server_turns (sched : list (list sact * timeval)) (w : sworld) : result sworld :=
  foldM server_turn sched w.

(** ** The end of the server *)

(** The server lets a connection go.  [kept]: whether anything else refers to it, so
    that it outlives the server's reference. *)
Definition let_go (cur : thread_id) (kept : ptr -> mworld -> bool) (item : string * ptr) (m : mworld) : result mworld :=
  let t := item.2 in
  u ← deref (user m !! t);
  m ← if bool_decide (TcpConnection.loop_ (conn u) = this_loop)
      then on_conn t (OnConnectDestroyed this_loop cur (conn_cb_ t)) m else Ok m;
  if kept t m then Ok m
  else m ← on_conn t TcpConnection_delete m; Ok (set_user (delete t (user m)) m).

(** The acceptor's destructor: its body, then its channel and its socket. *)
Definition end_acceptor (cur : thread_id) (a : Acceptor) (m : mworld) : result mworld :=
  x ← Acceptor_dtor this_loop (tid_ m) cur (mkAWorld unit a (io m) tt);
  m ← destroy_channel (accept_channel_ a) (set_io (aio x) m);
  Ok (set_io (set_kernel (Close (accept_fd_ a) (kernel (io m))) (io m)) m).

(** [TcpServer::~TcpServer], called by [cur]: its body, then the thread pool and the
    acceptor go with the server.  The loop goes on without it. *)
Definition TcpServer_dtor (thread_Join thread_dtor : string -> result unit) (cur : thread_id)
    (kept : ptr -> mworld -> bool) (w : sworld) : result mworld :=
  let s := the_server (user w) in
  _ ← AssertInLoopThread (tid_ w) cur;
  m ← foldM (let_go cur kept) (in_key_order (connections_ s)) (loop_of w);
  _ ← EventLoopThreadPool_dtor thread_Join thread_dtor (thread_pool_ s);
  end_acceptor cur (the_acceptor (user w)) m.
End ServerLoop.
Arguments suser V : clear implicits.
Arguments sact G K : clear implicits.
