(* ===== verification/EchoServer.v ===== *)
(** * The echo server (src/test/test_thread_pool/echo.h, echo.cc)

    A [TcpServer] whose message callback sends back what came, and whose connection
    callback only logs; TcpEcho.v has the callback of a message. *)

From S2P Require Import SocketOps Acceptor ThreadPool TcpServer TcpSocket.
From S2P Require Import Prelude Bytes Slice Buffer BufferFacts BufferSpec BufferIO LoopThread Duration.
From S2P Require Import Timestamp Channel EPoller EPollerFacts EventFd ServerStatus LoopChannels.
From S2P Require Import EventLoop LoopTimers SocketKernel TcpConnection TcpConnFacts TcpSend TcpConnProps.
From S2P Require Import TcpConnLife TcpStream TcpEcho TcpFrame ConnPhases LoopConns ServerLoop.
#[local] Open Scope Z_scope.

Section EchoServer.
Context {G V K : Type} `{EpollKernel K, EventfdKernel K, SocketKernel K, NetKernel K}.
Abbreviation cb := (loop_cb (ptr * conn_cb)).
Abbreviation cworld := (lworld (functor (task G)) cb (cuser sockaddr (list bytes * V)) K).
Abbreviation sworld := (lworld (ptr * functor (task G)) cb (suser V) K).
Context (junk : nat -> byte) (this_loop acc : ptr).

(** The constructor: the server's name, and no option. *)
Definition EchoServer_ctor (listener : sockaddr) (ip_port : string) (num_thread : Z) (p : ptr)
    (b : lworld (ptr * functor (task G)) cb unit K) : result sworld :=
  TcpServer_ctor this_loop acc listener ip_port "EchoServer" num_thread false p b.

Definition EchoServer_Start (cur : thread_id) (StartLoop : string -> ptr) (w : sworld) : result sworld :=
  Start this_loop cur StartLoop w.

(** [EchoServer::OnConnection] logs. *)
Definition OnConnection (v : cworld) : result cworld := Ok v.

(** The two callbacks are the application [echo]: [OnMessage_echo] of TcpEcho.v for a
    message, and *)
Lemma OnConnection_echo tmp v : application junk this_loop (echo tmp) TConnection v = OnConnection v.
Proof. done. Qed.

Lemma echo_server_ok `{!EpollLaws K, !SocketLaws K} (tmp : ptr) :
  react_ok (G := task G) (K := K) (Cb := cb) (A := sockaddr) (V := V) (echo tmp) 0.
Proof. apply echo_ok. Qed.
End EchoServer.
