(* ===== verification/ServerLoopInv.v ===== *)
(** * What the steps of ServerLoop.v do to the loop of LoopConns.v

    The close callback comes last in the members that close; a connection joins the
    loop's invariant when it is established and leaves it when it is deleted. *)

From S2P Require Import SocketOps Acceptor ThreadPool TcpServer TcpSocket.
From S2P Require Import Prelude Bytes Slice Buffer BufferFacts BufferSpec BufferIO LoopThread Duration.
From S2P Require Import Timestamp Channel EPoller EPollerFacts EventFd ServerStatus LoopChannels.
From S2P Require Import EventLoop EventLoopProps LoopTimers SocketKernel TcpConnection TcpConnFacts TcpSend.
From S2P Require Import TcpConnProps TcpConnLife TcpStream TcpFrame ConnPhases LoopConns LoopServes ServerLoop.
#[local] Open Scope Z_scope.

(** ** The close callback comes last *)

Section Close.
Context {G Cb A V K : Type} `{EpollLaws K, EventfdKernel K, SocketKernel K, !SocketLaws K, !SocketFrame K}.
Abbreviation cworld := (lworld (functor (task G)) Cb (cuser A (list bytes * V)) K).
Implicit Types (v : cworld).
Context (junk : nat -> byte) (this_loop : ptr).

Lemma only_queues_nothing : only_queues (G := G) (Cb := Cb) (A := A) (V := V) (K := K) Ok.
Proof. intros v. exists v, []. split; [done|]. split; [apply quiet_refl|]. by rewrite app_nil_r. Qed.

(** A member that closed. *)
Definition closing v v' : bool := negb (closed v) && closed v'.

Lemma closing_same v v' : closed v' = closed v -> closing v v' = false.
Proof. unfold closing. intros ->. apply andb_negb_l. Qed.

(** [f] calls [cl] last if it closed, and returns otherwise. *)
Definition close_last cl (r : result cworld) v : result cworld :=
  v' ← r; if closing v v' then cl v' else Ok v'.

Lemma close_last_same cl r v :
  (forall v', r = Ok v' -> closed v' = closed v) -> close_last cl r v = r.
Proof.
  unfold close_last. destruct r as [v'|]; [|done]. intros Hs. cbn [mbind result_bind].
  by rewrite closing_same by by apply Hs.
Qed.

Lemma HandleClose_last cur cl v v0 :
  closed v0 = closed v -> HandleClose this_loop cur cl v = close_last cl (HandleClose this_loop cur Ok v) v0.
Proof.
  intros Hc. unfold close_last, HandleClose. destruct (in_loop cur v); [|done]. cbn [mbind result_bind].
  destruct (_ || _) eqn:E; [|done]. simpl.
  destruct (change_channel this_loop cur DisableAll (SetStatus kDisconnected v)) as [v1|] eqn:Ech; [|done].
  cbn [mbind result_bind]. apply status_change in Ech. unfold closing. rewrite Hc.
  assert (closed v1 = true) as -> by (unfold closed; by rewrite Ech).
  assert (closed v = false) as ->; [|done]. unfold closed, conn_status. apply bool_decide_eq_false. intros Hs.
  by rewrite Hs in E.
Qed.

Lemma call_channel_close (react : trigger (task G) -> cworld -> list user_op) cur cl k v :
  let msg := application junk this_loop react TMessage in
  call_channel junk this_loop cur msg cl k v =
    close_last cl (call_channel junk this_loop cur msg Ok k v) v.
Proof.
  intros msg. destruct k; simpl.
  - unfold HandleRead, close_last. destruct (in_loop cur v); [|done]. cbn [mbind result_bind].
    destruct (the_channel v) as [c|]; [|done]. cbn [mbind result_bind].
    destruct (ReadFromFD _ _ _) as [[[n e] b]|]; [|done]. cbn [mbind result_bind].
    destruct (WritableBytes _) as [wr|]; [|done]. cbn [mbind result_bind].
    match goal with |- (if _ then msg ?x else _) = _ => set (v1 := x) end.
    assert (closed v1 = closed v) as Hc by done.
    destruct (n >? 0).
    + symmetry. apply close_last_same. intros v' Hr. rewrite (closed_application _ _ _ _ _ _ Hr). exact Hc.
    + destruct (n =? 0); [by apply HandleClose_last|]. symmetry. apply close_last_same.
      unfold HandleError. intros v' (? & _ & [= <-])%bind_ok. exact Hc.
  - symmetry. apply close_last_same. intros v' Hr. by eapply closed_same, status_HandleWrite.
  - by apply HandleClose_last.
  - symmetry. apply close_last_same. unfold HandleError. by intros v' (? & _ & [= <-])%bind_ok.
Qed.

Lemma HandleClose_closes cur v v' : HandleClose this_loop cur Ok v = Ok v' -> closed v' = true.
Proof.
  intros Hr. apply status_HandleClose in Hr; [unfold closed; by rewrite Hr|]. unfold advances. by intros ? ? [= <-].
Qed.

(** What closed stays closed. *)
Lemma call_channel_stays (react : trigger (task G) -> cworld -> list user_op) cur k v v' :
  call_channel junk this_loop cur (application junk this_loop react TMessage) Ok k v = Ok v' ->
  closed v = true -> closed v' = true.
Proof.
  intros Hr Hc. destruct k; simpl in Hr.
  - unfold HandleRead in Hr. apply bind_ok in Hr as (? & _ & Hr). apply bind_ok in Hr as (c & _ & Hr).
    apply bind_ok in Hr as ([[n e] b] & _ & Hr). apply bind_ok in Hr as (wr & _ & Hr).
    destruct (n >? 0); [by rewrite (closed_application _ _ _ _ _ _ Hr)|].
    destruct (n =? 0); [by eapply HandleClose_closes|].
    unfold HandleError in Hr. by apply bind_ok in Hr as (? & _ & [= <-]).
  - apply status_HandleWrite in Hr. by rewrite (closed_same _ _ Hr).
  - by eapply HandleClose_closes.
  - unfold HandleError in Hr. by apply bind_ok in Hr as (? & _ & [= <-]).
Qed.
End Close.

(** ** Joining and leaving the loop's invariant *)

(** accept(2) yields a new socket, which has sent nothing and supports epoll (epoll(7));
    fcntl(2) of a flag, and the closing of a descriptor that is in no interest list,
    leave epoll and the other sockets alone. *)
Class ServerKernelLaws (K : Type) `{EpollKernel K, SocketKernel K, NetKernel K} := {
  accept_interest fd k : interest (accept fd k).2 = interest k;
  accept_frame fd k g : g <> (accept fd k).1.1 ->
    tx (accept fd k).2 g = tx k g /\ wr_shut (accept fd k).2 g = wr_shut k g;
  accept_new fd k : 0 <= (accept fd k).1.1 ->
    tx (accept fd k).2 (accept fd k).1.1 = [] /\ wr_shut (accept fd k).2 (accept fd k).1.1 = false /\
    pollable (accept fd k).2 (accept fd k).1.1;
  fcntl_interest fd cmd arg k : interest (fcntl fd cmd arg k).2 = interest k;
  fcntl_tx fd cmd arg k : tx (fcntl fd cmd arg k).2 = tx k;
  fcntl_shut fd cmd arg k : wr_shut (fcntl fd cmd arg k).2 = wr_shut k;
  fcntl_pollable fd cmd arg k g : pollable k g -> pollable (fcntl fd cmd arg k).2 g;
  close_interest fd k : interest k !! fd = None -> interest (close fd k).2 = interest k;
  close_frame fd k g : g <> fd -> tx (close fd k).2 g = tx k g /\ wr_shut (close fd k).2 g = wr_shut k g
}.

Section Members.
Context {G A V K : Type} `{EpollLaws K, EventfdKernel K, SocketKernel K, !SocketLaws K, !SocketFrame K, !LoopKernelLaws K}.
Abbreviation cb := (loop_cb (ptr * conn_cb)).
Abbreviation conn_user := (cuser A (list bytes * V)).
Abbreviation cworld := (lworld (functor (task G)) cb conn_user K).
Abbreviation mworld := (lworld (ptr * functor (task G)) cb (gmap ptr conn_user) K).
Implicit Types (v : cworld) (w : mworld) (t : ptr) (u : conn_user) (c : Channel cb).
Abbreviation any := (fun _ : functor (task G) => True).

Lemma back_back t u v1 v2 w :
  queues any (view t u w) v1 -> queues any v1 v2 -> back t v2 (back t v1 w) = back t v2 w.
Proof.
  intros (l1 & Hl1 & _) (l2 & Hl2 & _). unfold back at 1 3.
  rewrite (back_pending t u v1 w l1 Hl1). f_equal; [|simpl; by rewrite insert_insert_eq].
  change (pending_functors_ (view t u w)) with (mine t (pending_functors_ w)) in Hl1.
  rewrite mine_app, mine_tag, <- Hl1, Hl2, drop_app_length, Hl1, <- !app_assoc, drop_app_length.
  by rewrite fmap_app.
Qed.

(** Two steps of a connection in a row. *)
Lemma on_conn_bind t f g w u v1 v2 :
  user w !! t = Some u -> f (view t u w) = Ok v1 -> g v1 = Ok v2 ->
  queues any (view t u w) v1 -> queues any v1 v2 ->
  on_conn t f w = Ok (back t v1 w) /\ on_conn t g (back t v1 w) = Ok (back t v2 w).
Proof.
  intros Hu Hf Hg Hq1 Hq2. unfold on_conn. rewrite Hu. cbn [deref mbind result_bind]. rewrite Hf. split; [done|].
  change (user (back t v1 w)) with (<[t := user v1]> (user w)). rewrite lookup_insert_eq.
  cbn [deref mbind result_bind]. rewrite (view_back t u v1 w any Hq1), Hg. cbn [mbind result_bind].
  by rewrite (back_back t u).
Qed.

(** The server's close callback, as far as the loop goes. *)
Definition queue_destroy (t : ptr) v : result cworld := Ok (QueueInLoop (tid_ v) (FOther Destroy) v).

Lemma queue_destroy_closes t : closes true (queue_destroy t).
Proof.
  intros v. destruct (post_spec (A := A) (tid_ v) true (FOther Destroy) v) as [Hq Hp].
  eexists _, [Destroy]. split; [done|]. split; [exact Hq|]. split; [exact Hp|]. by split.
Qed.

(** Running a member with it is running the member and then, if it closed, queueing. *)
Lemma member_queues junk this_loop (react : trigger (task G) -> cworld -> list user_op) t k w u w' :
  let call cl := call_channel junk this_loop (tid_ w) (application junk this_loop react TMessage) cl k in
  user w !! t = Some u -> on_conn t (call (queue_destroy t)) w = Ok w' ->
  exists v1, call Ok (view t u w) = Ok v1 /\ on_conn t (call Ok) w = Ok (back t v1 w) /\
    w' = if closing (view t u w) v1 then QueueInLoop (tid_ w) (t, FOther Destroy) (back t v1 w) else back t v1 w.
Proof.
  intros call Hu Hr. apply on_conn_ok in Hr as (u' & v & Hu' & Hv & ->). rewrite Hu in Hu'. injection Hu' as <-.
  unfold call in Hv. rewrite call_channel_close in Hv. unfold close_last in Hv.
  apply bind_ok in Hv as (v1 & Hv1 & Hv). exists v1. split; [exact Hv1|].
  assert (local any (view t u w) v1) as ([Htid _] & _ & _ & Hq).
  { eapply (local_channel junk this_loop react Ok); [|exact Hv1]. intros x. exists x, [].
    split; [done|]. split; [apply quiet_refl|]. by rewrite app_nil_r. }
  destruct (closing _ _).
  - unfold queue_destroy in Hv. destruct (post_spec (A := A) (tid_ v1) true (FOther Destroy) v1) as [_ Hp].
    destruct (on_conn_bind t (call Ok) (queue_destroy t) w u v1 v Hu Hv1 Hv Hq) as [H1' H2'].
    { injection Hv as <-. eexists. split; [exact Hp|by apply Forall_true]. }
    split; [exact H1'|]. unfold queue_destroy in H2'.
    assert (user (back t v1 w) !! t = Some (user v1)) as Hu1 by apply lookup_insert_eq.
    unfold on_conn in H2'. rewrite Hu1 in H2'. cbn [deref mbind result_bind] in H2'.
    pose proof (queue_on_conn (tid_ v1) t (FOther Destroy) (user v1) (back t v1 w) Hu1) as Hqc.
    unfold on_conn in Hqc. rewrite Hu1 in Hqc. cbn [deref mbind result_bind] in Hqc.
    change (tid_ (view t (user v1) (back t v1 w))) with (tid_ v1) in H2'. rewrite Hqc in H2'.
    injection H2' as <-. simpl in Htid. by rewrite Htid.
  - injection Hv as <-. split; [|done]. unfold on_conn. rewrite Hu. cbn [deref mbind result_bind].
    unfold call. by rewrite Hv1.
Qed.
End Members.

Section Join.
Context {G A V K : Type} `{EpollLaws K, EventfdKernel K, SocketKernel K, !SocketLaws K, !SocketFrame K, !LoopKernelLaws K}.
Abbreviation cb := (loop_cb (ptr * conn_cb)).
Abbreviation conn_user := (cuser A (list bytes * V)).
Abbreviation cworld := (lworld (functor (task G)) cb conn_user K).
Abbreviation mworld := (lworld (ptr * functor (task G)) cb (gmap ptr conn_user) K).
Implicit Types (v : cworld) (w : mworld) (t p : ptr) (u : conn_user) (c : Channel cb) (S : gmap ptr base).
Context (this_loop : ptr) (own : cb -> Prop) (prompt : bool).
Abbreviation any := (fun _ : functor (task G) => True).
Abbreviation loop_inv := (loop_inv this_loop own).
Abbreviation conn_ok := (conn_ok this_loop).

(** A new object, at [t], and its channel, at [p]. *)
Definition enter t p c u w : mworld :=
  set_user (<[t := u]> (user w)) (set_io (EPoller.set_channel p c (io w)) w).

Lemma no_mine t (l : list (ptr * functor (task G))) : (forall x, x ∈ l -> x.1 <> t) -> mine t l = [].
Proof.
  induction l as [|[t' f] l IH]; intros Hl; [done|]. rewrite mine_cons_ne by (by apply (Hl (t', f)); left).
  apply IH. intros x Hx. apply Hl. by right.
Qed.

Lemma strange_mine S ahead w t : loop_inv S prompt ahead w -> S !! t = None -> mine t (ahead ++ pending_functors_ w) = [].
Proof.
  intros Hi Ht. apply no_mine. intros x Hx He. destruct (li_queue _ _ _ _ _ _ Hi x Hx) as [b Hb]. congruence.
Qed.

(** Nothing changes for those already there. *)
Lemma enter_others S ahead w t p c u t2 b2 :
  loop_inv S prompt ahead w -> S !! t = None -> channels (io w) !! p = None -> index_ c = kNew ->
  S !! t2 = Some b2 -> t2 <> t /\ b_channel b2 <> p /\ conn_ok prompt ahead (enter t p c u w) t2 b2.
Proof.
  intros Hi Ht Hp Hn Hb2. assert (t2 <> t) as Hne by congruence. split; [done|].
  destruct (li_conns _ _ _ _ _ _ Hi t2 b2 Hb2) as (u2 & c2 & Hu2 & Hcu2 & Hs & Hbd).
  destruct (conn_at_parts _ _ _ _ _ _ _ Hs) as (_ & Hc2 & _). unfold the_conn in Hc2. simpl in Hc2.
  rewrite Hcu2 in Hc2. assert (b_channel b2 <> p) as Hch by congruence. split; [done|].
  exists u2, c2. split; [simpl; by rewrite lookup_insert_ne|]. split; [done|]. split; [|done].
  eapply conn_at_io with (v := view t2 u2 w) (c := c2); try done.
  - apply inv_new_channel; [apply Hi| |done]. intros c0. simpl. rewrite Hp. by intros [=].
  - unfold the_conn. simpl. by rewrite Hcu2, lookup_insert_ne.
Qed.

Lemma bases_insert S t p fd x :
  bases_ok S -> S !! t = None -> p <> 0 -> (forall t2 b2, S !! t2 = Some b2 -> b_fd b2 <> fd) ->
  bases_ok (<[t := mkBase p fd x]> S).
Proof.
  intros [Hc Hf] Ht Hp Hfd. split.
  - intros t1 b1 [[_ <-]|[_ Hb]]%lookup_insert_Some; [done|by eapply Hc].
  - intros t1 t2 b1 b2 [[<- <-]|[_ Hb1]]%lookup_insert_Some [[<- <-]|[_ Hb2]]%lookup_insert_Some He; [done| | |by eapply Hf].
    + by destruct (Hfd t2 b2 Hb2).
    + by destruct (Hfd t1 b1 Hb1).
Qed.

(** A connection joins with its first step. *)
Lemma grow_inv S ahead w t p c u v c' x :
  bases_ok S -> loop_inv S prompt ahead w -> S !! t = None -> p <> 0 -> channels (io w) !! p = None ->
  channel_ (conn u) = p -> index_ c = kNew -> bound_to t c ->
  (forall t2 b2, S !! t2 = Some b2 -> b_fd b2 <> fd_ c) ->
  local any (view t u (enter t p c u w)) v -> conn_at this_loop prompt (fd_ c) x [] v c' ->
  bases_ok (<[t := mkBase p (fd_ c) x]> S) /\
  loop_inv (<[t := mkBase p (fd_ c) x]> S) prompt ahead (back t v (enter t p c u w)).
Proof.
  intros HS Hi Ht Hp0 Hp Hcu Hn Hbd Hfd Hl Hs. split; [by apply bases_insert|]. set (w0 := enter t p c u w) in *.
  destruct (conn_at_parts _ _ _ _ _ _ _ Hs) as (Hiv & Hch' & _).
  pose proof Hl as (_ & Hcv%ident_channel & _ & Hq). pose proof (local_cores t u v w0 Hl) as Hcores.
  assert (channels (io w0) !! p = Some c) as Hc0 by apply lookup_insert_eq.
  assert (bound_to t c') as Hbd'.
  { unfold the_conn in Hch', Hcv. rewrite Hcv in Hch'. simpl in Hch'. rewrite Hcu in Hch'.
    destruct (cores_lookup w0 (back t v w0) p c' Hcores Hch') as (c0 & Hx & He).
    rewrite Hc0 in Hx. injection Hx as <-. by apply (core_fns own c c'). }
  assert (mine t ahead = []) as Hm.
  { pose proof (strange_mine S ahead w t Hi Ht) as Hm. rewrite mine_app in Hm. by apply app_eq_nil in Hm as [? _]. }
  split.
  - exact Hiv.
  - intros t2 b2 [[<- <-]|[Hne Hb2]]%lookup_insert_Some.
    + exists (user v), c'. change (user (back t v w0)) with (<[t := user v]> (user w0)).
      rewrite lookup_insert_eq, (view_back t u v w0 _ Hq), Hm. split; [done|]. split; [|by split].
      unfold the_conn in Hcv. rewrite Hcv. exact Hcu.
    + destruct (enter_others S ahead w t p c u t2 b2 Hi Ht Hp Hn Hb2) as (Hne2 & Hch & Hok).
      eapply other_conn_ok; [exact Hok|exact Hl|done|by rewrite Hcu| |done|done].
      rewrite Hcu. unfold fd_at. rewrite Hc0. simpl. intros [= He]. by apply (Hfd t2 b2).
  - intros q c2 Hq2. destruct (cores_lookup w0 (back t v w0) q c2 Hcores Hq2) as (c0 & Hx & He).
    destruct (core_fns own c0 c2 He) as (Hb & Ho & _). simpl in Hx.
    destruct (decide (q = p)) as [->|Hqp].
    + rewrite lookup_insert_eq in Hx. injection Hx as <-. right. exists t, (mkBase p (fd_ c) x).
      rewrite lookup_insert_eq. split_and!; [done..|by apply Hb].
    + rewrite lookup_insert_ne in Hx by done.
      destruct (li_known _ _ _ _ _ _ Hi q c0 Hx) as [?|(t2 & b2 & Hb2 & ? & ?)]; [left; by apply Ho|right].
      exists t2, b2. rewrite lookup_insert_ne by congruence. split_and!; [done..|by apply Hb].
  - destruct Hq as (l & Hl2 & _). rewrite (back_pending t u v w0 l Hl2). intros y.
    rewrite app_assoc, elem_of_app. intros [Hy|(f0 & -> & _)%list_elem_of_fmap].
    + apply (li_queue _ _ _ _ _ _ Hi) in Hy. by apply lookup_insert_is_Some'; right.
    + simpl. rewrite lookup_insert_eq. by eexists.
  - intros t2. change (user (back t v w0)) with (<[t := user v]> (<[t := u]> (user w))).
    rewrite insert_insert_eq. intros [<-|[Hne Hx]]%lookup_insert_is_Some.
    + rewrite lookup_insert_eq. by eexists.
    + rewrite lookup_insert_ne by done. by apply (li_objects _ _ _ _ _ _ Hi).
Qed.
End Join.

(** ** A new connection *)

Section Establish.
Context {G Cb A V K : Type} `{EpollLaws K, EventfdKernel K, SocketKernel K, !SocketLaws K, !SocketFrame K}.
Abbreviation cworld := (lworld (functor (task G)) Cb (cuser A (list bytes * V)) K).
Implicit Types (v : cworld).
Context (junk : nat -> byte) (this_loop : ptr) (prompt : bool).

(** [OnConnectEstablished] of a new object makes it live, whatever the application
    does in its connection callback. *)
Lemma established_live (react : trigger (task G) -> cworld -> list user_op) D bind name fd (local peer : A) p b t0 c0 v :
  react_ok react D -> D <= 2 ^ 60 ->
  TcpConnection_new junk bind this_loop name fd local peer p = Ok (t0, c0) ->
  the_conn v = SetWriteCompleteCallback b t0 -> offered v = [] -> pending_functors_ v = [] ->
  channels (io v) !! p = Some c0 -> inv_but None (io v) -> owner_tid (poller (io v)) = tid_ v ->
  channel_map_ (poller (io v)) !! fd = None -> pollable (kernel (io v)) fd ->
  sent v fd = [] -> shut v fd = false ->
  exists v' c', OnConnectEstablished this_loop (tid_ v) (application junk this_loop react TConnection) v = Ok v' /\
    live this_loop prompt fd [] [] v' c' /\ closed v' = false.
Proof.
  intros Hreact HD Hnew Hconn Hoff Hpend Hc Hi Ho Hmap Hpoll Hsent Hshut.
  destruct (OnConnectEstablished_inv junk this_loop (tid_ v) (application junk this_loop react TConnection) v bind
    name fd local peer p b t0 c0) as (i & c1 & Hr & Hi1 & Hfd & Hin & Hout & _ & [Htx Hsh] & Hcap & Hri & Hro); try done.
  set (v1 := set_io i (SetStatus kConnected v)) in *.
  assert (fresh this_loop v1 c1) as Hf.
  { split_and!; try done. rewrite Hfd. unfold shut. simpl. by rewrite Hsh. }
  pose proof (fresh_inv this_loop v1 c1 Hf) as Hs.
  assert (sent v1 (fd_ c1) = []) as Hse by (rewrite Hfd; unfold sent; simpl; by rewrite Htx).
  rewrite Hse, Hfd in Hs.
  destruct (stream_application junk this_loop react fd [] D [] Hreact TConnection v1 c1 Hs)
    as (v' & c' & Hr' & Hs').
  { apply (bounded_room this_loop fd [] D [] v1 c1 Hs). unfold bounded, len. cbv zeta. unfold output in Hout.
    rewrite Hout, Hcap, Hri, Hro. unfold kCheapPrependSize, kInitialSize. simpl. lia. }
  exists v', c'. rewrite Hr. split; [exact Hr'|].
  assert (closed v' = false) as Hcl by by rewrite (closed_application _ _ _ _ _ _ Hr').
  split; [|done]. split; [done|]. rewrite Hcl.
  apply (local_application junk this_loop calm calm_own) in Hr' as (_ & _ & _ & l & Hl & Hca).
  unfold awaiting. rewrite Hl. change (pending_functors_ v1) with (pending_functors_ v). rewrite Hpend.
  simpl. by rewrite destroys_calm.
Qed.
End Establish.

(** The constructor. *)
Lemma TcpConnection_new_spec {Cb A} junk (bind : conn_cb -> Cb) loop name fd (local peer : A) p :
  exists t c, TcpConnection_new junk bind loop name fd local peer p = Ok (t, c) /\
    ident t = (loop, name, p) /\ fd_ c = fd /\ index_ c = kNew /\ event_handling_ c = false /\
    read_fn_ c = Some (bind OnRead) /\ write_fn_ c = Some (bind OnWrite) /\
    close_fn_ c = Some (bind OnClose) /\ error_fn_ c = Some (bind OnError).
Proof.
  unfold TcpConnection_new.
  destruct (Buffer_new_spec junk kInitialSize kCheapPrependSize) as (b & -> & _);
    [unfold kInitialSize; lia|unfold kCheapPrependSize; lia|unfold kInitialSize, kCheapPrependSize; lia|].
  cbn [mbind result_bind]. by eexists _, _.
Qed.

(** Making the accepted descriptor non-blocking leaves the rest alone. *)
Lemma SetNonBlock_keeps {K} `{ServerKernelLaws K} fd (k : K) :
  let k' := SetNonBlockAndCloseOnExec fd k in
  interest k' = interest k /\ tx k' = tx k /\ wr_shut k' = wr_shut k /\
  forall g, pollable k g -> pollable k' g.
Proof.
  unfold SetNonBlockAndCloseOnExec.
  assert (forall cmd arg x, let k' := (fcntl fd cmd arg x).2 in interest k' = interest x /\ tx k' = tx x /\
    wr_shut k' = wr_shut x /\ forall g, pollable x g -> pollable k' g) as Hf.
  { intros cmd arg x. split_and!; [apply fcntl_interest|apply fcntl_tx|apply fcntl_shut|apply fcntl_pollable]. }
  destruct (fcntl fd F_GETFL 0 k) as [f1 k1] eqn:E1. pose proof (Hf F_GETFL 0 k) as Ha. rewrite E1 in Ha.
  destruct (fcntl fd F_SETFL _ k1) as [f2 k2] eqn:E2. pose proof (Hf F_SETFL (Z.lor f1 O_NONBLOCK) k1) as Hb. rewrite E2 in Hb.
  destruct (fcntl fd F_GETFD 0 k2) as [f3 k3] eqn:E3. pose proof (Hf F_GETFD 0 k2) as Hc. rewrite E3 in Hc.
  pose proof (Hf F_SETFD (Z.lor f3 FD_CLOEXEC) k3) as Hd.
  destruct (fcntl fd F_SETFD _ k3) as [f4 k4]. simpl in *.
  destruct Ha as (? & ? & ? & ?), Hb as (? & ? & ? & ?), Hc as (? & ? & ? & ?), Hd as (? & ? & ? & ?).
  split_and!; [congruence..|auto].
Qed.

(** ** A deleted connection *)

Section Leave.
Context {G V K : Type} `{EpollLaws K, EventfdKernel K, SocketKernel K, !SocketLaws K, !SocketFrame K, !LoopKernelLaws K,
  NetKernel K, !ServerKernelLaws K}.
Abbreviation cb := (loop_cb (ptr * conn_cb)).
Abbreviation conn_user := (cuser sockaddr (list bytes * V)).
Abbreviation cworld := (lworld (functor (task G)) cb conn_user K).
Abbreviation mworld := (lworld (ptr * functor (task G)) cb (gmap ptr conn_user) K).
Implicit Types (v : cworld) (w : mworld) (t p : ptr) (u : conn_user) (c : Channel cb) (S : gmap ptr base).
Context (this_loop : ptr) (own : cb -> Prop).
Abbreviation loop_inv := (loop_inv this_loop own).

(** The loop without the object at [t], its channel at [p] and its socket [fd]. *)
Definition leave t p fd w : mworld :=
  set_user (delete t (user w))
    (set_io (mkWorld (poller (io w)) (delete p (channels (io w))) (close fd (kernel (io w))).2) w).

Lemma inv_delete_channel p c (i : EPoller.world cb K) k :
  inv_but None i -> channels i !! p = Some c -> index_ c = kNew -> interest k = interest (kernel i) ->
  inv_but None (mkWorld (poller i) (delete p (channels i)) k).
Proof.
  intros [Hm Hk Hx Hs] Hc Hn He. split; simpl; rewrite ?He; try done.
  - intros fd q Hq. destruct (Hm fd q Hq) as (cq & ev & Hcq & Hfd & Hidx & Hrest).
    exists cq, ev. rewrite lookup_delete_ne; [done|]. intros <-. rewrite Hc in Hcq. injection Hcq as <-.
    by rewrite Hn in Hidx.
  - intros q cq [_ Hq]%lookup_delete_Some. by apply Hx.
Qed.

(** Once a connection closed and no functor is for it, it is gone. *)
Lemma idle_gone ahead v c fd x :
  conn_at this_loop true fd x ahead v c -> closed v = true -> awaiting ahead v = [] -> gone this_loop fd x ahead v c.
Proof.
  intros [[_ [_ Hn]]|Hg] Hc Ha; [|done]. rewrite Ha in Hn. by specialize (Hn eq_refl Hc).
Qed.

(** [delete] closes the descriptor and takes object and channel away. *)
Lemma delete_spec v c fd x :
  gone this_loop fd x [] v c -> event_handling_ c = false ->
  TcpConnection_delete v =
    Ok (set_io (mkWorld (poller (io v)) (delete (channel_ (the_conn v)) (channels (io v)))
                 (close fd (kernel (io v))).2) v).
Proof.
  intros Hg Hh. pose proof (go_status _ _ _ _ _ _ Hg) as Hst. unfold conn_status in Hst.
  pose proof (go_channel _ _ _ _ _ _ Hg) as Hc. pose proof (go_shape _ _ _ _ _ _ Hg) as [= Hf _ _].
  unfold TcpConnection_delete, TcpConnection_dtor, socket_, the_channel, destroy_channel, get_channel, channel_at.
  rewrite Hst, Hc. cbn [mbind result_bind deref]. simpl.
  unfold Channel_dtor. rewrite Hh, (go_removed _ _ _ _ _ _ Hg). cbn [mbind result_bind]. simpl. by rewrite Hf.
Qed.

Lemma shrink_inv S t b u w :
  bases_ok S -> loop_inv S true [] w -> S !! t = Some b -> user w !! t = Some u ->
  closed (view t u w) = true -> mine t (pending_functors_ w) = [] ->
  (forall p c, channels (io w) !! p = Some c -> event_handling_ c = false) ->
  exists w1, on_conn t TcpConnection_delete w = Ok w1 /\
    set_user (delete t (user w1)) w1 = leave t (b_channel b) (b_fd b) w /\
    bases_ok (delete t S) /\ loop_inv (delete t S) true [] (leave t (b_channel b) (b_fd b) w).
Proof.
  intros HS Hi Hb Hu Hcl Hm Hh. destruct (li_conns _ _ _ _ _ _ Hi t b Hb) as (u' & c & Hu' & Hcu & Hs & Hbd).
  rewrite Hu in Hu'. injection Hu' as <-. apply idle_gone in Hs; [|done|exact Hm].
  pose proof (go_channel _ _ _ _ _ _ Hs) as Hc. unfold the_conn in Hc. simpl in Hc. rewrite Hcu in Hc.
  pose proof (go_shape _ _ _ _ _ _ Hs) as [= Hf Hn _].
  pose proof (close_interest (b_fd b) (kernel (io w)) (go_unwatched _ _ _ _ _ _ Hs)) as Hint.
  assert (inv_but None (io (leave t (b_channel b) (b_fd b) w))) as Hiv
    by (eapply inv_delete_channel; [apply Hi|exact Hc|exact Hn|exact Hint]).
  eexists. split; [|split; [|split]].
  - unfold on_conn. rewrite Hu. cbn [deref mbind result_bind].
    rewrite (delete_spec _ c (b_fd b) (b_sent b) Hs) by by eapply Hh. cbn [mbind result_bind].
    unfold the_conn. simpl. by rewrite Hcu.
  - unfold leave, back, set_io, set_user. simpl. by rewrite drop_all, app_nil_r, delete_insert_eq.
  - destruct HS as [H1' H2']. split.
    + intros t1 b1 [_ Hb1]%lookup_delete_Some. by eapply H1'.
    + intros t1 t2 b1 b2 [_ Hb1]%lookup_delete_Some [_ Hb2]%lookup_delete_Some. by eapply H2'.
  - split.
    + exact Hiv.
    + intros t2 b2 [Hne Hb2]%lookup_delete_Some.
      destruct (apart this_loop own S true HS [] w t t2 b b2 Hi Hb Hb2 ltac:(done)) as [Hch Hfd].
      destruct (li_conns _ _ _ _ _ _ Hi t2 b2 Hb2) as (u2 & c2 & Hu2 & Hcu2 & Hs2 & Hbd2).
      destruct (conn_at_parts _ _ _ _ _ _ _ Hs2) as (_ & Hc2 & _). unfold the_conn in Hc2. simpl in Hc2.
      rewrite Hcu2 in Hc2.
      assert (b_fd b2 <> b_fd b) as Hfne by (intros He; apply Hfd; unfold fd_at; rewrite Hc; simpl; by rewrite Hf, He).
      destruct (close_frame (b_fd b) (kernel (io w)) (b_fd b2) Hfne) as [Htx Hsh].
      exists u2, c2. split; [simpl; by rewrite lookup_delete_ne|]. split; [done|]. split; [|done].
      eapply conn_at_io with (v := view t2 u2 w) (c := c2); try done.
      * unfold the_conn. simpl. by rewrite Hcu2, lookup_delete_ne.
      * simpl. by rewrite Hint.
    + intros q c2. simpl. intros [Hne Hq]%lookup_delete_Some.
      destruct (li_known _ _ _ _ _ _ Hi q c2 Hq) as [?|(t2 & b2 & Hb2 & ? & ?)]; [by left|right].
      exists t2, b2. rewrite lookup_delete_ne; [done|]. intros <-. congruence.
    + intros y Hy. destruct (li_queue _ _ _ _ _ _ Hi y Hy) as [b2 Hb2]. exists b2.
      rewrite lookup_delete_ne; [done|]. intros He. simpl in Hy. destruct y as [t' f]. simpl in *. subst t'.
      assert (f ∈ mine t (pending_functors_ w)) as Hin.
      { unfold mine. apply list_elem_of_fmap. exists (t, f). split; [done|]. by apply list_elem_of_filter. }
      rewrite Hm in Hin. by apply elem_of_nil in Hin.
    + intros t2 [u2 Hu2]. simpl in Hu2. apply lookup_delete_Some in Hu2 as [Hne Hu2]. rewrite lookup_delete_ne by done.
      apply (li_objects _ _ _ _ _ _ Hi). by exists u2.
Qed.
End Leave.

(** ** What steps keep of the connections and the loop *)

Section Labels.
Context {G A V K : Type} `{EpollLaws K, EventfdKernel K, SocketKernel K, !SocketLaws K, !SocketFrame K, !LoopKernelLaws K}.
Abbreviation cb := (loop_cb (ptr * conn_cb)).
Abbreviation conn_user := (cuser A (list bytes * V)).
Abbreviation cworld := (lworld (functor (task G)) cb conn_user K).
Abbreviation mworld := (lworld (ptr * functor (task G)) cb (gmap ptr conn_user) K).
Implicit Types (v : cworld) (w : mworld) (t p : ptr) (u : conn_user) (c : Channel cb).
Abbreviation any := (fun _ : functor (task G) => True).

(** What the server relies on: which loop, name and channel, and whether it closed. *)
Definition label u : (ptr * string * ptr) * bool := (ident (conn u), IsDisconnected (conn u)).
Definition same_labels w w' : Prop := forall t, label <$> user w' !! t = label <$> user w !! t.

Record same_loop w w' : Prop := {
  sl_tid : tid_ w' = tid_ w;
  sl_owner : owner_tid (poller (io w')) = owner_tid (poller (io w));
  sl_handling q : event_handling_ <$> channels (io w') !! q = event_handling_ <$> channels (io w) !! q;
  sl_others q : (forall t u, user w !! t = Some u -> channel_ (conn u) <> q) ->
    marks <$> channels (io w') !! q = marks <$> channels (io w) !! q;
  sl_read q : read_fn_ <$> channels (io w') !! q = read_fn_ <$> channels (io w) !! q
}.

Lemma same_loop_channels w w' : tid_ w' = tid_ w -> poller (io w') = poller (io w) ->
  channels (io w') = channels (io w) -> same_loop w w'.
Proof. intros Ht Hp Hc. split; [done|by rewrite Hp|by rewrite Hc..]. Qed.

Lemma on_conn_same t f w w' :
  (forall v v', f v = Ok v' -> local any v v') -> on_conn t f w = Ok w' ->
  same_loop w w' /\ exists u v, user w !! t = Some u /\ f (view t u w) = Ok v /\ user w' = <[t := user v]> (user w) /\
    ident (conn (user v)) = ident (conn u).
Proof.
  intros Hl (u & v & Hu & Hv & ->)%on_conn_ok. pose proof (Hl _ _ Hv) as Hlv.
  pose proof (local_cores t u v w Hlv) as Hc. destruct Hlv as ([Ht _] & Hid & [_ Hch Ho _] & _). split; [|by exists u, v].
  assert (forall {X} (g : Channel cb -> X), (forall c c', core c' = core c -> g c' = g c) ->
    forall q, g <$> channels (io (back t v w)) !! q = g <$> channels (io w) !! q) as Hcore.
  { intros X g Hg q. specialize (Hc q). unfold core_at in Hc.
    destruct (channels (io (back t v w)) !! q) as [c'|], (channels (io w) !! q) as [c|]; try done.
    simpl in Hc |- *. apply (inj Some) in Hc. f_equal. by apply Hg. }
  split; [done|done| | |].
  - apply Hcore. intros [] [] [=]. simpl. congruence.
  - intros q Hq. specialize (Hq t u Hu). f_equal. apply Hch. intros ->. by apply Hq.
  - apply Hcore. intros [] [] [=]. simpl. congruence.
Qed.

(** Steps that do not close. *)
Lemma labels_insert t u u' w w' :
  user w !! t = Some u -> user w' = <[t := u']> (user w) -> label u' = label u -> same_labels w w'.
Proof.
  intros Hu He Hl t2. rewrite He. destruct (decide (t2 = t)) as [->|]; [|by rewrite lookup_insert_ne].
  rewrite lookup_insert_eq, Hu. simpl. by rewrite Hl.
Qed.

Lemma exec_same junk this_loop own S prompt react conn_cb_ close_cb_ timer D ahead (x : ptr * functor (task G)) w w' :
  apps_ok prompt react conn_cb_ close_cb_ timer D -> loop_inv this_loop own S prompt (x :: ahead) w ->
  call_functor junk this_loop react conn_cb_ x w = Ok w' -> same_loop w w' /\ same_labels w w'.
Proof.
  intros Hok Hi Hr. destruct x as [t f]. rewrite exec_body in Hr. destruct (li_queue _ _ _ _ _ _ Hi (t, f)) as [b Hb]; [set_solver|].
  apply on_conn_same in Hr as [Hs (u & v & Hu & Hv & He & Hid)].
  2:{ intros y y' Hy. by eapply local_mono, (local_body junk this_loop). }
  split; [done|]. eapply labels_insert; [exact Hu|exact He|]. unfold label. rewrite Hid. f_equal.
  change (closed v = closed (view t u w)). unfold functor_body in Hv. destruct (is_destroy f) eqn:Ef.
  - destruct f as [| | | | |[|]]; try done. destruct (li_conns _ _ _ _ _ _ Hi t b Hb) as (u' & c & Hu' & _ & Hc & _).
    rewrite Hu in Hu'. injection Hu' as <-. rewrite mine_cons in Hc. apply destroy_pending in Hc as [Hcl _].
    rewrite Hcl. unfold closed in Hcl. apply bool_decide_eq_true in Hcl.
    unfold OnConnectDestroyed in Hv. apply bind_ok in Hv as (? & _ & Hv). apply bind_ok in Hv as (v1 & Hv1 & Hv).
    unfold conn_status in Hcl. rewrite Hcl in Hv1. injection Hv1 as <-. apply status_on_io in Hv.
    unfold closed. rewrite Hv. unfold conn_status. by rewrite Hcl.
  - by eapply closed_functor.
Qed.

Lemma act_same (a : act G K) w w' :
  run_act a w = Ok w' -> same_loop w w' /\ same_labels w w'.
Proof.
  destruct a as [by_ t g|by_ t|f]; simpl; intros Hr.
  - injection Hr as <-. unfold QueueInLoop, Wakeup. simpl. destruct (must_wake _ _); [destruct (efd_write _ _)|]; by split.
  - apply on_conn_same in Hr as [Hs (u & v & Hu & Hv & He & Hid)]; [|intros y y'; by apply local_Shutdown].
    split; [done|]. eapply labels_insert; [exact Hu|exact He|]. unfold label. rewrite Hid. f_equal.
    change (closed v = closed (view t u w)). by eapply closed_Shutdown.
  - injection Hr as <-. by split.
Qed.

Lemma aside_same w w' : aside w w' -> same_loop w w' /\ same_labels w w'.
Proof. intros (Hu & [Ht _] & Hp & Hc & _). split; [by apply same_loop_channels|]. intros t. by rewrite Hu. Qed.
End Labels.
