(* ===== verification/ServerLoopProps.v ===== *)
(** * A server and its connections, turn after turn

    The invariant of the server in its loop (ServerLoop.v): its map lists the
    connections that are open, each of them as LoopServes.v has it; that accepting,
    serving, closing and deleting keep it; and what follows for a running server. *)

From S2P Require Import SocketOps Acceptor ThreadPool TcpServer TcpServerProps TcpSocket.
From S2P Require Import Prelude Bytes Slice Buffer BufferFacts BufferSpec BufferIO LoopThread Duration.
From S2P Require Import Timestamp Channel EPoller EPollerFacts EventFd ServerStatus LoopChannels.
From S2P Require Import EventLoop EventLoopProps LoopTimers SocketKernel TcpConnection TcpConnFacts TcpSend.
From S2P Require Import TcpConnProps TcpConnLife TcpStream TcpFrame ConnPhases LoopConns LoopServes ServerLoop.
From S2P Require Import ServerLoopInv.
#[local] Open Scope Z_scope.

Section Server.
Context {G V K : Type} `{EpollLaws K, EventfdKernel K, SocketKernel K, !SocketLaws K, !SocketFrame K, !LoopKernelLaws K,
  NetKernel K, !NetLaws K, !ServerKernelLaws K}.
Abbreviation cb := (loop_cb (ptr * conn_cb)).
Abbreviation conn_user := (cuser sockaddr (list bytes * V)).
Abbreviation cworld := (lworld (functor (task G)) cb conn_user K).
Abbreviation mworld := (lworld (ptr * functor (task G)) cb (gmap ptr conn_user) K).
Abbreviation sworld := (lworld (ptr * functor (task G)) cb (suser V) K).
Abbreviation any := (fun _ : functor (task G) => True).
Implicit Types (v : cworld) (w : sworld) (m : mworld) (t p : ptr) (u : conn_user) (c : Channel cb) (S : gmap ptr base).

Context (junk : nat -> byte) (this_loop acc : ptr).

(** The callbacks of channels that are not a connection's. *)
Definition server_own (k : cb) : Prop := loop_own k \/ k = OnChannel (acc, OnRead).

Definition srv w : TcpServer := the_server (user w).
Definition objs w : gmap ptr conn_user := objects (user w).

(** The server itself: running, without threads of its own, in this loop. *)
Record server_at w : Prop := {
  sa_tid : base_tid (thread_pool_ (srv w)) = tid_ w;
  sa_base : base_loop_ (thread_pool_ (srv w)) = this_loop;
  sa_running : ThreadPool.status_ (thread_pool_ (srv w)) = kRunning;
  sa_single : loops_ (thread_pool_ (srv w)) = [];
  sa_threads : threads_ (thread_pool_ (srv w)) = [];
  sa_id : 1 <= next_conn_id_ (srv w) < 2 ^ 31;
  sa_ip : (String.length (ip_port_ (srv w)) <= 51)%nat
}.

(** The map lists the open connections, under their names, which the server made. *)
Record map_ok w : Prop := {
  mo_listed n t : connections_ (srv w) !! n = Some t <->
    exists u, objs w !! t = Some u /\ name_ (conn u) = n /\ IsDisconnected (conn u) = false;
  mo_names n t : connections_ (srv w) !! n = Some t ->
    exists id, 1 <= id < next_conn_id_ (srv w) /\ n = server_name (srv w) id;
  mo_loop t u : objs w !! t = Some u -> TcpConnection.loop_ (conn u) = this_loop
}.

(** Among [chs] the channel of [a] is in the loop, and no other is bound to the
    acceptor. *)
Definition listening_on (chs : gmap ptr (Channel cb)) (a : Acceptor) : Prop :=
  accept_channel_ a <> 0 /\
  (exists c, chs !! accept_channel_ a = Some c /\ fd_ c = accept_fd_ a /\
     read_fn_ c = Some (OnChannel (acc, OnRead)) /\ index_ c = kAdded /\ Channel.loop_ c = this_loop) /\
  forall q c, chs !! q = Some c -> read_fn_ c = Some (OnChannel (acc, OnRead)) -> q = accept_channel_ a.
Definition listening w : Prop := listening_on (channels (io w)) (the_acceptor (user w)).

(** [busy]: the channel whose event is handled. *)
Record serve_inv S (ahead : list (ptr * functor (task G))) (busy : option ptr) w : Prop := {
  sv_loop : loop_inv this_loop server_own S true ahead (loop_of w);
  sv_bases : bases_ok S;
  sv_acc : S !! acc = None;
  sv_sent t b : S !! t = Some b -> b_sent b = [];
  sv_owner : owner_tid (poller (io w)) = tid_ w;
  sv_still p c : channels (io w) !! p = Some c -> busy <> Some p -> event_handling_ c = false;
  sv_server : server_at w;
  sv_map : map_ok w;
  sv_listen : listening w
}.

Lemma listening_marks (chs chs' : gmap ptr (Channel cb)) a :
  marks <$> chs' !! accept_channel_ a = marks <$> chs !! accept_channel_ a ->
  (forall q, read_fn_ <$> chs' !! q = read_fn_ <$> chs !! q) -> listening_on chs a -> listening_on chs' a.
Proof.
  intros Hm Hrd (Hne & (c & Hc & Hf & Hr & Hi & Hl) & Hu). rewrite Hc in Hm.
  apply fmap_Some in Hm as (c' & Hc' & He). split; [done|]. split.
  - exists c'. split; [done|]. unfold marks in He. destruct c, c'. simpl in *. injection He as ?????????. by subst.
  - intros q cq Hq Hrq. specialize (Hrd q). rewrite Hq in Hrd. simpl in Hrd. symmetry in Hrd.
    apply fmap_Some in Hrd as (c0 & Hc0 & He0). apply (Hu q c0 Hc0). congruence.
Qed.

Lemma listening_insert (chs : gmap ptr (Channel cb)) a p t c :
  chs !! p = None -> bound_to t c -> t <> acc -> listening_on chs a -> listening_on (<[p := c]> chs) a.
Proof.
  intros Hp (Hb & _) Ht (Hne & (ca & Hca & Hrest) & Hu). split; [done|]. split.
  - exists ca. rewrite lookup_insert_ne; [done|congruence].
  - intros q cq [[<- <-]|[_ Hq]]%lookup_insert_Some Hr; [congruence|by apply (Hu q cq)].
Qed.

Lemma listening_delete (chs : gmap ptr (Channel cb)) a p :
  p <> accept_channel_ a -> listening_on chs a -> listening_on (delete p chs) a.
Proof.
  intros Hp (Hne & (ca & Hca & Hrest) & Hu). split; [done|]. split.
  - exists ca. by rewrite lookup_delete_ne.
  - intros q cq [_ Hq]%lookup_delete_Some. by apply Hu.
Qed.

Lemma apart_from_acceptor S ahead m a t u :
  loop_inv this_loop server_own S true ahead m -> S !! acc = None -> listening_on (channels (io m)) a ->
  user m !! t = Some u -> channel_ (conn u) <> accept_channel_ a.
Proof.
  intros Hi Hacc (_ & (c & Hc & _ & Hr & _) & _) Hu He.
  destruct (li_objects _ _ _ _ _ _ Hi t) as [b Hb]; [by exists u|].
  destruct (li_conns _ _ _ _ _ _ Hi t b Hb) as (u' & c' & Hu' & _ & Hat & Hrd & _). rewrite Hu in Hu'. injection Hu' as <-.
  destruct (conn_at_parts _ _ _ _ _ _ _ Hat) as (_ & Hc' & _). unfold the_conn in Hc'. simpl in Hc'.
  rewrite He, Hc in Hc'. injection Hc' as <-. rewrite Hr in Hrd. injection Hrd as <-. congruence.
Qed.

Lemma listening_apart S ahead busy w t u :
  serve_inv S ahead busy w -> objs w !! t = Some u -> channel_ (conn u) <> accept_channel_ (the_acceptor (user w)).
Proof. intros Hs. by apply (apart_from_acceptor S ahead (loop_of w)); apply Hs. Qed.

(** Nothing of the loop's own, of the server and of the labels changed. *)
Lemma same_inv S ahead ahead' busy w m :
  serve_inv S ahead busy w -> loop_inv this_loop server_own S true ahead' m ->
  same_loop (loop_of w) m -> same_labels (loop_of w) m -> serve_inv S ahead' busy (put_loop m w).
Proof.
  intros Hs Hi [Ht How Hh Hoth Hrd] Hlab. assert (forall t u, objs w !! t = Some u -> channel_ (conn u) <> accept_channel_ (the_acceptor (user w))) as Hap
    by (intros t u; by apply (listening_apart S ahead busy)).
  destruct Hs as [Hi0 Hb Ha Hse Ho Hst Hsv0 [Hl Hn Hp] Hli]. pose proof Hsv0 as [].
  assert (forall t u', user m !! t = Some u' -> exists u, objs w !! t = Some u /\ label u' = label u) as Hback.
  { intros t u' Hu'. specialize (Hlab t). rewrite Hu' in Hlab. symmetry in Hlab.
    apply fmap_Some in Hlab as (u & Hu & ->). by exists u. }
  assert (forall t u, objs w !! t = Some u -> exists u', user m !! t = Some u' /\ label u' = label u) as Hforth.
  { intros t u Hu. specialize (Hlab t). change (user (loop_of w)) with (objs w) in Hlab. rewrite Hu in Hlab.
    apply fmap_Some in Hlab as (u' & Hu' & He). by exists u'. }
  split; try done.
  - by destruct m.
  - change (owner_tid (poller (io m)) = tid_ m). by rewrite How, Ht.
  - intros p c Hc. specialize (Hh p). change (io (put_loop m w)) with (io m) in Hc. rewrite Hc in Hh.
    symmetry in Hh. apply fmap_Some in Hh as (c0 & Hc0 & ->). by apply Hst.
  - split; try done. change (base_tid (thread_pool_ (srv w)) = tid_ m). by rewrite sa_tid0, Ht.
  - split; [|done|].
    + intros n t. rewrite (Hl n t). split.
      * intros (u & Hu & <- & Hcl). destruct (Hforth t u Hu) as (u' & Hu' & [= _ En _ Ec]). exists u'.
        split_and!; [exact Hu'|done|congruence].
      * intros (u' & Hu' & <- & Hcl). destruct (Hback t u' Hu') as (u & Hu & [= _ En _ Ec]). exists u.
        split_and!; [exact Hu|done|congruence].
    + intros t u' Hu'. destruct (Hback t u' Hu') as (u & Hu & [= El _ _ _]). rewrite El. by apply (Hp t).
  - apply (listening_marks (channels (io w))); [by apply Hoth|exact Hrd|exact Hli].
Qed.

(** ** The steps *)

Context (react : ptr -> trigger (task G) -> cworld -> list user_op) (write_complete : bool) (v0 : V)
  (timer : mworld -> result mworld) (new_conn : sworld -> ptr * ptr) (D : Z).

(** Every application's code as in TcpStream.v; timers queue functors of live
    connections; an object is built where none is. *)
Record server_env : Prop := {
  se_react t : react_ok (react t) D;
  se_room : D <= 2 ^ 60;
  se_timer m : exists m', timer m = Ok m' /\ aside m m';
  se_new w : let '(t, p) := new_conn w in
    objs w !! t = None /\ t <> acc /\ p <> 0 /\ channels (io w) !! p = None
}.
Context (Henv : server_env).

Abbreviation conn_cb_ := (conn_cb_ junk this_loop react).
Abbreviation serve := (serve junk this_loop acc react write_complete v0 timer new_conn).
Abbreviation serve_functor := (serve_functor junk this_loop react).
Abbreviation loop_call := (dispatch junk this_loop react queue_destroy timer).
Abbreviation loop_exec := (call_functor junk this_loop react conn_cb_).

Lemma env_apps : apps_ok true react conn_cb_ queue_destroy timer D.
Proof.
  split; [apply Henv| |apply queue_destroy_closes|apply Henv].
  intros t v v'. apply local_application, calm_own.
Qed.

Definition bounded_objs w : Prop := forall t u, objs w !! t = Some u -> bounded D (view t u (loop_of w)).

Lemma all_bounded_of S w : bounded_objs w -> all_bounded S D (loop_of w).
Proof. intros Hb t b u _ Hu. by apply Hb. Qed.

(** A functor. *)
Lemma functor_inv S x ahead busy w :
  serve_inv S (x :: ahead) busy w -> bounded_objs w ->
  exists w', serve_functor x w = Ok w' /\ serve_inv S ahead busy w' /\
    (calm_queue (loop_of w) -> calm_queue (loop_of w')).
Proof.
  intros Hs Hb. destruct (exec_inv junk this_loop server_own S true (sv_bases _ _ _ _ Hs) react conn_cb_ queue_destroy
    timer D env_apps x ahead (loop_of w) (sv_loop _ _ _ _ Hs) (all_bounded_of S w Hb)) as (m & Hr & Hi).
  destruct (exec_same junk this_loop server_own S true react conn_cb_ queue_destroy timer D ahead x (loop_of w) m
    env_apps (sv_loop _ _ _ _ Hs) Hr) as [Hsl Hlab].
  exists (put_loop m w). unfold ServerLoop.serve_functor, in_loop_of. rewrite Hr. split; [done|].
  split; [by apply (same_inv S (x :: ahead))|].
  intros Hq. exact (exec_calm junk this_loop true react conn_cb_ queue_destroy timer D env_apps x (loop_of w) m Hr Hq).
Qed.

(** What happens beside: functors are for live connections, and only one to which
    nothing refers is deleted. *)
Definition sact_ok (a : sact G K) w : Prop :=
  match a with
  | SAct (AQueue _ t (App _)) | SAct (AShutdown _ t) => is_Some (objs w !! t)
  | SAct (AQueue _ t Destroy) => False
  | SAct (AKernel f) => forall k, interest (f k) = interest k /\ tx (f k) = tx k /\ wr_shut (f k) = wr_shut k
  | SRelease t => is_Some (objs w !! t) /\ (forall n, connections_ (srv w) !! n <> Some t) /\
      mine t (pending_functors_ w) = []
  | SStop _ => True
  end.

(** Steps of the loop itself. *)
Lemma flat_inv S ahead ahead' busy w w' :
  serve_inv S ahead busy w -> user w' = user w -> loop_inv this_loop server_own S true ahead' (loop_of w') ->
  same_loop (loop_of w) (loop_of w') -> serve_inv S ahead' busy w'.
Proof.
  intros Hs Hu Hi Hl. assert (w' = put_loop (loop_of w') w) as ->.
  { unfold put_loop, loop_of. simpl. rewrite <- Hu. by destruct w' as [? ? ? ? ? ? ? ? ? []]. }
  apply (same_inv S ahead); [done|exact Hi|exact Hl|]. intros t.
  change (label <$> objects (user w') !! t = label <$> objects (user w) !! t). by rewrite Hu.
Qed.

Lemma aside_serve S ahead busy w w' :
  serve_inv S ahead busy w -> user w' = user w -> aside (loop_of w) (loop_of w') -> serve_inv S ahead busy w'.
Proof.
  intros Hs Hu Ha. apply (flat_inv S ahead ahead busy w); [done|done| |by apply aside_same].
  eapply aside_inv; [exact Ha|apply Hs].
Qed.

(** The kernel changes where no connection is. *)
Lemma kernel_inv S ahead busy w k :
  serve_inv S ahead busy w -> interest k = interest (kernel (io w)) ->
  (forall t b, S !! t = Some b -> tx k (b_fd b) = tx (kernel (io w)) (b_fd b) /\
     wr_shut k (b_fd b) = wr_shut (kernel (io w)) (b_fd b)) ->
  serve_inv S ahead busy (set_io (set_kernel k (io w)) w).
Proof.
  intros Hs Hk Hx. set (m := set_io (set_kernel k (io w)) (loop_of w)).
  assert (set_io (set_kernel k (io w)) w = put_loop m w) as ->.
  { unfold put_loop, m, set_io. simpl. f_equal. by destruct (user w). }
  apply (same_inv S ahead); [done| |by apply same_loop_channels|by intros t].
  apply (redispatch_inv this_loop server_own S true ahead (loop_of w)); try done; [|apply Hs].
  apply inv_set_kernel; [done|apply (sv_loop _ _ _ _ Hs)].
Qed.

(** The loop's status is nothing to the connections. *)
Lemma status_inv S ahead busy x w : serve_inv S ahead busy w -> serve_inv S ahead busy (set_status x w).
Proof.
  intros Hs. pose proof (sv_loop _ _ _ _ Hs) as Hi.
  apply (flat_inv S ahead ahead busy w); [done|done| |by apply same_loop_channels].
  apply (redispatch_inv this_loop server_own S true ahead (loop_of w)); try done. apply Hi.
Qed.

(** [Stop] of any thread. *)
Lemma Stop_inv S ahead busy by_ w :
  serve_inv S ahead busy w ->
  serve_inv S ahead busy (Stop by_ w) /\ pending_functors_ (Stop by_ w) = pending_functors_ w.
Proof.
  intros Hs%(status_inv _ _ _ kStopping). unfold Stop. set (w1 := set_status kStopping w) in *.
  destruct (negb _); [|done]. unfold Wakeup. pose proof (efd_tx 1 (kernel (io w1))) as E1.
  pose proof (efd_shut 1 (kernel (io w1))) as E2. pose proof (efd_interest 1 (kernel (io w1))) as E3.
  destruct (efd_write 1 (kernel (io w1))) as [n k]. split; [|done]. apply kernel_inv; [done|exact E3|].
  intros t b _. by rewrite <- E1, <- E2.
Qed.

Definition resting_at S w : Prop := serve_inv S [] None w /\ calm_queue (loop_of w).

Lemma sact_inv S a w :
  resting_at S w -> sact_ok a w -> exists w' S', run_sact a w = Ok w' /\ resting_at S' w'.
Proof.
  intros [Hs Hq] Ha. pose proof (sv_loop _ _ _ _ Hs) as Hi. destruct a as [a|t|by_].
  - assert (act_ok S true a (loop_of w)) as Hok.
    { destruct a as [by_ t [|g]|by_ t|f]; simpl in *; [done| | |done]; by apply (li_objects _ _ _ _ _ _ Hi). }
    destruct (act_inv this_loop server_own S true (sv_bases _ _ _ _ Hs) a (loop_of w) Hi ltac:(done) Hok)
      as (m & Hr & Hi' & Hq'). destruct (act_same a (loop_of w) m Hr) as [Hsl Hlab].
    exists (put_loop m w), S. unfold run_sact, in_loop_of. rewrite Hr. split; [done|].
    split; [by apply (same_inv S [])|]. by apply Hq'.
  - destruct Ha as ([u Hu] & Hnot & Hm). destruct (li_objects _ _ _ _ _ _ Hi t) as [b Hb]; [by exists u|].
    pose proof Hs as [_ HB Hacc Hsent Ho Hst Hsv [Hl Hn Hp] Hli].
    assert (closed (view t u (loop_of w)) = true) as Hcl.
    { change (IsDisconnected (conn u) = true). destruct (IsDisconnected (conn u)) eqn:E; [done|].
      destruct (Hnot (name_ (conn u))). apply Hl. by exists u. }
    destruct (shrink_inv this_loop server_own S t b u (loop_of w) HB Hi Hb Hu Hcl Hm) as (m & Hr & He & HB' & Hi').
    { intros p c Hc. by apply (Hst p c). }
    unfold run_sact, release, in_loop_of. rewrite Hr. cbn [mbind result_bind].
    set (w' := set_objects _ _).
    assert (loop_of w' = leave t (b_channel b) (b_fd b) (loop_of w)) as Hw' by by rewrite <- He.
    exists w', (delete t S). split; [done|].
    assert (tid_ w' = tid_ w) as Ht by (change (tid_ (loop_of w') = tid_ (loop_of w)); by rewrite Hw').
    assert (objs w' = delete t (objs w)) as Hob by (change (user (loop_of w') = delete t (objs w)); by rewrite Hw').
    assert (io w' = io (leave t (b_channel b) (b_fd b) (loop_of w))) as Hio by (change (io (loop_of w') = io (leave t (b_channel b) (b_fd b) (loop_of w))); by rewrite Hw').
    assert (srv w' = srv w) as Hsrv by done.
    split; [|by rewrite Hw'].
    split; rewrite ?Hw'; try done.
    + by rewrite lookup_delete_None; right.
    + intros t2 b2 [_ Hb2]%lookup_delete_Some. by apply (Hsent t2).
    + by rewrite Hio, Ht.
    + intros p c. rewrite Hio. simpl. intros [_ Hc]%lookup_delete_Some. by apply Hst.
    + destruct Hsv. by split; rewrite ?Hsrv, ?Ht.
    + split; rewrite ?Hsrv, ?Hob; [|done|].
      * intros n t2. rewrite (Hl n t2). split; intros (u2 & Hu2 & Hn2 & Hc2).
        -- exists u2. rewrite lookup_delete_ne; [done|]. intros <-. rewrite Hu in Hu2. injection Hu2 as <-.
           change (closed (view t u (loop_of w)) = false) in Hc2. congruence.
        -- apply lookup_delete_Some in Hu2 as [_ Hu2]. by exists u2.
      * intros t2 u2 [_ Hu2]%lookup_delete_Some. by apply (Hp t2).
    + unfold listening. rewrite Hio. apply listening_delete; [|exact Hli].
      destruct (li_conns _ _ _ _ _ _ Hi t b Hb) as (u' & _ & Hu' & <- & _).
      apply (listening_apart S [] None w t u'); [exact Hs|exact Hu'].
  - exists (Stop by_ w), S. split; [done|]. destruct (Stop_inv S [] None by_ w Hs) as [Hs' Hp]. split; [done|].
    unfold calm_queue. change (pending_functors_ (loop_of (Stop by_ w))) with (pending_functors_ (Stop by_ w)). by rewrite Hp.
Qed.

(** [QueueInLoop] in both views. *)
Lemma queue_loop_of by_ x w : loop_of (QueueInLoop by_ x w) = QueueInLoop by_ x (loop_of w).
Proof.
  unfold QueueInLoop. change (must_wake by_ (push_functor x (loop_of w))) with (must_wake by_ (push_functor x w)).
  destruct (must_wake _ _); [|done]. unfold Wakeup. simpl. by destruct (efd_write _ _).
Qed.

Lemma queue_leaves by_ x w :
  let w' := QueueInLoop by_ x w in
  user w' = user w /\ tid_ w' = tid_ w /\ poller (io w') = poller (io w) /\ channels (io w') = channels (io w) /\
  EventLoop.status_ w' = EventLoop.status_ w.
Proof. unfold QueueInLoop, Wakeup. simpl. destruct (must_wake _ _); [destruct (efd_write _ _)|]; done. Qed.

(** The connection at [t] closed: the server drops it. *)
Lemma remove_inv S ahead busy t u u' w m :
  serve_inv S ahead busy w -> objs w !! t = Some u -> IsDisconnected (conn u) = false ->
  same_loop (loop_of w) m -> user m = <[t := u']> (objs w) -> ident (conn u') = ident (conn u) ->
  IsDisconnected (conn u') = true ->
  loop_inv this_loop server_own S true ahead (QueueInLoop (tid_ w) (t, FOther Destroy) m) ->
  exists w', RemoveConnectionInLoop this_loop (tid_ w) t (put_loop m w) = Ok w' /\ serve_inv S ahead busy w' /\
    loop_of w' = QueueInLoop (tid_ w) (t, FOther Destroy) m.
Proof.
  intros Hs Hu Hop [Ht How Hh Hoth Hrd] Hus Hid Hcl Hi.
  assert (forall t u, objs w !! t = Some u -> channel_ (conn u) <> accept_channel_ (the_acceptor (user w))) as Hap
    by (intros t2 u2; by apply (listening_apart S ahead busy)).
  destruct Hs as [_ HB Hacc Hsent Ho Hst Hsv [Hl Hn Hp] Hli].
  pose proof Hid as [= El En _]. unfold RemoveConnectionInLoop. change (tid_ (put_loop m w)) with (tid_ m).
  rewrite Ht, AssertInLoopThread_refl. cbn [mbind result_bind].
  change (objects (user (put_loop m w))) with (user m). rewrite Hus, lookup_insert_eq. cbn [deref mbind result_bind].
  change (the_server (user (put_loop m w))) with (srv w). rewrite En.
  assert (connections_ (srv w) !! name_ (conn u) = Some t) as Hin by (apply Hl; by exists u).
  rewrite Hin. cbn. rewrite El, (Hp t u Hu), bool_decide_eq_true_2 by done.
  set (w1 := set_the_server _ _). pose proof (queue_leaves (tid_ w) (t, FOther Destroy) w1) as (Eu & Et & Epo & Ech & _).
  pose proof (queue_loop_of (tid_ w) (t, FOther Destroy) w1) as Hq.
  assert (loop_of w1 = m) as Hm by by destruct m. rewrite Hm in Hq.
  eexists. split; [done|]. split; [|exact Hq].
  assert (objs (QueueInLoop (tid_ w) (t, FOther Destroy) w1) = <[t := u']> (objs w)) as Eo.
  { unfold objs. rewrite Eu. exact Hus. }
  assert (srv (QueueInLoop (tid_ w) (t, FOther Destroy) w1) =
    set_connections (delete (name_ (conn u)) (connections_ (srv w))) (srv w)) as Es by (unfold srv; by rewrite Eu).
  split; try done.
  - by rewrite Hq.
  - rewrite Epo, Et. change (owner_tid (poller (io m)) = tid_ m). by rewrite How, Ht.
  - intros p c. rewrite Ech. intros Hc. specialize (Hh p). change (channels (io w1)) with (channels (io m)) in Hc.
    rewrite Hc in Hh. symmetry in Hh. apply fmap_Some in Hh as (c0 & Hc0 & ->). by apply Hst.
  - destruct Hsv. split; rewrite Es, ?Et; try done. change (base_tid (thread_pool_ (srv w)) = tid_ m). by rewrite Ht.
  - split; rewrite ?Es, ?Eo; simpl.
    + intros n t2. rewrite lookup_delete_Some, (Hl n t2). split.
      * intros [Hne (u2 & Hu2 & <- & Hc2)]. exists u2. rewrite lookup_insert_ne; [done|]. intros <-. congruence.
      * intros (u2 & [[<- <-]|[Hne Hu2]]%lookup_insert_Some & <- & Hc2); [congruence|].
        split; [|by exists u2]. intros He. assert (connections_ (srv w) !! name_ (conn u2) = Some t2) as Hx by (apply Hl; by exists u2).
        rewrite <- He in Hx. congruence.
    + intros n t2 [_ Hx]%lookup_delete_Some. by apply (Hn n t2).
    + intros t2 u2 [[<- <-]|[_ Hu2]]%lookup_insert_Some; [rewrite El|]; by eapply Hp.
  - unfold listening. rewrite Eu, Ech. apply (listening_marks (channels (io w))); [by apply Hoth|exact Hrd|exact Hli].
Qed.

Abbreviation run_member := (run_member junk this_loop react).

(** A member bound to the channel of a connection. *)
Lemma run_member_inv S k t b busy w :
  serve_inv S [] busy w -> S !! t = Some b ->
  (forall u, objs w !! t = Some u -> allowed D k (view t u (loop_of w))) ->
  exists w', run_member (tid_ w) t k w = Ok w' /\ serve_inv S [] busy w' /\
    forall t2, t2 <> t -> objs w' !! t2 = objs w !! t2.
Proof.
  intros Hs Hb Hal. pose proof (sv_loop _ _ _ _ Hs) as Hi.
  destruct (member_inv junk this_loop server_own S true (sv_bases _ _ _ _ Hs) react conn_cb_ queue_destroy
    timer D env_apps k [] t b (loop_of w) Hi Hb Hal) as (m & Hr & Hi'). simpl in Hr.
  destruct (li_conns _ _ _ _ _ _ Hi t b Hb) as (u & c & Hu & _).
  destruct (member_queues junk this_loop (react t) t k (loop_of w) u m Hu Hr) as (v1 & Hv1 & Hr1 & Hm).
  change (tid_ (loop_of w)) with (tid_ w) in Hv1, Hr1, Hm.
  pose proof Hr1 as Hsame. apply on_conn_same in Hsame as [Hsl (u0 & v & Hu0 & Hv & Hus & Hid)].
  2:{ intros y y'. apply (local_channel junk this_loop (react t) Ok), only_queues_nothing. }
  rewrite Hu in Hu0. injection Hu0 as <-.
  assert (v = v1) as ->.
  { simpl in Hv. simpl in Hv1. rewrite Hv in Hv1. by injection Hv1. }
  assert (is_closed t w = closed (view t u (loop_of w))) as Hc0 by (unfold is_closed; change (objects (user w)) with (objs w); change (objs w) with (user (loop_of w)); by rewrite Hu).
  assert (is_closed t (put_loop (back t v1 (loop_of w)) w) = closed v1) as Hc1.
  { unfold is_closed. change (objects (user (put_loop (back t v1 (loop_of w)) w))) with (user (back t v1 (loop_of w))).
    by rewrite Hus, lookup_insert_eq. }
  unfold ServerLoop.run_member, in_loop_of. rewrite Hr1. cbn [mbind result_bind]. rewrite Hc0, Hc1.
  fold (closing (view t u (loop_of w)) v1). destruct (closing _ _) eqn:Ecl.
  - apply andb_true_iff in Ecl as [Eo%negb_true_iff Ec]. rewrite Hm in Hi'.
    destruct (remove_inv S [] busy t u (user v1) w (back t v1 (loop_of w)) Hs Hu Eo Hsl Hus Hid Ec Hi') as (w' & Hr' & Hs' & Hlo).
    exists w'. split; [exact Hr'|]. split; [exact Hs'|]. intros t2 Hne.
    change (objs w') with (user (loop_of w')). rewrite Hlo.
    assert (user (QueueInLoop (tid_ w) (t, FOther Destroy) (back t v1 (loop_of w))) = user (back t v1 (loop_of w))) as ->.
    { unfold QueueInLoop, Wakeup. simpl. destruct (must_wake _ _); [destruct (efd_write _ _)|]; done. }
    rewrite Hus. by rewrite lookup_insert_ne.
  - subst m. eexists. split; [done|]. split.
    + apply (same_inv S []); [done|done|done|]. eapply labels_insert; [exact Hu|exact Hus|].
      unfold label. rewrite Hid. f_equal. change (closed v1 = closed (view t u (loop_of w))).
      pose proof (call_channel_stays junk this_loop (react t) (tid_ w) k _ _ Hv1) as Hstay.
      unfold closing in Ecl. destruct (closed (view t u (loop_of w))); [by apply Hstay|done].
    + intros t2 Hne. change (user (back t v1 (loop_of w)) !! t2 = objs w !! t2). rewrite Hus. by rewrite lookup_insert_ne.
Qed.

(** *** Accepting *)

(** What accept(2) answers here: a descriptor, which was not open, so that no object
    has it and it is not registered; and the server's counter has not run out. *)
Definition acceptable w : Prop :=
  let '(fd, _, k) := accept (accept_fd_ (the_acceptor (user w))) (kernel (io w)) in
  0 <= fd /\ interest (kernel (io w)) !! fd = None /\
  (forall t u c, objs w !! t = Some u -> channels (io w) !! channel_ (conn u) = Some c -> fd_ c <> fd) /\
  next_conn_id_ (srv w) + 1 < 2 ^ 31.

(** Connections that were there stay as they are, and others have channels that are new. *)
Definition brings w w' : Prop :=
  (forall t u, objs w !! t = Some u -> objs w' !! t = Some u) /\
  (forall t u, objs w' !! t = Some u -> objs w !! t = Some u \/ channels (io w) !! channel_ (conn u) = None).

(** The connection on [fd] is there: at a new address, on a new channel, which is in
    the loop, and on the server's map under the next name. *)
Definition joined fd w w' : Prop := exists t u c,
  objs w !! t = None /\ objs w' = <[t := u]> (objs w) /\ channels (io w) !! channel_ (conn u) = None /\
  channels (io w') !! channel_ (conn u) = Some c /\ fd_ c = fd /\ index_ c = kAdded /\
  IsDisconnected (conn u) = false /\ name_ (conn u) = server_name (srv w) (next_conn_id_ (srv w)) /\
  connections_ (srv w') = <[name_ (conn u) := t]> (connections_ (srv w)) /\
  next_conn_id_ (srv w') = next_conn_id_ (srv w) + 1.

Lemma joined_brings fd w w' : joined fd w w' -> brings w w'.
Proof.
  intros (t & u & c & Ht & Ho & Hch & _). split; intros t2 u2; rewrite Ho.
  - intros Hu. rewrite lookup_insert_ne; [done|]. intros <-. congruence.
  - intros [[<- <-]|[_ Hu2]]%lookup_insert_Some; [by right|by left].
Qed.

(** The name that the next connection gets is new. *)
Lemma next_name_fresh w :
  server_at w -> map_ok w -> connections_ (srv w) !! server_name (srv w) (next_conn_id_ (srv w)) = None.
Proof.
  intros Hsv Hm. destruct (connections_ (srv w) !! _) as [t|] eqn:E; [|done].
  destruct (mo_names _ Hm _ _ E) as (id & Hid & Hn). pose proof (sa_id _ Hsv).
  apply connName_inj in Hn; [lia|apply Hsv|lia..].
Qed.

(** The world in which [HandleNewConnection] establishes the connection. *)
Definition registered_at t p c u w : sworld :=
  let s := srv w in
  set_the_server (set_connections (<[server_name s (next_conn_id_ s) := t]> (connections_ s))
                    (set_next_id (next_conn_id_ s + 1) (set_pool (thread_pool_ s) s)))
    (set_objects (<[t := u]> (objs w)) (set_io (EPoller.set_channel p c (io w)) w)).

Abbreviation HandleNewConnection := (HandleNewConnection junk this_loop react write_complete v0 new_conn).

Lemma HandleNewConnection_spec fd peer w :
  server_at w -> next_conn_id_ (srv w) + 1 < 2 ^ 31 ->
  exists t p (t0 : TcpConnection sockaddr) c, new_conn w = (t, p) /\
    TcpConnection_new junk (fun k => OnChannel (t, k)) this_loop (server_name (srv w) (next_conn_id_ (srv w))) fd
      (GetLocalAddr fd (kernel (io w))) peer p = Ok (t0, c) /\
    ident t0 = (this_loop, server_name (srv w) (next_conn_id_ (srv w)), p) /\
    fd_ c = fd /\ index_ c = kNew /\ event_handling_ c = false /\ bound_to t c /\
    HandleNewConnection (tid_ w) fd peer w =
      in_loop_of (on_conn t (OnConnectEstablished this_loop (tid_ w) (conn_cb_ t)))
        (registered_at t p c (mkUser (SetWriteCompleteCallback write_complete t0) ∅ ∅ ∅ ([], v0)) w).
Proof.
  intros Hsv Hid. destruct (new_conn w) as [t p] eqn:En. exists t, p.
  destruct (TcpConnection_new_spec junk (fun k => OnChannel (t, k) : cb) this_loop
    (server_name (srv w) (next_conn_id_ (srv w))) fd (GetLocalAddr fd (kernel (io w))) peer p)
    as (t0 & c & Hnew & Hid0 & Hf & Hn & Hh & Hr & Hw & Hc & He).
  exists t0, c. split_and!; try done. destruct Hsv. unfold ServerLoop.HandleNewConnection.
  rewrite AssertInLoopThread_refl. cbn [mbind result_bind]. change (the_server (user w)) with (srv w).
  unfold GetNextLoop. rewrite checked_ok by done. cbn [mbind result_bind]. rewrite sa_single0. cbn [mbind result_bind].
  rewrite ck32_ok by (unfold in_i32; lia). cbn [mbind result_bind]. rewrite En, sa_base0.
  fold (server_name (srv w) (next_conn_id_ (srv w))). rewrite Hnew. cbn [mbind result_bind].
  by rewrite bool_decide_eq_true_2.
Qed.

Lemma acceptor_there w k : of_acceptor (set_akernel k (as_acceptor w)) = set_io (set_kernel k (io w)) w.
Proof. by destruct w as [? ? ? ? ? ? ? ? ? []]. Qed.

Lemma acceptor_back w : of_acceptor (as_acceptor w) = w.
Proof. by destruct w as [? ? ? ? ? ? ? ? ? []]. Qed.

(** The server lists a new connection. *)
Lemma map_grows w w' t u' :
  server_at w -> map_ok w -> objs w !! t = None -> next_conn_id_ (srv w) + 1 < 2 ^ 31 ->
  objs w' = <[t := u']> (objs w) -> IsDisconnected (conn u') = false -> TcpConnection.loop_ (conn u') = this_loop ->
  name_ (conn u') = server_name (srv w) (next_conn_id_ (srv w)) ->
  srv w' = set_connections (<[name_ (conn u') := t]> (connections_ (srv w)))
             (set_next_id (next_conn_id_ (srv w) + 1) (set_pool (thread_pool_ (srv w)) (srv w))) ->
  map_ok w'.
Proof.
  intros Hsv Hm Ht Hid Ho Hcl Hl Hn Hs. pose proof (next_name_fresh w Hsv Hm) as Hfr. rewrite <- Hn in Hfr.
  pose proof (sa_id _ Hsv) as Hpos. destruct Hm as [Hlist Hnames Hloops].
  split; rewrite ?Hs, ?Ho; simpl.
  - intros n t2. split.
    + intros [[<- <-]|[Hne Hx]]%lookup_insert_Some; [exists u'; by rewrite lookup_insert_eq|].
      apply Hlist in Hx as (u2 & Hu2 & ?). exists u2. rewrite lookup_insert_ne; [done|]. intros <-. congruence.
    + intros (u2 & [[<- <-]|[Hne Hu2]]%lookup_insert_Some & <- & Hc2); [apply lookup_insert_eq|].
      assert (connections_ (srv w) !! name_ (conn u2) = Some t2) as Hx by (apply Hlist; by exists u2).
      rewrite lookup_insert_ne; [done|]. intros He. rewrite He in Hfr. congruence.
  - intros n t2 [[<- <-]|[_ Hx]]%lookup_insert_Some.
    + exists (next_conn_id_ (srv w)). split; [lia|exact Hn].
    + destruct (Hnames n t2 Hx) as (id & ? & ?). exists id. split; [lia|done].
  - intros t2 u2 [[<- <-]|[_ Hu2]]%lookup_insert_Some; [done|by eapply Hloops].
Qed.

(** A socket that is new to the loop. *)
Record new_socket fd w : Prop := {
  ns_unwatched : interest (kernel (io w)) !! fd = None;
  ns_sent : tx (kernel (io w)) fd = [];
  ns_open : wr_shut (kernel (io w)) fd = false;
  ns_pollable : pollable (kernel (io w)) fd;
  ns_own t u c : objs w !! t = Some u -> channels (io w) !! channel_ (conn u) = Some c -> fd_ c <> fd
}.

Lemma new_socket_bases S ahead busy fd w t b :
  serve_inv S ahead busy w -> new_socket fd w -> S !! t = Some b -> b_fd b <> fd.
Proof.
  intros Hs Hn Hb. destruct (li_conns _ _ _ _ _ _ (sv_loop _ _ _ _ Hs) t b Hb) as (u & c & Hu & Hcu & Hc & _).
  destruct (conn_at_parts _ _ _ _ _ _ _ Hc) as (_ & Hch & Hfd & _). rewrite <- Hfd. by apply (ns_own _ _ Hn t u).
Qed.

Lemma new_socket_unmapped fd w :
  inv_but None (io w) -> new_socket fd w -> channel_map_ (poller (io w)) !! fd = None.
Proof.
  intros Hi Hn. destruct (channel_map_ (poller (io w)) !! fd) as [q|] eqn:E; [|done].
  destruct (inv_map _ _ Hi fd q E) as (c & ev & _ & _ & _ & Hin & _). by rewrite (ns_unwatched _ _ Hn) in Hin.
Qed.

Lemma strange_object S ahead busy w t : serve_inv S ahead busy w -> objs w !! t = None -> S !! t = None.
Proof.
  intros Hs Ho. destruct (S !! t) as [b|] eqn:E; [|done].
  destruct (li_conns _ _ _ _ _ _ (sv_loop _ _ _ _ Hs) t b E) as (u & _ & Hu & _). change (objs w !! t = Some u) in Hu. congruence.
Qed.

Lemma calm_established cur t v v' : OnConnectEstablished this_loop cur (conn_cb_ t) v = Ok v' -> local calm v v'.
Proof. apply local_Established. intros x x'. apply local_application, calm_own. Qed.

Lemma local_established cur t v v' : OnConnectEstablished this_loop cur (conn_cb_ t) v = Ok v' -> local any v v'.
Proof. intros Hr%calm_established. by eapply local_mono. Qed.

(** The new connection comes to life, with its own application's code. *)
Lemma joins S busy fd peer w :
  serve_inv S [] busy w -> new_socket fd w -> next_conn_id_ (srv w) + 1 < 2 ^ 31 ->
  exists w' S', HandleNewConnection (tid_ w) fd peer w = Ok w' /\ serve_inv S' [] busy w' /\ joined fd w w' /\
    (calm_queue (loop_of w) -> calm_queue (loop_of w')).
Proof.
  intros Hs Hns Hid. pose proof Hs as [Hi HB Hacc Hsent How Hst Hsv Hm Hli].
  pose proof (listening_apart S [] busy w) as Hap.
  destruct (HandleNewConnection_spec fd peer w Hsv Hid) as (t & p & t0 & c & En & Hnew & Hident & Hfd & Hidx & Hh & Hbd & ->).
  pose proof (se_new Henv w) as Hse. rewrite En in Hse. destruct Hse as (Hfree & Hta & Hp0 & Hpf).
  set (u := mkUser _ _ _ _ _). set (wr := registered_at t p c u w).
  pose proof (strange_object _ _ _ _ _ Hs Hfree) as HtS.
  assert (channel_ (conn u) = p) as Hcu by (injection Hident as _ _ Hc; exact Hc).
  set (m := enter t p c u (loop_of w)). change (loop_of wr) with m in *.
  assert (inv_but None (io m)) as Hiv.
  { apply inv_new_channel; [apply Hi| |done]. intros c0. change (channels (io (loop_of w))) with (channels (io w)). rewrite Hpf. by intros [=]. }
  destruct (established_live junk this_loop true (react t) D (fun k => OnChannel (t, k)) _ fd _ _ p write_complete t0 c (view t u m)
    (se_react Henv t) (se_room Henv) Hnew) as (v & c' & Hr & Hlive & Hcl); try done.
  { exact (strange_mine this_loop server_own true S [] (loop_of w) t Hi HtS). }
  { apply lookup_insert_eq. }
  { apply (new_socket_unmapped fd w); [apply Hi|done]. }
  { apply (ns_pollable _ _ Hns). }
  { apply (ns_sent _ _ Hns). }
  { apply (ns_open _ _ Hns). }
  pose proof (local_established _ t _ _ Hr) as Hl.
  assert (on_conn t (OnConnectEstablished this_loop (tid_ w) (conn_cb_ t)) m = Ok (back t v m)) as Hon.
  { unfold on_conn. change (user m) with (<[t := u]> (objs w)). rewrite lookup_insert_eq. cbn [deref mbind result_bind].
    change (tid_ (view t u m)) with (tid_ w) in Hr. unfold ServerLoop.conn_cb_. by rewrite Hr. }
  destruct (on_conn_same t _ m _ (local_established (tid_ w) t) Hon) as [[Ht1 Ht2 Ht3 Ht4 Ht5] _].
  destruct (grow_inv this_loop server_own true S [] (loop_of w) t p c u v c' []) as [HB' Hi']; try done.
  { intros t2 b2 Hb2. rewrite Hfd. by eapply new_socket_bases. }
  { rewrite Hfd. by left. }
  pose proof Hl as (_ & Hidv & _). change (ident (conn (user v)) = ident t0) in Hidv. rewrite Hident in Hidv.
  injection Hidv as Hlv Hnv Hcv.
  exists (put_loop (back t v m) wr), (<[t := mkBase p (fd_ c) []]> S).
  unfold in_loop_of. change (loop_of wr) with m. rewrite Hon. split; [done|]. split; [split|split].
  - exact Hi'.
  - exact HB'.
  - by rewrite lookup_insert_ne.
  - intros t2 b2 [[_ <-]|[_ Hb2]]%lookup_insert_Some; [done|by eapply Hsent].
  - change (owner_tid (poller (io (back t v m))) = tid_ (back t v m)). rewrite Ht1, Ht2. exact How.
  - intros q cq. change (io (put_loop (back t v m) wr)) with (io (back t v m)). intros Hq Hbu. specialize (Ht3 q).
    rewrite Hq in Ht3. symmetry in Ht3. apply fmap_Some in Ht3 as (c0 & Hc0 & ->).
    change (channels (io m)) with (<[p := c]> (channels (io w))) in Hc0.
    apply lookup_insert_Some in Hc0 as [[<- <-]|[_ Hc0]]; [done|by eapply Hst].
  - destruct Hsv. split; try done; [|].
    + change (base_tid (thread_pool_ (srv w)) = tid_ (back t v m)). by rewrite Ht1.
    + change (1 <= next_conn_id_ (srv w) + 1 < 2 ^ 31). lia.
  - apply (map_grows w _ t (user v)); try done.
    + change (<[t := user v]> (<[t := u]> (objs w)) = <[t := user v]> (objs w)). by rewrite insert_insert_eq.
    + by rewrite Hnv.
  - assert (t <> acc) as Htacc by (pose proof (se_new Henv w) as Hse; rewrite En in Hse; apply Hse).
    apply (listening_marks (<[p := c]> (channels (io w)))); [|exact Ht5|by eapply listening_insert].
    apply Ht4. intros t2 u2 Hu2. change (<[t := u]> (objs w) !! t2 = Some u2) in Hu2.
    apply lookup_insert_Some in Hu2 as [[_ <-]|[_ Hu2]]; [|by eapply Hap].
    rewrite Hcu. destruct Hli as (_ & (cq & Hcq & _) & _). intros Hpq.
    change (p = accept_channel_ (the_acceptor (user w))) in Hpq. rewrite <- Hpq, Hpf in Hcq. done.
  - destruct Hlive as [Hstr _]. pose proof (si_conn _ _ _ _ _ _ Hstr) as Hci.
    assert (channels (io v) !! p = Some c') as Hch' by (rewrite <- Hcv; apply Hci).
    exists t, (user v), c'. rewrite Hcv. split_and!; try done.
    + change (<[t := user v]> (<[t := u]> (objs w)) = <[t := user v]> (objs w)). by rewrite insert_insert_eq.
    + apply Hstr.
    + apply Hci.
    + change (connections_ (srv (put_loop (back t v m) wr))) with (<[server_name (srv w) (next_conn_id_ (srv w)) := t]> (connections_ (srv w))).
      by rewrite Hnv.
  - exact (calm_step t _ m _ (calm_established (tid_ w) t) Hon).
Qed.

Abbreviation on_acceptable := (on_acceptable junk this_loop react write_complete v0 new_conn).

Lemma on_acceptable_spec fd peer k w :
  accept (accept_fd_ (the_acceptor (user w))) (kernel (io w)) = (fd, peer, k) -> 0 <= fd ->
  on_acceptable (tid_ w) w =
    HandleNewConnection (tid_ w) fd peer (set_io (set_kernel (SetNonBlockAndCloseOnExec fd k) (io w)) w).
Proof.
  intros Ha Hfd. unfold ServerLoop.on_acceptable.
  destruct (accept_cases (tid_ w) (on_new_connection junk this_loop react write_complete v0 new_conn (tid_ w)) (as_acceptor w) fd peer k Ha) as [_ ->]; [|done].
  unfold on_new_connection. rewrite acceptor_there. destruct (HandleNewConnection _ _ _ _) as [w'|]; [|done].
  cbn [mbind result_bind]. by rewrite acceptor_back.
Qed.

Lemma accept_inv S busy w :
  serve_inv S [] busy w -> acceptable w ->
  exists w' S', on_acceptable (tid_ w) w = Ok w' /\ serve_inv S' [] busy w' /\
    joined (accept (accept_fd_ (the_acceptor (user w))) (kernel (io w))).1.1 w w' /\
    (calm_queue (loop_of w) -> calm_queue (loop_of w')).
Proof.
  intros Hs Ha. unfold acceptable in Ha. set (lfd := accept_fd_ (the_acceptor (user w))) in *.
  pose proof (accept_interest lfd (kernel (io w))) as Hint. pose proof (accept_frame lfd (kernel (io w))) as Hframe.
  pose proof (accept_new lfd (kernel (io w))) as Hnew.
  destruct (accept lfd (kernel (io w))) as [[fd peer] k] eqn:E. destruct Ha as (Hfd & Hun & Hown & Hid). simpl in *.
  destruct (Hnew Hfd) as (Htx & Hsh & Hpo).
  destruct (SetNonBlock_keeps fd k) as (Ki & Kt & Ks & Kp).
  rewrite (on_acceptable_spec fd peer k w E Hfd). set (k' := SetNonBlockAndCloseOnExec fd k) in *.
  set (w1 := set_io (set_kernel k' (io w)) w).
  assert (new_socket fd w1) as Hns.
  { split; simpl; rewrite ?Kt, ?Ks; try done; [congruence|by apply Kp]. }
  assert (serve_inv S [] busy w1) as Hs1.
  { apply kernel_inv; [done|congruence|]. intros t b Hb. rewrite Kt, Ks. apply Hframe.
    destruct (li_conns _ _ _ _ _ _ (sv_loop _ _ _ _ Hs) t b Hb) as (u & c & Hu & Hcu & Hc & _).
    destruct (conn_at_parts _ _ _ _ _ _ _ Hc) as (_ & Hch & Hfdc & _). rewrite <- Hfdc. by apply (Hown t u). }
  exact (joins S busy fd peer w1 Hs1 Hns Hid).
Qed.

(** ** Dispatch *)

(** The loop's status stays, and channels do, with their descriptors, callbacks and
    events received. *)
Definition keeps w w' : Prop :=
  EventLoop.status_ w' = EventLoop.status_ w /\
  forall p c, channels (io w) !! p = Some c -> exists c', channels (io w') !! p = Some c' /\ core c' = core c.

Lemma keeps_same w w' :
  EventLoop.status_ w' = EventLoop.status_ w -> channels (io w') = channels (io w) -> keeps w w'.
Proof. intros Hs He. split; [done|]. intros p c Hc. exists c. by rewrite He. Qed.

Lemma chans_kept_trans w1 w2 w3 : keeps w1 w2 -> keeps w2 w3 -> keeps w1 w3.
Proof.
  intros [Sa Ha] [Sb Hb]. split; [congruence|]. intros p c Hc. destruct (Ha p c Hc) as (c2 & Hc2 & E2).
  destruct (Hb p c2 Hc2) as (c3 & Hc3 & E3). exists c3. split; [done|congruence].
Qed.

Lemma keeps_conn t f w w' :
  (forall v v', f v = Ok v' -> local any v v') -> in_loop_of (on_conn t f) w = Ok w' -> keeps w w'.
Proof.
  intros Hf (m & Hm & [= <-])%bind_ok. pose proof (on_conn_cores t f _ _ Hf Hm) as Hc.
  apply on_conn_ok in Hm as (u & v & _ & Hv & ->). destruct (Hf _ _ Hv) as ([_ Hs] & _). split; [exact Hs|].
  intros p c Hp. specialize (Hc p). unfold core_at in Hc.
  change (channels (io (loop_of w)) !! p) with (channels (io w) !! p) in Hc. rewrite Hp in Hc. simpl in Hc.
  apply fmap_Some in Hc as (c' & Hc' & ->). by exists c'.
Qed.

Lemma HandleNewConnection_keeps cur fd peer w w' : HandleNewConnection cur fd peer w = Ok w' -> keeps w w'.
Proof.
  unfold ServerLoop.HandleNewConnection. intros Hr. apply bind_ok in Hr as (? & _ & Hr).
  apply bind_ok in Hr as ([ioLoop pool] & _ & Hr). apply bind_ok in Hr as (next & _ & Hr).
  pose proof (se_new Henv w) as Hn. destruct (new_conn w) as [t p]. destruct Hn as (_ & _ & _ & Hp).
  apply bind_ok in Hr as ([c chan] & _ & Hr).
  assert (forall x, EventLoop.status_ x = EventLoop.status_ w -> channels (io x) = <[p := chan]> (channels (io w)) ->
    keeps w x) as Hx.
  { intros y Hs Hy. split; [done|]. intros q cq Hq. exists cq. rewrite Hy, lookup_insert_ne by congruence. by split. }
  destruct (bool_decide _); [|injection Hr as <-; by apply Hx].
  match type of Hr with in_loop_of _ ?x = _ => apply (chans_kept_trans w x); [by apply Hx|] end.
  revert Hr. apply keeps_conn. intros v v'. apply local_established.
Qed.

Lemma RemoveConnectionInLoop_keeps cur t w w' : RemoveConnectionInLoop this_loop cur t w = Ok w' -> keeps w w'.
Proof.
  unfold RemoveConnectionInLoop. intros Hr. apply bind_ok in Hr as (? & _ & Hr). apply bind_ok in Hr as (u & _ & Hr).
  apply bind_ok in Hr as (? & _ & [= <-]). destruct (bool_decide _); [|by apply keeps_same].
  set (w1 := set_the_server _ _). destruct (queue_leaves cur (t, FOther Destroy) w1) as (_ & _ & _ & Hc & Hs).
  apply keeps_same; [by rewrite Hs|by rewrite Hc].
Qed.

Lemma serve_keeps k w w' : serve k w = Ok w' -> keeps w w'.
Proof.
  destruct k as [| |[t k]]; simpl.
  - intros [= <-]. unfold EventLoop.HandleRead. destruct (efd_read _). by apply keeps_same.
  - intros (m & Hr & [= <-])%bind_ok. destruct (se_timer Henv (loop_of w)) as (m1 & Hr1 & _ & [_ Hs] & _ & Hc & _).
    rewrite Hr in Hr1. injection Hr1 as <-. apply keeps_same; [exact Hs|exact Hc].
  - destruct (bool_decide (t = acc)).
    + destruct (accept (accept_fd_ (the_acceptor (user w))) (kernel (io w))) as [[fd peer] k'] eqn:E.
      destruct (decide (0 <= fd)) as [Hfd|Hfd].
      * rewrite (on_acceptable_spec fd peer k' w E Hfd). intros Hr%HandleNewConnection_keeps. exact Hr.
      * destruct (accept_cases (tid_ w) (on_new_connection junk this_loop react write_complete v0 new_conn (tid_ w)) (as_acceptor w) fd peer k' E) as [He _].
        unfold ServerLoop.on_acceptable. by rewrite He by lia.
    + unfold ServerLoop.run_member. intros (w1 & Hr1 & Hr)%bind_ok. apply (chans_kept_trans w w1).
      * revert Hr1. apply keeps_conn. intros v v'. apply (local_channel junk this_loop (react t) Ok), only_queues_nothing.
      * destruct (_ && _); [by eapply RemoveConnectionInLoop_keeps|injection Hr as <-; by apply keeps_same].
Qed.

Lemma put_serve S ahead busy busy' p c c' w :
  channels (io w) !! p = Some c -> marks c' = marks c -> busy = None \/ busy = Some p ->
  (busy' = Some p \/ busy' = None /\ event_handling_ c' = false) ->
  serve_inv S ahead busy w -> serve_inv S ahead busy' (put_channel p c' w).
Proof.
  intros Hc He Hbu Hbu' [Hi HB Hacc Hsent How Hst Hsv Hm Hli]. split; try done.
  - by apply (put_inv this_loop server_own S true ahead p c c' (loop_of w)).
  - intros q cq. simpl. intros [[<- <-]|[Hne Hq]]%lookup_insert_Some Hx; [by destruct Hbu' as [->|[_ ?]]|].
    apply (Hst q); [done|]. destruct Hbu as [->| ->]; congruence.
  - by destruct Hsv.
  - by destruct Hm.
  - assert (forall {X} (g : Channel cb -> X), g c' = g c ->
      forall q, g <$> <[p := c']> (channels (io w)) !! q = g <$> channels (io w) !! q) as Hg.
    { intros X g Hg q. destruct (decide (q = p)) as [->|]; [|by rewrite lookup_insert_ne].
      rewrite lookup_insert_eq, Hc. simpl. by f_equal. }
    apply (listening_marks (channels (io w))); [by apply Hg|apply Hg|exact Hli].
    revert He. destruct c, c'. intros [=]. by simpl.
Qed.

(** A connection that is open, as the loop's invariant has it. *)
Definition opened_at p w : Prop := forall t u, objs w !! t = Some u -> channel_ (conn u) = p -> is_open (view t u (loop_of w)) = true.

(** What handling the channel at [p] leaves of the others. *)
Definition steady p w w' : Prop :=
  (forall q, is_Some (channels (io w) !! q) -> is_Some (channels (io w') !! q)) /\
  forall q, q <> p -> is_Some (channels (io w) !! q) -> opened_at q w -> opened_at q w'.

Lemma steady_brings p w w' : keeps w w' -> brings w w' -> steady p w w'.
Proof.
  intros [_ Hk] [_ Hb]. split.
  - intros q [c Hc]. destruct (Hk q c Hc) as (c' & Hc' & _). by exists c'.
  - intros q _ [c Hc] Ho t u Hu Hq. destruct (Hb t u Hu) as [Hu0|Hn]; [by apply (Ho t)|]. rewrite Hq in Hn. congruence.
Qed.

Lemma brings_same w w' : objs w' = objs w -> brings w w'.
Proof. intros He. split; intros t u; rewrite He; auto. Qed.

(** The callbacks of the loop's own channels. *)
Lemma own_serve_inv S busy k w :
  serve_inv S [] busy w -> server_own k -> (k = OnChannel (acc, OnRead) -> acceptable w) ->
  exists w' S', serve k w = Ok w' /\ serve_inv S' [] busy w' /\ brings w w'.
Proof.
  intros Hs [[-> | ->] | ->] Ha; simpl.
  - exists (EventLoop.HandleRead w), S. split; [done|].
    pose proof (eread_tx (kernel (io w))) as E1. pose proof (eread_shut (kernel (io w))) as E2.
    pose proof (eread_interest (kernel (io w))) as E3. unfold EventLoop.HandleRead.
    destruct (efd_read (kernel (io w))) as [n k]. simpl in *. split; [|by apply brings_same].
    apply (aside_serve S [] busy w); [done|done|]. split_and!; try done. exists []. by rewrite app_nil_r.
  - destruct (se_timer Henv (loop_of w)) as (m & Hr & Ha'). exists (put_loop m w), S. unfold in_loop_of. rewrite Hr.
    split; [done|]. destruct (aside_same _ _ Ha') as [Hl Hlab]. pose proof Ha' as (Hu & _). split.
    + apply (same_inv S []); try done. eapply aside_inv; [exact Ha'|apply Hs].
    + apply brings_same. exact Hu.
  - rewrite bool_decide_eq_true_2 by done. destruct (accept_inv S busy w Hs (Ha eq_refl)) as (w' & S' & Hr & Hs' & Hj & _).
    exists w', S'. split; [done|]. split; [done|]. by eapply joined_brings.
Qed.

(** The callbacks of a connection's channel. *)
Lemma serve_member S ahead busy k t b w :
  serve_inv S ahead busy w -> S !! t = Some b -> serve (OnChannel (t, k)) w = run_member (tid_ w) t k w.
Proof.
  intros Hs Hb. simpl. rewrite bool_decide_eq_false_2; [done|]. intros ->. by rewrite (sv_acc _ _ _ _ Hs) in Hb.
Qed.

Lemma serve_error S ahead busy t b w :
  serve_inv S ahead busy w -> S !! t = Some b -> serve (OnChannel (t, OnError)) w = Ok w.
Proof.
  intros Hs Hb. rewrite (serve_member S ahead busy _ t b) by done.
  pose proof (HandleError_same junk this_loop server_own S true react (fun _ => Ok) timer ahead t b (loop_of w)
    (sv_loop _ _ _ _ Hs) Hb) as He.
  unfold ServerLoop.run_member, in_loop_of. change (tid_ w) with (tid_ (loop_of w)). simpl in He |- *. rewrite He.
  cbn [mbind result_bind]. assert (put_loop (loop_of w) w = w) as -> by by destruct w as [? ? ? ? ? ? ? ? ? []].
  by rewrite andb_negb_l.
Qed.

Lemma conn_due_inv S busy t b c w :
  serve_inv S [] busy w -> S !! t = Some b -> bound_to t c -> bounded_objs w -> opened_at (b_channel b) w ->
  hang_up c && to_read c = false ->
  exists w', foldM serve (due c) w = Ok w' /\ serve_inv S [] busy w' /\ forall t2, t2 <> t -> objs w' !! t2 = objs w !! t2.
Proof.
  intros Hs Hb Hbd Hroom Hop Hboth.
  assert (forall u, objs w !! t = Some u -> is_open (view t u (loop_of w)) = true) as Hopen.
  { intros u Hu. apply (Hop t u Hu).
    destruct (li_conns _ _ _ _ _ _ (sv_loop _ _ _ _ Hs) t b Hb) as (u' & _ & Hu' & Hcu & _).
    change (objs w !! t = Some u') in Hu'. congruence. }
  destruct (due_steps serve (fun y => serve_inv S [] busy y /\ forall t2, t2 <> t -> objs y !! t2 = objs w !! t2)
    (fun k y => forall u, objs y !! t = Some u -> allowed D k (view t u (loop_of y))) t c w) as (w' & Hr & Hw' & Hrest); try done.
  - intros k y [Hy Hrest] Hal. rewrite (serve_member S [] busy k t b y Hy Hb).
    destruct (run_member_inv S k t b busy y Hy Hb Hal) as (y' & Hr & Hy' & Hrest'). exists y'. split; [done|].
    split; [done|]. intros t2 Hne. by rewrite Hrest', Hrest.
  - intros y [Hy _]. by apply (serve_error S [] busy t b).
  - intros _ u Hu. split; [by apply Hopen|by apply Hroom].
  - by exists w'.
Qed.

Lemma own_due_serve S busy c w :
  serve_inv S [] busy w -> own_channel server_own c ->
  (read_fn_ c = Some (OnChannel (acc, OnRead)) -> to_read c = true -> acceptable w) ->
  exists w' S', foldM serve (due c) w = Ok w' /\ serve_inv S' [] busy w' /\ brings w w'.
Proof.
  intros Hs (Fr & Fw & Fc & Fe) Ha. unfold due. cbv zeta. fold (hang_up c) (to_read c). rewrite Fw, Fc, Fe.
  assert (forall x : bool, (if x then @option_list cb None else []) = []) as Hnil by by intros [].
  destruct (read_fn_ c) as [k|]; [|by destruct Fr as (? & ? & _)]. cbn [option_list option_rect].
  rewrite !Hnil, app_nil_r. destruct (to_read c).
  - destruct Fr as (k' & [= <-] & Hk).
    destruct (own_serve_inv S busy k w Hs Hk) as (w' & S' & Hr & Hs' & Hb); [intros ->; by apply Ha|].
    exists w', S'. simpl in Hr |- *. by rewrite Hr.
  - exists w, S. split; [done|]. split; [done|]. by apply brings_same.
Qed.

(** *** An active channel *)

(** What may be reported: not a hang-up and something to read at once, and a
    connection to accept only if there is one. *)
Definition report_ok p w : Prop := forall c, channels (io w) !! p = Some c ->
  hang_up c && to_read c = false /\ (read_fn_ c = Some (OnChannel (acc, OnRead)) -> to_read c = true -> acceptable w).

Lemma acceptable_put p c b w :
  channels (io w) !! p = Some c -> acceptable w -> acceptable (put_channel p (set_handling b c) w).
Proof.
  intros Hc. unfold acceptable. simpl. destruct (accept _ _) as [[fd peer] k]. intros (Hfd & Hi & Hown & Hn).
  split_and!; try done. intros t u cq Hu [[E <-]|[_ Hq]]%lookup_insert_Some; [|by apply (Hown t u)].
  apply (Hown t u c Hu). by rewrite <- E.
Qed.

Lemma serve_same k w w' p c :
  serve k w = Ok w' -> channels (io w) !! p = Some c ->
  exists c', channels (io w') !! p = Some c' /\ same_dispatch c c'.
Proof.
  intros Hr Hc. destruct (proj2 (serve_keeps k w w' Hr) p c Hc) as (c' & Hc' & He). exists c'. split; [done|].
  by apply (core_fns server_own c c').
Qed.

Lemma due_keeps l w w' : foldM serve l w = Ok w' -> keeps w w'.
Proof.
  intros Hr. apply (foldM_invariant (keeps w) serve l w w'); [|by apply keeps_same|done].
  intros k w1 w2 Hk Hr1%serve_keeps. by eapply chans_kept_trans.
Qed.

Lemma steady_trans p w1 w2 w3 : steady p w1 w2 -> steady p w2 w3 -> steady p w1 w3.
Proof.
  intros [Ha Hoa] [Hb Hob]. split; [auto|]. intros q Hne Hq Ho. apply Hob; [done|by apply Ha|]. by apply Hoa.
Qed.

Lemma steady_put p c w : steady p w (put_channel p c w).
Proof.
  split; [|done]. intros q Hq. simpl. destruct (decide (q = p)) as [->|]; [|by rewrite lookup_insert_ne].
  rewrite lookup_insert_eq. by eexists.
Qed.

Lemma steady_conn S busy t b w w' :
  serve_inv S [] busy w' -> S !! t = Some b -> keeps w w' -> (forall t2, t2 <> t -> objs w' !! t2 = objs w !! t2) ->
  steady (b_channel b) w w'.
Proof.
  intros Hs Hb [_ Hk] Hrest. split.
  - intros q [c Hc]. destruct (Hk q c Hc) as (c' & Hc' & _). by exists c'.
  - intros q Hne _ Ho t2 u Hu Hq. destruct (decide (t2 = t)) as [->|Ht].
    + destruct (li_conns _ _ _ _ _ _ (sv_loop _ _ _ _ Hs) t b Hb) as (u' & _ & Hu' & Hcu & _).
      change (objs w' !! t = Some u') in Hu'. congruence.
    + rewrite Hrest in Hu by done. by apply (Ho t2).
Qed.

Lemma handle_serve S p w :
  serve_inv S [] None w -> is_Some (channels (io w) !! p) -> bounded_objs w -> report_ok p w -> opened_at p w ->
  exists w' S', handle_channel serve p w = Ok w' /\ serve_inv S' [] None w' /\ steady p w w'.
Proof.
  intros Hs [c Hc] Hroom Hrep Hop. set (w1 := put_channel p (set_handling true c) w).
  assert (serve_inv S [] (Some p) w1) as Hs1 by (apply (put_serve S [] None _ p c); try done; by left).
  destruct (Hrep c Hc) as [Hboth Hacc].
  assert (exists w2 S2, foldM serve (due c) w1 = Ok w2 /\ serve_inv S2 [] (Some p) w2 /\ steady p w1 w2)
    as (w2 & S2 & Hr & Hs2 & Hst).
  { destruct (li_known _ _ _ _ _ _ (sv_loop _ _ _ _ Hs) p c Hc) as [Hown|(t & b & Hb & <- & Hbd)].
    - destruct (own_due_serve S (Some p) c w1 Hs1 Hown) as (w2 & S2 & Hr & Hs2 & Hb).
      { intros Hk Hrd. apply acceptable_put; [done|by apply Hacc]. }
      exists w2, S2. split; [done|]. split; [done|]. apply steady_brings; [by eapply due_keeps|done].
    - destruct (conn_due_inv S (Some (b_channel b)) t b c w1) as (w2 & Hr & Hs2 & Hrest); try done.
      exists w2, S. split; [done|]. split; [done|]. eapply steady_conn; [done|done|by eapply due_keeps|done]. }
  destruct (proj2 (due_keeps _ _ _ Hr) p (set_handling true c)) as (c2 & Hc2 & _); [apply lookup_insert_eq|].
  exists (put_channel p (set_handling false c2) w2), S2. split; [|split].
  - rewrite (handle_channel_spec serve p c w Hc) by (intros k x x' cx; apply serve_same). fold w1. rewrite Hr.
    cbn [mbind result_bind]. unfold channel_at. by rewrite Hc2.
  - apply (put_serve S2 [] (Some p) None p c2); try done; by right.
  - eapply steady_trans; [apply steady_put|]. eapply steady_trans; [exact Hst|apply steady_put].
Qed.

Lemma handle_all_serve S l w :
  serve_inv S [] None w -> NoDup l -> Forall (fun p => is_Some (channels (io w) !! p) /\ opened_at p w) l ->
  throughout (fun p w => bounded_objs w /\ report_ok p w) (handle_channel serve) l w ->
  exists w' S', foldM (handle_channel serve) l w = Ok w' /\ serve_inv S' [] None w'.
Proof.
  intros Hs Hnd. revert S w Hs. induction Hnd as [|p l Hnin Hnd IH]; intros S w Hs Hl Ht; cbn [foldM]; [by exists w, S|].
  apply Forall_cons in Hl as [[Hp Hop] Hl]. apply throughout_cons in Ht as [[Hroom Hrep] Ht].
  destruct (handle_serve S p w Hs Hp Hroom Hrep Hop) as (w1 & S1 & Hr & Hs1 & Hch & Hst). rewrite Hr.
  cbn [mbind result_bind]. apply (IH S1 w1 Hs1); [|by apply Ht].
  apply Forall_forall. intros q Hq. rewrite Forall_forall in Hl. destruct (Hl q Hq) as [Hqc Hqo].
  split; [by apply Hch|]. apply Hst; [|done|done]. congruence.
Qed.

(** ** A turn *)

Lemma poll_serve S tv w :
  resting_at S w -> event_list_size (poller (io w)) < 2 ^ 62 ->
  exists w', poll_active tv w = Ok w' /\ resting_at S w' /\
    Forall (fun p => is_Some (channels (io w') !! p) /\ opened_at p w') (active_channels_ w').
Proof.
  intros [Hs Hq] Hsz. pose proof (sv_loop _ _ _ _ Hs) as Hi.
  destruct (poll_active_spec tv w (li_epoll _ _ _ _ _ _ Hi) Hsz) as (i & a & Hr & _ & _ & Ho & Hmk & _ & Hh).
  destruct (poll_inv this_loop server_own S true tv (loop_of w) Hi Hsz) as (m & Hm & Hi' & Hact & Hu & Hp).
  set (w' := set_active a (set_io i (set_active [] w))) in *.
  assert (m = loop_of w') as ->.
  { revert Hr Hm. unfold poll_active. simpl. destruct (EPoller.poll _ _ _ _) as [[[i' a'] ts]|]; [|done].
    cbn [mbind result_bind]. by intros [= -> ->] [= <-]. }
  exists w'. split; [exact Hr|]. assert (calm_queue (loop_of w')) as Hq' by (unfold calm_queue; by rewrite Hp).
  split; [split; [|done]|].
  - apply (flat_inv S [] [] None w); [done|done|exact Hi'|]. split; [done|exact Ho|exact Hh| |].
    + intros q _. exact (Hmk q).
    + intros q. assert (forall x : option (Channel cb), read_fn_ <$> x = read_fn_ <$> (marks <$> x)) as Hr2 by by intros [[]|].
      rewrite (Hr2 (channels (io (loop_of w')) !! q)), (Hr2 (channels (io (loop_of w)) !! q)). f_equal. exact (Hmk q).
  - eapply Forall_impl; [exact Hact|]. intros p (c & Hc & Hadd). split; [by exists c|]. intros t u Hut Hcu.
    destruct (li_objects _ _ _ _ _ _ Hi' t) as [b Hb]; [by exists u|].
    destruct (li_conns _ _ _ _ _ _ Hi' t b Hb) as (u' & _ & Hu' & Hcu' & _). change (objs w' !! t = Some u') in Hu'.
    eapply (prompt_opened this_loop server_own S true p c (loop_of w')); [done|done|done|exact Hc|done|exact Hb|congruence|done].
Qed.

Lemma functors_serve S l w :
  serve_inv S l None w -> calm_queue (loop_of w) -> throughout (fun _ => bounded_objs) serve_functor l w ->
  exists w', foldM serve_functor l w = Ok w' /\ resting_at S w'.
Proof.
  revert w. induction l as [|x l IH]; intros w Hs Hq Ht; cbn [foldM]; [by exists w|].
  apply throughout_cons in Ht as [Hroom Ht]. destruct (functor_inv S x l None w Hs Hroom) as (w1 & Hr & Hs1 & Hq1).
  rewrite Hr. cbn [mbind result_bind]. apply IH; [done|by apply Hq1|by apply Ht].
Qed.

Lemma pending_serve S w :
  serve_inv S [] None w ->
  throughout (fun _ => bounded_objs) serve_functor (pending_functors_ w) (set_pending [] (set_calling true w)) ->
  exists w', DoPendingFunctors serve_functor w = Ok w' /\ resting_at S w'.
Proof.
  intros Hs Ht. unfold DoPendingFunctors. simpl.
  destruct (functors_serve S (pending_functors_ w) (set_pending [] (set_calling true w))) as (w1 & Hr & Hs1 & Hq).
  { apply (flat_inv S [] _ None w); [done|done| |by apply same_loop_channels].
    apply (swap_inv this_loop server_own S true (set_calling true (loop_of w))). apply flag_inv, Hs. }
  { by apply Forall_nil. }
  { done. }
  rewrite Hr. cbn [mbind result_bind]. eexists. split; [done|]. split; [|exact Hq].
  apply (flat_inv S [] [] None w1); [done|done| |by apply same_loop_channels]. apply (flag_inv this_loop server_own S true [] false (loop_of w1)), Hs1.
Qed.

(** What a turn relies on: what happens beside is as above; the poller's vector has
    not grown out of memory; epoll_wait(2) reports a channel once; and before each
    dispatch and each functor the buffers have room for what it may add, and what was
    reported may be. *)
Definition server_turn_ok (x : list (sact G K) * timeval) w : Prop :=
  throughout sact_ok run_sact x.1 w /\
  forall w1, foldM run_sact x.1 w = Ok w1 ->
    event_list_size (poller (io w1)) < 2 ^ 62 /\
    forall w2, poll_active x.2 w1 = Ok w2 ->
      NoDup (active_channels_ w2) /\
      throughout (fun p w => bounded_objs w /\ report_ok p w) (handle_channel serve) (active_channels_ w2) w2 /\
      forall w3, foldM (handle_channel serve) (active_channels_ w2) w2 = Ok w3 ->
        throughout (fun _ => bounded_objs) serve_functor (pending_functors_ w3) (set_pending [] (set_calling true w3)).

Abbreviation server_turn := (server_turn junk this_loop acc react write_complete v0 timer new_conn).
Abbreviation server_turns := (server_turns junk this_loop acc react write_complete v0 timer new_conn).

Fixpoint server_turns_ok (sched : list (list (sact G K) * timeval)) w : Prop :=
  match sched with
  | [] => True
  | x :: sched => server_turn_ok x w /\ forall w', server_turn x w = Ok w' -> server_turns_ok sched w'
  end.

Lemma sacts_serve S l w :
  resting_at S w -> throughout sact_ok run_sact l w ->
  exists w' S', foldM run_sact l w = Ok w' /\ resting_at S' w'.
Proof.
  revert S w. induction l as [|a l IH]; intros S w Hw Ht; cbn [foldM]; [by exists w, S|].
  apply throughout_cons in Ht as [Ha Ht]. destruct (sact_inv S a w Hw Ha) as (w1 & S1 & Hr & Hw1).
  rewrite Hr. cbn [mbind result_bind]. by apply (IH S1 w1 Hw1), Ht.
Qed.

Lemma turn_serve S x w :
  resting_at S w -> server_turn_ok x w -> exists w' S', server_turn x w = Ok w' /\ resting_at S' w'.
Proof.
  intros Hw [Hacts Ht]. destruct (sacts_serve S x.1 w Hw Hacts) as (w1 & S1 & Hr1 & Hw1).
  destruct (Ht w1 Hr1) as [Hsz Ht2]. destruct (poll_serve S1 x.2 w1 Hw1 Hsz) as (w2 & Hr2 & [Hs2 _] & Hact).
  destruct (Ht2 w2 Hr2) as (Hnd & Hd & Ht3).
  destruct (handle_all_serve S1 (active_channels_ w2) w2 Hs2 Hnd Hact Hd) as (w3 & S3 & Hr3 & Hs3).
  destruct (pending_serve S3 w3 Hs3 (Ht3 w3 Hr3)) as (w4 & Hr4 & Hw4). exists w4, S3. split; [|done].
  unfold ServerLoop.server_turn, turn. rewrite Hr1. cbn [mbind result_bind]. simpl. rewrite Hr2.
  cbn [mbind result_bind]. by rewrite Hr3.
Qed.

Lemma turns_serve S sched w :
  resting_at S w -> server_turns_ok sched w -> exists w' S', server_turns sched w = Ok w' /\ resting_at S' w'.
Proof.
  revert S w. induction sched as [|x sched IH]; intros S w Hw Ht; [by exists w, S|]. destruct Ht as [Hx Ht].
  destruct (turn_serve S x w Hw Hx) as (w1 & S1 & Hr & Hw1). unfold ServerLoop.server_turns. cbn [foldM]. rewrite Hr.
  apply (IH S1 w1 Hw1). by apply Ht.
Qed.

(** *** [Run] *)

Lemma functor_keeps x w w' : serve_functor x w = Ok w' -> EventLoop.status_ w' = EventLoop.status_ w.
Proof.
  destruct x as [t f]. unfold ServerLoop.serve_functor, in_loop_of. rewrite exec_body.
  intros (m & (u & v & _ & Hv & ->)%on_conn_ok & [= <-])%bind_ok.
  by destruct (local_body junk this_loop true react conn_cb_ queue_destroy timer D env_apps t f _ _ _ Hv) as ([_ Hs] & _).
Qed.

Lemma delete_local v v' : TcpConnection_delete v = Ok v' -> EventLoop.status_ v' = EventLoop.status_ v.
Proof. unfold TcpConnection_delete, destroy_channel. intros Hr. inv_ok. done. Qed.

(** Nothing beside the loop sets it running. *)
Lemma sact_never_restarts : never_restarts (run_sact (G := G) (V := V) (K := K)).
Proof.
  intros [a|t|by_] w w' Hr Hs.
  - unfold run_sact, in_loop_of in Hr. apply bind_ok in Hr as (m & Hm & [= <-]). simpl. destruct a as [by_ t g|by_ t|f]; simpl in Hm.
    + injection Hm as <-. unfold QueueInLoop, Wakeup. simpl. destruct (must_wake _ _); [destruct (efd_write _ _)|]; done.
    + apply on_conn_ok in Hm as (u & v & _ & Hv & ->). simpl.
      apply (local_Shutdown any) in Hv as ([_ E] & _); [by rewrite E|done].
    + by injection Hm as <-.
  - unfold run_sact, release, in_loop_of in Hr. apply bind_ok in Hr as (x & Hx & [= <-]).
    apply bind_ok in Hx as (m & (u & v & _ & Hv & ->)%on_conn_ok & [= <-]). apply delete_local in Hv. simpl. by rewrite Hv.
  - injection Hr as <-. unfold Stop, Wakeup. simpl. destruct (negb _); [destruct (efd_write _ _)|]; done.
Qed.

Lemma stop_stops by_ l w w' : SStop by_ ∈ l -> foldM run_sact l w = Ok w' -> EventLoop.status_ w' <> kRunning.
Proof.
  intros (l1 & l2 & ->)%list_elem_of_split. rewrite foldM_app. intros (w1 & _ & Hr)%bind_ok. cbn [foldM run_sact] in Hr.
  apply bind_ok in Hr as (w2 & [= <-] & Hr). eapply foldM_never_restarts; [apply sact_never_restarts|exact Hr|].
  unfold Stop, Wakeup. simpl. destruct (negb _); [destruct (efd_write _ _)|]; done.
Qed.

Lemma server_turn_stops by_ x w w' : SStop by_ ∈ x.1 -> server_turn x w = Ok w' -> EventLoop.status_ w' <> kRunning.
Proof.
  intros Hin (w1 & Hr1 & Hr)%bind_ok. apply (turn_stopped serve_functor serve id x.2 w1 w'); [| |by eapply stop_stops|exact Hr].
  - intros y y1 y2 Hy Hs. by rewrite (functor_keeps _ _ _ Hy).
  - intros k y1 y2 Hy Hs. by rewrite (proj1 (serve_keeps _ _ _ Hy)).
Qed.

(** A schedule as [Run] takes it. *)
Definition beside (x : list (sact G K) * timeval) w : sworld := match foldM run_sact x.1 w with Ok w' => w' | Err _ => w end.
Definition played (sched : list (list (sact G K) * timeval)) (i : nat) : (sworld -> sworld) * timeval :=
  match sched !! i with Some x => (beside x, x.2) | None => (id, mkTimeval 0 0) end.

Lemma turn_played x w w' : server_turn x w = Ok w' -> turn serve_functor serve (beside x) x.2 w = Ok w'.
Proof. unfold ServerLoop.server_turn, turn, beside. intros (w1 & -> & Hr)%bind_ok. exact Hr. Qed.

Lemma Run_loop_serve play S sched w i :
  resting_at S w -> server_turns_ok sched w ->
  (forall k x, sched !! k = Some x -> play (i + k)%nat = (beside x, x.2)) ->
  EventLoop.status_ w <> kRunning \/ (exists x by_, x ∈ sched /\ SStop by_ ∈ x.1) ->
  exists n w' S', server_turns (take n sched) w = Ok w' /\ resting_at S' w' /\
    forall fuel, (length sched < fuel)%nat ->
      Run_loop serve_functor serve fuel play i w = Some (Ok (set_status kStopped w')).
Proof.
  revert S w i. induction sched as [|x sched IH]; intros S w i Hw Ht Hplay Hstop;
    (destruct (IsRunning (EventLoop.status_ w)) eqn:Er;
     [|exists 0%nat, w, S; do 2 (split; [done|]); intros [|fuel] Hf; simpl; by rewrite Er]).
  - apply bool_decide_eq_true in Er. destruct Hstop as [?|(x & ? & Hx & _)]; [done|]. by apply elem_of_nil in Hx.
  - destruct Ht as [Hx Ht]. destruct (turn_serve S x w Hw Hx) as (w1 & S1 & Hr & Hw1).
    destruct (IH S1 w1 (1 + i)%nat Hw1 (Ht w1 Hr)) as (n & w' & S' & Hr' & Hw' & Hrun).
    + intros k y Hk. rewrite <- (Hplay (1 + k)%nat y Hk). f_equal. lia.
    + apply bool_decide_eq_true in Er. destruct Hstop as [?|(y & by_ & [->|Hy]%elem_of_cons & Hin)]; [done|left|right; eauto].
      by eapply server_turn_stops.
    + exists (1 + n)%nat, w', S'. split; [|split; [done|]].
      * unfold ServerLoop.server_turns in Hr' |- *. simpl. by rewrite Hr.
      * intros [|fuel] Hf; simpl in Hf; [lia|]. simpl. rewrite Er. pose proof (Hplay 0%nat x eq_refl) as Hp.
        rewrite Nat.add_0_r in Hp. rewrite Hp. simpl. rewrite (turn_played x w w1 Hr). apply Hrun. lia.
Qed.

(** What holds of an object between turns. *)
Lemma resting_object S w t u :
  resting_at S w -> objs w !! t = Some u -> exists b c kept,
    S !! t = Some b /\ channels (io w) !! channel_ (conn u) = Some c /\ fd_ c = b_fd b /\
    let v := view t u (loop_of w) in
    kept `sublist_of` offered v /\ sent v (fd_ c) ++ output v = mjoin kept /\
    (peer_stays (K := K) (fd_ c) -> kept = offered v) /\
    (conn_status v <> kDisconnected -> index_ c = kAdded /\
       (shut v (fd_ c) = true -> conn_status v = kDisconnecting /\ output v = [])) /\
    (conn_status v = kDisconnected -> index_ c = kNew).
Proof.
  intros [Hs Hq] Hu. pose proof (sv_loop _ _ _ _ Hs) as Hi.
  destruct (li_objects _ _ _ _ _ _ Hi t) as [b Hb]; [by exists u|].
  destruct (resting_conn this_loop server_own S true (loop_of w) t b ltac:(done) Hb) as (u' & c & Hu' & Hc & Hat & Hl & Hg).
  change (objs w !! t = Some u') in Hu'. rewrite Hu in Hu'. injection Hu' as <-.
  destruct (conn_at_parts _ _ _ _ _ _ _ Hat) as (_ & Hch & Hfd & _ & kept & Hk & Hd & Hst).
  rewrite (sv_sent _ _ _ _ Hs t b Hb) in Hd. rewrite <- Hfd in *. exists b, c, kept. do 3 (split; [done|]). cbv zeta.
  split_and!; try done; [|by apply Hg]. intros Hne. destruct (Hl Hne) as [Hst' _].
  split; [apply (ci_added _ _ _ (si_conn _ _ _ _ _ _ Hst'))|]. intros Hsh. by apply (si_shut _ _ _ _ _ _ Hst').
Qed.
End Server.
