(* ===== verification/ServerLoopStart.v ===== *)
(** * A server from its construction on

    [TcpServer]'s constructor and [Start] lead to the invariant of ServerLoopProps.v,
    which any number of turns keep; what the server then promises of the connections
    it accepts. *)

From S2P Require Import SocketOps Acceptor ThreadPool TcpServer TcpServerProps TcpSocket.
From S2P Require Import Prelude Bytes Slice Buffer BufferFacts BufferSpec BufferIO LoopThread Duration.
From S2P Require Import Timestamp Channel EPoller EPollerFacts EventFd ServerStatus LoopChannels.
From S2P Require Import EventLoop EventLoopProps LoopTimers SocketKernel TcpConnection TcpConnFacts TcpSend.
From S2P Require Import TcpConnProps TcpConnLife TcpStream TcpFrame ConnPhases LoopConns LoopServes ServerLoop.
From S2P Require Import ServerLoopInv ServerLoopProps.
#[local] Open Scope Z_scope.

(** socket(2), open(2), setsockopt(2), bind(2) and listen(2) leave epoll alone, and a
    socket supports it (epoll(7)). *)
Class ListenLaws (K : Type) `{EpollKernel K, NetKernel K} := {
  socket_interest f t k : interest (socket f t k).2 = interest k;
  socket_pollable f t k : 0 <= (socket f t k).1 -> pollable (socket f t k).2 (socket f t k).1;
  open_interest k : interest (open_null k).2 = interest k;
  open_pollable k g : pollable k g -> pollable (open_null k).2 g;
  setsockopt_interest fd l o v n k : interest (setsockopt fd l o v n k).2 = interest k;
  setsockopt_pollable fd l o v n k g : pollable k g -> pollable (setsockopt fd l o v n k).2 g;
  bind_interest fd a n k : interest (bind fd a n k).2 = interest k;
  bind_pollable fd a n k g : pollable k g -> pollable (bind fd a n k).2 g;
  listen_interest fd n k : interest (SocketOps.listen fd n k).2 = interest k;
  listen_pollable fd n k g : pollable k g -> pollable (SocketOps.listen fd n k).2 g
}.

Section Start.
Context {G V K : Type} `{EpollLaws K, EventfdKernel K, SocketKernel K, NetKernel K, !ListenLaws K}.
Abbreviation cb := (loop_cb (ptr * conn_cb)).
Abbreviation bworld := (lworld (ptr * functor (task G)) cb unit K).
Abbreviation sworld := (lworld (ptr * functor (task G)) cb (suser V) K).
Implicit Types (b : bworld) (w : sworld) (p : ptr) (c : Channel cb).
Context (this_loop acc : ptr).

(** A loop with its own channels only, which nothing was queued in. *)
Record loop_alone b : Prop := {
  la_epoll : inv_but None (io b);
  la_own p c : channels (io b) !! p = Some c -> own_channel loop_own c /\ event_handling_ c = false;
  la_pending : pending_functors_ b = [];
  la_owner : owner_tid (poller (io b)) = tid_ b
}.

Lemma own_more (P Q : cb -> Prop) c : (forall k, P k -> Q k) -> own_channel P c -> own_channel Q c.
Proof. intros Hpq ((k & Hr & Hk) & Hrest). split; [|done]. exists k. split; [done|by apply Hpq]. Qed.

(** The acceptor: a listening socket's channel, not yet in the loop. *)
Lemma Acceptor_new_spec addr reuse_port p on_read (i i' : EPoller.world cb K) a :
  Acceptor_new this_loop addr reuse_port p on_read i = Ok (a, i') ->
  let fd := (socket (Family addr) (Z.lor SOCK_STREAM (Z.lor SOCK_NONBLOCK SOCK_CLOEXEC)) (kernel i)).1 in
  0 <= fd /\ accept_fd_ a = fd /\ accept_channel_ a = p /\ Acceptor.listenning_ a = false /\ poller i' = poller i /\
  channels i' = <[p := SetReadCallback on_read (Channel_new this_loop fd)]> (channels i) /\
  interest (kernel i') = interest (kernel i) /\ pollable (kernel i') fd.
Proof.
  unfold Acceptor_new, CreateNonblockingSocket. intros Hr.
  pose proof (socket_interest (Family addr) (Z.lor SOCK_STREAM (Z.lor SOCK_NONBLOCK SOCK_CLOEXEC)) (kernel i)) as Si.
  pose proof (socket_pollable (Family addr) (Z.lor SOCK_STREAM (Z.lor SOCK_NONBLOCK SOCK_CLOEXEC)) (kernel i)) as Sp.
  destruct (socket _ _ _) as [fd k1]. simpl in Si, Sp. destruct (Z.ltb_spec fd 0) as [|Hfd]; [done|].
  cbn [mbind result_bind] in Hr. pose proof (open_interest k1) as Oi. pose proof (open_pollable k1 fd (Sp Hfd)) as Op.
  destruct (open_null k1) as [idle k2]. simpl in Oi, Op. apply bind_ok in Hr as (? & _ & Hr).
  unfold SetReuseAddr, SetReusePort, BindAddress, Bind in Hr.
  set (k3 := (setsockopt fd SOL_SOCKET SO_REUSEADDR _ _ k2).2) in Hr.
  assert (interest k3 = interest (kernel i) /\ pollable k3 fd) as [I3 P3].
  { unfold k3. rewrite setsockopt_interest, Oi. split; [done|by apply setsockopt_pollable]. }
  set (k4 := (setsockopt fd SOL_SOCKET SO_REUSEPORT _ _ k3).2) in Hr.
  assert (interest k4 = interest (kernel i) /\ pollable k4 fd) as [I4 P4].
  { unfold k4. rewrite setsockopt_interest, I3. split; [done|by apply setsockopt_pollable]. }
  pose proof (bind_interest fd (GetSockAddr addr) sizeof_sockaddr k4) as Bi.
  pose proof (bind_pollable fd (GetSockAddr addr) sizeof_sockaddr k4 fd P4) as Bp.
  destruct (bind _ _ _ _) as [r k5]. simpl in Bi, Bp. destruct (r <? 0); [done|]. cbn [mbind result_bind] in Hr.
  injection Hr as <- <-. simpl. split_and!; try done. by rewrite Bi.
Qed.

(** Listening registers it. *)
Lemma Listen_spec S (a a' : aworld cb K S) tid c :
  Acceptor.Listen this_loop tid tid a = Ok a' ->
  inv_but None (aio a) -> channels (aio a) !! accept_channel_ (acceptor a) = Some c -> index_ c = kNew ->
  Channel.loop_ c = this_loop -> owner_tid (poller (aio a)) = tid -> accept_fd_ (acceptor a) = fd_ c ->
  interest (kernel (aio a)) !! fd_ c = None -> pollable (kernel (aio a)) (fd_ c) ->
  let c' := SetIndex kAdded (set_added true (set_events (change_events EnableRead (events_ c)) c)) in
  inv_but None (aio a') /\ channels (aio a') = <[accept_channel_ (acceptor a) := c']> (channels (aio a)) /\
  owner_tid (poller (aio a')) = tid /\ Acceptor.server a' = Acceptor.server a /\
  accept_channel_ (acceptor a') = accept_channel_ (acceptor a) /\ accept_fd_ (acceptor a') = accept_fd_ (acceptor a).
Proof.
  intros Hr Hi Hc Hn Hl Ho Hfd Hun Hp c'. unfold Acceptor.Listen in Hr. rewrite AssertInLoopThread_refl in Hr.
  cbn [mbind result_bind] in Hr. unfold Socket_Listen, SocketOps.Listen in Hr. rewrite Hfd in Hr. simpl in Hr.
  pose proof (listen_interest (fd_ c) SOMAXCONN (kernel (aio a))) as Li.
  pose proof (listen_pollable (fd_ c) SOMAXCONN (kernel (aio a)) (fd_ c) Hp) as Lp.
  destruct (SocketOps.listen _ _ _) as [r k]. simpl in Li, Lp. destruct (r <? 0); [done|]. cbn [mbind result_bind] in Hr.
  destruct (Channel_change_spec this_loop tid EnableRead (accept_channel_ (acceptor a)) c (set_kernel k (aio a)))
    as (i & Hi' & Hinv & Hch & _ & _ & How).
  - by apply inv_set_kernel.
  - split_and!; try done. intros _. split; [|done].
    change (channel_map_ (poller (aio a)) !! fd_ c = None).
    destruct (channel_map_ (poller (aio a)) !! fd_ c) as [q|] eqn:E; [|done].
    destruct (inv_map _ _ Hi _ _ E) as (? & ? & _ & _ & _ & Hin & _). congruence.
  - rewrite Hi' in Hr. injection Hr as <-. split_and!; try done. simpl in How |- *. congruence.
Qed.
End Start.

Section Server.
Context {G V K : Type} `{EpollLaws K, EventfdKernel K, SocketKernel K, !SocketLaws K, !SocketFrame K, !LoopKernelLaws K,
  NetKernel K, !NetLaws K, !ServerKernelLaws K, !ListenLaws K}.
Abbreviation cb := (loop_cb (ptr * conn_cb)).
Abbreviation conn_user := (cuser sockaddr (list bytes * V)).
Abbreviation cworld := (lworld (functor (task G)) cb conn_user K).
Abbreviation mworld := (lworld (ptr * functor (task G)) cb (gmap ptr conn_user) K).
Abbreviation bworld := (lworld (ptr * functor (task G)) cb unit K).
Abbreviation sworld := (lworld (ptr * functor (task G)) cb (suser V) K).
Implicit Types (b : bworld) (w : sworld) (p : ptr) (c : Channel cb).
Context (this_loop acc : ptr).

(** The server before it listens. *)
Lemma TcpServer_ctor_spec addr ip_port name num_thread reuse_port p b w :
  TcpServer_ctor this_loop acc addr ip_port name num_thread reuse_port p b = Ok w ->
  exists a i, Acceptor_new this_loop addr reuse_port p (OnChannel (acc, OnRead)) (io b) = Ok (a, i) /\
    io w = i /\ tid_ w = tid_ b /\ pending_functors_ w = pending_functors_ b /\
    user w = mkSUser ∅ (TcpServer_new this_loop (tid_ b) ip_port name num_thread) a.
Proof. unfold TcpServer_ctor. intros ([a i] & Ha & [= <-])%bind_ok. by exists a, i. Qed.

(** A pool without threads runs at once. *)
Lemma pool_single StartLoop tid ip_port name n :
  n <= 0 ->
  (ThreadPool.Start StartLoop false (thread_pool_ (TcpServer_new this_loop tid ip_port name n))).1 =
    set_pool_status kRunning (SetThreadNum 0 (EventLoopThreadPool_new this_loop tid name)).
Proof.
  intros Hn. unfold TcpServer_new, ThreadPool.Start. simpl.
  assert ((if n <? 0 then 0 else n) = 0) as -> by (destruct (Z.ltb_spec n 0); lia). done.
Qed.

Lemma server_Start_spec StartLoop addr ip_port name num_thread reuse_port p b w w' :
  TcpServer_ctor this_loop acc addr ip_port name num_thread reuse_port p b = Ok w ->
  Start this_loop (tid_ b) StartLoop w = Ok w' -> num_thread <= 0 ->
  exists a, Acceptor.Listen this_loop (tid_ b) (tid_ b) (as_acceptor w) = Ok a /\
    w' = set_the_server (srv w') (of_acceptor a) /\
    srv w' = set_server_status kRunning (set_listenning true (set_pool (set_pool_status kRunning (SetThreadNum 0
       (EventLoopThreadPool_new this_loop (tid_ b) name)))
       (set_server_status kStarting (TcpServer_new this_loop (tid_ b) ip_port name num_thread)))).
Proof.
  intros (a0 & i & Ha & Hio & Ht & Hp & Hu)%TcpServer_ctor_spec Hr Hn. unfold Start in Hr. rewrite Hu, Ht in Hr.
  cbn [the_server TcpServer.status_ TcpServer_new set_server_status] in Hr.
  rewrite bool_decide_eq_true_2 in Hr by done. apply bind_ok in Hr as (? & _ & Hr). apply bind_ok in Hr as (a & Hl & [= <-]).
  exists a. split; [exact Hl|]. split; [done|]. unfold srv. simpl. do 3 f_equal. by apply (pool_single StartLoop (tid_ b) ip_port).
Qed.

(** [TcpServer::Start] makes the loop serve: no connections yet. *)
Lemma server_rests StartLoop addr ip_port name num_thread reuse_port p b w w' :
  loop_alone b -> channels (io b) !! p = None -> p <> 0 ->
  interest (kernel (io b)) !! (socket (Family addr) (Z.lor SOCK_STREAM (Z.lor SOCK_NONBLOCK SOCK_CLOEXEC)) (kernel (io b))).1 = None ->
  num_thread <= 0 -> (String.length ip_port <= 51)%nat ->
  TcpServer_ctor this_loop acc addr ip_port name num_thread reuse_port p b = Ok w ->
  Start this_loop (tid_ b) StartLoop w = Ok w' -> resting_at this_loop acc ∅ w'.
Proof.
  intros Hb Hp Hp0 Hun Hn Hip Hctor Hstart.
  destruct (server_Start_spec StartLoop addr ip_port name num_thread reuse_port p b w w' Hctor Hstart Hn) as (a2 & Hl & Hw' & Hsrv).
  apply TcpServer_ctor_spec in Hctor as (a & i & Ha & Hio & Ht & Hpend & Hu).
  destruct (Acceptor_new_spec this_loop addr reuse_port p _ (io b) i a Ha) as (_ & Hafd & Hach & _ & Hpo & Hch & Hint & Hpoll).
  set (fd := (socket _ _ _).1) in *. set (c := SetReadCallback _ _) in Hch.
  assert (acceptor (as_acceptor w) = a) as Eacc by (unfold as_acceptor; simpl; by rewrite Hu).
  assert (aio (as_acceptor w) = i) as Eio by exact Hio.
  assert (inv_but None i) as Hi.
  { assert (i = EPoller.set_channel p c (set_kernel (kernel i) (io b))) as ->.
    { destruct i. simpl in *. by subst. }
    apply inv_new_channel; [by apply inv_set_kernel; [|apply Hb]|simpl; rewrite Hp; by intros ? [=]|done]. }
  destruct (Listen_spec this_loop sworld (as_acceptor w) a2 (tid_ b) c Hl) as (Hi2 & Hch2 & How2 & Hsv2 & Hac2 & Haf2);
    rewrite ?Eacc, ?Eio, ?Hach, ?Hch, ?Hpo, ?Hint; try done.
  { apply lookup_insert_eq. }
  { apply Hb. }
  rewrite Eacc, Eio, Hach, Hch, insert_insert_eq in Hch2. set (c' := SetIndex _ _) in Hch2.
  assert (io w' = aio a2) as Eio' by by rewrite Hw'.
  assert (tid_ w' = tid_ b) as Et by (rewrite Hw'; simpl; by rewrite Hsv2).
  assert (pending_functors_ w' = []) as Ep by (rewrite Hw'; simpl; rewrite Hsv2; simpl; rewrite Hpend; apply Hb).
  assert (objs w' = ∅) as Eo by (rewrite Hw'; unfold objs; simpl; rewrite Hsv2; simpl; by rewrite Hu).
  assert (channels (io w') = <[p := c']> (channels (io b))) as Ec by by rewrite Eio', Hch2.
  split; [split|].
  - split.
    + change (inv_but None (io w')). by rewrite Eio'.
    + intros t x Hx. by rewrite lookup_empty in Hx.
    + intros q cq. change (channels (io (loop_of w'))) with (channels (io w')). rewrite Ec.
      intros [[<- <-]|[_ Hq]]%lookup_insert_Some.
      * left. split; [|done]. eexists. split; [done|]. by right.
      * left. eapply own_more; [|by apply (la_own b Hb q)]. by left.
    + intros x. change (pending_functors_ (loop_of w')) with (pending_functors_ w'). rewrite Ep. by intros Hx%elem_of_nil.
    + intros t. change (user (loop_of w')) with (objs w'). rewrite Eo, lookup_empty. by intros [? ?].
  - split; intros ? ?; by rewrite lookup_empty.
  - apply lookup_empty.
  - intros t x. by rewrite lookup_empty.
  - by rewrite Eio', How2, Et.
  - intros q cq. rewrite Ec. intros [[<- <-]|[_ Hq]]%lookup_insert_Some _; [done|]. by apply (la_own b Hb q).
  - split; rewrite Hsrv, ?Et; by simpl.
  - split; rewrite ?Hsrv, ?Eo; simpl.
    + intros n t. rewrite lookup_empty. split; [done|]. intros (u & Hx & _). by rewrite lookup_empty in Hx.
    + intros n t. by rewrite lookup_empty.
    + intros t u. by rewrite lookup_empty.
  - unfold listening, listening_on. assert (the_acceptor (user w') = acceptor a2) as -> by by rewrite Hw'.
    rewrite Hac2, Haf2, Eacc, Hach, Hafd, Ec. split; [done|]. split.
    + exists c'. by rewrite lookup_insert_eq.
    + intros q cq [[<- <-]|[_ Hq]]%lookup_insert_Some Hrd; [done|].
      destruct (la_own b Hb q cq Hq) as [((k & Hk & Hown) & _) _]. destruct Hown as [-> | ->]; congruence.
  - unfold calm_queue. change (pending_functors_ (loop_of w')) with (pending_functors_ w'). rewrite Ep. by apply Forall_nil.
Qed.

(** A server that was constructed in a loop of its own and started there. *)
Definition launched w : Prop := exists StartLoop addr ip_port name num_thread reuse_port p b w1,
  loop_alone b /\ channels (io b) !! p = None /\ p <> 0 /\
  interest (kernel (io b)) !! (socket (Family addr) (Z.lor SOCK_STREAM (Z.lor SOCK_NONBLOCK SOCK_CLOEXEC)) (kernel (io b))).1 = None /\
  num_thread <= 0 /\ (String.length ip_port <= 51)%nat /\
  TcpServer_ctor this_loop acc addr ip_port name num_thread reuse_port p b = Ok w1 /\
  Start this_loop (tid_ b) StartLoop w1 = Ok w.

Lemma launched_rests w : launched w -> resting_at this_loop acc ∅ w.
Proof.
  intros (StartLoop & addr & ip_port & name & n & reuse & p & b & w1 & Hb & Hp & Hp0 & Hun & Hn & Hip & Hc & Hs).
  exact (server_rests StartLoop addr ip_port name n reuse p b w1 w Hb Hp Hp0 Hun Hn Hip Hc Hs).
Qed.

(** ** What a server promises *)

(** Of the object at [t] and its socket: what was given to the kernel since the socket
    was accepted, and what is buffered, is what the application offered. *)
Definition streams w t (u : conn_user) : Prop := exists c kept,
  channels (io w) !! channel_ (conn u) = Some c /\
  let v := view t u (loop_of w) in
  kept `sublist_of` offered v /\ sent v (fd_ c) ++ output v = mjoin kept /\
  (peer_stays (K := K) (fd_ c) -> kept = offered v) /\
  (conn_status v <> kDisconnected -> index_ c = kAdded /\
     (shut v (fd_ c) = true -> conn_status v = kDisconnecting /\ output v = [])) /\
  (conn_status v = kDisconnected -> index_ c = kNew).

Record served w : Prop := {
  se_listed n t : connections_ (srv w) !! n = Some t <->
    exists u, objs w !! t = Some u /\ name_ (conn u) = n /\ IsDisconnected (conn u) = false;
  se_descriptors t t' u u' c c' : objs w !! t = Some u -> channels (io w) !! channel_ (conn u) = Some c ->
    objs w !! t' = Some u' -> channels (io w) !! channel_ (conn u') = Some c' -> fd_ c = fd_ c' -> t = t';
  se_streams t u : objs w !! t = Some u -> streams w t u
}.

Lemma resting_served S w : resting_at this_loop acc S w -> served w.
Proof.
  intros Hw. pose proof Hw as [Hs _]. split.
  - apply (sv_map _ _ _ _ _ _ Hs).
  - intros t t' u u' c c' Hu Hc Hu' Hc' He.
    destruct (resting_object this_loop acc S w t u Hw Hu) as (b & c0 & ? & Hb & Hc0 & Hf & _).
    destruct (resting_object this_loop acc S w t' u' Hw Hu') as (b' & c0' & ? & Hb' & Hc0' & Hf' & _).
    apply (bo_fd _ (sv_bases _ _ _ _ _ _ Hs) t t' b b' Hb Hb'). congruence.
  - intros t u Hu. destruct (resting_object this_loop acc S w t u Hw Hu) as (b & c & kept & _ & Hc & _ & Hrest).
    by exists c, kept.
Qed.
End Server.

(** [C1] A server serves its connections, from its start on.  Construct a [TcpServer]
    without threads in a loop and start it; then let the loop turn any number of times:
    connections are accepted, the kernel reports events on any channel in any order,
    other threads queue functors and shut connections down, every connection runs
    application code of its own, and objects to which nothing refers are deleted,
    their descriptors free for later connections.  No member fails.  The server's map
    lists exactly the connections that are not disconnected, each under its own name;
    no two objects have the same descriptor; and for each, the bytes that the kernel
    has accepted on its socket since it was accepted, followed by those in its output
    buffer, are the messages that its application offered while it was connected,
    whole and in order, all of them if the peer stays.  A connection that is not
    disconnected is in the loop and its sending side is shut down only when its buffer
    has drained; one that disconnected has left the poller when the turn ends. *)
Theorem server_serves {G V K} `{EpollLaws K, EventfdKernel K, SocketKernel K, !SocketLaws K, !SocketFrame K, !LoopKernelLaws K,
    NetKernel K, !NetLaws K, !ServerKernelLaws K, !ListenLaws K}
    junk this_loop acc react write_complete v0 timer new_conn D sched
    (w : lworld (ptr * functor (task G)) (loop_cb (ptr * conn_cb)) (suser V) K) :
  server_env acc react timer new_conn D -> launched this_loop acc w ->
  server_turns_ok junk this_loop acc react write_complete v0 timer new_conn D sched w ->
  exists w', server_turns junk this_loop acc react write_complete v0 timer new_conn sched w = Ok w' /\ served w'.
Proof.
  intros Henv Hw%launched_rests Ht.
  destruct (turns_serve junk this_loop acc react write_complete v0 timer new_conn D Henv ∅ sched w Hw Ht)
    as (w' & S & Hr & Hw'). exists w'. split; [done|]. by eapply resting_served.
Qed.

(** [C2] Whatever happened since the server started, it takes a connection that waits.
    The connection gets an object at a new address and a channel that is in the loop,
    with the descriptor that [accept] answered; the map gains its name, which is the
    server's with the next number, and the server counts on; nobody else's object is
    touched, and what holds between turns ([server_serves]) holds again. *)
Theorem server_accepts {G V K} `{EpollLaws K, EventfdKernel K, SocketKernel K, !SocketLaws K, !SocketFrame K, !LoopKernelLaws K,
    NetKernel K, !NetLaws K, !ServerKernelLaws K, !ListenLaws K}
    junk this_loop acc react write_complete v0 timer new_conn D sched
    (w w1 : lworld (ptr * functor (task G)) (loop_cb (ptr * conn_cb)) (suser V) K) :
  server_env acc react timer new_conn D -> launched this_loop acc w ->
  server_turns_ok junk this_loop acc react write_complete v0 timer new_conn D sched w ->
  server_turns junk this_loop acc react write_complete v0 timer new_conn sched w = Ok w1 -> acceptable w1 ->
  let fd := (accept (accept_fd_ (the_acceptor (user w1))) (kernel (io w1))).1.1 in
  exists w', on_acceptable junk this_loop react write_complete v0 new_conn (tid_ w1) w1 = Ok w' /\
    joined fd w1 w' /\ served w'.
Proof.
  intros Henv Hw%launched_rests Ht Hr Hacc fd.
  destruct (turns_serve junk this_loop acc react write_complete v0 timer new_conn D Henv ∅ sched w Hw Ht)
    as (w0 & S & Hr0 & [Hs Hq]). rewrite Hr in Hr0. injection Hr0 as <-.
  destruct (accept_inv junk this_loop acc react write_complete v0 timer new_conn D Henv S None w1 Hs Hacc)
    as (w' & S' & Hr' & Hs' & Hj & Hc). exists w'. split; [done|]. split; [done|].
  apply (resting_served this_loop acc S'). split; [done|by apply Hc].
Qed.

(** [C3] [EventLoop::Run] of a server's loop returns.  As [server_serves], with the
    loop's own function: once a thread calls [Stop], [Run] returns at the end of that
    turn; the turns it did are the first of the schedule, none fails, and the loop is
    stopped with all that a server promises. *)
Theorem server_runs {G V K} `{EpollLaws K, EventfdKernel K, SocketKernel K, !SocketLaws K, !SocketFrame K, !LoopKernelLaws K,
    NetKernel K, !NetLaws K, !ServerKernelLaws K, !ListenLaws K}
    junk this_loop acc react write_complete v0 timer new_conn D sched x by_
    (w : lworld (ptr * functor (task G)) (loop_cb (ptr * conn_cb)) (suser V) K) :
  server_env acc react timer new_conn D -> launched this_loop acc w -> EventLoop.status_ w <> kRunning ->
  server_turns_ok junk this_loop acc react write_complete v0 timer new_conn D sched (set_status kRunning w) ->
  x ∈ sched -> SStop by_ ∈ x.1 ->
  exists n w', (n <= length sched)%nat /\
    server_turns junk this_loop acc react write_complete v0 timer new_conn (take n sched) (set_status kRunning w) = Ok w' /\
    served w' /\
    forall fuel, (length sched < fuel)%nat ->
      Run (serve_functor junk this_loop react) (serve junk this_loop acc react write_complete v0 timer new_conn)
        fuel (played sched) (tid_ w) w = Some (Ok (set_status kStopped w')).
Proof.
  intros Henv [Hw Hq]%launched_rests Hst Ht Hx Hin. apply (status_inv this_loop acc _ _ _ kRunning) in Hw.
  destruct (Run_loop_serve junk this_loop acc react write_complete v0 timer new_conn D Henv (played sched) ∅ sched
    (set_status kRunning w) 0 ltac:(by split) Ht) as (n & w' & S & Hr & Hw' & Hrun).
  { intros k y Hk. unfold played. simpl. by rewrite Hk. }
  { right. by exists x, by_. }
  exists (min n (length sched)), w'. split; [lia|]. split.
  { destruct (Nat.le_gt_cases n (length sched)); [by rewrite Nat.min_l by done|].
    rewrite Nat.min_r, firstn_all by lia. by rewrite take_ge in Hr by lia. }
  split; [by eapply resting_served|]. intros fuel Hf. unfold Run. rewrite AssertInLoopThread_refl.
  replace (IsRunning (EventLoop.status_ w)) with false by (symmetry; by apply bool_decide_eq_false). by apply Hrun.
Qed.
