(* ===== verification/ServerLoopEnd.v ===== *)
(** * The end of a server

    [TcpServer]'s destructor while its loop stays: every connection is let go, the
    acceptor leaves the poller, and what remains is a loop that can be used again. *)

From S2P Require Import SocketOps Acceptor ThreadPool TcpServer TcpServerProps TcpSocket.
From S2P Require Import Prelude Bytes Slice Buffer BufferFacts BufferSpec BufferIO LoopThread Duration.
From S2P Require Import Timestamp Channel EPoller EPollerFacts EventFd ServerStatus LoopChannels.
From S2P Require Import EventLoop EventLoopProps LoopTimers SocketKernel TcpConnection TcpConnFacts TcpSend.
From S2P Require Import TcpConnProps TcpConnLife TcpStream TcpFrame ConnPhases LoopConns LoopServes ServerLoop.
From S2P Require Import ServerLoopInv ServerLoopProps ServerLoopStart.
#[local] Open Scope Z_scope.

Section End.
Context {G V K : Type} `{EpollLaws K, EventfdKernel K, SocketKernel K, !SocketLaws K, !SocketFrame K, !LoopKernelLaws K,
  NetKernel K, !NetLaws K, !ServerKernelLaws K}.
Abbreviation cb := (loop_cb (ptr * conn_cb)).
Abbreviation conn_user := (cuser sockaddr (list bytes * V)).
Abbreviation cworld := (lworld (functor (task G)) cb conn_user K).
Abbreviation mworld := (lworld (ptr * functor (task G)) cb (gmap ptr conn_user) K).
Abbreviation bworld := (lworld (ptr * functor (task G)) cb unit K).
Abbreviation sworld := (lworld (ptr * functor (task G)) cb (suser V) K).
Abbreviation any := (fun _ : functor (task G) => True).
Implicit Types (v : cworld) (m : mworld) (w : sworld) (t p : ptr) (u : conn_user) (c : Channel cb) (S : gmap ptr base)
  (a : Acceptor) (l : list (string * ptr)).

Context (junk : nat -> byte) (this_loop acc : ptr) (react : ptr -> trigger (task G) -> cworld -> list user_op)
  (write_complete : bool) (v0 : V) (timer : mworld -> result mworld) (new_conn : sworld -> ptr * ptr) (D : Z)
  (Henv : server_env acc react timer new_conn D).

Abbreviation conn_cb_ := (conn_cb_ junk this_loop react).
Abbreviation own := (server_own acc).

(** The loop without a server. *)
Definition without m : bworld :=
  mkLWorld (tid_ m) (EventLoop.status_ m) (is_calling_pending_functors_ m) (pending_functors_ m)
    (wakeup_channel_ m) (timer_channel_ m) (active_channels_ m) (threads m) (io m) tt.

(** What is left of a server that was destroyed at [w]. *)
Record ended (kept : ptr -> mworld -> bool) w m : Prop := {
  ed_closed t u : user m !! t = Some u -> IsDisconnected (conn u) = true /\
    exists c, channels (io m) !! channel_ (conn u) = Some c /\ index_ c = kNew;
  ed_left t : is_Some (user m !! t) ->
    (exists u, objs w !! t = Some u /\ IsDisconnected (conn u) = true) \/ exists m', kept t m' = true;
  ed_acceptor : channels (io m) !! accept_channel_ (the_acceptor (user w)) = None /\
    interest (kernel (io m)) !! accept_fd_ (the_acceptor (user w)) = None;
  ed_alone : user m = ∅ -> loop_alone (without m)
}.

(** Between two connections that are let go: those of [l] are to come, and what is left
    of the others has closed and satisfies [P]. *)
Record ending a (P : ptr -> Prop) l S m : Prop := {
  en_loop : loop_inv this_loop own S true [] m;
  en_bases : bases_ok S;
  en_acc : S !! acc = None;
  en_calm : calm_queue m;
  en_owner : owner_tid (poller (io m)) = tid_ m;
  en_still p c : channels (io m) !! p = Some c -> event_handling_ c = false;
  en_listen : listening_on this_loop acc (channels (io m)) a;
  en_idle : interest (kernel (io m)) !! idlefd_ a = None;
  en_todo t : t ∈ l.*2 -> exists u, user m !! t = Some u /\ status_ (conn u) = kConnected /\
    bounded D (view t u m) /\ loop_ (conn u) = this_loop;
  en_left t u : user m !! t = Some u -> t ∈ l.*2 \/ IsDisconnected (conn u) = true /\ P t
}.

Lemma ending_mono a (P Q : ptr -> Prop) l S m : (forall t, P t -> Q t) -> ending a P l S m -> ending a Q l S m.
Proof. intros Hpq []. split; try done. intros t u Hu. destruct (en_left0 t u Hu) as [?|[? ?]]; auto. Qed.

(** A connection that is connected is in the poller. *)
Lemma live_watched fd x ahead v c :
  live this_loop true fd x ahead v c -> is_Some (interest (kernel (io v)) !! fd).
Proof.
  intros [[Hc Hf _ _ _ _ _ _ _] _]. pose proof (ci_epoll _ _ _ Hc) as Hi.
  destruct (inv_index _ _ Hi _ _ (ci_channel _ _ _ Hc)) as [Hn|[_ Hm]].
  - by rewrite (ci_added _ _ _ Hc) in Hn.
  - destruct (inv_map _ _ Hi _ _ Hm) as (c' & ev & _ & _ & _ & Hin & _). rewrite <- Hf, Hin. by eexists.
Qed.

Lemma local_destroyed t cur v v' : OnConnectDestroyed this_loop cur (conn_cb_ t) v = Ok v' -> local calm v v'.
Proof.
  exact (local_body junk this_loop true react conn_cb_ queue_destroy timer D
    (env_apps junk this_loop acc react timer new_conn D Henv) t (FOther Destroy) cur v v').
Qed.

(** [OnConnectDestroyed] of one of them. *)
Lemma destroys_one a P l S m n t :
  ending a P ((n, t) :: l) S m -> t ∉ l.*2 ->
  exists m', on_conn t (OnConnectDestroyed this_loop (tid_ m) (conn_cb_ t)) m = Ok m' /\ tid_ m' = tid_ m /\
    ending a (fun t' => t' = t \/ P t') l S m' /\ exists u, user m' !! t = Some u /\ IsDisconnected (conn u) = true.
Proof.
  intros [Hi HB Hacc Hq Ho Hst Hli Hid Htodo Hleft] Hnot.
  destruct (Htodo t) as (u & Hu & Hcon & Hbd & _); [by left|].
  destruct (li_objects _ _ _ _ _ _ Hi t) as [b Hb]; [by exists u|].
  destruct (li_conns _ _ _ _ _ _ Hi t b Hb) as (u' & c & Hu' & Hcu & Hat & Hbt). rewrite Hu in Hu'. injection Hu' as <-.
  assert (live this_loop true (b_fd b) (b_sent b) [] (view t u m) c) as Hlive.
  { destruct Hat as [?|Hg]; [done|]. pose proof (go_status _ _ _ _ _ _ Hg) as Hx. unfold conn_status, the_conn in Hx.
    simpl in Hx. congruence. }
  destruct (live_destroyed junk this_loop true (b_fd b) (b_sent b) (react t) D (se_react _ _ _ _ _ Henv t) [] (view t u m) c)
    as (v & c' & Hr & Hg); try done.
  { unfold the_conn. simpl. rewrite Hcu. by apply (bo_channel _ HB t b). }
  change (OnConnectDestroyed this_loop (tid_ m) (conn_cb_ t) (view t u m) = Ok v) in Hr.
  pose proof (local_destroyed t _ _ _ Hr) as Hl.
  destruct (conn_step_inv this_loop own S true HB [] [] m t b (OnConnectDestroyed this_loop (tid_ m) (conn_cb_ t)) Hi Hb)
    as (m' & Hm' & Hi'); try done.
  { intros y y' Hy. by eapply local_mono, local_destroyed. }
  { intros u' c0 Hu' _ _. rewrite Hu in Hu'. injection Hu' as <-. exists v, c'. split; [done|by right]. }
  pose proof (on_conn_same t _ m m' ltac:(intros y y' Hy; by eapply local_mono, local_destroyed) Hm')
    as [[Ht How Hh Hoth Hrd] (u0 & v1 & Hu0 & Hv1 & Hus & _)].
  rewrite Hu in Hu0. injection Hu0 as <-. rewrite Hr in Hv1. injection Hv1 as <-.
  assert (IsDisconnected (conn (user v)) = true) as Hcl
    by (apply bool_decide_eq_true; exact (go_status _ _ _ _ _ _ Hg)).
  exists m'. split; [exact Hm'|]. split; [exact Ht|]. split.
  2:{ exists (user v). rewrite Hus, lookup_insert_eq. by split. }
  split; try done.
  - eapply calm_step; [|exact Hm'|exact Hq]. intros y y'. apply local_destroyed.
  - by rewrite How, Ht.
  - intros p cp Hp. specialize (Hh p). rewrite Hp in Hh. symmetry in Hh. apply fmap_Some in Hh as (c0 & Hc0 & ->). by apply (Hst p).
  - apply (listening_marks this_loop acc (channels (io m))); [|exact Hrd|exact Hli]. apply Hoth.
    intros t2 u2. by apply (apart_from_acceptor this_loop acc S [] m a).
  - apply on_conn_ok in Hm' as (u2 & v2 & Hu2 & Hv2 & ->). rewrite Hu in Hu2. injection Hu2 as <-.
    rewrite Hr in Hv2. injection Hv2 as <-. destruct Hl as (_ & _ & [_ _ _ Hk] & _).
    destruct (Hk (idlefd_ a)) as (E & _); [|by rewrite <- Hid].
    unfold fd_at, the_conn. simpl. destruct (conn_at_parts _ _ _ _ _ _ _ Hat) as (_ & Hc & Hfd & _).
    unfold the_conn in Hc. simpl in Hc. rewrite Hc. simpl. rewrite Hfd. intros [= E].
    destruct (live_watched _ _ _ _ _ Hlive) as [ev Hev]. simpl in Hev. congruence.
  - intros t2 Ht2. destruct (Htodo t2) as (u2 & Hu2 & Hrest); [by right|]. exists u2. split; [|exact Hrest].
    rewrite Hus, lookup_insert_ne; [done|]. by intros <-.
  - intros t2 u2. rewrite Hus. intros [[<- <-]|[Hne Hu2]]%lookup_insert_Some; [right; split; [exact Hcl|by left]|].
    destruct (Hleft t2 u2 Hu2) as [[->|?]%elem_of_cons|[? ?]]; [done|by left|right; split; [done|by right]].
Qed.

(** The last reference to one that closed goes. *)
Lemma deletes_one a P l S m t u :
  ending a P l S m -> user m !! t = Some u -> IsDisconnected (conn u) = true -> t ∉ l.*2 ->
  mine t (pending_functors_ m) = [] ->
  exists m1 m', on_conn t TcpConnection_delete m = Ok m1 /\ m' = set_user (delete t (user m1)) m1 /\
    tid_ m' = tid_ m /\ ending a (fun t' => t' <> t /\ P t') l (delete t S) m'.
Proof.
  intros [Hi HB Hacc Hq Ho Hst Hli Hid Htodo Hleft] Hu Hcl Hnot Hm.
  destruct (li_objects _ _ _ _ _ _ Hi t) as [b Hb]; [by exists u|].
  destruct (shrink_inv this_loop own S t b u m HB Hi Hb Hu Hcl Hm Hst) as (m1 & Hr & He & HB' & Hi').
  destruct (li_conns _ _ _ _ _ _ Hi t b Hb) as (u' & c & Hu' & Hcu & Hat & _). rewrite Hu in Hu'. injection Hu' as <-.
  exists m1, (leave t (b_channel b) (b_fd b) m). split; [exact Hr|]. split; [by rewrite <- He|]. split; [done|].
  split; try done.
  - rewrite lookup_delete_None. by right.
  - intros p cp. simpl. intros [_ Hp]%lookup_delete_Some. by apply (Hst p).
  - apply listening_delete; [|exact Hli]. rewrite <- Hcu. by apply (apart_from_acceptor this_loop acc S [] m a t).
  - simpl. apply idle_gone in Hat; [|exact Hcl|exact Hm].
    by rewrite (close_interest _ _ (go_unwatched _ _ _ _ _ _ Hat)).
  - intros t2 Ht2. destruct (Htodo t2 Ht2) as (u2 & Hu2 & Hrest). exists u2. split; [|exact Hrest].
    simpl. rewrite lookup_delete_ne; [done|]. by intros <-.
  - intros t2 u2. simpl. intros [Hne Hu2]%lookup_delete_Some. destruct (Hleft t2 u2 Hu2) as [?|[? ?]]; [by left|right].
    split; [done|]. split; [by intros ->|done].
Qed.

(** [kept]: only what no functor refers to is deleted at once. *)
Context (kept : ptr -> mworld -> bool).
Definition keeps_referred : Prop := forall t m, kept t m = false -> mine t (pending_functors_ m) = [].
Context (Hkept : keeps_referred).

Abbreviation let_go := (let_go junk this_loop react).
Abbreviation outlives := (fun t => exists m, kept t m = true).

Lemma lets_one_go a P l S m n t :
  ending a P ((n, t) :: l) S m -> t ∉ l.*2 -> (forall t, outlives t -> P t) ->
  exists m' S', let_go (tid_ m) kept (n, t) m = Ok m' /\ tid_ m' = tid_ m /\ ending a P l S' m'.
Proof.
  intros He Hnot HP. destruct (en_todo _ _ _ _ _ He t) as (u0 & Hu0 & _ & _ & Hl); [by left|].
  destruct (destroys_one a P l S m n t He Hnot) as (m1 & Hr1 & Ht1 & He1 & u & Hu & Hcl).
  unfold ServerLoop.let_go. simpl. rewrite Hu0. cbn [deref mbind result_bind].
  rewrite Hl, bool_decide_eq_true_2, Hr1 by done. cbn [mbind result_bind]. destruct (kept t m1) eqn:Ek.
  - exists m1, S. split; [done|]. split; [done|]. eapply ending_mono; [|exact He1].
    intros t' [->|?]; [|done]. apply HP. by exists m1.
  - destruct (deletes_one a _ l S m1 t u He1 Hu Hcl Hnot (Hkept t m1 Ek)) as (m2 & m' & Hr2 & -> & Ht2 & He2).
    rewrite Hr2. cbn [mbind result_bind]. eexists _, _. split; [done|]. split; [congruence|].
    eapply ending_mono; [|exact He2]. intros t' [Hne [?|?]]; [done|done].
Qed.

Lemma lets_all_go a P l S m :
  ending a P l S m -> NoDup l.*2 -> (forall t, outlives t -> P t) ->
  exists m' S', foldM (let_go (tid_ m) kept) l m = Ok m' /\ tid_ m' = tid_ m /\ ending a P [] S' m'.
Proof.
  intros He Hnd HP. revert S m He. induction l as [|[n t] l IH]; intros S m He; cbn [foldM]; [by exists m, S|].
  apply NoDup_cons in Hnd as [Hnot Hnd]. destruct (lets_one_go a P l S m n t He Hnot HP) as (m1 & S1 & Hr & Ht & He1).
  rewrite Hr. cbn [mbind result_bind]. destruct (IH Hnd S1 m1 He1) as (m' & S' & Hr' & Ht' & He').
  rewrite Ht in Hr'. exists m', S'. split; [done|]. split; [congruence|done].
Qed.

(** The acceptor leaves the poller, and its channel, its socket and the null
    descriptor are given back. *)
Lemma end_acceptor_spec a m :
  inv_but None (io m) -> listening_on this_loop acc (channels (io m)) a -> owner_tid (poller (io m)) = tid_ m ->
  (forall p c, channels (io m) !! p = Some c -> event_handling_ c = false) -> interest (kernel (io m)) !! idlefd_ a = None ->
  exists m', end_acceptor this_loop (tid_ m) a m = Ok m' /\ m' = set_io (io m') m /\ inv_but None (io m') /\
    channels (io m') = delete (accept_channel_ a) (channels (io m)) /\ owner_tid (poller (io m')) = tid_ m /\
    interest (kernel (io m')) = delete (accept_fd_ a) (interest (kernel (io m))).
Proof.
  intros Hi (Hne & (c & Hc & Hfd & Hrd & Hidx & Hl) & _) Ho Hst Hid. unfold end_acceptor, Acceptor_dtor. simpl.
  destruct (Channel_change_spec this_loop (tid_ m) DisableAll (accept_channel_ a) c (io m) Hi) as (i1 & Hr1 & Hi1 & Hc1 & Hk1 & _ & Ho1).
  { split_and!; try done. by rewrite Hidx. }
  rewrite Hr1. cbn [mbind result_bind]. set (c1 := SetIndex _ _) in Hc1.
  destruct (Channel_Remove_spec this_loop (tid_ m) (accept_channel_ a) c1 i1 Hi1) as (i2 & Hr2 & Hi2 & Hc2 & Hk2 & _ & Ho2); try done.
  { split_and!; try done; [by rewrite Hc1, lookup_insert_eq|congruence]. }
  rewrite Hr2. cbn [mbind result_bind]. set (c2 := SetIndex kNew _) in Hc2.
  assert (interest (kernel i2) = delete (accept_fd_ a) (interest (kernel (io m)))) as K2.
  { rewrite Hk2, Hk1. simpl. by rewrite Hfd, delete_insert_eq. }
  rewrite Hc1, insert_insert_eq in Hc2.
  pose proof (close_interest (idlefd_ a) (kernel i2)) as I3. rewrite K2 in I3. rewrite lookup_delete_None in I3.
  specialize (I3 (or_intror Hid)). set (k3 := (close (idlefd_ a) (kernel i2)).2) in *.
  pose proof (close_interest (accept_fd_ a) k3) as I4. rewrite I3 in I4. rewrite lookup_delete_eq in I4. specialize (I4 eq_refl).
  unfold destroy_channel, get_channel, channel_at. simpl. rewrite Hc2, lookup_insert_eq. cbn [deref mbind result_bind].
  unfold Channel_dtor. unfold c2, c1. simpl. rewrite (Hst _ c Hc). cbn [negb assert mbind result_bind].
  eexists. split; [done|]. split; [done|]. simpl. split; [|split; [|split]].
  - pose proof (inv_delete_channel (accept_channel_ a) c2 i2 (Close (accept_fd_ a) k3) Hi2) as Hx. rewrite Hc2 in Hx.
    apply Hx; [by rewrite lookup_insert_eq|done|]. unfold Close. by rewrite I4, K2.
  - by rewrite delete_insert_eq.
  - by rewrite Ho2, Ho1.
  - exact I4.
Qed.

(** The server's map, as the destructor finds it. *)
Lemma in_order_objects S w t :
  resting_at this_loop acc S w ->
  t ∈ (in_key_order (connections_ (srv w))).*2 <-> exists u, objs w !! t = Some u /\ IsDisconnected (conn u) = false.
Proof.
  intros [Hs _]. rewrite in_key_order_perm. destruct (sv_map _ _ _ _ _ _ Hs) as [Hl _ _]. split.
  - intros ([n t'] & -> & Hin%elem_of_map_to_list)%list_elem_of_fmap. apply Hl in Hin as (u & ? & _ & ?). by exists u.
  - intros (u & Hu & Hcl). apply list_elem_of_fmap. exists (name_ (conn u), t). split; [done|].
    apply elem_of_map_to_list, Hl. by exists u.
Qed.

Lemma in_order_nodup S w : resting_at this_loop acc S w -> NoDup (in_key_order (connections_ (srv w))).*2.
Proof.
  intros [Hs _]. rewrite in_key_order_perm. destruct (sv_map _ _ _ _ _ _ Hs) as [Hl _ _].
  apply NoDup_fmap_2_strong; [|apply NoDup_map_to_list].
  intros [n1 t1] [n2 t2] Hx%elem_of_map_to_list Hy%elem_of_map_to_list. simpl. intros <-.
  apply Hl in Hx as (u1 & Hu1 & <- & _). apply Hl in Hy as (u2 & Hu2 & <- & _). congruence.
Qed.

Lemma begins_to_end S w :
  resting_at this_loop acc S w -> bounded_objs D w -> (forall t u, objs w !! t = Some u -> status_ (conn u) <> kDisconnecting) ->
  interest (kernel (io w)) !! idlefd_ (the_acceptor (user w)) = None ->
  ending (the_acceptor (user w))
    (fun t => (exists u, objs w !! t = Some u /\ IsDisconnected (conn u) = true) \/ outlives t)
    (in_key_order (connections_ (srv w))) S (loop_of w).
Proof.
  intros Hw Hbd Hnd Hid. pose proof Hw as [Hs Hq]. pose proof Hs as [Hi HB Hacc _ Ho Hst _ [_ _ Hlo] Hli]. split; try done.
  - intros p c Hc. by apply (Hst p).
  - intros t. rewrite (in_order_objects S w t Hw). intros (u & Hu & Hcl). exists u. split; [exact Hu|].
    split; [|split; [by apply Hbd|by apply (Hlo t)]].
    destruct (li_objects _ _ _ _ _ _ Hi t) as [b Hb]; [by exists u|].
    destruct (resting_conn this_loop own S true (loop_of w) t b ltac:(done) Hb) as (u' & c & Hu' & _ & _ & Hl & _).
    change (objs w !! t = Some u') in Hu'. rewrite Hu in Hu'. injection Hu' as <-.
    assert (conn_status (view t u (loop_of w)) <> kDisconnected) as Hop by exact (proj1 (bool_decide_eq_false _) Hcl).
    destruct (Hl Hop) as [Hlive _]. pose proof (si_status _ _ _ _ _ _ Hlive) as Hnc. specialize (Hnd t u Hu).
    unfold conn_status, the_conn in Hop, Hnc. simpl in Hop, Hnc. by destruct (status_ (conn u)).
  - intros t u Hu. rewrite (in_order_objects S w t Hw). change (objs w !! t = Some u) in Hu.
    destruct (IsDisconnected (conn u)) eqn:E; [|left; by exists u]. right. split; [done|]. left. by exists u.
Qed.

(** The destructor returns, and what it leaves. *)
Lemma TcpServer_dtor_ends thread_Join thread_dtor S w :
  resting_at this_loop acc S w -> bounded_objs D w -> (forall t u, objs w !! t = Some u -> status_ (conn u) <> kDisconnecting) ->
  interest (kernel (io w)) !! idlefd_ (the_acceptor (user w)) = None ->
  exists m, TcpServer_dtor junk this_loop react thread_Join thread_dtor (tid_ w) kept w = Ok m /\ ended kept w m.
Proof.
  intros Hw Hbd Hnd Hid. pose proof Hw as [Hs _]. set (a := the_acceptor (user w)).
  destruct (lets_all_go a _ _ S (loop_of w) (begins_to_end S w Hw Hbd Hnd Hid)) as (m1 & S1 & Hr1 & Ht1 & He1).
  { by eapply in_order_nodup. }
  { intros t Ht. by right. }
  pose proof He1 as [Hi HB Hacc Hq Ho Hst Hli Hidle _ Hleft].
  destruct (end_acceptor_spec a m1 (li_epoll _ _ _ _ _ _ Hi) Hli Ho Hst Hidle) as (m & Hr2 & Hm & Hi2 & Hch & Ho2 & Hint).
  exists m. split.
  { unfold TcpServer_dtor. rewrite AssertInLoopThread_refl. cbn [mbind result_bind].
    change (tid_ (loop_of w)) with (tid_ w) in Hr1, Ht1. change (the_server (user w)) with (srv w). rewrite Hr1.
    cbn [mbind result_bind].
    destruct (proj2 (EventLoopThreadPool_dtor_spec thread_Join thread_Join thread_dtor (thread_pool_ (srv w)))) as (pool & -> & _).
    { by rewrite (sa_threads _ _ (sv_server _ _ _ _ _ _ Hs)). }
    cbn [mbind result_bind]. by rewrite <- Ht1. }
  assert (user m = user m1) as Hus by by rewrite Hm.
  assert (forall t u, user m !! t = Some u -> IsDisconnected (conn u) = true /\
    ((exists u0, objs w !! t = Some u0 /\ IsDisconnected (conn u0) = true) \/ outlives t)) as Hall.
  { intros t u. rewrite Hus. intros Hu. destruct (Hleft t u Hu) as [Hin%elem_of_nil|?]; [done|done]. }
  split.
  - intros t u Hu. destruct (Hall t u Hu) as [Hcl _]. split; [done|]. rewrite Hus in Hu.
    destruct (li_objects _ _ _ _ _ _ Hi t) as [b Hb]; [by exists u|].
    destruct (resting_conn this_loop own S1 true m1 t b ltac:(done) Hb) as (u' & c & Hu' & Hc & _ & _ & Hg).
    rewrite Hu in Hu'. injection Hu' as <-. destruct (li_conns _ _ _ _ _ _ Hi t b Hb) as (u' & _ & Hu' & Hcu & _).
    rewrite Hu in Hu'. injection Hu' as <-. exists c. rewrite Hch, Hcu, lookup_delete_ne.
    + split; [done|]. apply Hg; [done|]. by apply bool_decide_eq_true in Hcl.
    + rewrite <- Hcu. intros Hp. by apply (apart_from_acceptor this_loop acc S1 [] m1 a t u Hi Hacc Hli Hu).
  - intros t [u Hu]. by apply (Hall t u).
  - split; [by rewrite Hch, lookup_delete_eq|]. by rewrite Hint, lookup_delete_eq.
  - rewrite Hus. intros Hemp. assert (forall t b, S1 !! t = Some b -> False) as HS.
    { intros t b Hb. destruct (li_conns _ _ _ _ _ _ Hi t b Hb) as (u & _ & Hu & _). by rewrite Hemp, lookup_empty in Hu. }
    assert (pending_functors_ m = []) as Hp.
    { rewrite Hm. simpl. destruct (pending_functors_ m1) as [|x q] eqn:Eq; [done|].
      destruct (li_queue _ _ _ _ _ _ Hi x) as [b Hb]; [rewrite Eq; by left|]. by destruct (HS x.1 b). }
    split; simpl; try done.
    + intros p c. rewrite Hch. intros [Hne Hc]%lookup_delete_Some. split; [|by apply (Hst p)].
      destruct (li_known _ _ _ _ _ _ Hi p c Hc) as [((k & Hk & Hown) & Hrest)|(t & b & Hb & _)]; [|by destruct (HS t b)].
      split; [|done]. exists k. split; [done|]. destruct Hown as [?|Hk2]; [done|]. subst k.
      destruct Hli as (_ & _ & Hun). by destruct Hne; rewrite (Hun p c Hc Hk).
    + rewrite Ho2, Hm. done.
Qed.
End End.

(** [C4] The destructor of a server that serves, at any point between two turns.  If no
    connection is just being shut down (the destructor of such a one aborts), it
    returns: every connection it lets go has disconnected and left the poller; what
    nothing else refers to is deleted; the acceptor's channel is gone, and its socket
    is not watched.  If nothing is left of the
    connections, the loop has its own channels only, an empty queue and a consistent
    poller: a server can be constructed in it again. *)
Theorem server_ends {G V K} `{EpollLaws K, EventfdKernel K, SocketKernel K, !SocketLaws K, !SocketFrame K, !LoopKernelLaws K,
    NetKernel K, !NetLaws K, !ServerKernelLaws K, !ListenLaws K}
    junk this_loop acc react write_complete v0 timer new_conn D sched thread_Join thread_dtor kept
    (w w1 : lworld (ptr * functor (task G)) (loop_cb (ptr * conn_cb)) (suser V) K) :
  server_env acc react timer new_conn D -> launched this_loop acc w ->
  server_turns_ok junk this_loop acc react write_complete v0 timer new_conn D sched w ->
  server_turns junk this_loop acc react write_complete v0 timer new_conn sched w = Ok w1 ->
  bounded_objs D w1 -> (forall t u, objs w1 !! t = Some u -> status_ (conn u) <> kDisconnecting) ->
  interest (kernel (io w1)) !! idlefd_ (the_acceptor (user w1)) = None -> keeps_referred kept ->
  exists m, TcpServer_dtor junk this_loop react thread_Join thread_dtor (tid_ w1) kept w1 = Ok m /\
    ended kept w1 m.
Proof.
  intros Henv Hw%launched_rests Ht Hr Hbd Hnd Hid Hk.
  destruct (turns_serve junk this_loop acc react write_complete v0 timer new_conn D Henv ∅ sched w Hw Ht)
    as (w0 & S & Hr0 & Hw0). rewrite Hr in Hr0. injection Hr0 as <-.
  exact (TcpServer_dtor_ends junk this_loop acc react timer new_conn D Henv kept Hk thread_Join thread_dtor S w1 Hw0 Hbd Hnd Hid).
Qed.
