(* ===== verification/ServerLoopDemo.v ===== *)
(** * An echo server with connections that come and go, on a concrete kernel

    The kernel of TcpStreamDemo.v with a network: [accept] answers the descriptors of
    a script. *)

From S2P Require Import SocketOps Acceptor ThreadPool TcpServer TcpServerProps TcpSocket.
From S2P Require Import Prelude Bytes Slice Buffer BufferFacts BufferSpec BufferIO LoopThread Duration.
From S2P Require Import Timestamp Channel EPoller EPollerFacts EventFd SimKernel ServerStatus LoopChannels.
From S2P Require Import EventLoop EventLoopProps LoopTimers SocketKernel TcpConnection TcpConnFacts TcpSend.
From S2P Require Import TcpConnProps TcpConnLife TcpStream TcpEcho TcpDemo TcpStreamDemo TcpFrame ConnPhases.
From S2P Require Import LoopConns LoopServes LoopServesDemo ServerLoop EchoServer ServerLoopInv ServerLoopProps.
From S2P Require Import ServerLoopStart ServerLoopEnd.
#[local] Open Scope Z_scope.

Record net := mkNet { n_stay : stay; n_err : Z; n_fds : list Z }.

Definition with_stay (k : net) (s : stay) : net := mkNet s (n_err k) (n_fds k).

#[export] Instance net_epoll : EpollKernel net := {|
  interest := fun k => interest (n_stay k);
  epoll_ctl := fun op fd ev k => ((epoll_ctl op fd ev (n_stay k)).1, with_stay k (epoll_ctl op fd ev (n_stay k)).2);
  epoll_wait := fun n t k => ((epoll_wait n t (n_stay k)).1, with_stay k (epoll_wait n t (n_stay k)).2);
  pollable := fun k fd => pollable (n_stay k) fd
|}.

#[export] Instance net_epoll_laws : EpollLaws net.
Proof.
  split.
  - intros op fd ev k. exact (ctl_error op fd ev (n_stay k)).
  - intros fd ev k. exact (ctl_add fd ev (n_stay k)).
  - intros fd ev k. exact (ctl_mod fd ev (n_stay k)).
  - intros fd ev k. exact (ctl_del fd ev (n_stay k)).
  - intros op fd ev k. exact (ctl_set op fd ev (n_stay k)).
  - intros fd ev k. exact (ctl_unset fd ev (n_stay k)).
  - intros n t k. exact (wait_interest n t (n_stay k)).
  - intros n t k evs. exact (wait_events n t (n_stay k) evs).
Qed.

#[export] Instance net_eventfd : EventfdKernel net := {|
  efd_count := fun k => efd_count (n_stay k);
  efd_write := fun n k => ((efd_write n (n_stay k)).1, with_stay k (efd_write n (n_stay k)).2);
  efd_read := fun k => ((efd_read (n_stay k)).1, with_stay k (efd_read (n_stay k)).2)
|}.

#[export] Instance net_sockets : SocketKernel net := {|
  sock_write := fun fd d k => ((sock_write fd d (n_stay k)).1, with_stay k (sock_write fd d (n_stay k)).2);
  sock_readv := fun fd v k => ((sock_readv fd v (n_stay k)).1, with_stay k (sock_readv fd v (n_stay k)).2);
  sock_shutdown := fun fd k => ((sock_shutdown fd (n_stay k)).1, with_stay k (sock_shutdown fd (n_stay k)).2);
  sock_error := fun fd k => sock_error fd (n_stay k);
  tx := fun k => tx (n_stay k);
  wr_shut := fun k => wr_shut (n_stay k)
|}.

#[export] Instance net_socket_laws : SocketLaws net.
Proof.
  split.
  - intros fd d k. exact (write_fails fd d (n_stay k)).
  - intros fd d k. exact (write_sends fd d (n_stay k)).
  - intros fd d k. exact (write_interest fd d (n_stay k)).
  - intros fd d k. exact (write_shut fd d (n_stay k)).
  - intros fd v k. exact (readv_result fd v (n_stay k)).
  - intros fd v k. exact (readv_tx fd v (n_stay k)).
  - intros fd v k. exact (readv_interest fd v (n_stay k)).
  - intros fd v k. exact (readv_shut fd v (n_stay k)).
  - intros fd k. exact (shutdown_shuts fd (n_stay k)).
  - intros fd k. exact (shutdown_tx fd (n_stay k)).
  - intros fd k. exact (shutdown_interest fd (n_stay k)).
  - intros op fd ev k. exact (ctl_tx op fd ev (n_stay k)).
  - intros op fd ev k. exact (ctl_shut op fd ev (n_stay k)).
  - intros n k. exact (efd_tx n (n_stay k)).
  - intros n k. exact (efd_shut n (n_stay k)).
  - intros n k. exact (efd_interest n (n_stay k)).
Qed.

#[export] Instance net_frame : SocketFrame net.
Proof.
  split.
  - intros fd g d k. exact (write_frame fd g d (n_stay k)).
  - intros fd g k. exact (shutdown_frame fd g (n_stay k)).
Qed.

#[export] Instance net_loop : LoopKernelLaws net.
Proof. by split. Qed.

(** A new socket on [fd]. *)
Definition renew (fd : Z) (k : stay) : stay :=
  mkStay (mkSsim (s_base (st_k k)) (delete fd (s_tx (st_k k))) (s_shut (st_k k) ∖ {[fd]}) (s_take (st_k k)) (s_rx (st_k k))).

Definition net_accept (fd : Z) (k : net) : Z * sockaddr * net :=
  match n_fds k with
  | f :: l => if 0 <=? f then (f, demo_addr4, mkNet (renew f (n_stay k)) (n_err k) l) else (-1, demo_addr4, k)
  | [] => (-1, demo_addr4, k)
  end.

#[export] Instance net_net : NetKernel net := {|
  errno := n_err;
  set_errno := fun e k => mkNet (n_stay k) e (n_fds k);
  socket := fun _ _ k => (3, k);
  connect := fun _ _ _ k => (0, k);
  accept := net_accept;
  bind := fun _ _ _ k => (0, k);
  SocketOps.listen := fun _ _ k => (0, k);
  close := fun _ k => (0, k);
  fcntl := fun fd _ _ k => if fd <? 0 then (-1, mkNet (n_stay k) EBADF (n_fds k)) else (0, k);
  setsockopt := fun _ _ _ _ _ k => (-1, k);
  getsockopt_error := fun _ _ => (0, 0);
  getsockname := fun _ _ => (0, demo_addr4);
  getpeername := fun _ _ => (0, demo_addr4);
  open_null := fun k => (4, k);
  option_value := fun _ _ _ _ => 0
|}.

#[export] Instance net_laws : NetLaws net.
Proof. split; simpl; intros; [by rewrite (proj2 (Z.ltb_lt fd 0))|done]. Qed.

#[export] Instance net_server_laws : ServerKernelLaws net.
Proof.
  split; simpl; unfold net_accept, stay_sockets, stay_kernel; intros; try (by destruct (fd <? 0)); try done.
  - destruct (n_fds k) as [|f l]; [done|]. by destruct (0 <=? f).
  - destruct (n_fds k) as [|f l]; [done|]. destruct (0 <=? f); [|done]. simpl in *. split.
    + unfold ssim_tx. simpl. by rewrite lookup_delete_ne.
    + apply bool_decide_ext. set_solver.
  - destruct (n_fds k) as [|f l]; simpl in *; [lia|]. destruct (Z.leb_spec 0 f); simpl in *; [|lia].
    split_and!; [|apply bool_decide_eq_false; set_solver|done]. unfold ssim_tx. simpl. by rewrite lookup_delete_eq.
Qed.

#[export] Instance net_listen_laws : ListenLaws net.
Proof. by split. Qed.

(** ** Checking what the turns rely on *)

Section Check.
Context {G V K : Type} `{EpollKernel K, EventfdKernel K, SocketKernel K, NetKernel K}.
Abbreviation cb := (loop_cb (ptr * conn_cb)).
Abbreviation cworld := (lworld (functor (task G)) cb (cuser sockaddr (list bytes * V)) K).
Abbreviation mworld := (lworld (ptr * functor (task G)) cb (gmap ptr (cuser sockaddr (list bytes * V))) K).
Abbreviation sworld := (lworld (ptr * functor (task G)) cb (suser V) K).
Implicit Types (w : sworld).
Context (junk : nat -> byte) (this_loop acc : ptr) (react : ptr -> trigger (task G) -> cworld -> list user_op)
  (write_complete : bool) (v0 : V) (timer : mworld -> result mworld) (new_conn : sworld -> ptr * ptr) (D : Z).

Definition bounded_objs_b w : bool :=
  forallb (fun x => bounded_b D (view x.1 x.2 (loop_of w))) (map_to_list (objs w)).

Lemma in_map {X} (m : gmap ptr X) (f : ptr * X -> bool) k x : forallb f (map_to_list m) = true -> m !! k = Some x -> f (k, x) = true.
Proof. rewrite forallb_forall. intros Hf Hk. apply Hf. by apply list_elem_of_In, elem_of_map_to_list. Qed.

Lemma bounded_objs_check w : bounded_objs_b w = true -> bounded_objs D w.
Proof. intros Hb t u Hu. apply (in_map _ _ t u Hb) in Hu. by apply Z.ltb_lt. Qed.

Definition acceptable_b w : bool :=
  let '(fd, _, k) := accept (accept_fd_ (the_acceptor (user w))) (kernel (io w)) in
  (0 <=? fd) && bool_decide (interest (kernel (io w)) !! fd = None) && (next_conn_id_ (srv w) + 1 <? 2 ^ 31) &&
  forallb (fun x => match channels (io w) !! channel_ (conn x.2) with Some c => negb (fd_ c =? fd) | None => true end)
    (map_to_list (objs w)).

Lemma acceptable_check w : acceptable_b w = true -> acceptable w.
Proof.
  unfold acceptable_b, acceptable. destruct (accept _ _) as [[fd peer] k].
  intros [[[Ha%Z.leb_le Hb%bool_decide_eq_true]%andb_true_iff Hc%Z.ltb_lt]%andb_true_iff Hd]%andb_true_iff.
  split_and!; try done. intros t u c Hu Hch. apply (in_map _ _ t u Hd) in Hu. simpl in Hu. rewrite Hch in Hu.
  apply negb_true_iff in Hu. by apply Z.eqb_neq.
Qed.

Definition accepting_b (c : Channel cb) : bool :=
  match read_fn_ c with Some (OnChannel (t, OnRead)) => t =? acc | _ => false end.

Definition report_b p w : bool :=
  match channels (io w) !! p with
  | Some c => negb (hang_up c && to_read c) && (negb (accepting_b c && to_read c) || acceptable_b w)
  | None => true
  end.

Lemma report_check p w : report_b p w = true -> report_ok acc p w.
Proof.
  unfold report_b. intros Hb c Hc. rewrite Hc in Hb. apply andb_true_iff in Hb as [Hn%negb_true_iff Ha].
  split; [done|]. intros Hr Ht. apply acceptable_check. unfold accepting_b in Ha. rewrite Hr, Z.eqb_refl, Ht in Ha. exact Ha.
Qed.

(** What happens beside, but for what the kernel does. *)
Definition sact_b (a : sact G K) w : bool :=
  match a with
  | SAct (AQueue _ t (App _)) | SAct (AShutdown _ t) => bool_decide (is_Some (objs w !! t))
  | SAct (AQueue _ t Destroy) => false
  | SAct (AKernel f) => true
  | SRelease t => bool_decide (is_Some (objs w !! t)) &&
      forallb (fun x => negb (x.2 =? t)) (map_to_list (connections_ (srv w))) &&
      match mine t (pending_functors_ w) with [] => true | _ => false end
  | SStop _ => true
  end.
Definition kernel_fine (a : sact G K) : Prop :=
  match a with
  | SAct (AKernel f) => forall k, interest (f k) = interest k /\ tx (f k) = tx k /\ wr_shut (f k) = wr_shut k
  | _ => True
  end.

Lemma sact_check a w : kernel_fine a -> sact_b a w = true -> sact_ok a w.
Proof.
  destruct a as [[by_ t [|g]|by_ t|f]|t|by_]; simpl; try done; intros Hf.
  - apply bool_decide_eq_true.
  - apply bool_decide_eq_true.
  - intros [[Ho%bool_decide_eq_true Hm]%andb_true_iff Hp]%andb_true_iff. split_and!; [done| |by destruct (mine t _)].
    intros n Hn. rewrite forallb_forall in Hm. specialize (Hm (n, t)). simpl in Hm. rewrite Z.eqb_refl in Hm.
    discriminate Hm. by apply list_elem_of_In, elem_of_map_to_list.
Qed.

Abbreviation serve := (serve junk this_loop acc react write_complete v0 timer new_conn).
Abbreviation serve_functor := (serve_functor junk this_loop react).
Abbreviation server_turn := (server_turn junk this_loop acc react write_complete v0 timer new_conn).

Definition server_turn_b (x : list (sact G K) * timeval) w : bool :=
  throughout_b sact_b run_sact x.1 w &&
  match foldM run_sact x.1 w with
  | Err _ => true
  | Ok w1 =>
      (event_list_size (poller (io w1)) <? 2 ^ 62) &&
      match poll_active x.2 w1 with
      | Err _ => true
      | Ok w2 =>
          bool_decide (NoDup (active_channels_ w2)) &&
          throughout_b (fun p w => bounded_objs_b w && report_b p w) (handle_channel serve) (active_channels_ w2) w2 &&
          match foldM (handle_channel serve) (active_channels_ w2) w2 with
          | Err _ => true
          | Ok w3 =>
              throughout_b (fun _ => bounded_objs_b) serve_functor (pending_functors_ w3) (set_pending [] (set_calling true w3))
          end
      end
  end.

Fixpoint server_turns_b (sched : list (list (sact G K) * timeval)) w : bool :=
  match sched with
  | [] => true
  | x :: sched => server_turn_b x w && match server_turn x w with Ok w' => server_turns_b sched w' | Err _ => true end
  end.

Lemma sacts_check l w : Forall kernel_fine l -> throughout_b sact_b run_sact l w = true -> throughout sact_ok run_sact l w.
Proof.
  intros Hl Hb l1 a l2 w1 El Hr. apply sact_check.
  - rewrite El in Hl. by apply Forall_app in Hl as [_ [Ha _]%Forall_cons].
  - by apply (throughout_check sact_b (fun a w => sact_b a w = true) run_sact l w ltac:(done) Hb l1 a l2).
Qed.

Lemma server_turn_check x w :
  Forall kernel_fine x.1 -> server_turn_b x w = true ->
  server_turn_ok junk this_loop acc react write_complete v0 timer new_conn D x w.
Proof.
  intros Hx [Ha Hb]%andb_true_iff. split; [by apply sacts_check|].
  intros w1 Hr1. rewrite Hr1 in Hb. apply andb_true_iff in Hb as [Hs%Z.ltb_lt Hb].
  split; [done|]. intros w2 Hr2. rewrite Hr2 in Hb. apply andb_true_iff in Hb as [[Hn Ht]%andb_true_iff Hb].
  split; [by apply bool_decide_eq_true in Hn|]. split.
  - eapply throughout_check; [|exact Ht]. intros p w' [Hb1%bounded_objs_check Hb2%report_check]%andb_true_iff. by split.
  - intros w3 Hr3. rewrite Hr3 in Hb. eapply throughout_check; [|exact Hb]. intros f w'. apply bounded_objs_check.
Qed.

Lemma server_turns_check sched w :
  Forall (fun x => Forall kernel_fine x.1) sched -> server_turns_b sched w = true ->
  server_turns_ok junk this_loop acc react write_complete v0 timer new_conn D sched w.
Proof.
  intros Ha. revert w. induction Ha as [|x sched Hx _ IH]; intros w Hb; [done|].
  apply andb_true_iff in Hb as [Hx' Hb]. split; [by apply server_turn_check|]. intros w' Hr. rewrite Hr in Hb. by apply IH.
Qed.
End Check.

(** ** The echo server of loop 7, whose thread is 1; its acceptor is at 40 and the
    listening socket's channel at 60 *)

Abbreviation srv_world := (lworld (ptr * functor (task Z)) loop_cbs (suser unit) net).
Abbreviation srv_loop := (lworld (ptr * functor (task Z)) loop_cbs (gmap ptr (cuser sockaddr (list bytes * unit))) net).
Abbreviation bare_world := (lworld (ptr * functor (task Z)) loop_cbs unit net).

(** Objects and channels are built above the addresses in use. *)
Definition above {X} (d : ptr) (m : gmap ptr X) : ptr := map_fold (fun k _ n => Z.max (k + 1) n) (d + 1) m.

Lemma above_spec {X} d (m : gmap ptr X) : d < above d m /\ m !! above d m = None.
Proof.
  assert (d < above d m /\ forall k, is_Some (m !! k) -> k < above d m) as [Hd Hk].
  { unfold above. apply (map_fold_weak_ind (fun n m => d < n /\ forall k, is_Some (m !! k) -> k < n)).
    - split; [lia|]. intros k [? Hk]. by rewrite lookup_empty in Hk.
    - intros k x m' n Hk [Hd Hn]. split; [lia|]. intros k' [<-|[_ Hk']]%lookup_insert_is_Some; [lia|].
      specialize (Hn k' Hk'). lia. }
  split; [done|]. destruct (m !! above d m) eqn:E; [|done]. specialize (Hk (above d m)). rewrite E in Hk.
  specialize (Hk ltac:(by eexists)). lia.
Qed.

Definition new_above (w : srv_world) : ptr * ptr := (above 40 (objs w), above 60 (channels (io w))).

Definition bare : bare_world :=
  mkLWorld 1 kInitialized false [] 50 61 [] ∅
    (mkWorld (mkEPoller 1 16 {[8 := 50]}) {[50 := two_wakeup]}
       (mkNet (mkStay (mkSsim (mkSim {[8 := mkEvent (mask true false) 50]} [] 0) ∅ ∅ 2 [])) 0 [])) tt.

Lemma bare_alone : loop_alone bare.
Proof.
  split; [split| |done|done].
  - simpl. intros fd p [<- <-]%lookup_singleton_Some. exists two_wakeup, (mask true false). by split_and!.
  - simpl. intros fd [x [<- <-]%lookup_singleton_Some]. by eexists.
  - simpl. intros p c [<- <-]%lookup_singleton_Some. by right.
  - done.
  - simpl. intros p c [<- <-]%lookup_singleton_Some. split; [|done]. split; [|done]. exists OnWakeup. split; [done|]. by left.
Qed.

Definition default_w {X} (d : X) (r : result X) : X := match r with Ok x => x | Err _ => d end.
Definition nothing : srv_world :=
  mkLWorld 1 kInitialized false [] 50 61 [] ∅ (io bare)
    (mkSUser ∅ (TcpServer_new 7 1 "" "" 0) (mkAcceptor 0 0 0 false)).
Definition no_loop (_ : string) : ptr := 0.

Definition built : srv_world := default_w nothing (EchoServer_ctor 7 40 demo_addr4 "10.0.0.1:80" 0 60 bare).
Definition echo_w : srv_world := default_w nothing (EchoServer_Start 7 1 no_loop built).

Lemma echo_w_launched : launched 7 40 echo_w.
Proof.
  exists no_loop, demo_addr4, "10.0.0.1:80"%string, "EchoServer"%string, 0, false, 60, bare, built.
  split; [apply bare_alone|]. split; [done|]. split; [done|]. split; [done|]. split; [done|]. split; [simpl; lia|].
  split; vm_compute; reflexivity.
Qed.

Definition srv_react (t : ptr) := echo (G := task Z) (K := net) (Cb := loop_cbs) (A := sockaddr) (V := unit) 900.
Definition srv_timer (m : srv_loop) : result srv_loop := Ok m.

Lemma srv_env : server_env 40 srv_react srv_timer new_above 0.
Proof.
  split.
  - intros t. apply echo_server_ok.
  - done.
  - intros m. exists m. split; [done|]. apply aside_refl.
  - intros w. unfold new_above. destruct (above_spec 40 (objs w)) as [? ?], (above_spec 60 (channels (io w))) as [? ?].
    split_and!; [done|lia..|done].
Qed.

(** The next wait reports [evs]; [rx] is to be read and [fds] to be accepted. *)
Definition occur (evs : list epoll_event) (rx : bytes) (fds : list Z) : sact Z net :=
  SAct (AKernel (fun k => let s := st_k (n_stay k) in
    mkNet (mkStay (mkSsim (mkSim (sim_interest (s_base s)) evs (sim_count (s_base s))) (s_tx s) (s_shut s) (s_take s) rx))
      (n_err k) fds)).

(** A connection on descriptor 5 (object 41, channel 61) and one on 6 (42, 62); the
    first sends [hi] and hangs up; it is deleted and 5 is accepted again (43, 63); then
    thread 2 shuts the second down, and the third sends [yo]. *)
Definition srv_sched : list (list (sact Z net) * timeval) :=
  [([occur [mkEvent POLLIN 60] [] [5]], mkTimeval 9 0);
   ([occur [mkEvent POLLIN 60; mkEvent POLLIN 61] [x68; x69] [6]], mkTimeval 10 0);
   ([occur [mkEvent POLLHUP 61] [] []], mkTimeval 11 0);
   ([SRelease 41; occur [mkEvent POLLIN 60] [] [5]], mkTimeval 12 0);
   ([SAct (AShutdown 2 42); occur [mkEvent POLLIN 63; mkEvent POLLIN 50] [x79; x6f] []], mkTimeval 13 0)].

Abbreviation srv_turns := (server_turns no_junk 7 40 srv_react true tt srv_timer new_above).

Lemma srv_sched_ok : server_turns_ok no_junk 7 40 srv_react true tt srv_timer new_above 0 srv_sched echo_w.
Proof. apply server_turns_check; [repeat constructor|vm_compute; reflexivity]. Qed.

Lemma net_stays fd : peer_stays (K := net) fd.
Proof. intros k. exact (stay_stays fd (n_stay k)). Qed.

Definition after (sched : list (list (sact Z net) * timeval)) : srv_world :=
  default_w nothing (srv_turns sched echo_w).

Lemma after_ok sched w : srv_turns sched echo_w = Ok w -> w = after sched.
Proof. unfold after. by intros ->. Qed.

(** What can be computed of the end. *)
Definition at_end (w : srv_world) : bool :=
  bool_decide (connections_ (srv w) = {["EchoServer-10.0.0.1:80#2"%string := 42; "EchoServer-10.0.0.1:80#3"%string := 43]}) &&
  bool_decide (tx (kernel (io w)) 5 = [x79; x6f]) && wr_shut (kernel (io w)) 6 &&
  bool_decide (fd_ <$> channels (io w) !! 63 = Some 5) &&
  bool_decide ((fun u => channel_ (conn u)) <$> objs w !! 43 = Some 63).

Lemma after_end : at_end (after srv_sched) = true.
Proof. vm_compute. reflexivity. Qed.

(** Two connections are left, on the second number and the third; the latter has the
    descriptor of the first, and on its socket what came on it is on the wire. *)
Lemma server_serves_witness :
  exists w', srv_turns srv_sched echo_w = Ok w' /\
    connections_ (srv w') = {["EchoServer-10.0.0.1:80#2"%string := 42; "EchoServer-10.0.0.1:80#3"%string := 43]} /\
    tx (kernel (io w')) 5 = [x79; x6f] /\ wr_shut (kernel (io w')) 6 = true /\
    (exists u, objs w' !! 43 = Some u /\ IsDisconnected (conn u) = false /\
       tx (kernel (io w')) 5 ++ output (view 43 u (loop_of w')) = mjoin (offered (view 43 u (loop_of w')))).
Proof.
  destruct (server_serves no_junk 7 40 srv_react true tt srv_timer new_above 0 srv_sched echo_w
    srv_env echo_w_launched srv_sched_ok) as (w' & Hrun & [Hmap _ Hobj]). exists w'. split; [exact Hrun|].
  pose proof after_end as He. rewrite <- (after_ok srv_sched w' Hrun) in He. apply andb_true_iff in He as [He H43%bool_decide_eq_true].
  apply andb_true_iff in He as [He H63%bool_decide_eq_true]. apply andb_true_iff in He as [He H6].
  apply andb_true_iff in He as [Hc%bool_decide_eq_true H5%bool_decide_eq_true].
  split; [exact Hc|]. split; [exact H5|]. split; [exact H6|].
  destruct (proj1 (Hmap "EchoServer-10.0.0.1:80#3"%string 43)) as (u & Hu & _ & Hopen); [by rewrite Hc|].
  exists u. split; [exact Hu|]. split; [exact Hopen|]. destruct (Hobj 43 u Hu) as (c & kept & Hch & _ & Hd & Hk & _).
  rewrite Hu in H43. injection H43 as H43. rewrite H43 in Hch. rewrite Hch in H63. injection H63 as H63.
  rewrite H63 in Hd, Hk. rewrite (Hk (net_stays 5)) in Hd. exact Hd.
Defined.

(** After those turns a connection waits, on descriptor 9. *)
Definition srv_more : list (list (sact Z net) * timeval) := srv_sched ++ [([occur [] [] [9]], mkTimeval 14 0)].

Lemma srv_more_runs : srv_turns srv_more echo_w = Ok (after srv_more).
Proof.
  assert (is_ok (srv_turns srv_more echo_w) = true) as Hok by (vm_compute; reflexivity).
  unfold after. destruct (srv_turns srv_more echo_w) as [w1|e]; [reflexivity|discriminate Hok].
Qed.

Lemma server_accepts_witness :
  exists w', srv_turns srv_more echo_w = Ok (after srv_more) /\
    on_acceptable no_junk 7 srv_react true tt new_above (tid_ (after srv_more)) (after srv_more) = Ok w' /\
    joined 9 (after srv_more) w'.
Proof.
  destruct (server_accepts no_junk 7 40 srv_react true tt srv_timer new_above 0 srv_more echo_w
    (after srv_more) srv_env echo_w_launched) as (w' & Hr & Hj & _).
  - apply server_turns_check; [repeat constructor|vm_compute; reflexivity].
  - apply srv_more_runs.
  - apply acceptable_check. vm_compute. reflexivity.
  - exists w'. split; [apply srv_more_runs|]. split; [exact Hr|].
    assert ((accept (accept_fd_ (the_acceptor (user (after srv_more)))) (kernel (io (after srv_more)))).1.1 = 9) as <-
      by (vm_compute; reflexivity).
    exact Hj.
Defined.

(** Thread 2 stops the loop in the sixth turn; in the seventh another connection would
    be accepted. *)
Definition srv_stop : list (list (sact Z net) * timeval) :=
  srv_sched ++ [([SStop 2; occur [] [] []], mkTimeval 14 0); ([occur [mkEvent POLLIN 60] [] [9]], mkTimeval 15 0)].

Abbreviation srv_run := (Run (serve_functor no_junk 7 srv_react) (serve no_junk 7 40 srv_react true tt srv_timer new_above)).

Definition two_left (r : option (result srv_world)) : bool :=
  match r with
  | Some (Ok w) =>
      bool_decide (connections_ (srv w) = {["EchoServer-10.0.0.1:80#2"%string := 42; "EchoServer-10.0.0.1:80#3"%string := 43]})
  | _ => false
  end.

Lemma srv_stop_run : two_left (srv_run 8%nat (played srv_stop) 1 echo_w) = true.
Proof. vm_compute. reflexivity. Qed.

Lemma server_runs_witness :
  exists w', srv_run 8%nat (played srv_stop) 1 echo_w = Some (Ok (set_status kStopped w')) /\ served w' /\
    connections_ (srv w') = {["EchoServer-10.0.0.1:80#2"%string := 42; "EchoServer-10.0.0.1:80#3"%string := 43]}.
Proof.
  destruct (server_runs no_junk 7 40 srv_react true tt srv_timer new_above 0 srv_stop ([SStop 2; occur [] [] []], mkTimeval 14 0) 2 echo_w)
    as (n & w' & Hn & Hr & Hs & Hrun).
  - apply srv_env.
  - apply echo_w_launched.
  - vm_compute. discriminate.
  - apply server_turns_check; [repeat constructor|vm_compute; reflexivity].
  - unfold srv_stop. set_solver.
  - set_solver.
  - assert (srv_run 8%nat (played srv_stop) 1 echo_w = Some (Ok (set_status kStopped w'))) as He
      by (apply (Hrun 8%nat); vm_compute; lia).
    exists w'. split; [exact He|]. split; [exact Hs|]. pose proof srv_stop_run as Ht. rewrite He in Ht.
    by apply bool_decide_eq_true in Ht.
Defined.

(** The server is destroyed with two connections that are open: only what functors
    refer to would stay. *)
Definition referred (t : ptr) (m : srv_loop) : bool := negb (bool_decide (mine t (pending_functors_ m) = [])).
Definition srv_open : list (list (sact Z net) * timeval) := take 4 srv_sched.

Abbreviation srv_dtor := (TcpServer_dtor no_junk 7 srv_react (fun _ => Ok tt) (fun _ => Ok tt) 1 referred).

Definition ends_empty (w : srv_world) : bool :=
  bool_decide (size (connections_ (srv w)) = 2%nat) && bool_decide (tid_ w = 1) &&
  match srv_dtor w with Ok m => bool_decide (dom (user m) = ∅) | Err _ => false end.

Lemma srv_open_ends : ends_empty (after srv_open) = true.
Proof. vm_compute. reflexivity. Qed.

Lemma ends_empty_check w :
  ends_empty w = true ->
  size (connections_ (srv w)) = 2%nat /\ tid_ w = 1 /\ forall m, srv_dtor w = Ok m -> user m = ∅.
Proof.
  unfold ends_empty. intros [[Hs%bool_decide_eq_true Ht%bool_decide_eq_true]%andb_true_iff Hm]%andb_true_iff.
  split; [done|]. split; [done|]. intros m Hr. rewrite Hr in Hm. apply bool_decide_eq_true in Hm. by apply dom_empty_inv_L in Hm.
Qed.

Definition none_disconnecting (w : srv_world) : bool :=
  forallb (fun x => negb (bool_decide (status_ (conn x.2) = kDisconnecting))) (map_to_list (objs w)).

Lemma none_disconnecting_check w :
  none_disconnecting w = true -> forall t u, objs w !! t = Some u -> status_ (conn u) <> kDisconnecting.
Proof. intros Hn t u Hu Hst. apply (in_map _ _ t u Hn) in Hu. simpl in Hu. by rewrite Hst in Hu. Qed.

Lemma referred_keeps : keeps_referred referred.
Proof. intros t m. unfold referred. by destruct (bool_decide_reflect (mine t (pending_functors_ m) = [])). Qed.

Lemma server_ends_witness :
  exists m, srv_turns srv_open echo_w = Ok (after srv_open) /\ size (connections_ (srv (after srv_open))) = 2%nat /\
    srv_dtor (after srv_open) = Ok m /\ user m = ∅ /\ loop_alone (without m).
Proof.
  assert (srv_turns srv_open echo_w = Ok (after srv_open)) as Hrun.
  { assert (is_ok (srv_turns srv_open echo_w) = true) as Hok by (vm_compute; reflexivity).
    unfold after. destruct (srv_turns srv_open echo_w) as [w1|e]; [reflexivity|discriminate Hok]. }
  destruct (ends_empty_check _ srv_open_ends) as (Hsz & Ht & Hm).
  destruct (server_ends no_junk 7 40 srv_react true tt srv_timer new_above 0 srv_open (fun _ => Ok tt) (fun _ => Ok tt)
    referred echo_w (after srv_open) srv_env echo_w_launched) as (m & Hr & Hend).
  - apply server_turns_check; [repeat constructor|vm_compute; reflexivity].
  - exact Hrun.
  - apply bounded_objs_check. vm_compute. reflexivity.
  - apply none_disconnecting_check. vm_compute. reflexivity.
  - vm_compute. reflexivity.
  - apply referred_keeps.
  - rewrite Ht in Hr. exists m. split; [exact Hrun|]. split; [exact Hsz|]. split; [exact Hr|].
    split; [exact (Hm m Hr)|exact (ed_alone _ _ _ Hend (Hm m Hr))].
Defined.
